(* ===== verification/_CoqProject ===== *)
-Q . S2P
Prelude.v
ProgLogic.v
Errors.v
Types.v
ConnStateMachine.v
SimDevice.v
SimDeviceInv.v
SimDeviceProps.v
SimDeviceFaults.v
DeviceApi.v
Reconciler.v
ReconcilerProps.v
SimDeviceExamples.v
UdsCodec.v
UdsCodecProps.v
Json.v
DeviceCommand.v
UdsJson.v
UdsJsonProps.v
JsonRef.v
Rpc.v
UdsServer.v
UdsServerProps.v
UdsListener.v
UdsListenerProps.v
UdsBackend.v
UdsBackendProps.v
UdsLink.v
HwsimMain.v
UdsExamples.v
RedisKeys.v
RedisKeysProps.v
Redis.v
RedisRepository.v
RedisRepositoryProps.v
RedisOnce.v
RedisEvents.v
RedisRef.v
RedisExamples.v
Services.v
CallLogic.v
OrchRules.v
Process.v
Orchestrator.v
OrchResults.v
OrchSteps.v
OrchFrame.v
OrchMain.v
OrchCommands.v
OrchDelivery.v
OrchRulesProps.v
OrchTypes.v
OrchProgress.v
OrchRecovery.v
OrchExamples.v
SyncdRules.v
Syncd.v
SyncdPublish.v
SyncdPorts.v
SyncdRecovery.v
SyncdReconcile.v
SyncdPoll.v
SyncdPayloads.v
SyncdLogic.v
SyncdSteps.v
SyncdMain.v
SyncdPollSteps.v
SyncdApply.v
SyncdDelivery.v
SyncdResults.v
SyncdVersions.v
SyncdPollProps.v
SyncdRecoveryProps.v
SyncdProgress.v
SyncdAround.v
SyncdOthers.v
SyncdFinish.v
SyncdConverge.v
SyncdExamples.v
ProcessExamples.v
