(* ===== verification/Prelude.v ===== *)
(** * A verification library for mini-ocs-nos: the C++ control plane of a simulated
    optical circuit switch.

    ** The program

    [src/cpp] is a small network operating system.  A management plane (Python, not
    modelled) writes the desired connections to Redis; [ocs-orch] turns each
    configuration event into a device command and follows the command's result;
    [ocs-syncd] carries commands to the switch and publishes what it finds; [ocs-hwsim]
    simulates the switch behind a Unix socket.  The processes share only Redis (six
    logical databases of hashes and streams) and the socket.

    ** Files and the code they model

    - Prelude.v: results and exceptions, the state and exception monad [prog], integers
      of fixed width, [std::stoull], [std::to_string], [std::map::at], lists.
      ProgLogic.v: the logic [keeps] for invariants of [prog] programs.
    - Errors.v (errors.cpp), Types.v (connection.hpp, device_types.hpp,
      device_command.hpp), ConnStateMachine.v (connection_state_machine.cpp).
    - SimDevice.v (simulated_ocs_device.cpp): the switch, its replay cache and its faults;
      SimDeviceInv.v, SimDeviceProps.v, SimDeviceFaults.v have its theorems,
      SimDeviceExamples.v runs them.  DeviceApi.v (device_api.hpp,
      in_process_sim_backend.cpp): the device interface as a class.
    - Reconciler.v, ReconcilerProps.v (reconciler.cpp): desired against applied state.
    - UdsCodec.v, UdsCodecProps.v (uds_codec.cpp, uds_protocol.hpp): frames as bytes.
      Json.v: the interface of nlohmann::json; JsonRef.v: an instance of it.
      DeviceCommand.v (device_command.cpp), UdsJson.v, UdsJsonProps.v (uds_json.cpp): the
      message bodies.
    - Rpc.v: the ten device calls as data.  UdsServer.v, UdsServerProps.v
      (uds_server.cpp, one client's requests); UdsListener.v, UdsListenerProps.v (the same
      file, the listening socket, the clients and the end of the server); UdsBackend.v,
      UdsBackendProps.v (uds_device_backend.cpp); UdsLink.v composes them; HwsimMain.v
      (ocs-hwsim/main.cpp, hwsimctl.cpp); UdsExamples.v runs them.
    - RedisKeys.v, RedisKeysProps.v (redis_keys.hpp).  Redis.v: the interface of the
      server, RedisRef.v: two instances of it.  RedisRepository.v (redis_repository.cpp):
      events, hashes, counters, versioned publications, scans and consumer groups, with
      the WATCH loops; RedisRepositoryProps.v, RedisOnce.v, RedisEvents.v
      have the theorems, RedisExamples.v runs them.
    - Services.v: what the two services share, their databases and their calls.
      CallLogic.v: rules for invariants of one database under these calls, runs that write
      nothing, stream entries accounted for by publication markers, and markers backed by
      their entry.
    - OrchRules.v, Orchestrator.v, OrchResults.v (orchestrator_service.cpp): the free
      functions; the constructor, the heartbeat and configuration events; results,
      timeouts, alarms and retries.  OrchSteps.v, OrchCommands.v, OrchDelivery.v,
      OrchTypes.v, OrchRulesProps.v, OrchProgress.v and OrchRecovery.v have
      the theorems, OrchFrame.v the keys the orchestrator writes and the one walk through its
      operations that the invariants of a database share, OrchExamples.v runs them.
    - Process.v: the environment, the main loop and the exit status of a process.
      OrchMain.v (ocs-orch/main.cpp), SyncdMain.v (ocs-syncd/main.cpp, with its heartbeat
      thread); ProcessExamples.v runs the two processes and a switch together.
    - SyncdRules.v, Syncd.v, SyncdPublish.v (syncd_service.cpp): the free functions; the
      service, fault commands and the apply; everything that follows the apply, and
      processOne.  SyncdPorts.v, SyncdRecovery.v, SyncdReconcile.v, SyncdPoll.v (the same
      file): port states, faults and alarms; the recovery of a new generation;
      reconciliation and its alarm; initialize, pollDevice and the heartbeat.
      SyncdLogic.v, SyncdSteps.v and SyncdPollSteps.v have the rules for its
      programs, SyncdPayloads.v, SyncdApply.v, SyncdDelivery.v, SyncdResults.v,
      SyncdVersions.v, SyncdPollProps.v, SyncdRecoveryProps.v and
      SyncdConverge.v the theorems.  SyncdProgress.v states what an attempt needs from the
      switch and from the other clients, SyncdAround.v and SyncdOthers.v that the polls, the
      fault commands and the other commands leave it so, SyncdFinish.v that such an attempt
      succeeds; SyncdExamples.v runs syncd.

    ** How state and operations correspond

    An object is a record of its fields and a method a [prog] on it: a function from the
    state to a result (a value or an exception) and the state it leaves, also when it
    throws.  A mutex makes a method one step.  The repository is stateless; its methods
    are programs on one logical database.  A method with an optimistic transaction takes
    an environment that gives, for each attempt, the commands other clients run before
    WATCH, before the reads and before EXEC, and how EXEC ends (with a reply, not sent,
    or with the reply lost).  The orchestrator keeps nothing between calls, so its state
    is the six databases ([World]); an [Oracle] gives the environment of every call, the
    clock, and what the test hook [after_phase] does: an exception of the hook is a crash
    between two phases.  Syncd also keeps the device and the identity it last saw
    ([Syncd]); its oracle adds what happens to the device between two calls, the steady
    clock, the replies to SCAN and the order in which a hash map is iterated.

    A process is its service with what [main] reads: the environment variables, whether the
    repositories open, and [running], which the signal handler clears; its run is a number
    of iterations of the loop, and a process that is still running has no exit status.
    Threads are steps: the heartbeat thread of syncd and the other clients act between any
    two steps of the main thread ([others_step]), the accept thread and the clients of the
    simulator in any order ([listener_step]).

    ** What the theorems show

    - The switch: a batch applies completely or not at all, exactly when it is valid;
      versions per connection never decrease; an operation ID is applied once while it is
      among the 4096 most recent; every reachable state is well formed; faults block exactly
      what they should.
    - The reconciler: the drifts are exactly the differences, and applying the batch
      makes the next plan converged.
    - Codecs: encoding then decoding gives the data back; decoders accept exactly the
      documented frames and only values in range.
    - The socket path: client and server together behave as the switch; a request that
      changes the switch is never sent twice; a reply is matched to its request or the
      connection is closed.  Whatever connects, fails or ends while the simulator serves,
      its open descriptors are the listening socket and the live clients, and it leaves
      none; stopping it wakes every thread it joins, so it returns; ocs-hwsimctl changes the switch as the direct call does.
    - The repository: a marked publication happens at most once over any sequence of
      calls that fail or are repeated, counters count once, stored versions never go back,
      events and keys are unambiguous.
    - The orchestrator: an event that is interrupted any number of times is published by
      the next undisturbed attempt; it is acknowledged only when its command is an entry of
      the command stream, with the batch that was prepared for it, or nothing has to be sent; a command is appended at most once per marker;
      versions in APPL_DB never decrease; every stored entry is well formed; results
      follow the documented lifecycle; retries carry the batch that timed out and wait as
      the policy says.  Two theorems state defects: a snapshot newer than its event blocks
      the event, whose every attempt then writes nothing (OrchDelivery.v), and so does the removal of a removed connection
      ([start_transition_exact] in OrchRulesProps.v).
    - Syncd: a command with a durable result is never applied again; a crash between the
      apply and the durable result has one effect on the switch; a command is acknowledged
      only when it is processed and every result is an entry of the result stream (or it was
      processed before, or it is stale), each once; a failure is turned into a success
      exactly when the device shows the whole batch applied; version
      records never go back within a generation; the durable result and fault results
      survive restarts.  After any number of interrupted attempts, other commands that
      decode, polls, fault commands, restarts, calls of the orchestrator and actions of other
      clients and of other users of the switch, the first attempt that nothing interferes
      with finishes the command (other clients leave the keys and the results of the command
      alone, but count in the counters of the device as the orchestrator does).
      SyncdPayloads.v states a defect: a command whose decoding error quotes ill-formed UTF-8
      is never done: each attempt throws without having written anything.  Its polls only read the switch; they wait
      until the orchestrator has settled; each recovery and reconciliation command is
      published once; a recovery sends one command with what a reconciliation would find
      different, or none, and applying what a
      reconciliation published makes the switch what is desired; every port is polled
      once, unless there are 65535.
    - The processes: with any environment and for as long as they run, what ocs-orch and
      ocs-syncd do to the databases and to the device is a sequence of the service calls the
      theorems above are about, so those hold of the running processes; settings are
      accepted exactly within their bounds.  The heartbeat thread of ocs-syncd starts once
      its endpoint is accepted, also when a later setting is refused.

    ** Bounds and fuel

    Loops over data are structural.  The WATCH loop has the code's [kMaxWatchRetries] = 8
    attempts and the key scan its 4096 pages, both ending in the code's exception.  The
    two loops that may not end, [makePorts] and [poll_direction], take fuel:
    SimDeviceFaults.v and SyncdPollProps.v prove that they return with fuel [count + 1]
    for every count below 65535, and never for 65535.
    [retryAtNs] runs as many rounds as the attempt number allows.  Integers have the
    width of the code's types, with the wrap-around written out.

    ** Parameters

    nlohmann::json is the class [JsonLib] with the laws [JsonLaws]; the Redis server and
    redis++ are [Redis], [RedisGroups] and their laws; sockets are an argument of the
    client.  The laws state documented behaviour, operation by operation, and JsonRef.v
    and RedisRef.v show that they can hold.

    ** Not modelled

    What the processes print, and the destructors that run when they exit (version.cpp is a
    constant string); the handlers of signals, but for their effect on [running]; the
    scheduling of threads inside one call, which a mutex or the optimistic transactions
    make one step; a change between two reads of one optimistic round (EXEC then fails
    anyway) and a connection lost on such a read (the effect is that of a request not
    sent); opening and pinging the Redis connection, whose outcome is a parameter;
    and everything outside [src/cpp]: the Python gNMI server, gateway and tools, the web
    dashboard, generated protocol code. *)

From stdpp Require Export base gmap strings list list_monad pretty sorting fin_maps.
From Stdlib Require Import Lia.
From Stdlib Require Export Ascii.
From Stdlib Require Export ZArith.
From stdpp Require Import options.

Declare Scope ocs_scope.
Delimit Scope ocs_scope with ocs.
Open Scope ocs_scope.

(** ** Exceptions and results

    The C++ code reports failures in two ways: an [ocs::Error] value, which is
    ordinary data (see Errors.v), and a C++ exception.  [exn] lists the exception
    classes the code throws or distinguishes in a [catch]. *)
Inductive exn :=
  | InvalidArgument (msg : string)   (* std::invalid_argument *)
  | OutOfRange (msg : string)        (* std::out_of_range *)
  | LogicError (msg : string)        (* std::logic_error *)
  | RuntimeError (msg : string)      (* std::runtime_error *)
  | JsonError (msg : string)         (* nlohmann::json::exception *)
  | ReplyError (msg : string)        (* sw::redis::ReplyError *)
  | IoError (msg : string).          (* sw::redis::IoError, ClosedError, ... *)

(** [std::exception::what()] *)
Definition what (e : exn) : string :=
  match e with
  | InvalidArgument m | OutOfRange m | LogicError m | RuntimeError m | JsonError m
  | ReplyError m | IoError m => m
  end.

(** The outcome of a C++ call: a value or a thrown exception. *)
Inductive result (A : Type) :=
  | Ok (a : A)
  | Throw (e : exn).
Arguments Ok {A} a.
Arguments Throw {A} e.

#[export] Instance exn_eq_dec : EqDecision exn.
Proof. solve_decision. Defined.
#[export] Instance result_eq_dec {A} `{EqDecision A} : EqDecision (result A).
Proof. solve_decision. Defined.

#[export] Instance result_ret : MRet result := fun _ a => Ok a.
#[export] Instance result_bind : MBind result := fun _ _ f r =>
  match r with Ok a => f a | Throw e => Throw e end.
#[export] Instance result_fmap : FMap result := fun _ _ f r =>
  match r with Ok a => Ok (f a) | Throw e => Throw e end.

(** [Ok] or [Throw], as a test. *)
Definition is_ok {A} (r : result A) : bool :=
  match r with Ok _ => true | Throw _ => false end.

(** ** Stateful code: a state and exception monad.

    A thrown exception keeps the state the code had reached, as in C++. *)
Definition prog (S A : Type) : Type := S -> result A * S.

#[export] Instance prog_ret {S} : MRet (prog S) := fun _ a s => (Ok a, s).
#[export] Instance prog_bind {S} : MBind (prog S) := fun _ _ f m s =>
  match m s with
  | (Ok a, s') => f a s'
  | (Throw e, s') => (Throw e, s')
  end.

Definition throw {S A} (e : exn) : prog S A := fun s => (Throw e, s).
Definition lift {S A} (r : result A) : prog S A := fun s => (r, s).
Definition gets {S A} (f : S -> A) : prog S A := fun s => (Ok (f s), s).
Definition modify {S} (f : S -> S) : prog S unit := fun s => (Ok tt, f s).
(** [try { m } catch (const std::exception& e) { h(e) }] *)
Definition try_catch {S A} (m : prog S A) (h : exn -> prog S A) : prog S A := fun s =>
  match m s with
  | (Ok a, s') => (Ok a, s')
  | (Throw e, s') => h e s'
  end.

(** Running a sequence: the first part returned, or threw. *)
Lemma run_bind {S A B} (m : prog S A) (f : A -> prog S B) s a s' :
  m s = (Ok a, s') -> (m ≫= f) s = f a s'.
Proof. intros H. unfold mbind, prog_bind. by rewrite H. Qed.
Lemma bind_Ok_inv {S A B} (m : prog S A) (f : A -> prog S B) s b s' :
  (m ≫= f) s = (Ok b, s') -> exists a s1, m s = (Ok a, s1) /\ f a s1 = (Ok b, s').
Proof. unfold mbind, prog_bind. destruct (m s) as [[a|e] s1]; [eauto|done]. Qed.
Lemma run_ret_bind {S A B} (a : A) (f : A -> prog S B) s : (mret a ≫= f) s = f a s.
Proof. done. Qed.
Lemma run_bind_throw {S A B} (m : prog S A) (f : A -> prog S B) s e s' :
  m s = (Throw e, s') -> (m ≫= f) s = (Throw e, s').
Proof. intros H. unfold mbind, prog_bind. by rewrite H. Qed.

(** A [for] loop over a vector whose body can throw. *)
Fixpoint for_each {S A} (f : A -> prog S unit) (l : list A) : prog S unit :=
  match l with
  | [] => mret tt
  | a :: l' => f a ;; for_each f l'
  end.

(** A loop that collects a value per element and gives up at the first element without
    one, as an early [return] in the body does. *)
Fixpoint collect_all {S A B} (f : A -> prog S (option B)) (l : list A)
    : prog S (option (list B)) :=
  match l with
  | [] => mret (Some [])
  | a :: l' =>
      ob ← f a;
      match ob with
      | None => mret None
      | Some b => obs ← collect_all f l'; mret (cons b <$> obs)
      end
  end.

(** [std::map::at] *)
Definition map_at (m : gmap string string) (k : string) : result string :=
  match m !! k with Some v => Ok v | None => Throw (OutOfRange "map::at") end.

(** ** Lists *)
Lemma omap_cons {A B} (f : A -> option B) x l :
  omap f (x :: l) = match f x with Some y => y :: omap f l | None => omap f l end.
Proof. done. Qed.

Lemma omap_congr {A B} (f g : A -> option B) (l : list A) :
  (forall x, x ∈ l -> f x = g x) -> omap f l = omap g l.
Proof.
  induction l as [|x l IH]; intros Hfg; [done|]. rewrite !omap_cons.
  rewrite Hfg, IH by (try (intros; apply Hfg); set_solver). done.
Qed.

Lemma result_bind_Ok {A B} (r : result A) (f : A -> result B) b :
  (r ≫= f) = Ok b <-> exists a, r = Ok a /\ f a = Ok b.
Proof. destruct r; simpl; naive_solver. Qed.

Lemma result_fmap_Ok {A B} (r : result A) (f : A -> B) b :
  (f <$> r) = Ok b <-> exists a, r = Ok a /\ b = f a.
Proof. destruct r; simpl; naive_solver. Qed.

Lemma mapM_congr {A B} (f g : A -> result B) (l : list A) :
  (forall x, x ∈ l -> f x = g x) -> mapM f l = mapM g l.
Proof.
  induction l as [|x l IH]; intros Hfg; [done|]. simpl. rewrite (Hfg x) by by left.
  destruct (g x); simpl; [|done]. rewrite IH; [done|]. intros y Hy. apply Hfg. by right.
Qed.

Lemma Ok_inj {A} (a b : A) : Ok a = Ok b -> a = b.
Proof. by intros [= ->]. Qed.

Lemma mapM_Ok_Forall {A B} (f : A -> result B) (P : B -> Prop) l l' :
  (forall a b, f a = Ok b -> P b) -> mapM f l = Ok l' -> Forall P l'.
Proof.
  intros Hf. revert l'. induction l as [|a l IH]; intros l'; simpl; [by intros [= <-]|].
  rewrite result_bind_Ok. intros (b & Hb & (bs & Hbs & [= <-])%result_bind_Ok). eauto.
Qed.

(** ** Machine integers.

    An unsigned [w]-bit integer is a [Z]; every definition that computes one
    wraps it with [u16], [u32] or [u64]. *)
Definition wrap (w : Z) (z : Z) : Z := (z mod 2 ^ w)%Z.
Abbreviation u16 := (wrap 16).
Abbreviation u32 := (wrap 32).
Abbreviation u64 := (wrap 64).

Definition in_width (w : Z) (z : Z) : Prop := (0 <= z < 2 ^ w)%Z.
Abbreviation is_u16 := (in_width 16).
Abbreviation is_u32 := (in_width 32).
Abbreviation is_u64 := (in_width 64).

#[export] Instance in_width_dec w z : Decision (in_width w z).
Proof. unfold in_width. apply _. Defined.

Create HintDb ocs.
Create Rewrite HintDb ocs.

Lemma wrap_in_width w z : (0 <= w)%Z -> in_width w (wrap w z).
Proof. intros. unfold in_width, wrap. apply Z.mod_pos_bound. lia. Qed.

Lemma wrap_small w z : in_width w z -> wrap w z = z.
Proof. intros. by apply Z.mod_small. Qed.

#[export] Hint Resolve wrap_in_width : ocs.
#[export] Hint Rewrite wrap_small using (unfold in_width; lia) : ocs.

(** ** [std::vector]: [at] throws, [operator[]] and updates by index. *)
Definition vec_at {A} (l : list A) (i : Z) : result A :=
  if decide (0 <= i)%Z then
    match l !! Z.to_nat i with
    | Some a => Ok a
    | None => Throw (OutOfRange "vector::_M_range_check")
    end
  else Throw (OutOfRange "vector::_M_range_check").

(** [v.at(i) = a] *)
Definition vec_set {A} (l : list A) (i : Z) (a : A) : result (list A) :=
  vec_at l i ;; Ok (<[Z.to_nat i := a]> l).

Lemma vec_at_Ok {A} (l : list A) i a :
  (0 <= i)%Z -> l !! Z.to_nat i = Some a -> vec_at l i = Ok a.
Proof. intros ? Hl. unfold vec_at. by rewrite decide_True, Hl. Qed.

Lemma vec_at_inv {A} (l : list A) i a :
  vec_at l i = Ok a -> (0 <= i)%Z /\ l !! Z.to_nat i = Some a.
Proof. unfold vec_at. case_decide; [|done]. destruct (l !! _) eqn:?; naive_solver. Qed.

Lemma vec_set_Ok {A} (l : list A) i a :
  (0 <= i < Z.of_nat (length l))%Z -> vec_set l i a = Ok (<[Z.to_nat i := a]> l).
Proof.
  intros Hi. unfold vec_set.
  destruct (lookup_lt_is_Some_2 l (Z.to_nat i)) as [b Hb]; [lia|].
  by rewrite (vec_at_Ok l i b) by (done || lia).
Qed.
#[export] Hint Rewrite @vec_set_Ok using lia : ocs.

(** ** [std::map<std::string, T>]: a finite map, iterated in key order. *)
Definition key_le {A} (p q : string * A) : Prop := String.le p.1 q.1.
#[export] Instance key_le_dec {A} : RelDecision (@key_le A).
Proof. intros p q. unfold key_le. apply _. Defined.
#[export] Instance key_le_total {A} : Total (@key_le A).
Proof. intros p q. apply (total String.le). Qed.
#[export] Instance key_le_trans {A} : Transitive (@key_le A).
Proof. intros p q r ??. unfold key_le in *. by etrans. Qed.

Definition sorted_items {A} (m : gmap string A) : list (string * A) :=
  merge_sort key_le (map_to_list m).
Definition sorted_values {A} (m : gmap string A) : list A := (sorted_items m).*2.

Lemma sorted_items_perm {A} (m : gmap string A) : sorted_items m ≡ₚ map_to_list m.
Proof. apply merge_sort_Permutation. Qed.

Lemma elem_of_sorted_items {A} (m : gmap string A) k v :
  (k, v) ∈ sorted_items m <-> m !! k = Some v.
Proof. rewrite sorted_items_perm. apply elem_of_map_to_list. Qed.

Lemma elem_of_sorted_values {A} (m : gmap string A) v :
  v ∈ sorted_values m <-> exists k, m !! k = Some v.
Proof.
  unfold sorted_values. rewrite list_elem_of_fmap. split.
  - intros [[k w] [-> Hw]]. exists k. by apply elem_of_sorted_items.
  - intros [k Hk]. exists (k, v). by rewrite elem_of_sorted_items.
Qed.

Lemma sorted_items_sorted {A} (m : gmap string A) :
  StronglySorted key_le (sorted_items m).
Proof. apply StronglySorted_merge_sort; apply _. Qed.

Lemma sorted_items_keys_NoDup {A} (m : gmap string A) : NoDup (sorted_items m).*1.
Proof. rewrite sorted_items_perm. apply NoDup_fst_map_to_list. Qed.

(** ** Text of numbers: [std::to_string], [std::stoull] and [std::stoll]. *)
Definition to_string (z : Z) : string := pretty z.

(** The value of a decimal digit character. *)
Definition digit_of (c : ascii) : option Z :=
  let n := Z.of_N (N_of_ascii c) in
  if decide (48 <= n <= 57)%Z then Some (n - 48)%Z else None.

(** The longest prefix of digits, [None] when there is none. *)
Fixpoint scan_digits (s : string) (acc : option Z) : option Z :=
  match s with
  | EmptyString => acc
  | String c s' =>
      match digit_of c with
      | Some d => scan_digits s' (Some (10 * default 0 acc + d)%Z)
      | None => acc
      end
  end.

Fixpoint skip_space (s : string) : string :=
  match s with
  | EmptyString => EmptyString
  | String c s' => if strings.Ascii.is_space c then skip_space s' else s
  end.

(** An optional sign: whether it is [-], and the text after it. *)
Definition split_sign (s : string) : bool * string :=
  match s with
  | String "-"%char s' => (true, s')
  | String "+"%char s' => (false, s')
  | _ => (false, s)
  end.

(** [std::stoull(s)], and [std::stoul(s)] where [unsigned long] has 64 bits: a negative
    number wraps, as [strtoull] does, and text after the digits is ignored. *)
Definition parse_unsigned (name s : string) : result Z :=
  let '(neg, body) := split_sign (skip_space s) in
  match scan_digits body None with
  | None => Throw (InvalidArgument name)
  | Some v =>
      if decide (v < 2 ^ 64)%Z then Ok (if neg : bool then u64 (- v) else v)
      else Throw (OutOfRange name)
  end.
Definition stoull : string -> result Z := parse_unsigned "stoull".
Definition stoul : string -> result Z := parse_unsigned "stoul".

(** [std::stoll(s)] *)
Definition stoll (s : string) : result Z :=
  let '(neg, body) := split_sign (skip_space s) in
  match scan_digits body None with
  | None => Throw (InvalidArgument "stoll")
  | Some v =>
      let z := if neg : bool then (- v)%Z else v in
      if decide (- 2 ^ 63 <= z < 2 ^ 63)%Z then Ok z else Throw (OutOfRange "stoll")
  end.

Definition digit_head (s : string) : Prop :=
  match s with String c _ => is_Some (digit_of c) | EmptyString => False end.

Lemma digit_of_pretty d : (d < 10)%N -> digit_of (pretty_N_char d) = Some (Z.of_N d).
Proof.
  intros Hd.
  assert (d = 0 \/ d = 1 \/ d = 2 \/ d = 3 \/ d = 4 \/ d = 5 \/ d = 6 \/ d = 7
    \/ d = 8 \/ d = 9)%N as Hc by lia.
  destruct_or! Hc; by subst.
Qed.

Lemma scan_pretty_go x s :
  (0 < x)%N -> scan_digits (pretty_N_go x s) None = scan_digits s (Some (Z.of_N x)).
Proof.
  revert s. induction (N.lt_wf_0 x) as [x _ IH]; intros s Hx.
  rewrite pretty_N_go_step by done.
  assert (x < 10 \/ 0 < x / 10)%N as [Hlt|Hq].
  { destruct (decide (x < 10)%N); [by left|right]. apply N.div_str_pos. lia. }
  - rewrite N.div_small, pretty_N_go_0 by done. simpl.
    rewrite N.mod_small, digit_of_pretty by done. done.
  - rewrite IH by (try apply N.div_lt; lia). simpl.
    rewrite digit_of_pretty by (by apply N.mod_lt). simpl. do 2 f_equal.
    pose proof (N.div_mod' x 10). lia.
Qed.

Lemma pretty_go_digit_head x s :
  (0 < x)%N \/ digit_head s -> digit_head (pretty_N_go x s).
Proof.
  revert s. induction (N.lt_wf_0 x) as [x _ IH]; intros s Hx.
  destruct (decide (0 < x)%N) as [Hp|Hp].
  - rewrite pretty_N_go_step by done. apply IH; [by apply N.div_lt|]. right. simpl.
    rewrite digit_of_pretty by (by apply N.mod_lt). done.
  - replace x with 0%N by lia. rewrite pretty_N_go_0. destruct Hx; [lia|done].
Qed.

Lemma digit_head_sign s : digit_head s -> split_sign (skip_space s) = (false, s).
Proof.
  destruct s as [|c s]; [done|]. simpl.
  destruct c as [[] [] [] [] [] [] [] []]; simpl; intros [? [=]]; done.
Qed.

Lemma scan_pretty n : scan_digits (pretty n) None = Some (Z.of_N n) /\ digit_head (pretty n).
Proof.
  unfold pretty, pretty_N. case_decide as Hn.
  - subst. split; [done|]. by eexists.
  - split; [apply scan_pretty_go; lia|]. apply pretty_go_digit_head. lia.
Qed.

Lemma to_string_digits z :
  (0 <= z)%Z -> scan_digits (to_string z) None = Some z /\ digit_head (to_string z).
Proof.
  intros Hz. unfold to_string. rewrite <-(Z2N.id z) by done.
  generalize (Z.to_N z). intros n.
  assert (pretty (Z.of_N n) = pretty n) as -> by (by destruct n). apply scan_pretty.
Qed.

Lemma parse_unsigned_to_string name z : is_u64 z -> parse_unsigned name (to_string z) = Ok z.
Proof.
  intros [Hz1 Hz2]. destruct (to_string_digits z Hz1) as [Hs Hh].
  unfold parse_unsigned. rewrite digit_head_sign, Hs by done. by rewrite decide_True by lia.
Qed.
Lemma stoull_to_string z : is_u64 z -> stoull (to_string z) = Ok z.
Proof. apply parse_unsigned_to_string. Qed.
Lemma stoul_to_string z : is_u64 z -> stoul (to_string z) = Ok z.
Proof. apply parse_unsigned_to_string. Qed.
Lemma stoll_to_string z : (0 <= z < 2 ^ 63)%Z -> stoll (to_string z) = Ok z.
Proof.
  intros [Hz1 Hz2]. destruct (to_string_digits z Hz1) as [Hs Hh].
  unfold stoll. rewrite digit_head_sign, Hs by done. by rewrite decide_True by lia.
Qed.
#[export] Hint Rewrite stoull_to_string stoul_to_string using done : ocs.

(** What they return has the width of the type. *)
Lemma scan_digits_pos s acc z :
  (forall v, acc = Some v -> (0 <= v)%Z) -> scan_digits s acc = Some z -> (0 <= z)%Z.
Proof.
  revert acc. induction s as [|c s IH]; intros acc Hacc; simpl; [by intros ->; auto|].
  destruct (digit_of c) as [d|] eqn:Hd; [|by intros ->; auto]. apply IH. intros v [= <-].
  unfold digit_of in Hd. case_decide; [|done]. injection Hd as <-.
  destruct acc as [v|]; simpl; [specialize (Hacc v eq_refl)|]; lia.
Qed.

Lemma stoull_range s z : stoull s = Ok z -> is_u64 z.
Proof.
  unfold stoull, parse_unsigned. destruct (split_sign _) as [neg body].
  destruct (scan_digits body None) as [v|] eqn:Hv; [|done].
  apply scan_digits_pos in Hv; [|done]. case_decide; [|done]. intros [= <-].
  destruct neg; [by apply wrap_in_width|]. split; lia.
Qed.

Lemma stoll_range s z : stoll s = Ok z -> (- 2 ^ 63 <= z < 2 ^ 63)%Z.
Proof.
  unfold stoll. destruct (split_sign _) as [neg body].
  destruct (scan_digits body None) as [v|]; [|done]. case_decide; [|done]. by intros [= <-].
Qed.

Lemma to_string_inj y z : to_string y = to_string z -> y = z.
Proof. apply (inj pretty). Qed.
