(* ===== verification/ProgLogic.v ===== *)
(** * A small program logic for the state and exception monad.

    [keeps I m P]: whatever [m] does, returning or throwing, the states it leaves satisfy
    [I], and a value it returns satisfies [P]. *)
From S2P Require Import Prelude.
From stdpp Require Import options.

Definition keeps {S A} (I : S -> Prop) (m : prog S A) (P : A -> Prop) : Prop :=
  forall s r s', I s -> m s = (r, s') -> I s' /\ forall a, r = Ok a -> P a.

Section Rules.
Context {S : Type} (I : S -> Prop).

Lemma keeps_weaken {A} (m : prog S A) (P Q : A -> Prop) :
  keeps I m P -> (forall a, P a -> Q a) -> keeps I m Q.
Proof. intros Hm HPQ s r s' Hs Hr. destruct (Hm s r s' Hs Hr). eauto. Qed.

Lemma keeps_ret {A} (a : A) (P : A -> Prop) : P a -> keeps I (mret a) P.
Proof. intros HP s r s' Hs [= <- <-]. split; [done|]. by intros ? [= <-]. Qed.

Lemma keeps_lift {A} (r : result A) (P : A -> Prop) :
  (forall a, r = Ok a -> P a) -> keeps I (lift r) P.
Proof. intros HP s r' s' Hs [= <- <-]. eauto. Qed.

Lemma keeps_throw {A} e (P : A -> Prop) : keeps I (throw e) P.
Proof. intros s r s' Hs [= <- <-]. done. Qed.

Lemma keeps_bind {A B} (m : prog S A) (f : A -> prog S B) P Q :
  keeps I m P -> (forall a, P a -> keeps I (f a) Q) -> keeps I (m ≫= f) Q.
Proof.
  intros Hm Hf s r s' Hs. unfold mbind, prog_bind. destruct (m s) as [[a|e] s1] eqn:Hr.
  - destruct (Hm s _ _ Hs Hr) as [Hs1 Ha]. intros Hr'. by apply (Hf a (Ha a eq_refl) s1).
  - destruct (Hm s _ _ Hs Hr) as [Hs1 _]. by intros [= <- <-].
Qed.

(** A sequence whose second part does not care what the first returned. *)
Lemma keeps_seq {A B} (m : prog S A) (f : A -> prog S B) Q :
  keeps I m (fun _ => True) -> (forall a, keeps I (f a) Q) -> keeps I (m ≫= f) Q.
Proof. intros Hm Hf. eapply keeps_bind; [exact Hm|]. auto. Qed.

Lemma keeps_for_each {A} (f : A -> prog S unit) l :
  (forall a, a ∈ l -> keeps I (f a) (fun _ => True)) ->
  keeps I (for_each f l) (fun _ => True).
Proof.
  induction l as [|a l IH]; intros Hf; simpl; [by apply keeps_ret|].
  eapply keeps_bind; [apply Hf; by left|]. intros ? _. apply IH. intros b Hb. apply Hf. by right.
Qed.

Lemma keeps_mapM {A B} (f : A -> prog S B) (P : B -> Prop) l :
  (forall a, a ∈ l -> keeps I (f a) P) -> keeps I (mapM f l) (Forall P).
Proof.
  induction l as [|a l IH]; intros Hf; simpl; [by apply keeps_ret|].
  eapply keeps_bind; [apply Hf; by left|]. intros b Hb.
  eapply keeps_bind; [apply IH; intros c Hc; apply Hf; by right|]. intros bs Hbs.
  apply keeps_ret. by constructor.
Qed.

Lemma keeps_mapM_rel {A B} (f : A -> prog S B) (P : A -> B -> Prop) l :
  (forall a, a ∈ l -> keeps I (f a) (P a)) -> keeps I (mapM f l) (Forall2 P l).
Proof.
  induction l as [|a l IH]; intros Hf; simpl; [by apply keeps_ret|].
  eapply keeps_bind; [apply Hf; by left|]. intros b Hb.
  eapply keeps_bind; [apply IH; intros c Hc; apply Hf; by right|]. intros bs Hbs.
  apply keeps_ret. by constructor.
Qed.

Lemma keeps_collect_all {A B} (f : A -> prog S (option B)) (P : B -> Prop) l :
  (forall a, a ∈ l -> keeps I (f a) (fun ob => forall b, ob = Some b -> P b)) ->
  keeps I (collect_all f l) (fun obs => forall bs, obs = Some bs -> Forall P bs).
Proof.
  induction l as [|a l IH]; intros Hf; simpl; [apply keeps_ret; by intros ? [= <-]|].
  eapply keeps_bind; [apply Hf; by left|]. intros [b|] Hb; [|by apply keeps_ret].
  eapply keeps_bind; [apply IH; intros c Hc; apply Hf; by right|]. intros [bs|] Hbs;
    apply keeps_ret; [|done]. intros ? [= <-]. constructor; auto.
Qed.

(** A state change that the result does not depend on. *)
Lemma keeps_state {A} (m : prog S A) (P : A -> Prop) :
  (forall s, I s -> I (m s).2) -> (forall s a, (m s).1 = Ok a -> P a) -> keeps I m P.
Proof.
  intros H1 H2 s r s' Hs Hr. specialize (H1 s Hs). rewrite Hr in H1. split; [done|].
  intros a ->. apply (H2 s). by rewrite Hr.
Qed.
End Rules.

(** Two invariants at once. *)
Lemma keeps_and {S A} (I1 I2 : S -> Prop) (m : prog S A) (P1 P2 : A -> Prop) :
  keeps I1 m P1 -> keeps I2 m P2 ->
  keeps (fun s => I1 s /\ I2 s) m (fun a => P1 a /\ P2 a).
Proof.
  intros H1 H2 s r s' [Hs1 Hs2] Hr.
  destruct (H1 s r s' Hs1 Hr), (H2 s r s' Hs2 Hr). split; [done|]. eauto.
Qed.

(** ** Before and after

    [triple P m Q X]: from a state with [P], [m] returns with [Q] or throws with [X]. *)
Definition triple {S A} (P : S -> Prop) (m : prog S A) (Q : A -> S -> Prop)
    (X : exn -> S -> Prop) : Prop :=
  forall s, P s -> match m s with (Ok a, s') => Q a s' | (Throw x, s') => X x s' end.

(** [m] returns, from a state with [P] to one with [Q]. *)
Definition runs {S A} (P : S -> Prop) (m : prog S A) (Q : A -> S -> Prop) : Prop :=
  forall s, P s -> exists a s', m s = (Ok a, s') /\ Q a s'.

Section Triples.
Context {S : Type}.
Implicit Types P : S -> Prop.

Lemma runs_triple {A} P (m : prog S A) Q : triple P m Q (fun _ _ => False) <-> runs P m Q.
Proof.
  split; intros Hm s Hs; specialize (Hm s Hs).
  - destruct (m s) as [[a|x] s']; [by exists a, s'|done].
  - by destruct Hm as (a & s' & -> & Hq).
Qed.

Lemma triple_bind {A B} P (m : prog S A) (f : A -> prog S B) Q T X :
  triple P m Q X -> (forall a, triple (Q a) (f a) T X) -> triple P (m ≫= f) T X.
Proof.
  intros Hm Hf s Hs. specialize (Hm s Hs). unfold mbind, prog_bind.
  destruct (m s) as [[a|x] s']; [by apply Hf|done].
Qed.

Lemma triple_ret {A} (a : A) P (Q : A -> S -> Prop) X :
  (forall s, P s -> Q a s) -> triple P (mret a) Q X.
Proof. intros HQ s Hs. by apply HQ. Qed.

Lemma triple_weaken {A} P P' (m : prog S A) Q Q' X X' :
  triple P m Q X -> (forall s, P' s -> P s) -> (forall a s, Q a s -> Q' a s) ->
  (forall x s, X x s -> X' x s) -> triple P' m Q' X'.
Proof.
  intros Hm HP HQ HX s Hs. specialize (Hm s (HP s Hs)). destruct (m s) as [[a|x] s']; auto.
Qed.

Lemma triple_lift {A} (r : result A) P (Q : A -> S -> Prop) X a :
  r = Ok a -> (forall s, P s -> Q a s) -> triple P (lift r) Q X.
Proof. intros -> HQ s Hs. by apply HQ. Qed.

Lemma triple_exists {A B} (P : B -> S -> Prop) (m : prog S A) Q X :
  (forall x, triple (P x) m Q X) -> triple (fun s => exists x, P x s) m Q X.
Proof. intros Hm s [x Hx]. by apply (Hm x). Qed.

(** The handler starts from the state the exception left. *)
Lemma triple_try {A} P (m : prog S A) h Q X X' :
  triple P m Q X' -> (forall x, triple (X' x) (h x) Q X) -> triple P (try_catch m h) Q X.
Proof.
  intros Hm Hh s Hs. specialize (Hm s Hs). unfold try_catch.
  destruct (m s) as [[a|x] s']; [done|by apply Hh].
Qed.

Lemma runs_bind {A B} P (m : prog S A) (f : A -> prog S B) Q T :
  runs P m Q -> (forall a, runs (Q a) (f a) T) -> runs P (m ≫= f) T.
Proof.
  rewrite <-!runs_triple. intros Hm Hf. eapply triple_bind; [done|]. intros a. by apply runs_triple.
Qed.

Lemma runs_ret {A} (a : A) P : runs P (mret a) (fun _ => P).
Proof. intros s Hs. by exists a, s. Qed.

Lemma runs_weaken {A} P P' (m : prog S A) Q Q' :
  runs P m Q -> (forall s, P' s -> P s) -> (forall a s, Q a s -> Q' a s) -> runs P' m Q'.
Proof. rewrite <-!runs_triple. intros. by eapply triple_weaken. Qed.

(** *** An invariant, and what the value satisfies *)
Definition ends {A} (I : S -> Prop) (m : prog S A) (P : A -> Prop) (X : exn -> S -> Prop) : Prop :=
  triple I m (fun a s => I s /\ P a) X.

Section Ends.
Variable I : S -> Prop.
Variable X : exn -> S -> Prop.

Lemma ends_ret {A} (a : A) (P : A -> Prop) : P a -> ends I (mret a) P X.
Proof. intros HP. by apply triple_ret. Qed.

Lemma ends_lift {A} (r : result A) (P : A -> Prop) a : r = Ok a -> P a -> ends I (lift r) P X.
Proof. intros Hr HP. by eapply triple_lift. Qed.

Lemma ends_weaken {A} (m : prog S A) (P Q : A -> Prop) :
  ends I m P X -> (forall a, P a -> Q a) -> ends I m Q X.
Proof.
  intros Hm HPQ. eapply triple_weaken; [exact Hm|done| |done]. intros a s [Hs Ha]. auto.
Qed.

Lemma triple_pure {A} (p : Prop) (m : prog S A) Q :
  (p -> triple I m Q X) -> triple (fun s => I s /\ p) m Q X.
Proof. intros Hm s [Hs Hp]. by apply Hm. Qed.

Lemma ends_then {A B} (m : prog S A) (f : A -> prog S B) (P : A -> Prop) Q :
  ends I m P X -> (forall a, P a -> triple I (f a) Q X) -> triple I (m ≫= f) Q X.
Proof. intros Hm Hf. eapply triple_bind; [exact Hm|]. intros a. apply triple_pure, Hf. Qed.

Lemma ends_seq {A B} (m : prog S A) (f : A -> prog S B) Q :
  ends I m (fun _ => True) X -> (forall a, triple I (f a) Q X) -> triple I (m ≫= f) Q X.
Proof. intros Hm Hf. eapply ends_then; [exact Hm|]. auto. Qed.

Lemma lift_then {A B} (r : result A) (f : A -> prog S B) Q a :
  r = Ok a -> triple I (f a) Q X -> triple I (lift r ≫= f) Q X.
Proof. intros -> Hf. exact Hf. Qed.

Lemma ends_for_each {A} (f : A -> prog S unit) l :
  (forall a, a ∈ l -> ends I (f a) (fun _ => True) X) -> ends I (for_each f l) (fun _ => True) X.
Proof.
  induction l as [|a l IH]; intros Hf; simpl; [by apply ends_ret|].
  eapply ends_then; [apply Hf; by left|]. intros _ _. apply IH. intros b Hb. apply Hf. by right.
Qed.

Lemma ends_mapM {A B} (f : A -> prog S B) (P : B -> Prop) l :
  (forall a, a ∈ l -> ends I (f a) P X) -> ends I (mapM f l) (Forall P) X.
Proof.
  induction l as [|a l IH]; intros Hf; simpl; [by apply ends_ret|].
  eapply ends_then; [apply Hf; by left|]. intros b Hb.
  eapply ends_then; [apply IH; intros c Hc; apply Hf; by right|]. intros bs Hbs.
  apply ends_ret. by constructor.
Qed.

Lemma ends_collect_all {A B} (f : A -> prog S (option B)) (P : A -> B -> Prop) l :
  (forall a, a ∈ l -> ends I (f a) (fun ob => forall b, ob = Some b -> P a b) X) ->
  ends I (collect_all f l) (fun obs => forall bs, obs = Some bs -> Forall2 P l bs) X.
Proof.
  induction l as [|a l IH]; intros Hf; simpl; [apply ends_ret; by intros ? [= <-]|].
  eapply ends_then; [apply Hf; by left|]. intros [b|] Hb; [|by apply ends_ret].
  eapply ends_then; [apply IH; intros c Hc; apply Hf; by right|]. intros [bs|] Hbs;
    apply ends_ret; [|done]. intros ? [= <-]. constructor; auto.
Qed.
End Ends.
End Triples.

(** Walk through a program.  [leaf] closes the calls it does not know. *)
Ltac keeps_walk leaf :=
  repeat first
    [ progress intros
    | progress cbv zeta
    | match goal with
      | |- keeps _ (mret _) _ => apply keeps_ret; try exact Logic.I
      | |- keeps _ (throw _) _ => apply keeps_throw
      | |- keeps _ (lift _) _ => apply keeps_lift; intros; try exact Logic.I
      | |- keeps _ (for_each _ _) _ => apply keeps_for_each
      | |- keeps _ (_ ≫= _) _ => apply keeps_seq
      | |- keeps _ (match ?x with _ => _ end) _ => destruct x
      end
    | leaf ].
