(* ===== verification/Errors.v ===== *)
(** * errors.hpp and errors.cpp: the error codes the components exchange, their
    wire names, and the [Error] value. *)
From S2P Require Import Prelude.
From stdpp Require Import options.

Module ErrorCode.
Inductive t :=
  | kOk
  | kInvalidArgument
  | kInvalidPort
  | kConnectionNotFound
  | kConnectionExists
  | kInputConflict
  | kOutputConflict
  | kPortDisabled
  | kPortDown
  | kDeviceNotReady
  | kApplyTimeout
  | kApplyFailed
  | kVersionStale
  | kProtocolMalformed
  | kProtocolVersion
  | kPayloadTooLarge
  | kUnsupported
  | kInternalError.

#[global] Instance eq_dec : EqDecision t.
Proof. solve_decision. Defined.

Definition toString (code : t) : string :=
  match code with
  | kOk => "OCS_OK"
  | kInvalidArgument => "OCS_INVALID_ARGUMENT"
  | kInvalidPort => "OCS_INVALID_PORT"
  | kConnectionNotFound => "OCS_CONNECTION_NOT_FOUND"
  | kConnectionExists => "OCS_CONNECTION_EXISTS"
  | kInputConflict => "OCS_INPUT_CONFLICT"
  | kOutputConflict => "OCS_OUTPUT_CONFLICT"
  | kPortDisabled => "OCS_PORT_DISABLED"
  | kPortDown => "OCS_PORT_DOWN"
  | kDeviceNotReady => "OCS_DEVICE_NOT_READY"
  | kApplyTimeout => "OCS_APPLY_TIMEOUT"
  | kApplyFailed => "OCS_APPLY_FAILED"
  | kVersionStale => "OCS_VERSION_STALE"
  | kProtocolMalformed => "OCS_PROTOCOL_MALFORMED"
  | kProtocolVersion => "OCS_PROTOCOL_VERSION"
  | kPayloadTooLarge => "OCS_PAYLOAD_TOO_LARGE"
  | kUnsupported => "OCS_UNSUPPORTED"
  | kInternalError => "OCS_INTERNAL_ERROR"
  end.

(** The initializer list [errorCodeFromString] walks. *)
Definition all_codes : list t :=
  [kOk; kInvalidArgument; kInvalidPort; kConnectionNotFound; kConnectionExists;
   kInputConflict; kOutputConflict; kPortDisabled; kPortDown; kDeviceNotReady;
   kApplyTimeout; kApplyFailed; kVersionStale; kProtocolMalformed; kProtocolVersion;
   kPayloadTooLarge; kUnsupported; kInternalError].

Definition errorCodeFromString (value : string) : t :=
  default kInternalError (list_find (fun code => toString code = value) all_codes ≫= fun p => Some p.2).
End ErrorCode.

(** [struct Error] *)
Record Error := mkError { code : ErrorCode.t; message : string }.

#[export] Instance Error_eq_dec : EqDecision Error.
Proof. solve_decision. Defined.

Definition error_ok (e : Error) : bool := bool_decide (code e = ErrorCode.kOk).
Definition success : Error := mkError ErrorCode.kOk "".

(** ** Lemmas *)

Lemma toString_inj c1 c2 : ErrorCode.toString c1 = ErrorCode.toString c2 -> c1 = c2.
Proof. by destruct c1, c2. Qed.

Lemma error_code_roundtrip c :
  ErrorCode.errorCodeFromString (ErrorCode.toString c) = c.
Proof. by destruct c. Qed.

Lemma errorCodeFromString_cases s :
  ErrorCode.toString (ErrorCode.errorCodeFromString s) = s
  \/ ErrorCode.errorCodeFromString s = ErrorCode.kInternalError.
Proof.
  unfold ErrorCode.errorCodeFromString.
  destruct (list_find _ _) as [[i c]|] eqn:Hf; simpl; [left|by right].
  by apply list_find_Some in Hf as (_ & ? & _).
Qed.

Lemma error_ok_true e : error_ok e = true <-> code e = ErrorCode.kOk.
Proof. apply bool_decide_eq_true. Qed.

#[export] Hint Rewrite error_code_roundtrip : ocs.
