(* ===== verification/Types.v ===== *)
(** * connection.hpp and device_types.hpp: the data the components exchange.

    [PortId] is a 16-bit unsigned integer and versions and generations are 64-bit
    ones, kept as [Z]; [wf] predicates state the widths where a theorem needs them.
    [double] is the inductive IEEE-754 datum of the Standard Library. *)
From S2P Require Import Prelude.
From S2P Require Import Errors.
From Stdlib Require Import SpecFloat.
From stdpp Require Import options.

(** [double] *)
Abbreviation double := spec_float.
(** -3.0 = - 3 * 2^51 * 2^-51 and 0.0 *)
Definition minus_three : double := S754_finite true 6755399441055744 (-51).
Definition zero_dbm : double := S754_zero false.

#[export] Instance spec_float_eq_dec : EqDecision spec_float.
Proof. solve_decision. Defined.

Abbreviation PortId := Z (only parsing).

Module ConnectionOperation.
Inductive t := kUpsert | kRemove.
#[global] Instance eq_dec : EqDecision t.
Proof. solve_decision. Defined.
End ConnectionOperation.

Record ConnectionCommand := mkCommand {
  operation : ConnectionOperation.t;
  cmd_id : string;
  cmd_input_port : PortId;
  cmd_output_port : PortId;
  desired_version : Z;
}.

Record AppliedConnection := mkApplied {
  app_id : string;
  app_input_port : PortId;
  app_output_port : PortId;
  applied_version : Z;
}.

Module DeviceOperStatus.
Inductive t := kInit | kReady | kDegraded | kFailed | kResetting.
#[global] Instance eq_dec : EqDecision t.
Proof. solve_decision. Defined.
End DeviceOperStatus.

Module PortDirection.
Inductive t := kInput | kOutput.
#[global] Instance eq_dec : EqDecision t.
Proof. solve_decision. Defined.
End PortDirection.

Module PortOperStatus.
Inductive t := kUp | kDown | kLowPower | kFault | kUnknown.
#[global] Instance eq_dec : EqDecision t.
Proof. solve_decision. Defined.
End PortOperStatus.

Record DeviceInfo := mkDeviceInfo {
  info_name : string;
  input_port_count : PortId;
  output_port_count : PortId;
  info_model : string;
  serial_number : string;
  firmware_version : string;
  generation : Z;
}.

Record DeviceHealth := mkHealth {
  health_status : DeviceOperStatus.t;
  last_error : Error;
}.

Record PortState := mkPort {
  port_id : PortId;
  direction : PortDirection.t;
  admin_enabled : bool;
  oper_status : PortOperStatus.t;
  optical_power_dbm : double;
}.

(** [timeout] is a count of milliseconds, a signed 64-bit integer. *)
Record ApplyOptions := mkOptions {
  opt_atomic : bool;
  opt_timeout : Z;
  operation_id : string;
}.
(** The default member initializers. *)
Definition default_options : ApplyOptions := mkOptions true 1000 "".

Record ApplyResult := mkApplyResult {
  apply_error : Error;
  apply_connections : list AppliedConnection;
}.
Definition apply_ok (r : ApplyResult) : bool := error_ok (apply_error r).

(** [struct DeviceCommandBatch] (device_command.hpp) *)
Record DeviceCommandBatch := mkBatch {
  batch_commands : list ConnectionCommand;
  batch_options : ApplyOptions;
}.

Module ResetMode.
Inductive t := kSoft | kHard.
#[global] Instance eq_dec : EqDecision t.
Proof. solve_decision. Defined.
End ResetMode.

Record ResetResult := mkResetResult { reset_error : Error; reset_generation : Z }.

Module FaultType.
Inductive t :=
  | kNextApplyError
  | kNextApplyTimeout
  | kInputPortDown
  | kOutputPortDown
  | kOutOfBandDrift
  | kAll.
#[global] Instance eq_dec : EqDecision t.
Proof. solve_decision. Defined.
End FaultType.

Record FaultSpec := mkFaultSpec { fault_type : FaultType.t; fault_port : PortId }.
Record FaultSelector := mkFaultSelector { selector_type : FaultType.t; selector_port : PortId }.
Record FaultResult := mkFaultResult { fault_error : Error }.

#[export] Instance ConnectionCommand_eq_dec : EqDecision ConnectionCommand.
Proof. solve_decision. Defined.
#[export] Instance AppliedConnection_eq_dec : EqDecision AppliedConnection.
Proof. solve_decision. Defined.
#[export] Instance DeviceInfo_eq_dec : EqDecision DeviceInfo.
Proof. solve_decision. Defined.
#[export] Instance PortState_eq_dec : EqDecision PortState.
Proof. solve_decision. Defined.
#[export] Instance ApplyOptions_eq_dec : EqDecision ApplyOptions.
Proof. solve_decision. Defined.
#[export] Instance ApplyResult_eq_dec : EqDecision ApplyResult.
Proof. solve_decision. Defined.

(** ** Width predicates *)
Definition command_wf (c : ConnectionCommand) : Prop :=
  is_u16 (cmd_input_port c) /\ is_u16 (cmd_output_port c) /\ is_u64 (desired_version c).
Definition applied_wf (c : AppliedConnection) : Prop :=
  is_u16 (app_input_port c) /\ is_u16 (app_output_port c) /\ is_u64 (applied_version c).
Definition info_wf (i : DeviceInfo) : Prop :=
  is_u16 (input_port_count i) /\ is_u16 (output_port_count i) /\ is_u64 (generation i).
