(* ===== verification/ConnStateMachine.v ===== *)
(** * connection_state_machine.{hpp,cpp}: the lifecycle of a connection. *)
From S2P Require Import Prelude.
From stdpp Require Import options.

Module ConnectionApplyStatus.
Inductive t :=
  | kAbsent
  | kPendingCreate
  | kApplying
  | kActive
  | kPendingUpdate
  | kPendingDelete
  | kRemoving
  | kFailed
  | kRetryWait
  | kDrifted
  | kReconciling.

#[global] Instance eq_dec : EqDecision t.
Proof. solve_decision. Defined.

Definition toString (status : t) : string :=
  match status with
  | kAbsent => "ABSENT"
  | kPendingCreate => "PENDING_CREATE"
  | kApplying => "APPLYING"
  | kActive => "ACTIVE"
  | kPendingUpdate => "PENDING_UPDATE"
  | kPendingDelete => "PENDING_DELETE"
  | kRemoving => "REMOVING"
  | kFailed => "FAILED"
  | kRetryWait => "RETRY_WAIT"
  | kDrifted => "DRIFTED"
  | kReconciling => "RECONCILING"
  end.
End ConnectionApplyStatus.
Import ConnectionApplyStatus.

Definition connectionApplyStatusFromString (value : string) : result ConnectionApplyStatus.t :=
  if decide (value = "ABSENT") then Ok kAbsent
  else if decide (value = "PENDING_CREATE") then Ok kPendingCreate
  else if decide (value = "APPLYING") then Ok kApplying
  else if decide (value = "ACTIVE") then Ok kActive
  else if decide (value = "PENDING_UPDATE") then Ok kPendingUpdate
  else if decide (value = "PENDING_DELETE") then Ok kPendingDelete
  else if decide (value = "REMOVING") then Ok kRemoving
  else if decide (value = "FAILED") then Ok kFailed
  else if decide (value = "RETRY_WAIT") then Ok kRetryWait
  else if decide (value = "DRIFTED") then Ok kDrifted
  else if decide (value = "RECONCILING") then Ok kReconciling
  else Throw (InvalidArgument ("unknown connection apply status: " +:+ value)).

(** [to == s] *)
Definition is_status (s to : ConnectionApplyStatus.t) : bool := bool_decide (to = s).

Definition canTransition (from to : ConnectionApplyStatus.t) : bool :=
  match from with
  | kAbsent => is_status kPendingCreate to
  | kPendingCreate | kPendingUpdate => is_status kApplying to || is_status kFailed to
  | kApplying => is_status kActive to || is_status kFailed to
  | kActive => is_status kPendingUpdate to || is_status kPendingDelete to || is_status kDrifted to
  | kPendingDelete => is_status kRemoving to || is_status kFailed to
  | kRemoving => is_status kAbsent to || is_status kFailed to
  | kFailed => is_status kRetryWait to
  | kRetryWait => is_status kApplying to || is_status kRemoving to
  | kDrifted => is_status kReconciling to
  | kReconciling => is_status kActive to || is_status kFailed to
  end.

Definition requireTransition (from to : ConnectionApplyStatus.t) : result unit :=
  if canTransition from to then Ok tt
  else Throw (LogicError ("invalid connection state transition: " +:+ toString from
                          +:+ " -> " +:+ toString to)).

(** ** The documented lifecycle (docs/data-model.md), as a step relation *)
Inductive lifecycle : ConnectionApplyStatus.t -> ConnectionApplyStatus.t -> Prop :=
  (* ABSENT -> PENDING_CREATE -> APPLYING -> ACTIVE *)
  | lc_create : lifecycle kAbsent kPendingCreate
  | lc_create_apply : lifecycle kPendingCreate kApplying
  | lc_applied : lifecycle kApplying kActive
  (* ACTIVE -> PENDING_UPDATE -> APPLYING *)
  | lc_update : lifecycle kActive kPendingUpdate
  | lc_update_apply : lifecycle kPendingUpdate kApplying
  (* ACTIVE -> PENDING_DELETE -> REMOVING -> ABSENT *)
  | lc_delete : lifecycle kActive kPendingDelete
  | lc_delete_apply : lifecycle kPendingDelete kRemoving
  | lc_removed : lifecycle kRemoving kAbsent
  (* PENDING_* / APPLYING / REMOVING -> FAILED -> RETRY_WAIT *)
  | lc_fail s : s ∈ [kPendingCreate; kPendingUpdate; kPendingDelete; kApplying; kRemoving] ->
      lifecycle s kFailed
  | lc_retry_wait : lifecycle kFailed kRetryWait
  (* RETRY_WAIT -> APPLYING or REMOVING *)
  | lc_retry_apply : lifecycle kRetryWait kApplying
  | lc_retry_remove : lifecycle kRetryWait kRemoving
  (* ACTIVE -> DRIFTED -> RECONCILING -> ACTIVE or FAILED *)
  | lc_drift : lifecycle kActive kDrifted
  | lc_reconcile : lifecycle kDrifted kReconciling
  | lc_reconciled : lifecycle kReconciling kActive
  | lc_reconcile_failed : lifecycle kReconciling kFailed.

#[export] Hint Constructors lifecycle : ocs.

(** ** Lemmas *)

Lemma status_roundtrip s : connectionApplyStatusFromString (toString s) = Ok s.
Proof. by destruct s. Qed.
#[export] Hint Rewrite status_roundtrip : ocs.

Lemma status_toString_inj s1 s2 : toString s1 = toString s2 -> s1 = s2.
Proof. by destruct s1, s2. Qed.

Lemma status_fromString_inv v s :
  connectionApplyStatusFromString v = Ok s -> v = toString s.
Proof. unfold connectionApplyStatusFromString. intros. by repeat case_decide; simplify_eq. Qed.

Lemma canTransition_lifecycle from to : canTransition from to = true <-> lifecycle from to.
Proof.
  split.
  - destruct from, to; try discriminate; intros _; eauto with ocs;
      apply lc_fail; set_solver.
  - inversion 1 as [| | | | | | | |s Hs| | | | | | |]; subst; try done.
    by repeat (apply elem_of_cons in Hs as [->|Hs]); [..|apply not_elem_of_nil in Hs].
Qed.

Lemma requireTransition_Ok from to u :
  requireTransition from to = Ok u <-> canTransition from to = true.
Proof. unfold requireTransition. destruct u, (canTransition from to); naive_solver. Qed.

(** ** The machine as a whole *)
Definition reaches : relation ConnectionApplyStatus.t :=
  rtc (fun from to => canTransition from to = true).

(** [s] goes to [ACTIVE]: by applying, by retrying or by reconciling. *)
Ltac step_to s := eapply (rtc_l _ _ s); [reflexivity|].

Lemma reaches_active s : reaches s kActive.
Proof.
  assert (reaches kApplying kActive) by (by apply rtc_once).
  assert (reaches kRetryWait kActive) by (by step_to kApplying).
  assert (reaches kPendingCreate kActive) by (by step_to kApplying).
  assert (reaches kFailed kActive) by (by step_to kRetryWait).
  assert (reaches kReconciling kActive) by (by apply rtc_once).
  destruct s; try done.
  - by step_to kPendingCreate.
  - by step_to kApplying.
  - by step_to kFailed.
  - by step_to kFailed.
  - by step_to kReconciling.
Qed.

Lemma reaches_absent s : reaches s kAbsent.
Proof.
  etrans; [apply reaches_active|].
  step_to kPendingDelete. step_to kRemoving. by apply rtc_once.
Qed.

(** The machine accepts exactly the transitions of the documented lifecycle; a
    connection becomes [ABSENT] only from [REMOVING] and [ACTIVE] only from [APPLYING] or
    [RECONCILING]; no status is a dead end, since every one can reach [ACTIVE] and
    [ABSENT]; and a stored status name is read back as that status and no other. *)
Theorem connection_lifecycle_exact :
  (forall from to, requireTransition from to = Ok tt <-> lifecycle from to) /\
  (forall from, canTransition from kAbsent = true -> from = kRemoving) /\
  (forall from, canTransition from kActive = true -> from = kApplying \/ from = kReconciling) /\
  (forall s, reaches s kActive /\ reaches s kAbsent) /\
  (forall text s, connectionApplyStatusFromString text = Ok s <-> text = toString s).
Proof.
  split_and!.
  - intros from to. by rewrite requireTransition_Ok, canTransition_lifecycle.
  - intros []; try discriminate; done.
  - intros []; try discriminate; intros _; first [by left|by right].
  - intros s. split; [apply reaches_active|apply reaches_absent].
  - intros text s. split; [apply status_fromString_inv|]. intros ->. apply status_roundtrip.
Qed.
