(* ===== verification/SimDevice.v ===== *)
(** * simulated_ocs_device.{hpp,cpp}: the simulated optical matrix.

    [SimDevice] is the object's state.  A method is a [prog SimDevice A]: the
    mutex makes a call atomic, so a method is one function on the state.  The
    vectors are indexed with [vector::at], whose exception is modelled; the
    [PortId] loop of [makePorts] counts modulo 2^16. *)
From S2P Require Import Prelude.
From S2P Require Import Errors.
From S2P Require Import Types.
From stdpp Require Import options.

Record SimDevice := mkDevice {
  info_ : DeviceInfo;
  health_ : DeviceHealth;
  connections_ : gmap string AppliedConnection;
  last_versions_ : gmap string Z;
  input_to_output_ : list (option PortId);
  output_to_input_ : list (option PortId);
  input_ports_ : list PortState;
  output_ports_ : list PortState;
  apply_results_ : gmap string ApplyResult;
  apply_result_order_ : list string;
  fail_next_apply_ : bool;
  timeout_next_apply_ : bool;
}.

(** Assignments to groups of members. *)
Definition set_matrix conns i2o o2i (d : SimDevice) : SimDevice :=
  mkDevice (info_ d) (health_ d) conns (last_versions_ d) i2o o2i
    (input_ports_ d) (output_ports_ d) (apply_results_ d) (apply_result_order_ d)
    (fail_next_apply_ d) (timeout_next_apply_ d).
Definition set_versions vs (d : SimDevice) : SimDevice :=
  mkDevice (info_ d) (health_ d) (connections_ d) vs (input_to_output_ d) (output_to_input_ d)
    (input_ports_ d) (output_ports_ d) (apply_results_ d) (apply_result_order_ d)
    (fail_next_apply_ d) (timeout_next_apply_ d).
Definition set_ports ips ops (d : SimDevice) : SimDevice :=
  mkDevice (info_ d) (health_ d) (connections_ d) (last_versions_ d)
    (input_to_output_ d) (output_to_input_ d) ips ops
    (apply_results_ d) (apply_result_order_ d) (fail_next_apply_ d) (timeout_next_apply_ d).
Definition set_cache rs order (d : SimDevice) : SimDevice :=
  mkDevice (info_ d) (health_ d) (connections_ d) (last_versions_ d)
    (input_to_output_ d) (output_to_input_ d) (input_ports_ d) (output_ports_ d)
    rs order (fail_next_apply_ d) (timeout_next_apply_ d).
Definition set_faults fail timeout (d : SimDevice) : SimDevice :=
  mkDevice (info_ d) (health_ d) (connections_ d) (last_versions_ d)
    (input_to_output_ d) (output_to_input_ d) (input_ports_ d) (output_ports_ d)
    (apply_results_ d) (apply_result_order_ d) fail timeout.

Definition kMaxCachedApplyResults : Z := 4096.

Definition makeError (c : ErrorCode.t) (m : string) : Error := mkError c m.

(** ** makePorts

    [for (PortId id = 1; id <= count; ++id)]: [None] when [fuel] iterations are
    not enough to leave the loop. *)
Fixpoint makePorts_loop (fuel : nat) (dir : PortDirection.t) (count id : PortId)
    (ports : list PortState) : option (list PortState) :=
  match fuel with
  | O => None
  | S fuel' =>
      if decide (id <= count)%Z then
        makePorts_loop fuel' dir count (u16 (id + 1))
          (ports ++ [mkPort id dir true PortOperStatus.kUp minus_three])
      else Some ports
  end.

(** The loop is left within [count + 1] iterations or never (see
    [makePorts_terminates] and [makePorts_diverges]). *)
Definition makePorts (dir : PortDirection.t) (count : PortId) : option (list PortState) :=
  makePorts_loop (S (Z.to_nat count)) dir count 1 [].

(** ** The constructor: [None] when it does not return. *)
Definition SimulatedOcsDevice (info : DeviceInfo) : option (result SimDevice) :=
  ips ← makePorts PortDirection.kInput (input_port_count info);
  ops ← makePorts PortDirection.kOutput (output_port_count info);
  Some (if bool_decide (input_port_count info = 0%Z)
           || bool_decide (output_port_count info = 0%Z) then
          Throw (InvalidArgument "device port counts must be positive")
        else
          Ok (mkDevice info (mkHealth DeviceOperStatus.kReady success) ∅ ∅
                (replicate (Z.to_nat (input_port_count info)) None)
                (replicate (Z.to_nat (output_port_count info)) None)
                ips ops ∅ [] false false)).

(** ** Port validation *)
Definition ports_of (d : SimDevice) (dir : PortDirection.t) : list PortState :=
  match dir with
  | PortDirection.kInput => input_ports_ d
  | PortDirection.kOutput => output_ports_ d
  end.
Definition port_count (d : SimDevice) (dir : PortDirection.t) : Z :=
  match dir with
  | PortDirection.kInput => input_port_count (info_ d)
  | PortDirection.kOutput => output_port_count (info_ d)
  end.

Definition validatePort (d : SimDevice) (dir : PortDirection.t) (id : PortId) : Error :=
  if bool_decide (id = 0)%Z || bool_decide (port_count d dir < id)%Z then
    makeError ErrorCode.kInvalidPort "port is outside the configured matrix"
  else success.

Definition validatePortAvailable (d : SimDevice) (dir : PortDirection.t) (id : PortId)
    : result Error :=
  let error := validatePort d dir id in
  if negb (error_ok error) then Ok error
  else
    port ← vec_at (ports_of d dir) (id - 1);
    Ok (if negb (admin_enabled port) then
          makeError ErrorCode.kPortDisabled "port is administratively disabled"
        else if negb (bool_decide (oper_status port = PortOperStatus.kUp)) then
          makeError ErrorCode.kPortDown "port is not operationally up"
        else success).

(** ** applyConnections *)

(** The lambda [finish]: store the result under the operation ID, dropping the
    oldest entry when the cache is full.  [front()] of an empty deque is undefined;
    [device_wf] excludes it. *)
Definition finish (options : ApplyOptions) (r : ApplyResult) : prog SimDevice ApplyResult :=
  fun d =>
    if bool_decide (operation_id options = "") then (Ok r, d)
    else
      let '(results, order) :=
        if decide (kMaxCachedApplyResults <= Z.of_nat (size (apply_results_ d)))%Z then
          (delete (default "" (head (apply_result_order_ d))) (apply_results_ d),
           tail (apply_result_order_ d))
        else (apply_results_ d, apply_result_order_ d) in
      (Ok r, set_cache (<[operation_id options := r]> results)
               (order ++ [operation_id options]) d).

Definition fail_with (c : ErrorCode.t) (m : string) : ApplyResult :=
  mkApplyResult (makeError c m) [].

(** The first loop: is some command older than the last version of its ID? *)
Definition is_stale (d : SimDevice) (command : ConnectionCommand) : bool :=
  negb (bool_decide (desired_version command = 0%Z)) &&
  match last_versions_ d !! cmd_id command with
  | Some last => bool_decide (desired_version command < last)%Z
  | None => false
  end.

Definition applied_of (command : ConnectionCommand) : AppliedConnection :=
  mkApplied (cmd_id command) (cmd_input_port command) (cmd_output_port command)
    (desired_version command).

(** The second loop: the candidate connections, or the first error. *)
Fixpoint stage_commands (d : SimDevice) (commands : list ConnectionCommand)
    (candidate : gmap string AppliedConnection)
    : result (Error + gmap string AppliedConnection) :=
  match commands with
  | [] => Ok (inr candidate)
  | command :: rest =>
      if bool_decide (cmd_id command = "") then
        Ok (inl (makeError ErrorCode.kInvalidArgument "connection id must not be empty"))
      else
        match operation command with
        | ConnectionOperation.kRemove =>
            stage_commands d rest (delete (cmd_id command) candidate)
        | ConnectionOperation.kUpsert =>
            e1 ← validatePortAvailable d PortDirection.kInput (cmd_input_port command);
            if negb (error_ok e1) then Ok (inl e1)
            else
              e2 ← validatePortAvailable d PortDirection.kOutput (cmd_output_port command);
              if negb (error_ok e2) then Ok (inl e2)
              else stage_commands d rest (<[cmd_id command := applied_of command]> candidate)
        end
  end.

(** The third loop, over the candidate map in key order. *)
Fixpoint build_matrix (conns : list AppliedConnection) (i2o o2i : list (option PortId))
    : result (Error + list (option PortId) * list (option PortId)) :=
  match conns with
  | [] => Ok (inr (i2o, o2i))
  | c :: rest =>
      ci ← vec_at i2o (app_input_port c - 1);
      if bool_decide (is_Some ci) then
        Ok (inl (makeError ErrorCode.kInputConflict "input port is already connected"))
      else
        co ← vec_at o2i (app_output_port c - 1);
        if bool_decide (is_Some co) then
          Ok (inl (makeError ErrorCode.kOutputConflict "output port is already connected"))
        else
          i2o' ← vec_set i2o (app_input_port c - 1) (Some (app_output_port c));
          o2i' ← vec_set o2i (app_output_port c - 1) (Some (app_input_port c));
          build_matrix rest i2o' o2i'
  end.

(** [last_versions_.insert_or_assign] for the commands with a version. *)
Definition record_versions (commands : list ConnectionCommand) (vs : gmap string Z)
    : gmap string Z :=
  fold_left (fun vs command =>
    if bool_decide (desired_version command = 0%Z) then vs
    else <[cmd_id command := desired_version command]> vs) commands vs.

Definition changed_connections (conns : gmap string AppliedConnection)
    (commands : list ConnectionCommand) : list AppliedConnection :=
  omap (fun command => conns !! cmd_id command) commands.

Definition applyConnections (commands : list ConnectionCommand) (options : ApplyOptions)
    : prog SimDevice ApplyResult := fun d =>
  let cached := if bool_decide (operation_id options = "") then None
                else apply_results_ d !! operation_id options in
  match cached with
  | Some r => (Ok r, d)
  | None =>
  if negb (opt_atomic options) then
    finish options (fail_with ErrorCode.kUnsupported "non-atomic apply is not supported") d
  else if existsb (is_stale d) commands then
    finish options (fail_with ErrorCode.kVersionStale "connection version is stale") d
  else
  match stage_commands d commands (connections_ d) with
  | Throw e => (Throw e, d)
  | Ok (inl error) => finish options (mkApplyResult error []) d
  | Ok (inr candidate) =>
  match build_matrix (sorted_values candidate)
          (replicate (Z.to_nat (input_port_count (info_ d))) None)
          (replicate (Z.to_nat (output_port_count (info_ d))) None) with
  | Throw e => (Throw e, d)
  | Ok (inl error) => finish options (mkApplyResult error []) d
  | Ok (inr (i2o, o2i)) =>
    if fail_next_apply_ d then
      finish options (fail_with ErrorCode.kApplyFailed "injected next-apply failure")
        (set_faults false (timeout_next_apply_ d) d)
    else if timeout_next_apply_ d then
      finish options (fail_with ErrorCode.kApplyTimeout "injected next-apply timeout")
        (set_faults (fail_next_apply_ d) false d)
    else
      let d' := set_versions (record_versions commands (last_versions_ d))
                  (set_matrix candidate i2o o2i d) in
      finish options
        (mkApplyResult success (changed_connections (connections_ d') commands)) d'
  end end end.

(** ** Reads *)
Definition getDeviceInfo : prog SimDevice DeviceInfo := gets info_.
Definition getHealth : prog SimDevice DeviceHealth := gets health_.
Definition getConnections : prog SimDevice (list AppliedConnection) :=
  gets (fun d => sorted_values (connections_ d)).

Definition getPortState (dir : PortDirection.t) (id : PortId) : prog SimDevice PortState :=
  fun d =>
    if negb (error_ok (validatePort d dir id)) then
      (Ok (mkPort id dir false PortOperStatus.kUnknown zero_dbm), d)
    else (vec_at (ports_of d dir) (id - 1), d).

(** ** reset: [None] when the call does not return. *)
Definition reset (mode : ResetMode.t) (d : SimDevice) : option (result ResetResult * SimDevice) :=
  ips ← makePorts PortDirection.kInput (input_port_count (info_ d));
  ops ← makePorts PortDirection.kOutput (output_port_count (info_ d));
  let info := info_ d in
  let gen := match mode with
             | ResetMode.kHard => u64 (generation info + 1)
             | ResetMode.kSoft => generation info
             end in
  let info' := mkDeviceInfo (info_name info) (input_port_count info) (output_port_count info)
                 (info_model info) (serial_number info) (firmware_version info) gen in
  Some (Ok (mkResetResult success gen),
        mkDevice info' (mkHealth DeviceOperStatus.kReady success) ∅ ∅
          ((fun _ => None) <$> input_to_output_ d) ((fun _ => None) <$> output_to_input_ d)
          ips ops ∅ [] false false).

(** ** Fault injection *)
Definition set_oper (st : PortOperStatus.t) (p : PortState) : PortState :=
  mkPort (port_id p) (direction p) (admin_enabled p) st (optical_power_dbm p).
Definition set_admin (enabled : bool) (p : PortState) : PortState :=
  mkPort (port_id p) (direction p) enabled (oper_status p) (optical_power_dbm p).

(** [ports.at(id - 1).member = ...] on the vector of one direction. *)
Definition update_port (dir : PortDirection.t) (id : PortId) (f : PortState -> PortState)
    : prog SimDevice unit := fun d =>
  match (p ← vec_at (ports_of d dir) (id - 1); vec_set (ports_of d dir) (id - 1) (f p)) with
  | Throw e => (Throw e, d)
  | Ok ports =>
      (Ok tt, match dir with
              | PortDirection.kInput => set_ports ports (output_ports_ d) d
              | PortDirection.kOutput => set_ports (input_ports_ d) ports d
              end)
  end.

(** The direction a port fault names: every type but INPUT_PORT_DOWN means output. *)
Definition fault_direction (t : FaultType.t) : PortDirection.t :=
  if bool_decide (t = FaultType.kInputPortDown) then PortDirection.kInput
  else PortDirection.kOutput.

Definition set_port_fault (t : FaultType.t) (id : PortId) (st : PortOperStatus.t)
    : prog SimDevice FaultResult := fun d =>
  let dir := fault_direction t in
  let error := validatePort d dir id in
  if negb (error_ok error) then (Ok (mkFaultResult error), d)
  else (update_port dir id (set_oper st);; mret (mkFaultResult success)) d.

Definition injectFault (fault : FaultSpec) : prog SimDevice FaultResult := fun d =>
  match fault_type fault with
  | FaultType.kAll =>
      (Ok (mkFaultResult (makeError ErrorCode.kInvalidArgument
             "ALL is only valid when clearing faults")), d)
  | FaultType.kNextApplyError =>
      (Ok (mkFaultResult success), set_faults true (timeout_next_apply_ d) d)
  | FaultType.kNextApplyTimeout =>
      (Ok (mkFaultResult success), set_faults (fail_next_apply_ d) true d)
  | FaultType.kOutOfBandDrift =>
      match sorted_items (connections_ d) with
      | [] => (Ok (mkFaultResult (makeError ErrorCode.kInvalidArgument
                     "drift target connection was not found")), d)
      | (key, c) :: _ =>
          match vec_set (input_to_output_ d) (app_input_port c - 1) None with
          | Throw e => (Throw e, d)
          | Ok i2o =>
            let d1 := set_matrix (connections_ d) i2o (output_to_input_ d) d in
            match vec_set (output_to_input_ d) (app_output_port c - 1) None with
            | Throw e => (Throw e, d1)
            | Ok o2i =>
                (Ok (mkFaultResult success), set_matrix (delete key (connections_ d)) i2o o2i d)
            end
          end
      end
  | FaultType.kInputPortDown | FaultType.kOutputPortDown =>
      set_port_fault (fault_type fault) (fault_port fault) PortOperStatus.kDown d
  end.

Definition clearFault (selector : FaultSelector) : prog SimDevice FaultResult := fun d =>
  match selector_type selector with
  | FaultType.kAll =>
      (Ok (mkFaultResult success),
       set_ports (set_oper PortOperStatus.kUp <$> input_ports_ d)
         (set_oper PortOperStatus.kUp <$> output_ports_ d) (set_faults false false d))
  | FaultType.kNextApplyError =>
      (Ok (mkFaultResult success), set_faults false (timeout_next_apply_ d) d)
  | FaultType.kNextApplyTimeout =>
      (Ok (mkFaultResult success), set_faults (fail_next_apply_ d) false d)
  | FaultType.kOutOfBandDrift => (Ok (mkFaultResult success), d)
  | FaultType.kInputPortDown | FaultType.kOutputPortDown =>
      set_port_fault (selector_type selector) (selector_port selector) PortOperStatus.kUp d
  end.

Definition setPortAdminState (dir : PortDirection.t) (id : PortId) (enabled : bool)
    : prog SimDevice Error := fun d =>
  let error := validatePort d dir id in
  if negb (error_ok error) then (Ok error, d)
  else (update_port dir id (set_admin enabled);; mret success) d.
