(* ===== verification/SimDeviceInv.v ===== *)
(** * The simulated matrix: its invariant, and what the loops of
    [applyConnections] compute. *)
From S2P Require Import Prelude.
From S2P Require Import Errors.
From S2P Require Import Types.
From S2P Require Import SimDevice.
From stdpp Require Import options.

(** ** The invariant *)

(** No two connections share an input or an output: the matrix is a partial
    bijection between inputs and outputs. *)
Definition no_conflicts (m : gmap string AppliedConnection) : Prop :=
  forall k1 k2 c1 c2, m !! k1 = Some c1 -> m !! k2 = Some c2 ->
    app_input_port c1 = app_input_port c2 \/ app_output_port c1 = app_output_port c2 ->
    k1 = k2.

(** Every connection is filed under its own, non-empty ID and uses real ports. *)
Definition conns_wf (nin nout : Z) (m : gmap string AppliedConnection) : Prop :=
  forall k c, m !! k = Some c ->
    app_id c = k /\ k <> "" /\ (1 <= app_input_port c <= nin)%Z
    /\ (1 <= app_output_port c <= nout)%Z.

(** The two index vectors say exactly what the connections say. *)
Definition matrix_of (P : AppliedConnection -> Prop) (i2o o2i : list (option PortId)) : Prop :=
  (forall i o, i2o !! i = Some (Some o) <->
     exists c, P c /\ app_input_port c = (Z.of_nat i + 1)%Z /\ app_output_port c = o)
  /\ (forall o i, o2i !! o = Some (Some i) <->
     exists c, P c /\ app_output_port c = (Z.of_nat o + 1)%Z /\ app_input_port c = i).

Definition in_map (m : gmap string AppliedConnection) (c : AppliedConnection) : Prop :=
  exists k, m !! k = Some c.

Definition ports_wf (dir : PortDirection.t) (count : Z) (ports : list PortState) : Prop :=
  Z.of_nat (length ports) = count /\
  forall i p, ports !! i = Some p -> port_id p = (Z.of_nat i + 1)%Z /\ direction p = dir.

(** The replay cache and its FIFO hold the same operation IDs, at most 4096. *)
Definition cache_wf (results : gmap string ApplyResult) (order : list string) : Prop :=
  NoDup order /\ (forall k, k ∈ order <-> is_Some (results !! k)) /\
  (Z.of_nat (length order) <= kMaxCachedApplyResults)%Z.

Record device_wf (d : SimDevice) : Prop := {
  wf_in : (0 < input_port_count (info_ d) < 65535)%Z;
  wf_out : (0 < output_port_count (info_ d) < 65535)%Z;
  wf_i2o : Z.of_nat (length (input_to_output_ d)) = input_port_count (info_ d);
  wf_o2i : Z.of_nat (length (output_to_input_ d)) = output_port_count (info_ d);
  wf_conns : conns_wf (input_port_count (info_ d)) (output_port_count (info_ d)) (connections_ d);
  wf_bijective : no_conflicts (connections_ d);
  wf_matrix : matrix_of (in_map (connections_ d)) (input_to_output_ d) (output_to_input_ d);
  wf_inputs : ports_wf PortDirection.kInput (input_port_count (info_ d)) (input_ports_ d);
  wf_outputs : ports_wf PortDirection.kOutput (output_port_count (info_ d)) (output_ports_ d);
  wf_cache : cache_wf (apply_results_ d) (apply_result_order_ d);
}.

(** ** makePorts *)

Definition port_range (dir : PortDirection.t) (id : Z) (n : nat) : list PortState :=
  (fun i => mkPort (id + Z.of_nat i) dir true PortOperStatus.kUp minus_three) <$> seq 0 n.

Lemma port_range_snoc dir id n :
  port_range dir id (S n)
  = mkPort id dir true PortOperStatus.kUp minus_three :: port_range dir (id + 1) n.
Proof.
  unfold port_range. rewrite <-cons_seq, <-fmap_S_seq, fmap_cons, <-list_fmap_compose.
  f_equal; [f_equal; lia|]. apply list_fmap_ext. intros ? i _. simpl. f_equal. lia.
Qed.

Lemma makePorts_loop_spec fuel dir count id acc :
  (0 <= id <= count + 1)%Z -> (count < 65535)%Z -> (Z.to_nat (count + 1 - id) < fuel)%nat ->
  makePorts_loop fuel dir count id acc
  = Some (acc ++ port_range dir id (Z.to_nat (count + 1 - id))).
Proof.
  revert id acc. induction fuel as [|fuel IH]; intros id acc Hid Hc Hf; [lia|]. simpl.
  case_decide as Hle.
  - rewrite (wrap_small 16) by (unfold in_width; lia).
    rewrite IH by lia. rewrite <-app_assoc. do 2 f_equal.
    replace (Z.to_nat (count + 1 - id)) with (S (Z.to_nat (count + 1 - (id + 1)))) by lia.
    by rewrite port_range_snoc.
  - replace (Z.to_nat (count + 1 - id)) with 0%nat by lia. by rewrite app_nil_r.
Qed.

Lemma makePorts_Some dir count :
  (0 <= count < 65535)%Z -> makePorts dir count = Some (port_range dir 1 (Z.to_nat count)).
Proof.
  intros Hc. unfold makePorts. rewrite makePorts_loop_spec by lia.
  by replace (count + 1 - 1)%Z with count by lia.
Qed.

Lemma port_range_wf dir count :
  (0 <= count)%Z -> ports_wf dir count (port_range dir 1 (Z.to_nat count)).
Proof.
  intros Hc. split; [unfold port_range; rewrite length_fmap, length_seq; lia|].
  intros i p Hp. unfold port_range in Hp. rewrite list_lookup_fmap in Hp.
  apply fmap_Some in Hp as (j & Hj & ->). apply lookup_seq in Hj as [-> _].
  simpl. split; [lia|done].
Qed.

(** ** Port validation *)

(** [validatePortAvailable] as a decision: [None] when the port can be used. *)
Definition port_error (d : SimDevice) (dir : PortDirection.t) (id : Z) : option Error :=
  if decide (1 <= id <= port_count d dir)%Z then
    match ports_of d dir !! Z.to_nat (id - 1) with
    | Some p =>
        if admin_enabled p then
          if decide (oper_status p = PortOperStatus.kUp) then None
          else Some (makeError ErrorCode.kPortDown "port is not operationally up")
        else Some (makeError ErrorCode.kPortDisabled "port is administratively disabled")
    | None => None
    end
  else Some (makeError ErrorCode.kInvalidPort "port is outside the configured matrix").

Lemma wf_ports d dir : device_wf d -> ports_wf dir (port_count d dir) (ports_of d dir).
Proof. intros []. by destruct dir. Qed.

Lemma wf_port_lookup d dir id :
  device_wf d -> (1 <= id <= port_count d dir)%Z ->
  exists p, ports_of d dir !! Z.to_nat (id - 1) = Some p /\ port_id p = id /\ direction p = dir.
Proof.
  intros Hwf Hid. destruct (wf_ports d dir Hwf) as [Hlen Hp].
  destruct (lookup_lt_is_Some_2 (ports_of d dir) (Z.to_nat (id - 1))) as [p Hlk]; [lia|].
  exists p. destruct (Hp _ _ Hlk). split; [done|]. split; [lia|done].
Qed.

Lemma validatePort_ok d dir id :
  (0 <= id)%Z -> validatePort d dir id
  = if decide (1 <= id <= port_count d dir)%Z then success
    else makeError ErrorCode.kInvalidPort "port is outside the configured matrix".
Proof.
  intros Hid. unfold validatePort.
  destruct (decide (1 <= id <= port_count d dir)%Z).
  - by rewrite !bool_decide_eq_false_2 by lia.
  - destruct (decide (id = 0%Z)); [by rewrite bool_decide_eq_true_2 by done|].
    by rewrite (bool_decide_eq_true_2 (port_count d dir < id)%Z), orb_true_r by lia.
Qed.

Lemma validatePortAvailable_spec d dir id :
  device_wf d -> (0 <= id)%Z ->
  validatePortAvailable d dir id = Ok (default success (port_error d dir id)).
Proof.
  intros Hwf Hid. unfold validatePortAvailable, port_error.
  rewrite validatePort_ok by done. case_decide as Hr; [|done]. simpl.
  destruct (wf_port_lookup d dir id Hwf Hr) as (p & Hp & _).
  rewrite (vec_at_Ok _ _ p), Hp by (done || lia). simpl.
  destruct (admin_enabled p); simpl; [|done].
  case_bool_decide; case_decide; done.
Qed.

Lemma port_error_not_ok d dir id e : port_error d dir id = Some e -> error_ok e = false.
Proof. unfold port_error. intros. repeat case_match; simplify_eq; done. Qed.

(** ** Staging the commands *)

Definition command_error (d : SimDevice) (c : ConnectionCommand) : option Error :=
  if decide (cmd_id c = "") then
    Some (makeError ErrorCode.kInvalidArgument "connection id must not be empty")
  else match operation c with
       | ConnectionOperation.kRemove => None
       | ConnectionOperation.kUpsert =>
           match port_error d PortDirection.kInput (cmd_input_port c) with
           | Some e => Some e
           | None => port_error d PortDirection.kOutput (cmd_output_port c)
           end
       end.

Definition apply_command (m : gmap string AppliedConnection) (c : ConnectionCommand)
    : gmap string AppliedConnection :=
  match operation c with
  | ConnectionOperation.kRemove => delete (cmd_id c) m
  | ConnectionOperation.kUpsert => <[cmd_id c := applied_of c]> m
  end.
Definition apply_commands (cs : list ConnectionCommand) (m : gmap string AppliedConnection)
    : gmap string AppliedConnection := fold_left apply_command cs m.

Definition command_ports_unsigned (c : ConnectionCommand) : Prop :=
  (0 <= cmd_input_port c)%Z /\ (0 <= cmd_output_port c)%Z.

Lemma stage_commands_spec d cs m :
  device_wf d -> Forall command_ports_unsigned cs ->
  stage_commands d cs m
  = Ok match head (omap (command_error d) cs) with
       | Some e => inl e
       | None => inr (apply_commands cs m)
       end.
Proof.
  intros Hwf Hcs. revert m. induction Hcs as [|c cs [Hi Ho] _ IH]; intros m; [done|].
  simpl. unfold command_error at 1, apply_command.
  case_bool_decide; case_decide; try done.
  destruct (operation c); [|by rewrite IH].
  rewrite !validatePortAvailable_spec by done. simpl.
  destruct (port_error d PortDirection.kInput _) as [e|] eqn:He; simpl.
  { by rewrite (port_error_not_ok _ _ _ _ He). }
  destruct (port_error d PortDirection.kOutput _) as [e|] eqn:He2; simpl.
  { by rewrite (port_error_not_ok _ _ _ _ He2). }
  by rewrite IH.
Qed.

Lemma port_error_None_range d dir id :
  port_error d dir id = None -> (1 <= id <= port_count d dir)%Z.
Proof. unfold port_error. by case_decide. Qed.

Lemma head_omap_None {A B} (f : A -> option B) l :
  head (omap f l) = None <-> Forall (fun a => f a = None) l.
Proof.
  induction l as [|a l IH]; simpl; [split; constructor|].
  destruct (f a) eqn:Ha; simpl; rewrite Forall_cons, ?IH; naive_solver.
Qed.

Lemma apply_commands_wf d cs m :
  Forall (fun c => command_error d c = None) cs ->
  conns_wf (input_port_count (info_ d)) (output_port_count (info_ d)) m ->
  conns_wf (input_port_count (info_ d)) (output_port_count (info_ d)) (apply_commands cs m).
Proof.
  intros Hcs. revert m. induction Hcs as [|c cs Hc _ IH]; intros m Hm; [done|].
  simpl. apply IH. unfold command_error in Hc. case_decide as Hid; [done|].
  unfold apply_command. intros k c' Hk. destruct (operation c).
  - destruct (port_error d PortDirection.kInput _) eqn:H1; [done|].
    apply port_error_None_range in H1, Hc.
    apply lookup_insert_Some in Hk as [[<- <-]|[_ Hk]]; [|by apply Hm]. done.
  - apply lookup_delete_Some in Hk as [_ Hk]. by apply Hm.
Qed.

(** ** Building the matrix *)

Definition conflict_free (l : list AppliedConnection) : Prop :=
  NoDup (app_input_port <$> l) /\ NoDup (app_output_port <$> l).

#[export] Instance conflict_free_perm : Proper ((≡ₚ) ==> iff) conflict_free.
Proof. intros l1 l2 Hl. unfold conflict_free. by rewrite Hl. Qed.

#[export] Instance matrix_of_proper :
  Proper (pointwise_relation _ iff ==> (=) ==> (=) ==> iff) matrix_of.
Proof.
  intros P Q HPQ i2o ? <- o2i ? <-. unfold matrix_of.
  setoid_rewrite HPQ. done.
Qed.

Lemma conflict_free_cons c l :
  conflict_free (c :: l) <->
  (app_input_port c ∉ (app_input_port <$> l)) /\ (app_output_port c ∉ (app_output_port <$> l))
  /\ conflict_free l.
Proof. unfold conflict_free. rewrite !fmap_cons, !NoDup_cons. naive_solver. Qed.

(** One side of the matrix after one more assignment. *)
Lemma side_insert (f g : AppliedConnection -> Z) (v : list (option Z)) (acc : list AppliedConnection) c :
  (1 <= f c <= Z.of_nat (length v))%Z -> f c ∉ (f <$> acc) ->
  (forall i o, v !! i = Some (Some o) <->
     exists c', c' ∈ acc /\ f c' = (Z.of_nat i + 1)%Z /\ g c' = o) ->
  (forall i o, <[Z.to_nat (f c - 1) := Some (g c)]> v !! i = Some (Some o) <->
     exists c', c' ∈ c :: acc /\ f c' = (Z.of_nat i + 1)%Z /\ g c' = o).
Proof.
  intros Hr Hnew Hv i o. destruct (decide (i = Z.to_nat (f c - 1))) as [->|Hne].
  - rewrite list_lookup_insert_eq by lia. split.
    + intros [= <-]. exists c. split; [apply list_elem_of_here|]. split; [lia|done].
    + intros (c' & [->|Hc']%elem_of_cons & Hf & <-); [done|].
      destruct Hnew. apply list_elem_of_fmap. exists c'. split; [lia|done].
  - rewrite list_lookup_insert_ne, Hv by done. split.
    + intros (c' & ? & ? & ?). exists c'. by rewrite elem_of_cons; auto.
    + intros (c' & [->|Hc']%elem_of_cons & Hf & <-); [lia|]. by exists c'.
Qed.

(** The two errors of the third loop. *)
Definition conflict_error (e : Error) : Prop :=
  e = makeError ErrorCode.kInputConflict "input port is already connected"
  \/ e = makeError ErrorCode.kOutputConflict "output port is already connected".

Definition range_ok (nin nout : Z) (c : AppliedConnection) : Prop :=
  (1 <= app_input_port c <= nin)%Z /\ (1 <= app_output_port c <= nout)%Z.

(** A slot of one side: filled exactly when the port is used. *)
Lemma side_slot (f g : AppliedConnection -> Z) (v : list (option Z)) (acc : list AppliedConnection) p :
  (1 <= p <= Z.of_nat (length v))%Z ->
  (forall i o, v !! i = Some (Some o) <->
     exists c', c' ∈ acc /\ f c' = (Z.of_nat i + 1)%Z /\ g c' = o) ->
  exists x, vec_at v (p - 1) = Ok x /\ (is_Some x <-> p ∈ (f <$> acc)).
Proof.
  intros Hp Hv. destruct (lookup_lt_is_Some_2 v (Z.to_nat (p - 1))) as [x Hx]; [lia|].
  exists x. split; [apply vec_at_Ok; [lia|done]|]. rewrite list_elem_of_fmap. split.
  - intros [o ->]. apply Hv in Hx as (c & ? & ? & ?). exists c. split; [lia|done].
  - intros (c & -> & Hc). assert (v !! Z.to_nat (f c - 1) = Some (Some (g c))) as Hs.
    { apply Hv. exists c. split; [done|]. split; [lia|done]. }
    rewrite Hx in Hs. by simplify_eq.
Qed.

Lemma build_matrix_spec nin nout l : forall acc i2o o2i,
  Z.of_nat (length i2o) = nin -> Z.of_nat (length o2i) = nout ->
  Forall (range_ok nin nout) l ->
  matrix_of (fun c => c ∈ acc) i2o o2i -> conflict_free acc ->
  exists r, build_matrix l i2o o2i = Ok r /\
    match r with
    | inl e => ~ conflict_free (l ++ acc)
               /\ conflict_error e
    | inr (i2o', o2i') =>
        conflict_free (l ++ acc) /\ matrix_of (fun c => c ∈ (l ++ acc)) i2o' o2i'
        /\ length i2o' = length i2o /\ length o2i' = length o2i
    end.
Proof.
  induction l as [|c l IH]; intros acc i2o o2i Hi Ho Hl Hm Hcf.
  { exists (inr (i2o, o2i)). done. }
  apply Forall_cons in Hl as [[Hci Hco] Hl]. destruct Hm as [Hm1 Hm2]. simpl.
  destruct (side_slot app_input_port app_output_port i2o acc (app_input_port c))
    as (x & -> & Hx); [lia|done|]. simpl.
  case_bool_decide as Hxs.
  { eexists. split; [done|]. simpl. split; [|by left].
    rewrite conflict_free_cons, fmap_app, elem_of_app. naive_solver. }
  destruct (side_slot app_output_port app_input_port o2i acc (app_output_port c))
    as (y & -> & Hy); [lia|done|]. simpl.
  case_bool_decide as Hys.
  { eexists. split; [done|]. simpl. split; [|by right].
    rewrite conflict_free_cons, !fmap_app, !elem_of_app. naive_solver. }
  rewrite !vec_set_Ok by lia. simpl.
  destruct (IH (c :: acc) (<[Z.to_nat (app_input_port c - 1):=Some (app_output_port c)]> i2o)
              (<[Z.to_nat (app_output_port c - 1):=Some (app_input_port c)]> o2i))
    as (r & -> & Hr); [by rewrite length_insert..|done| | |].
  - split; apply side_insert; try done; try lia; naive_solver.
  - apply conflict_free_cons. naive_solver.
  - exists r. split; [done|]. rewrite !length_insert in Hr.
    assert (l ++ c :: acc ≡ₚ c :: l ++ acc) as Hp by (by rewrite Permutation_middle).
    destruct r as [e|[i2o' o2i']].
    + by rewrite <-Hp.
    + rewrite <-Hp. destruct Hr as (? & Hm & ? & ?). split; [done|]. split; [|done].
      eapply matrix_of_proper; [|done..|exact Hm]. intros c'. by rewrite Hp.
Qed.

(** ** The candidate map and its value list *)

Lemma NoDup_values {K A} (f : A -> Z) (l : list (K * A)) :
  NoDup l.*1 ->
  NoDup (f <$> l.*2) <->
  forall k1 k2 a1 a2, (k1, a1) ∈ l -> (k2, a2) ∈ l -> f a1 = f a2 -> k1 = k2.
Proof.
  induction l as [|[k a] l IH]; csimpl.
  { intros _. split; [set_solver|constructor]. }
  rewrite !NoDup_cons. intros [Hk Hl]. rewrite IH by done. split.
  - intros [Hn Hinj] k1 k2 a1 a2 [[= -> ->]|H1]%elem_of_cons [[= -> ->]|H2]%elem_of_cons Hf.
    + done.
    + destruct Hn. rewrite Hf. apply list_elem_of_fmap_2, (list_elem_of_fmap_2 snd _ _ H2).
    + destruct Hn. rewrite <-Hf. apply list_elem_of_fmap_2, (list_elem_of_fmap_2 snd _ _ H1).
    + eauto.
  - intros Hinj. split.
    + intros (a' & Hf & ([k' ?] & -> & Hin)%list_elem_of_fmap)%list_elem_of_fmap.
      assert (k = k') as -> by (eapply Hinj; [apply list_elem_of_here|by right|done]).
      destruct Hk. apply (list_elem_of_fmap_2 fst _ _ Hin).
    + intros. eapply Hinj; [by right..|done].
Qed.

Lemma conflict_free_values m : conflict_free (sorted_values m) <-> no_conflicts m.
Proof.
  unfold conflict_free, sorted_values.
  rewrite !NoDup_values by apply sorted_items_keys_NoDup.
  setoid_rewrite elem_of_sorted_items. unfold no_conflicts. naive_solver.
Qed.

Lemma range_ok_values nin nout m :
  conns_wf nin nout m -> Forall (range_ok nin nout) (sorted_values m).
Proof.
  intros Hm. apply Forall_forall. intros c [k Hk]%elem_of_sorted_values.
  by destruct (Hm k c Hk) as (_ & _ & ? & ?).
Qed.

Lemma matrix_of_empty n1 n2 :
  matrix_of (fun c => c ∈ []) (replicate n1 None) (replicate n2 None).
Proof.
  split; intros i o; split; try (intros (? & []%not_elem_of_nil & _));
    by intros [[=] _]%lookup_replicate.
Qed.

(** The matrix of a whole candidate map: success exactly when it has no conflict. *)
Lemma build_candidate nin nout m :
  (0 <= nin)%Z -> (0 <= nout)%Z -> conns_wf nin nout m ->
  exists r, build_matrix (sorted_values m) (replicate (Z.to_nat nin) None)
              (replicate (Z.to_nat nout) None) = Ok r /\
    match r with
    | inl e => ~ no_conflicts m
               /\ conflict_error e
    | inr (i2o, o2i) =>
        no_conflicts m /\ matrix_of (in_map m) i2o o2i
        /\ Z.of_nat (length i2o) = nin /\ Z.of_nat (length o2i) = nout
    end.
Proof.
  intros Hin Hout Hm.
  destruct (build_matrix_spec nin nout (sorted_values m) []
    (replicate (Z.to_nat nin) None) (replicate (Z.to_nat nout) None)) as (r & Hr & Hres);
    [rewrite length_replicate; lia..|by apply range_ok_values|apply matrix_of_empty
    |by split; apply NoDup_nil|].
  exists r. split; [done|]. rewrite app_nil_r in Hres.
  destruct r as [e|[i2o o2i]]; rewrite conflict_free_values in Hres; [done|].
  rewrite !length_replicate in Hres. destruct Hres as (? & Hmat & ? & ?).
  split; [done|]. split; [|lia].
  eapply matrix_of_proper; [|done..|exact Hmat].
  intros c. symmetry. apply elem_of_sorted_values.
Qed.

(** ** The replay cache *)

Lemma size_order results order :
  cache_wf results order -> size results = length order.
Proof.
  intros (Hnd & Hk & _). rewrite <-(size_dom results).
  assert (dom results = list_to_set order) as ->.
  { apply set_eq. intros k. by rewrite elem_of_dom, elem_of_list_to_set, Hk. }
  by apply size_list_to_set.
Qed.

Lemma cache_insert results order k r :
  cache_wf results order -> results !! k = None ->
  (Z.of_nat (length order) < kMaxCachedApplyResults)%Z ->
  cache_wf (<[k := r]> results) (order ++ [k]).
Proof.
  intros (Hnd & Hk & _) Hfresh Hlen. split; [|split].
  - apply NoDup_app. split; [done|]. split; [|apply NoDup_singleton].
    intros x Hx ->%list_elem_of_singleton. apply Hk in Hx as [? ?]. by simplify_eq.
  - intros x. rewrite elem_of_app, list_elem_of_singleton, Hk, lookup_insert_is_Some'.
    naive_solver.
  - rewrite length_app. simpl. lia.
Qed.

Lemma cache_evict results k order :
  cache_wf results (k :: order) -> cache_wf (delete k results) order.
Proof.
  intros (Hnd & Hk & Hlen). apply NoDup_cons in Hnd as [Hnk Hnd].
  split; [done|]. split; [|simpl in Hlen; lia]. intros x.
  rewrite lookup_delete_is_Some, <-Hk, elem_of_cons. split; [|naive_solver].
  intros Hx. split; [|by right]. by intros ->.
Qed.

(** [finish] returns the result and touches the cache only. *)
Lemma finish_spec o r d :
  device_wf d -> operation_id o = "" \/ apply_results_ d !! operation_id o = None ->
  exists rs order, finish o r d = (Ok r, set_cache rs order d) /\ cache_wf rs order /\
    (operation_id o = "" -> rs = apply_results_ d) /\
    (operation_id o <> "" -> rs !! operation_id o = Some r).
Proof.
  intros Hwf Hfresh. pose proof (wf_cache d Hwf) as Hc. unfold finish.
  case_bool_decide as Hid.
  { exists (apply_results_ d), (apply_result_order_ d). by destruct d. }
  destruct Hfresh as [?|Hfresh]; [done|]. rewrite (size_order _ _ Hc).
  case_decide as Hfull.
  - destruct (apply_result_order_ d) as [|k order] eqn:Ho; simpl in *.
    { unfold kMaxCachedApplyResults in Hfull. simpl in Hfull. lia. }
    eexists _, _. split; [done|]. split_and!; [|done|].
    + apply cache_insert; [by apply cache_evict| |].
      * rewrite lookup_delete_None. by right.
      * destruct Hc as (_ & _ & Hle). simpl in Hle. lia.
    + intros _. apply lookup_insert_eq.
  - eexists _, _. split; [done|]. split_and!; [|done|].
    + apply cache_insert; [done..|lia].
    + intros _. apply lookup_insert_eq.
Qed.

(** ** The invariant and the setters *)

Lemma wf_set_cache rs order d :
  device_wf d -> cache_wf rs order -> device_wf (set_cache rs order d).
Proof. intros [] ?. by constructor. Qed.
Lemma wf_set_faults f t d : device_wf d -> device_wf (set_faults f t d).
Proof. intros []. by constructor. Qed.
Lemma wf_set_versions vs d : device_wf d -> device_wf (set_versions vs d).
Proof. intros []. by constructor. Qed.

Lemma wf_set_matrix m i2o o2i d :
  device_wf d ->
  conns_wf (input_port_count (info_ d)) (output_port_count (info_ d)) m ->
  no_conflicts m -> matrix_of (in_map m) i2o o2i ->
  Z.of_nat (length i2o) = input_port_count (info_ d) ->
  Z.of_nat (length o2i) = output_port_count (info_ d) ->
  device_wf (set_matrix m i2o o2i d).
Proof. intros [] ?????. by constructor. Qed.

Lemma wf_set_ports ips ops d :
  device_wf d -> ports_wf PortDirection.kInput (input_port_count (info_ d)) ips ->
  ports_wf PortDirection.kOutput (output_port_count (info_ d)) ops ->
  device_wf (set_ports ips ops d).
Proof. intros [] ??. by constructor. Qed.

#[export] Hint Resolve wf_set_cache wf_set_faults wf_set_versions : ocs.
