(* ===== verification/SimDeviceProps.v ===== *)
(** * The simulated matrix: properties of its operations. *)
From S2P Require Import Prelude.
From S2P Require Import Errors.
From S2P Require Import Types.
From S2P Require Import SimDevice.
From S2P Require Import SimDeviceInv.
From stdpp Require Import options.

(** ** applyConnections, as a decision *)

(** The result of an earlier apply with the same operation ID. *)
Definition cached_result (o : ApplyOptions) (d : SimDevice) : option ApplyResult :=
  if bool_decide (operation_id o = "") then None else apply_results_ d !! operation_id o.

(** The first check that refuses the batch, before the matrix is built. *)
Definition rejection (cs : list ConnectionCommand) (o : ApplyOptions) (d : SimDevice)
    : option Error :=
  if negb (opt_atomic o) then
    Some (makeError ErrorCode.kUnsupported "non-atomic apply is not supported")
  else if existsb (is_stale d) cs then
    Some (makeError ErrorCode.kVersionStale "connection version is stale")
  else head (omap (command_error d) cs).

(** The state after a commit, before the result is cached. *)
Definition commit (cs : list ConnectionCommand) i2o o2i (d : SimDevice) : SimDevice :=
  set_versions (record_versions cs (last_versions_ d))
    (set_matrix (apply_commands cs (connections_ d)) i2o o2i d).

Definition commit_result (cs : list ConnectionCommand) (d : SimDevice) : ApplyResult :=
  mkApplyResult success (changed_connections (apply_commands cs (connections_ d)) cs).

(** What an apply that is not a replay does to a well-formed device. *)
Inductive apply_spec (cs : list ConnectionCommand) (o : ApplyOptions) (d : SimDevice)
    : ApplyResult -> SimDevice -> Prop :=
  | spec_reject e :
      rejection cs o d = Some e -> apply_spec cs o d (mkApplyResult e []) d
  | spec_conflict e :
      rejection cs o d = None ->
      ~ no_conflicts (apply_commands cs (connections_ d)) ->
      conflict_error e ->
      apply_spec cs o d (mkApplyResult e []) d
  | spec_fault_error :
      rejection cs o d = None -> no_conflicts (apply_commands cs (connections_ d)) ->
      fail_next_apply_ d = true ->
      apply_spec cs o d (fail_with ErrorCode.kApplyFailed "injected next-apply failure")
        (set_faults false (timeout_next_apply_ d) d)
  | spec_fault_timeout :
      rejection cs o d = None -> no_conflicts (apply_commands cs (connections_ d)) ->
      fail_next_apply_ d = false -> timeout_next_apply_ d = true ->
      apply_spec cs o d (fail_with ErrorCode.kApplyTimeout "injected next-apply timeout")
        (set_faults (fail_next_apply_ d) false d)
  | spec_commit i2o o2i :
      rejection cs o d = None -> no_conflicts (apply_commands cs (connections_ d)) ->
      fail_next_apply_ d = false -> timeout_next_apply_ d = false ->
      matrix_of (in_map (apply_commands cs (connections_ d))) i2o o2i ->
      Z.of_nat (length i2o) = input_port_count (info_ d) ->
      Z.of_nat (length o2i) = output_port_count (info_ d) ->
      apply_spec cs o d (commit_result cs d) (commit cs i2o o2i d).

Lemma rejection_not_ok cs o d e : rejection cs o d = Some e -> error_ok e = false.
Proof.
  unfold rejection. repeat case_match; intros; simplify_eq; try done.
  match goal with H : head (omap _ ?l) = Some _ |- _ => revert H; clear; induction l as [|c l IH] end;
    [done|]. simpl. destruct (command_error d c) as [e'|] eqn:Hc; [|done].
  intros [= <-]. unfold command_error in Hc. case_decide; simplify_eq; [done|].
  destruct (operation c); [|done]. case_match; simplify_eq; eauto using port_error_not_ok.
Qed.

Lemma rejection_None cs o d :
  rejection cs o d = None <->
  opt_atomic o = true /\ existsb (is_stale d) cs = false
  /\ Forall (fun c => command_error d c = None) cs.
Proof.
  unfold rejection. destruct (opt_atomic o), (existsb _ _); simpl;
    rewrite <-?head_omap_None; naive_solver.
Qed.

Lemma apply_spec_wf cs o d r d1 : device_wf d -> apply_spec cs o d r d1 -> device_wf d1.
Proof.
  intros Hwf Hs. inversion Hs; subst; auto with ocs.
  apply wf_set_versions, wf_set_matrix; try done.
  apply apply_commands_wf; [|by apply wf_conns]. by eapply rejection_None.
Qed.

(** The body is [finish] applied to the decision. *)
Lemma applyConnections_finish cs o d :
  device_wf d -> Forall command_ports_unsigned cs -> cached_result o d = None ->
  exists r d1, applyConnections cs o d = finish o r d1 /\ apply_spec cs o d r d1.
Proof.
  intros Hwf Hcs Hfresh.
  assert (rejection cs o d = rejection cs o d) as Hrej by done.
  unfold rejection at 1 in Hrej. unfold applyConnections.
  unfold cached_result in Hfresh. rewrite Hfresh.
  destruct (opt_atomic o); simpl in *; [|by eauto using spec_reject].
  destruct (existsb _ _); simpl in *; [by eauto using spec_reject|].
  rewrite stage_commands_spec by done. simpl.
  destruct (head _) as [e|] eqn:Hhead; [by eauto using spec_reject|].
  assert (conns_wf (input_port_count (info_ d)) (output_port_count (info_ d))
    (apply_commands cs (connections_ d))) as Hcand.
  { apply (apply_commands_wf d); [by apply head_omap_None|by apply wf_conns]. }
  pose proof (wf_in d Hwf). pose proof (wf_out d Hwf).
  destruct (build_candidate (input_port_count (info_ d)) (output_port_count (info_ d)) _
    ltac:(lia) ltac:(lia) Hcand) as (r & -> & Hr). simpl.
  destruct r as [e|[i2o o2i]]; [destruct Hr; by eauto using spec_conflict|].
  destruct Hr as (Hnc & Hm & Hi & Ho).
  destruct (fail_next_apply_ d) eqn:Hf; [by eauto using spec_fault_error|].
  destruct (timeout_next_apply_ d) eqn:Ht.
  - eexists _, (set_faults (fail_next_apply_ d) false d).
    split; [by rewrite Hf|by apply spec_fault_timeout].
  - exists (commit_result cs d), (commit cs i2o o2i d). split; [done|by apply spec_commit].
Qed.

Lemma apply_spec_cache cs o d r d1 :
  apply_spec cs o d r d1 ->
  apply_results_ d1 = apply_results_ d /\ apply_result_order_ d1 = apply_result_order_ d.
Proof. by destruct 1. Qed.

(** The body refines the decision: whatever the batch, the call returns, its result
    and state are those of [apply_spec], and the result is cached. *)
Lemma applyConnections_refines cs o d :
  device_wf d -> Forall command_ports_unsigned cs -> cached_result o d = None ->
  exists r d1 rs order,
    applyConnections cs o d = (Ok r, set_cache rs order d1) /\ apply_spec cs o d r d1
    /\ cache_wf rs order /\ (operation_id o <> "" -> rs !! operation_id o = Some r).
Proof.
  intros Hwf Hcs Hfresh.
  destruct (applyConnections_finish cs o d Hwf Hcs Hfresh) as (r & d1 & -> & Hs).
  destruct (finish_spec o r d1) as (rs & order & -> & ? & _ & ?).
  - by eapply apply_spec_wf.
  - destruct (apply_spec_cache _ _ _ _ _ Hs) as [-> _].
    unfold cached_result in Hfresh. case_bool_decide; auto.
  - by exists r, d1, rs, order.
Qed.

(** The part of the state an apply result is about. *)
Definition same_switch (d d' : SimDevice) : Prop :=
  info_ d' = info_ d /\ connections_ d' = connections_ d /\
  last_versions_ d' = last_versions_ d /\ input_to_output_ d' = input_to_output_ d /\
  output_to_input_ d' = output_to_input_ d /\ input_ports_ d' = input_ports_ d /\
  output_ports_ d' = output_ports_ d.

Lemma same_switch_refl d : same_switch d d.
Proof. done. Qed.

Lemma apply_spec_error cs o d r d1 :
  apply_spec cs o d r d1 -> apply_ok r = false -> same_switch d d1.
Proof. by inversion 1. Qed.

Lemma apply_spec_ok cs o d r d1 :
  apply_spec cs o d r d1 -> apply_ok r = true ->
  r = commit_result cs d /\ exists i2o o2i, d1 = commit cs i2o o2i d.
Proof.
  inversion 1 as [e He|e Hrej Hcf [->| ->]| | |]; subst; unfold apply_ok; simpl; try done.
  - by rewrite (rejection_not_ok _ _ _ _ He).
  - intros _. split; [done|]. by eexists _, _.
Qed.

Lemma cached_result_spec cs o d r :
  cached_result o d = Some r -> applyConnections cs o d = (Ok r, d).
Proof. unfold cached_result, applyConnections. by intros ->. Qed.

(** Case analysis on a call: a replay, or the decision [apply_spec]. *)
Lemma apply_cases cs o d :
  device_wf d -> Forall command_ports_unsigned cs ->
  (exists r, cached_result o d = Some r /\ applyConnections cs o d = (Ok r, d)) \/
  (cached_result o d = None /\ exists r d1 rs order,
    applyConnections cs o d = (Ok r, set_cache rs order d1) /\ apply_spec cs o d r d1
    /\ cache_wf rs order /\ (operation_id o <> "" -> rs !! operation_id o = Some r)).
Proof.
  intros Hwf Hcs. destruct (cached_result o d) as [r|] eqn:Hc.
  - left. exists r. split; [done|]. by apply cached_result_spec.
  - right. split; [done|]. by apply applyConnections_refines.
Qed.

(** ** A batch, key by key: the last command of an ID decides. *)

Definition last_command (k : string) (cs : list ConnectionCommand) : option ConnectionCommand :=
  last (filter (fun c => cmd_id c = k) cs).

Definition command_effect (oc : option ConnectionCommand) (before : option AppliedConnection)
    : option AppliedConnection :=
  match oc with
  | None => before
  | Some c => match operation c with
              | ConnectionOperation.kUpsert => Some (applied_of c)
              | ConnectionOperation.kRemove => None
              end
  end.

Lemma last_command_cons k c cs :
  last_command k (c :: cs)
  = match last_command k cs with
    | Some c' => Some c'
    | None => if decide (cmd_id c = k) then Some c else None
    end.
Proof.
  unfold last_command. rewrite filter_cons. case_decide as Hk.
  - by rewrite last_cons.
  - by destruct (last _).
Qed.

Lemma apply_commands_lookup cs m k :
  apply_commands cs m !! k = command_effect (last_command k cs) (m !! k).
Proof.
  revert m. induction cs as [|c cs IH]; intros m; [done|].
  simpl. rewrite IH, last_command_cons. destruct (last_command k cs) as [c'|]; [done|].
  unfold apply_command. case_decide as Hk; simpl.
  - subst k. destruct (operation c); [by rewrite lookup_insert_eq|by rewrite lookup_delete_eq].
  - destruct (operation c); [by rewrite lookup_insert_ne|by rewrite lookup_delete_ne].
Qed.

(** ** The theorems on applyConnections *)

(** C1: an apply that reports an error leaves the switch exactly as it was: the
    connections, both index vectors, the versions, the ports and the identity
    (docs/failure-model.md, "A failed atomic batch does not change the previous
    device matrix"). *)
Theorem apply_error_is_atomic cs o d r d' :
  device_wf d -> Forall command_ports_unsigned cs ->
  applyConnections cs o d = (Ok r, d') -> apply_ok r = false -> same_switch d d'.
Proof.
  intros Hwf Hcs Hrun Hr.
  destruct (apply_cases cs o d Hwf Hcs)
    as [(r' & _ & Hrun')|(_ & r' & d1 & rs & order & Hrun' & Hs & _)];
    rewrite Hrun' in Hrun; simplify_eq; [done|].
  by destruct (apply_spec_error _ _ _ _ _ Hs Hr) as (? & ? & ? & ? & ? & ? & ?).
Qed.

(** C2: the call always returns a value, never an exception ([vector::at] is always
    in range), and preserves the invariant; after a fresh successful apply each ID
    has the effect of its last command in the batch, and keeps its connection when
    the batch does not name it; the result lists the connections the commands name. *)
Theorem apply_total_and_functional cs o d :
  device_wf d -> Forall command_ports_unsigned cs ->
  exists r d', applyConnections cs o d = (Ok r, d') /\ device_wf d' /\
    (cached_result o d = None -> apply_ok r = true ->
     (forall k, connections_ d' !! k
                = command_effect (last_command k cs) (connections_ d !! k)) /\
     last_versions_ d' = record_versions cs (last_versions_ d) /\
     apply_connections r = omap (fun c => connections_ d' !! cmd_id c) cs).
Proof.
  intros Hwf Hcs.
  destruct (apply_cases cs o d Hwf Hcs)
    as [(r & Hc & Hrun)|(_ & r & d1 & rs & order & Hrun & Hs & Hcw & _)];
    rewrite Hrun; eexists _, _; (split; [done|]).
  - split; [done|]. by rewrite Hc.
  - split; [by apply wf_set_cache; [eapply apply_spec_wf|]|].
    intros _ Hok. destruct (apply_spec_ok _ _ _ _ _ Hs Hok) as [-> (? & ? & ->)].
    split; [|done]. intros k. apply apply_commands_lookup.
Qed.

(** The batch is admissible on the device. *)
Definition admissible (cs : list ConnectionCommand) (o : ApplyOptions) (d : SimDevice) : Prop :=
  opt_atomic o = true /\
  Forall (fun c => is_stale d c = false) cs /\
  Forall (fun c => command_error d c = None) cs /\
  no_conflicts (apply_commands cs (connections_ d)) /\
  fail_next_apply_ d = false /\ timeout_next_apply_ d = false.

Lemma existsb_Forall {A} (f : A -> bool) l :
  existsb f l = false <-> Forall (fun x => f x = false) l.
Proof. induction l; simpl; rewrite ?orb_false_iff, ?Forall_cons; naive_solver. Qed.

(** C33: a fresh apply succeeds exactly when the batch is atomic, no command is stale,
    every ID is non-empty and every UPSERT port usable, the final matrix has no
    conflict, and no one-shot fault is armed. *)
Theorem apply_succeeds_iff cs o d r d' :
  device_wf d -> Forall command_ports_unsigned cs -> cached_result o d = None ->
  applyConnections cs o d = (Ok r, d') ->
  apply_ok r = true <-> admissible cs o d.
Proof.
  intros Hwf Hcs Hfresh Hrun.
  destruct (applyConnections_refines cs o d Hwf Hcs Hfresh)
    as (r' & d1 & rs & order & Hrun' & Hs & _).
  rewrite Hrun' in Hrun. simplify_eq. unfold admissible.
  rewrite <-existsb_Forall.
  assert (forall e, apply_ok (mkApplyResult e []) = error_ok e) as Hmk by done.
  destruct Hs as [e He|e Hrej Hcf Hcode|Hrej|Hrej|i2o o2i Hrej].
  - rewrite Hmk, (rejection_not_ok _ _ _ _ He). split; [done|].
    intros (? & ? & ? & _). by rewrite (proj2 (rejection_None cs o d)) in He.
  - rewrite Hmk. split; [|naive_solver]. by destruct Hcode as [->| ->].
  - split; [done|]. naive_solver congruence.
  - split; [done|]. naive_solver congruence.
  - apply rejection_None in Hrej. naive_solver.
Qed.

Lemma cached_result_set_cache o rs order d :
  operation_id o <> "" -> cached_result o (set_cache rs order d) = rs !! operation_id o.
Proof. intros. unfold cached_result. by rewrite bool_decide_eq_false_2. Qed.

(** An exact replay (same non-empty operation ID, whatever the commands) returns
    the first result, success or failure, and changes nothing. *)
Theorem apply_replay_is_idempotent cs cs' o o' d r d' :
  device_wf d -> Forall command_ports_unsigned cs ->
  operation_id o <> "" -> operation_id o' = operation_id o ->
  applyConnections cs o d = (Ok r, d') ->
  applyConnections cs' o' d' = (Ok r, d').
Proof.
  intros Hwf Hcs Hid Hid' Hrun. apply cached_result_spec.
  assert (forall x, cached_result o' x = cached_result o x) as ->
    by (intros; unfold cached_result; by rewrite Hid').
  destruct (apply_cases cs o d Hwf Hcs)
    as [(r' & Hc & Hrun')|(_ & r' & d1 & rs & order & Hrun' & _ & _ & Hlk)];
    rewrite Hrun' in Hrun; simplify_eq; [done|].
  rewrite cached_result_set_cache by done. by apply Hlk.
Qed.

(** ** The other operations, and reachability *)

Lemma makePorts_loop_diverges fuel dir id acc :
  (0 <= id <= 65535)%Z -> makePorts_loop fuel dir 65535 id acc = None.
Proof.
  revert id acc. induction fuel as [|fuel IH]; intros id acc Hid; [done|]. simpl.
  rewrite decide_True by lia. apply IH.
  pose proof (wrap_in_width 16 (id + 1) ltac:(lia)) as Hw. unfold in_width in Hw. lia.
Qed.

Lemma makePorts_None dir : makePorts dir 65535 = None.
Proof. apply makePorts_loop_diverges. split; discriminate. Qed.

Lemma makePorts_range dir count ports :
  is_u16 count -> makePorts dir count = Some ports ->
  (count < 65535)%Z /\ ports = port_range dir 1 (Z.to_nat count).
Proof.
  intros Hc Hm. destruct (decide (count = 65535%Z)) as [->|Hne].
  { rewrite makePorts_None in Hm. discriminate. }
  unfold in_width in Hc. rewrite makePorts_Some in Hm by lia. simplify_eq.
  split; [lia|done].
Qed.

Lemma makePorts_wf dir count ports :
  is_u16 count -> makePorts dir count = Some ports -> ports_wf dir count ports.
Proof.
  intros Hc Hm. destruct (makePorts_range _ _ _ Hc Hm) as [_ ->].
  apply port_range_wf. unfold in_width in Hc. lia.
Qed.

Lemma matrix_of_none (v w : list (option Z)) :
  Forall (.= None) v -> Forall (.= None) w -> matrix_of (in_map ∅) v w.
Proof.
  rewrite !Forall_lookup. intros Hv Hw.
  split; intros i o; split;
    try (intros Hlk; first [apply Hv in Hlk|apply Hw in Hlk]; done);
    by intros (? & [k Hk%lookup_empty_Some] & _).
Qed.

Lemma conns_wf_empty nin nout : conns_wf nin nout ∅.
Proof. by intros k c Hk%lookup_empty_Some. Qed.
Lemma no_conflicts_empty : no_conflicts ∅.
Proof. by intros k1 k2 c1 c2 Hk%lookup_empty_Some. Qed.
Lemma cache_wf_empty : cache_wf ∅ [].
Proof.
  split; [apply NoDup_nil_2|]. split; [|done].
  intros k. rewrite lookup_empty. split; [set_solver|by intros [? ?]].
Qed.

Lemma constructor_wf info d :
  info_wf info -> SimulatedOcsDevice info = Some (Ok d) -> device_wf d.
Proof.
  intros (Hin & Hout & _). unfold SimulatedOcsDevice.
  destruct (makePorts PortDirection.kInput _) as [ips|] eqn:Hi; [|done]. simpl.
  destruct (makePorts PortDirection.kOutput _) as [ops|] eqn:Ho; [|done]. simpl.
  repeat case_bool_decide; simpl; [done..|]. intros [= <-].
  pose proof (makePorts_range _ _ _ Hin Hi). pose proof (makePorts_range _ _ _ Hout Ho).
  unfold in_width in *. constructor; simpl; rewrite ?length_replicate; try lia;
    auto using conns_wf_empty, no_conflicts_empty, cache_wf_empty.
  - apply matrix_of_none; apply Forall_forall; by intros ? [-> _]%elem_of_replicate.
  - by apply makePorts_wf.
  - by apply makePorts_wf.
Qed.

Lemma reset_wf mode d r d' : device_wf d -> reset mode d = Some (r, d') -> device_wf d'.
Proof.
  intros Hwf. pose proof (wf_in d Hwf) as Hin. pose proof (wf_out d Hwf) as Hout.
  unfold reset. rewrite !makePorts_Some by lia. simpl. intros [= <- <-].
  constructor; simpl; rewrite ?length_fmap; try lia;
    auto using conns_wf_empty, no_conflicts_empty, cache_wf_empty, wf_i2o, wf_o2i.
  - apply matrix_of_none; apply Forall_forall; by intros ? (? & -> & _)%list_elem_of_fmap.
  - apply port_range_wf. lia.
  - apply port_range_wf. lia.
Qed.

Lemma update_port_spec dir id f d :
  device_wf d -> (1 <= id <= port_count d dir)%Z ->
  exists p, ports_of d dir !! Z.to_nat (id - 1) = Some p /\
    update_port dir id f d
    = (Ok tt, match dir with
              | PortDirection.kInput =>
                  set_ports (<[Z.to_nat (id - 1) := f p]> (input_ports_ d)) (output_ports_ d) d
              | PortDirection.kOutput =>
                  set_ports (input_ports_ d) (<[Z.to_nat (id - 1) := f p]> (output_ports_ d)) d
              end).
Proof.
  intros Hwf Hid. destruct (wf_port_lookup d dir id Hwf Hid) as (p & Hp & _).
  exists p. split; [done|]. unfold update_port.
  pose proof (lookup_lt_Some _ _ _ Hp).
  rewrite (vec_at_Ok _ _ p) by (done || lia). simpl.
  rewrite vec_set_Ok by lia. by destruct dir.
Qed.

Lemma ports_wf_insert dir count ports i p :
  ports_wf dir count ports ->
  (i < length ports -> port_id p = (Z.of_nat i + 1)%Z /\ direction p = dir) ->
  ports_wf dir count (<[i := p]> ports).
Proof.
  intros [Hlen Hp] Hf. split; [by rewrite length_insert|].
  intros j q [(-> & <- & Hj)|[_ Hq]]%list_lookup_insert_Some; auto.
Qed.

Lemma update_port_wf dir id f d u d' :
  device_wf d -> (1 <= id <= port_count d dir)%Z ->
  (forall p, port_id (f p) = port_id p /\ direction (f p) = direction p) ->
  update_port dir id f d = (u, d') -> device_wf d'.
Proof.
  intros Hwf Hid Hf. destruct (update_port_spec dir id f d Hwf Hid) as (p & Hp & ->).
  destruct (wf_ports d dir Hwf) as [_ Hps]. destruct (Hps _ _ Hp) as [Hp1 Hp2].
  destruct (Hf p) as [Hf1 Hf2]. intros [= _ <-].
  destruct dir; apply wf_set_ports; auto using wf_inputs, wf_outputs;
    (apply ports_wf_insert; [auto using wf_inputs, wf_outputs|]); simpl in *; intros; split;
    congruence || lia.
Qed.

Lemma set_port_fault_wf t id st d r d' :
  device_wf d -> (0 <= id)%Z -> set_port_fault t id st d = (r, d') -> device_wf d'.
Proof.
  intros Hwf Hid. unfold set_port_fault. rewrite validatePort_ok by done.
  case_decide as Hr; simpl; [|by intros [= _ <-]].
  unfold mbind, prog_bind. destruct (update_port _ _ _ _) as [u d1] eqn:Hu.
  apply update_port_wf in Hu; [|done..]. by destruct u; intros [= _ <-].
Qed.

Lemma setPortAdminState_wf dir id b d r d' :
  device_wf d -> (0 <= id)%Z -> setPortAdminState dir id b d = (r, d') -> device_wf d'.
Proof.
  intros Hwf Hid. unfold setPortAdminState. rewrite validatePort_ok by done.
  case_decide as Hr; simpl; [|by intros [= _ <-]].
  unfold mbind, prog_bind. destruct (update_port _ _ _ _) as [u d1] eqn:Hu.
  apply update_port_wf in Hu; [|done..]. by destruct u; intros [= _ <-].
Qed.

(** Removing one connection clears exactly its two slots. *)
Lemma side_clear (f g : AppliedConnection -> Z) (v : list (option Z)) m k c :
  m !! k = Some c -> (1 <= f c <= Z.of_nat (length v))%Z ->
  (forall k1 k2 c1 c2, m !! k1 = Some c1 -> m !! k2 = Some c2 -> f c1 = f c2 -> k1 = k2) ->
  (forall i o, v !! i = Some (Some o) <->
     exists c', in_map m c' /\ f c' = (Z.of_nat i + 1)%Z /\ g c' = o) ->
  (forall i o, <[Z.to_nat (f c - 1) := None]> v !! i = Some (Some o) <->
     exists c', in_map (delete k m) c' /\ f c' = (Z.of_nat i + 1)%Z /\ g c' = o).
Proof.
  intros Hk Hr Hinj Hv i o. destruct (decide (i = Z.to_nat (f c - 1))) as [->|Hne].
  - rewrite list_lookup_insert_eq by lia. split; [done|].
    intros (c' & [k' [Hne Hk']%lookup_delete_Some] & Hf & _).
    destruct Hne. eapply Hinj; [done..|]. lia.
  - rewrite list_lookup_insert_ne, Hv by done. split; intros (c' & [k' Hk'] & Hf & Hg).
    + exists c'. split; [|done]. exists k'. apply lookup_delete_Some. split; [|done].
      intros <-. simplify_eq. lia.
    + apply lookup_delete_Some in Hk' as [_ Hk']. exists c'. split; [by exists k'|done].
Qed.

Lemma drift_step d k c rest :
  device_wf d -> sorted_items (connections_ d) = (k, c) :: rest ->
  exists i2o o2i, injectFault (mkFaultSpec FaultType.kOutOfBandDrift 0) d
    = (Ok (mkFaultResult success), set_matrix (delete k (connections_ d)) i2o o2i d)
    /\ device_wf (set_matrix (delete k (connections_ d)) i2o o2i d).
Proof.
  intros Hwf Hs. assert (connections_ d !! k = Some c) as Hk.
  { apply elem_of_sorted_items. rewrite Hs. apply list_elem_of_here. }
  destruct (wf_conns d Hwf k c Hk) as (_ & _ & Hi & Ho).
  destruct (wf_matrix d Hwf) as [Hm1 Hm2].
  pose proof (wf_i2o d Hwf). pose proof (wf_o2i d Hwf).
  pose proof (wf_bijective d Hwf) as Hb.
  unfold injectFault. simpl. rewrite Hs, !vec_set_Ok by lia.
  eexists _, _. split; [done|].
  apply wf_set_matrix; rewrite ?length_insert; try done.
  - intros k' c' [_ Hk']%lookup_delete_Some. by apply (wf_conns d Hwf).
  - intros k1 k2 c1 c2 [_ H1]%lookup_delete_Some [_ H2]%lookup_delete_Some. by apply Hb.
  - split; apply side_clear; try done; try lia; intros; eapply Hb; eauto.
Qed.

(** ** Reachable states *)

(** One call of a public method other than [reset]. *)
Inductive live_step : SimDevice -> SimDevice -> Prop :=
  | step_apply cs o r d d' : Forall command_ports_unsigned cs ->
      applyConnections cs o d = (r, d') -> live_step d d'
  | step_inject f r d d' : (0 <= fault_port f)%Z ->
      injectFault f d = (r, d') -> live_step d d'
  | step_clear f r d d' : (0 <= selector_port f)%Z ->
      clearFault f d = (r, d') -> live_step d d'
  | step_admin dir id b r d d' : (0 <= id)%Z ->
      setPortAdminState dir id b d = (r, d') -> live_step d d'
  | step_read dir id r d d' : getPortState dir id d = (r, d') -> live_step d d'.

(** One call of a public method. *)
Inductive device_step : SimDevice -> SimDevice -> Prop :=
  | step_live d d' : live_step d d' -> device_step d d'
  | step_reset mode r d d' : reset mode d = Some (r, d') -> device_step d d'.

Lemma getPortState_state dir id d : (getPortState dir id d).2 = d.
Proof. unfold getPortState. by case_match. Qed.

Lemma ports_wf_fmap dir count st ports :
  ports_wf dir count ports -> ports_wf dir count (set_oper st <$> ports).
Proof.
  intros [Hlen Hp]. split; [by rewrite length_fmap|].
  intros i p. rewrite list_lookup_fmap. intros (q & Hq & ->)%fmap_Some. destruct (Hp i q Hq). by split.
Qed.

Lemma injectFault_wf f r d d' :
  device_wf d -> (0 <= fault_port f)%Z -> injectFault f d = (r, d') -> device_wf d'.
Proof.
  intros Hwf Hp. destruct f as [t p]. destruct t;
    try (intros [= _ <-]; by auto with ocs); try (by apply set_port_fault_wf).
  destruct (sorted_items (connections_ d)) as [|[k c] rest] eqn:Hs.
  - unfold injectFault. simpl. rewrite Hs. by intros [= _ <-].
  - destruct (drift_step d k c rest Hwf Hs) as (i2o & o2i & Heq & Hwf').
    change (injectFault _ d) with (injectFault (mkFaultSpec FaultType.kOutOfBandDrift 0) d).
    rewrite Heq. by intros [= _ <-].
Qed.

Lemma clearFault_wf f r d d' :
  device_wf d -> (0 <= selector_port f)%Z -> clearFault f d = (r, d') -> device_wf d'.
Proof.
  intros Hwf Hp. destruct f as [t p]. destruct t;
    try (intros [= _ <-]; by auto with ocs); try (by apply set_port_fault_wf).
  intros [= _ <-]. apply wf_set_ports; [by auto with ocs|..];
    apply ports_wf_fmap; first [apply (wf_inputs d Hwf)|apply (wf_outputs d Hwf)].
Qed.

Lemma live_step_wf d d' : device_wf d -> live_step d d' -> device_wf d'.
Proof.
  intros Hwf. destruct 1 as [cs o r d d' Hcs Hrun|f r d d' ? Hi|f r d d' ? Hc|? ? ? ? ? ? ? Ha
                            |dir id r d d' Hg].
  - destruct (apply_cases cs o d Hwf Hcs)
      as [(r' & _ & Hrun')|(_ & r' & d1 & rs & order & Hrun' & Hs & Hcw & _)];
      rewrite Hrun' in Hrun; simplify_eq; [done|].
    apply wf_set_cache; [by eapply apply_spec_wf|done].
  - by eapply injectFault_wf.
  - by eapply clearFault_wf.
  - by eapply setPortAdminState_wf.
  - pose proof (getPortState_state dir id d) as Hst. rewrite Hg in Hst. by simplify_eq/=.
Qed.

Lemma device_step_wf d d' : device_wf d -> device_step d d' -> device_wf d'.
Proof. intros Hwf. destruct 1; eauto using live_step_wf, reset_wf. Qed.

(** C3: in every state the simulator reaches from construction, whatever calls it
    receives, the matrix is a partial bijection between in-range ports, both index
    vectors agree with the connection table, and the replay cache and its FIFO hold
    the same at most 4096 operation IDs. *)
Theorem device_reachable_wf info d0 d :
  info_wf info -> SimulatedOcsDevice info = Some (Ok d0) -> rtc device_step d0 d ->
  device_wf d.
Proof.
  intros Hinfo H0 Hsteps. apply constructor_wf in H0; [|done].
  clear Hinfo. induction Hsteps; [done|]. eauto using device_step_wf.
Qed.

(** ** How long a result stays replayable *)

(** [r] is cached under [k] with at most [n] newer entries. *)
Definition cached_age (k : string) (r : ApplyResult) (n : Z) (d : SimDevice) : Prop :=
  apply_results_ d !! k = Some r /\
  exists pre post, apply_result_order_ d = pre ++ k :: post /\ (Z.of_nat (length post) <= n)%Z.

Lemma cached_age_mono k r n n' d : (n <= n')%Z -> cached_age k r n d -> cached_age k r n' d.
Proof. intros ? (? & pre & post & ? & ?). split; [done|]. exists pre, post. split; [done|lia]. Qed.

Lemma finish_age k r n o r' d res d' :
  device_wf d -> cached_age k r n d -> (n < kMaxCachedApplyResults - 1)%Z ->
  operation_id o <> k -> finish o r' d = (res, d') -> cached_age k r (n + 1) d'.
Proof.
  intros Hwf (Hlk & pre & post & Ho & Hp) Hn Hne. unfold finish.
  case_bool_decide; [intros [= _ <-]; apply (cached_age_mono _ _ n); [lia|];
                     split; [done|]; by exists pre, post|].
  rewrite (size_order _ _ (wf_cache d Hwf)), Ho.
  case_decide as Hfull; intros [= _ <-]; unfold cached_age; simpl; rewrite lookup_insert_ne by done.
  - destruct pre as [|p pre]; simpl in *.
    { unfold kMaxCachedApplyResults in *. lia. }
    assert (p <> k) as Hpk.
    { destruct (wf_cache d Hwf) as [Hnd _]. rewrite Ho in Hnd. apply NoDup_cons in Hnd as [Hnd _].
      intros ->. destruct Hnd. set_solver. }
    rewrite lookup_delete_ne by done. split; [done|]. exists pre, (post ++ [operation_id o]).
    rewrite <-app_assoc, length_app. simpl. split; [done|lia].
  - split; [done|]. exists pre, (post ++ [operation_id o]).
    rewrite <-app_assoc, length_app. simpl. split; [done|lia].
Qed.

Lemma update_port_cache dir id f d u d' :
  update_port dir id f d = (u, d') ->
  apply_results_ d' = apply_results_ d /\ apply_result_order_ d' = apply_result_order_ d.
Proof. unfold update_port. intros H. repeat case_match; by simplify_eq/=. Qed.

Lemma port_write_cache {A} dir id f (a : A) d u d' :
  (update_port dir id f;; mret a) d = (u, d') ->
  apply_results_ d' = apply_results_ d /\ apply_result_order_ d' = apply_result_order_ d.
Proof.
  unfold mbind, prog_bind. destruct (update_port _ _ _ _) as [w d1] eqn:Hu.
  apply update_port_cache in Hu. by destruct w; intros [= _ <-].
Qed.

Lemma injectFault_cache f r d d' :
  injectFault f d = (r, d') ->
  apply_results_ d' = apply_results_ d /\ apply_result_order_ d' = apply_result_order_ d.
Proof.
  intros Hi. destruct f as [t p]. destruct t; unfold injectFault in Hi; simpl in Hi;
    try (by simplify_eq); try (repeat case_match; by simplify_eq);
    unfold set_port_fault in Hi; (case_match; [by simplify_eq|by apply port_write_cache in Hi]).
Qed.

Lemma clearFault_cache f r d d' :
  clearFault f d = (r, d') ->
  apply_results_ d' = apply_results_ d /\ apply_result_order_ d' = apply_result_order_ d.
Proof.
  intros Hc. destruct f as [t p]. destruct t; unfold clearFault in Hc; simpl in Hc;
    try (by simplify_eq);
    unfold set_port_fault in Hc; (case_match; [by simplify_eq|by apply port_write_cache in Hc]).
Qed.

Lemma other_calls_cache d d' :
  live_step d d' ->
  (exists cs o r, Forall command_ports_unsigned cs /\ applyConnections cs o d = (r, d')) \/
  (apply_results_ d' = apply_results_ d /\ apply_result_order_ d' = apply_result_order_ d).
Proof.
  destruct 1 as [cs o r d d' Hcs Hrun|f r d d' ? Hi|f r d d' ? Hc|? ? ? ? ? ? ? Ha
                |dir id r d d' Hg]; [left; by eauto|right..].
  - by apply injectFault_cache in Hi.
  - by apply clearFault_cache in Hc.
  - unfold setPortAdminState in Ha. case_match; [by simplify_eq|by apply port_write_cache in Ha].
  - pose proof (getPortState_state dir id d) as Hst. rewrite Hg in Hst. by simplify_eq/=.
Qed.

Lemma live_step_age k r n d d' :
  device_wf d -> k <> "" -> cached_age k r n d -> (n < kMaxCachedApplyResults - 1)%Z ->
  live_step d d' -> cached_age k r (n + 1) d'.
Proof.
  intros Hwf Hk Hage Hn Hstep.
  destruct (other_calls_cache d d' Hstep) as [(cs & o & res & Hcs & Hrun)|[Hr Ho]].
  - destruct (cached_result o d) as [r0|] eqn:Hc.
    { rewrite (cached_result_spec _ _ _ _ Hc) in Hrun. simplify_eq.
      by apply (cached_age_mono _ _ n); [lia|]. }
    destruct (applyConnections_finish cs o d Hwf Hcs Hc) as (r1 & d1 & Heq & Hs).
    rewrite Heq in Hrun. destruct (apply_spec_cache _ _ _ _ _ Hs) as [Hr1 Ho1].
    apply (finish_age k r n o r1 d1 res); [by eapply apply_spec_wf| |done| |done].
    + unfold cached_age. by rewrite Hr1, Ho1.
    + intros <-. destruct Hage as [Hlk _]. unfold cached_result in Hc.
      rewrite bool_decide_eq_false_2 in Hc by done. congruence.
  - apply (cached_age_mono _ _ n); [lia|]. unfold cached_age. by rewrite Hr, Ho.
Qed.

Lemma live_steps_age k r m : forall n d d',
  device_wf d -> k <> "" -> cached_age k r n d ->
  (n + Z.of_nat m <= kMaxCachedApplyResults - 1)%Z ->
  nsteps live_step m d d' -> cached_age k r (n + Z.of_nat m) d'.
Proof.
  induction m as [|m IH]; intros n d d' Hwf Hk Hage Hn Hsteps; inversion Hsteps as [|? ? y]; subst.
  - by replace (n + Z.of_nat 0)%Z with n by lia.
  - replace (n + Z.of_nat (S m))%Z with (n + 1 + Z.of_nat m)%Z by lia.
    apply (IH (n + 1)%Z y); eauto using live_step_wf; [|lia].
    apply (live_step_age k r n d); [done..|lia|done].
Qed.

Lemma finish_stores o r d res d' :
  device_wf d -> operation_id o <> "" -> apply_results_ d !! operation_id o = None ->
  finish o r d = (res, d') -> cached_age (operation_id o) r 0 d'.
Proof.
  intros Hwf Hid Hfresh. unfold finish. rewrite bool_decide_eq_false_2 by done.
  case_decide; intros [= _ <-]; (split; [apply lookup_insert_eq|]);
    eexists _, []; simpl; (split; [done|lia]).
Qed.

Lemma replay_window cs cs' o o' d r d1 n d2 :
  device_wf d -> Forall command_ports_unsigned cs ->
  operation_id o <> "" -> operation_id o' = operation_id o -> cached_result o d = None ->
  applyConnections cs o d = (Ok r, d1) ->
  nsteps live_step n d1 d2 -> (Z.of_nat n <= 4095)%Z ->
  applyConnections cs' o' d2 = (Ok r, d2).
Proof.
  intros Hwf Hcs Hid Hid' Hfresh Hrun Hsteps Hn.
  destruct (applyConnections_finish cs o d Hwf Hcs Hfresh) as (r1 & d0 & Heq & Hs).
  rewrite Heq in Hrun.
  assert (device_wf d0) as Hwf0 by (by eapply apply_spec_wf).
  assert (apply_results_ d0 !! operation_id o = None) as Hnone.
  { destruct (apply_spec_cache _ _ _ _ _ Hs) as [-> _].
    unfold cached_result in Hfresh. by rewrite bool_decide_eq_false_2 in Hfresh. }
  assert (r1 = r) as ->.
  { destruct (finish_spec o r1 d0 Hwf0 (or_intror Hnone)) as (? & ? & Hf & _). congruence. }
  pose proof (finish_stores o r d0 _ _ Hwf0 Hid Hnone Hrun) as Hage.
  assert (device_wf d1) as Hwf1.
  { destruct (finish_spec o r d0 Hwf0 (or_intror Hnone)) as (? & ? & Hf & ? & _).
    rewrite Hf in Hrun. simplify_eq. by apply wf_set_cache. }
  destruct (live_steps_age (operation_id o) r n 0 d1 d2 Hwf1 Hid Hage) as [Hlk _].
  { unfold kMaxCachedApplyResults. lia. }
  { done. }
  apply cached_result_spec. unfold cached_result. rewrite Hid'.
  by rewrite bool_decide_eq_false_2.
Qed.

(** A result of another operation is kept or forgotten, never changed. *)
Lemma apply_other_result cs o d r d' k x :
  device_wf d -> Forall command_ports_unsigned cs -> applyConnections cs o d = (r, d') ->
  k <> operation_id o -> apply_results_ d' !! k = Some x -> apply_results_ d !! k = Some x.
Proof.
  intros Hwf Hcs Hrun Hk. destruct (cached_result o d) as [r0|] eqn:Hc.
  { rewrite (cached_result_spec _ _ _ _ Hc) in Hrun. by simplify_eq. }
  destruct (applyConnections_finish cs o d Hwf Hcs Hc) as (r1 & d1 & Heq & Hs).
  rewrite Heq in Hrun. destruct (apply_spec_cache _ _ _ _ _ Hs) as [<- _]. revert Hrun.
  unfold finish. case_bool_decide; [by intros [= _ <-]|].
  case_decide; intros [= _ <-]; simpl; rewrite lookup_insert_ne by done; [|done].
  by intros [_ ?]%lookup_delete_Some.
Qed.

(** C34: the replay window: after an apply that was itself new (its operation ID had no
    cached result), any 4095 further calls (other than a reset) still leave its result in
    the cache, so repeating the operation returns the original result
    (docs/redis-schema.md, "retains at most 4096 operation results").  A replay does not
    renew the window: it is counted from the apply that was new. *)
Theorem apply_replay_window cs cs' o o' d r d1 n d2 :
  device_wf d -> Forall command_ports_unsigned cs ->
  operation_id o <> "" -> operation_id o' = operation_id o -> cached_result o d = None ->
  applyConnections cs o d = (Ok r, d1) ->
  nsteps live_step n d1 d2 -> (Z.of_nat n <= 4095)%Z ->
  applyConnections cs' o' d2 = (Ok r, d2).
Proof. apply replay_window. Qed.
