(* ===== verification/SimDeviceFaults.v ===== *)
(** * The simulated matrix: termination of construction, faults, reset and versions. *)
From S2P Require Import Prelude.
From S2P Require Import Errors.
From S2P Require Import Types.
From S2P Require Import SimDevice.
From S2P Require Import SimDeviceInv.
From S2P Require Import SimDeviceProps.
From stdpp Require Import options.

(** ** makePorts: when its loop ends *)

(** C40: the port loop of the constructor and of [reset] ends for every count but
    65535, where the 16-bit index wraps to 0 before it exceeds the count. *)
Theorem makePorts_terminates_iff dir count :
  is_u16 count ->
  (exists fuel ports, makePorts_loop fuel dir count 1 [] = Some ports)
  <-> count <> 65535%Z.
Proof.
  intros [Hc1 Hc2]. split.
  - intros (fuel & ports & Hm) ->. rewrite makePorts_loop_diverges in Hm by (split; discriminate).
    discriminate.
  - intros Hne. exists (S (Z.to_nat count)), (port_range dir 1 (Z.to_nat count)).
    apply (makePorts_Some dir count). lia.
Qed.

(** ** Versions *)

Definition version_of (d : SimDevice) (k : string) : Z := default 0%Z (last_versions_ d !! k).

Lemma record_versions_lookup cs vs k :
  record_versions cs vs !! k
  = match last (filter (fun c => cmd_id c = k /\ desired_version c <> 0%Z) cs) with
    | Some c => Some (desired_version c)
    | None => vs !! k
    end.
Proof.
  unfold record_versions. revert vs. induction cs as [|c cs IH]; intros vs; [done|].
  simpl. rewrite IH, filter_cons. destruct (decide (cmd_id c = k /\ desired_version c <> 0%Z)) as [[Hk Hv]|Hn].
  - rewrite last_cons. destruct (last _); [done|]. rewrite bool_decide_eq_false_2 by done.
    by rewrite Hk, lookup_insert_eq.
  - destruct (last _); [done|]. case_bool_decide; [done|].
    apply lookup_insert_ne. naive_solver.
Qed.

Lemma is_stale_false d c :
  is_stale d c = false -> desired_version c = 0%Z \/ (version_of d (cmd_id c) <= desired_version c)%Z
    \/ last_versions_ d !! cmd_id c = None.
Proof.
  unfold is_stale, version_of. case_bool_decide; [by left|]. simpl.
  destruct (last_versions_ d !! cmd_id c) as [v|]; [|by auto].
  case_bool_decide; [done|]. simpl. intros _. right. left. lia.
Qed.

(** A successful fresh apply never lowers the last version of a connection, so a
    version once accepted stays a lower bound for the connection. *)
Theorem apply_versions_monotone cs o d r d' k :
  device_wf d -> Forall command_wf cs -> cached_result o d = None ->
  applyConnections cs o d = (Ok r, d') ->
  (version_of d k <= version_of d' k)%Z.
Proof.
  intros Hwf Hcs Hfresh Hrun.
  assert (Forall command_ports_unsigned cs) as Hports.
  { eapply Forall_impl; [done|]. intros c ([? _] & [? _] & _). by split. }
  destruct (applyConnections_refines cs o d Hwf Hports Hfresh)
    as (r' & d1 & rs & order & Hrun' & Hs & _).
  rewrite Hrun' in Hrun. simplify_eq. change (version_of (set_cache rs order d1) k) with (version_of d1 k).
  destruct Hs; try done.
  unfold version_of. simpl. rewrite record_versions_lookup.
  destruct (last _) as [c|] eqn:Hl; [|done].
  apply last_Some in Hl as [l' Hl].
  assert (c ∈ filter (fun c => cmd_id c = k /\ desired_version c <> 0%Z) cs) as Hc
    by (rewrite Hl; set_solver).
  apply list_elem_of_filter in Hc as [[Hk Hv] Hc].
  assert (is_stale d c = false) as Hst.
  { apply rejection_None in H as (_ & Hst & _). rewrite existsb_Forall, Forall_forall in Hst. auto. }
  simpl. rewrite Forall_forall in Hcs. destruct (Hcs c Hc) as (_ & _ & [? _]).
  apply is_stale_false in Hst as [?|[Hle|Hn]]; [done|by rewrite <-Hk|].
  rewrite <-Hk, Hn. done.
Qed.

(** ** Port faults *)

Definition port_fault (dir : PortDirection.t) : FaultType.t :=
  match dir with
  | PortDirection.kInput => FaultType.kInputPortDown
  | PortDirection.kOutput => FaultType.kOutputPortDown
  end.

(** The port of a command on one side. *)
Definition command_port (dir : PortDirection.t) (c : ConnectionCommand) : Z :=
  match dir with
  | PortDirection.kInput => cmd_input_port c
  | PortDirection.kOutput => cmd_output_port c
  end.

Definition set_dir_ports (dir : PortDirection.t) ports (d : SimDevice) : SimDevice :=
  match dir with
  | PortDirection.kInput => set_ports ports (output_ports_ d) d
  | PortDirection.kOutput => set_ports (input_ports_ d) ports d
  end.

Lemma port_fault_dir dir : fault_direction (port_fault dir) = dir.
Proof. by destruct dir. Qed.

Lemma inject_port_fault dir id d :
  injectFault (mkFaultSpec (port_fault dir) id) d
  = set_port_fault (port_fault dir) id PortOperStatus.kDown d.
Proof. by destruct dir. Qed.

Lemma clear_port_fault dir id d :
  clearFault (mkFaultSelector (port_fault dir) id) d
  = set_port_fault (port_fault dir) id PortOperStatus.kUp d.
Proof. by destruct dir. Qed.

Lemma set_port_fault_spec dir id st d :
  device_wf d -> (1 <= id <= port_count d dir)%Z ->
  exists p, ports_of d dir !! Z.to_nat (id - 1) = Some p /\
    set_port_fault (port_fault dir) id st d
    = (Ok (mkFaultResult success),
       set_dir_ports dir (<[Z.to_nat (id - 1) := set_oper st p]> (ports_of d dir)) d).
Proof.
  intros Hwf Hid. destruct (update_port_spec dir id (set_oper st) d Hwf Hid) as (p & Hp & Hu).
  exists p. split; [done|]. unfold set_port_fault. rewrite port_fault_dir.
  rewrite validatePort_ok by lia. rewrite decide_True by done. simpl.
  unfold mbind, prog_bind. rewrite Hu. by destruct dir.
Qed.

Lemma ports_of_set dir ports d : ports_of (set_dir_ports dir ports d) dir = ports.
Proof. by destruct dir. Qed.

Lemma port_count_set dir dir' ports d : port_count (set_dir_ports dir ports d) dir' = port_count d dir'.
Proof. by destruct dir, dir'. Qed.

Lemma set_dir_ports_twice dir p1 p2 d :
  set_dir_ports dir p2 (set_dir_ports dir p1 d) = set_dir_ports dir p2 d.
Proof. by destruct dir. Qed.

Lemma set_dir_ports_id dir d : set_dir_ports dir (ports_of d dir) d = d.
Proof. by destruct dir, d. Qed.

Lemma down_port_error d dir id p :
  (1 <= id <= port_count d dir)%Z ->
  ports_of d dir !! Z.to_nat (id - 1) = Some p -> oper_status p <> PortOperStatus.kUp ->
  is_Some (port_error d dir id).
Proof.
  intros Hid Hp Hup. unfold port_error. rewrite decide_True, Hp by done.
  destruct (admin_enabled p); [|by eexists]. rewrite decide_False by done. by eexists.
Qed.

(** A port-down fault on an operational port blocks every later fresh batch that
    connects the port, and clearing it gives back exactly the device before the
    fault. *)
Theorem port_fault_blocks_and_clears dir id d :
  device_wf d -> (1 <= id <= port_count d dir)%Z ->
  (forall p, ports_of d dir !! Z.to_nat (id - 1) = Some p -> oper_status p = PortOperStatus.kUp) ->
  exists d1,
    injectFault (mkFaultSpec (port_fault dir) id) d = (Ok (mkFaultResult success), d1) /\
    (forall cs o c r d2, Forall command_ports_unsigned cs -> cached_result o d1 = None ->
       c ∈ cs -> operation c = ConnectionOperation.kUpsert -> command_port dir c = id ->
       applyConnections cs o d1 = (Ok r, d2) -> apply_ok r = false) /\
    clearFault (mkFaultSelector (port_fault dir) id) d1 = (Ok (mkFaultResult success), d).
Proof.
  intros Hwf Hid Hup. destruct (set_port_fault_spec dir id PortOperStatus.kDown d Hwf Hid) as (p & Hp & Hs).
  rewrite inject_port_fault, Hs. eexists. split; [done|].
  assert (Hwf1 := set_port_fault_wf _ id _ _ _ _ Hwf (ltac:(lia) : (0 <= id)%Z) Hs).
  set (d1 := set_dir_ports dir _ d) in *.
  assert (ports_of d1 dir !! Z.to_nat (id - 1) = Some (set_oper PortOperStatus.kDown p)) as Hp1.
  { unfold d1. rewrite ports_of_set. apply list_lookup_insert_eq. by eapply lookup_lt_Some. }
  assert (1 <= id <= port_count d1 dir)%Z as Hid1 by (unfold d1; by rewrite port_count_set).
  split.
  - intros cs o c r d2 Hcs Hfresh Hc Hop Hport Hrun. apply not_true_is_false. intros Hok.
    destruct (applyConnections_refines cs o d1 Hwf1 Hcs Hfresh)
      as (r' & d3 & rs & order & Hrun' & Hsp & _).
    rewrite Hrun' in Hrun. simplify_eq.
    assert (rejection cs o d1 = None) as Hrej.
    { destruct Hsp; try done. unfold apply_ok in Hok. simpl in Hok.
      by rewrite (rejection_not_ok _ _ _ _ H) in Hok. }
    apply rejection_None in Hrej as (_ & _ & Hall). rewrite Forall_forall in Hall.
    specialize (Hall c Hc). unfold command_error in Hall. case_decide; [done|].
    rewrite Hop in Hall.
    destruct (down_port_error d1 dir (command_port dir c) _ Hid1 Hp1) as [e He]; [done|].
    destruct dir; simpl in He; rewrite He in Hall; [done|].
    by destruct (port_error d1 PortDirection.kInput _).
  - rewrite clear_port_fault.
    destruct (set_port_fault_spec dir id PortOperStatus.kUp d1 Hwf1 Hid1) as (q & Hq & ->).
    rewrite Hp1 in Hq. simplify_eq. unfold d1.
    rewrite set_dir_ports_twice, ports_of_set, list_insert_insert_eq. do 2 f_equal.
    rewrite list_insert_id; [by rewrite set_dir_ports_id|].
    rewrite Hp. f_equal. specialize (Hup p Hp). destruct p; simpl in *. unfold set_oper. simpl. congruence.
Qed.

(** ** Reset *)

(** A reset of a well-formed device returns, drops every connection, version,
    replay entry and armed fault, and makes every port of the matrix usable; only a
    hard reset advances the 64-bit generation, which wraps. *)
Theorem reset_restores_a_fresh_device mode d :
  device_wf d ->
  exists d' g, reset mode d = Some (Ok (mkResetResult success g), d') /\ device_wf d' /\
    g = generation (info_ d') /\
    g = (match mode with
         | ResetMode.kHard => u64 (generation (info_ d) + 1)
         | ResetMode.kSoft => generation (info_ d)
         end) /\
    connections_ d' = ∅ /\ fail_next_apply_ d' = false /\ timeout_next_apply_ d' = false /\
    (forall o, cached_result o d' = None) /\ (forall c, is_stale d' c = false) /\
    (forall dir id, port_error d' dir id = None <-> (1 <= id <= port_count d dir)%Z).
Proof.
  intros Hwf. pose proof (wf_in d Hwf) as Hin. pose proof (wf_out d Hwf) as Hout.
  assert (Hr : is_Some (reset mode d)).
  { unfold reset. rewrite !makePorts_Some by lia. by eexists. }
  destruct Hr as [[r d'] Hr]. pose proof (reset_wf _ _ _ _ Hwf Hr) as Hwf'.
  unfold reset in Hr. rewrite !makePorts_Some in Hr by lia. simpl in Hr.
  injection Hr as Hr1 Hd'. exists d'. eexists. split.
  { unfold reset. rewrite !makePorts_Some by lia. simpl. by rewrite Hd'. }
  split; [done|]. subst d'. simpl. split_and!; try done.
  - intros o. unfold cached_result. by case_bool_decide.
  - intros c. unfold is_stale. simpl. by destruct (negb _).
  - intros dir id. unfold port_error.
    destruct dir; simpl; (case_decide as Hd; [|naive_solver]); split; try done; intros _;
      (match goal with |- context [port_range ?dr ?a ?n !! ?i] =>
         destruct (lookup_lt_is_Some_2 (port_range dr a n) i) as [p Hp];
         [unfold port_range; rewrite length_fmap, length_seq; lia|] end);
      rewrite Hp; unfold port_range in Hp; rewrite list_lookup_fmap in Hp;
      apply fmap_Some in Hp as (j & _ & ->); done.
Qed.

(** ** Out-of-band drift *)

(** A connection carries the last version of its ID, or no version at all. *)
Definition versions_agree (d : SimDevice) : Prop :=
  forall k c, connections_ d !! k = Some c ->
    applied_version c = 0%Z \/ last_versions_ d !! k = Some (applied_version c).

Lemma last_filter_weaken {A} (P Q : A -> Prop) `{forall x, Decision (P x), forall x, Decision (Q x)} l a :
  last (filter P l) = Some a -> Q a -> last (filter (fun x => P x /\ Q x) l) = Some a.
Proof.
  induction l as [|b l IH]; [done|]. rewrite !filter_cons. intros Hl Ha.
  destruct (decide (P b)) as [HP|HP].
  - rewrite last_cons in Hl. destruct (last (filter P l)) as [x|] eqn:Hx.
    + simplify_eq. case_decide; [rewrite last_cons|]; by rewrite IH.
    + simplify_eq. rewrite decide_True by done. rewrite last_cons.
      apply last_None in Hx. assert (filter (fun x => P x /\ Q x) l = []) as ->; [|done].

      destruct (filter (fun x => P x /\ Q x) l) as [|y ys] eqn:Hy; [done|].
      assert (y ∈ filter (fun x => P x /\ Q x) l) as Hin by (rewrite Hy; apply list_elem_of_here).
      apply list_elem_of_filter in Hin as [[HPy _] Hin].
      assert (y ∈ filter P l) as Hin' by (by apply list_elem_of_filter).
      rewrite Hx in Hin'. by apply elem_of_nil in Hin'.
  - rewrite decide_False by naive_solver. by apply IH.
Qed.

Lemma commit_versions_agree cs i2o o2i d :
  versions_agree d -> versions_agree (commit cs i2o o2i d).
Proof.
  intros Hd k c. unfold commit. simpl. rewrite apply_commands_lookup, record_versions_lookup.
  unfold command_effect, last_command. destruct (last (filter _ cs)) as [cmd|] eqn:Hl.
  - destruct (operation cmd); [|done]. intros [= <-]. simpl.
    destruct (decide (desired_version cmd = 0%Z)); [by left|right].
    by rewrite (last_filter_weaken (fun c => cmd_id c = k) (fun c => desired_version c <> 0%Z) _ cmd).
  - intros Hc. destruct (Hd k c Hc) as [?|Hv]; [by left|right].
    apply last_None in Hl.
    destruct (last (filter _ _)) as [x|] eqn:Hx; [|done].
    apply last_Some in Hx as [l' Hx].
    assert (x ∈ filter (fun c => cmd_id c = k /\ desired_version c <> 0%Z) cs) as Hin
      by (rewrite Hx; set_solver).
    apply list_elem_of_filter in Hin as [[Hk _] Hin].
    assert (x ∈ filter (fun c => cmd_id c = k) cs) as Hin' by (by apply list_elem_of_filter).
    rewrite Hl in Hin'. by apply elem_of_nil in Hin'.
Qed.

Lemma update_port_switch dir id f d u d' :
  update_port dir id f d = (u, d') ->
  connections_ d' = connections_ d /\ last_versions_ d' = last_versions_ d.
Proof. unfold update_port. intros H. repeat case_match; by simplify_eq/=. Qed.

Lemma port_write_switch {A} dir id f (a : A) d u d' :
  (update_port dir id f;; mret a) d = (u, d') ->
  connections_ d' = connections_ d /\ last_versions_ d' = last_versions_ d.
Proof.
  unfold mbind, prog_bind. destruct (update_port _ _ _ _) as [w d1] eqn:Hu.
  apply update_port_switch in Hu. by destruct w; intros [= _ <-].
Qed.

Lemma versions_agree_switch d d' :
  connections_ d' = connections_ d /\ last_versions_ d' = last_versions_ d ->
  versions_agree d -> versions_agree d'.
Proof. unfold versions_agree. by intros [-> ->]. Qed.

Lemma versions_agree_delete k i2o o2i d :
  versions_agree d -> versions_agree (set_matrix (delete k (connections_ d)) i2o o2i d).
Proof. intros Hd k' c. simpl. intros [_ Hc]%lookup_delete_Some. by apply Hd. Qed.

Lemma device_step_versions_agree d d' :
  device_wf d -> device_step d d' -> versions_agree d -> versions_agree d'.
Proof.
  intros Hwf Hstep Hv. destruct Hstep as [d d' Hstep|mode r d d' Hr].
  - destruct Hstep as [cs o r d d' Hcs Hrun|f r d d' ? Hi|f r d d' ? Hc|? ? ? ? ? ? ? Ha
                      |dir id r d d' Hg].
    + destruct (apply_cases cs o d Hwf Hcs)
        as [(r' & _ & Hrun')|(_ & r' & d1 & rs & order & Hrun' & Hs & _)];
        rewrite Hrun' in Hrun; simplify_eq; [done|].
      apply (versions_agree_switch d1); [done|].
      destruct Hs; try done. by apply commit_versions_agree.
    + destruct f as [t p]. destruct t; try (revert Hi; intros [= _ <-]; done);
        try (revert Hi; unfold injectFault, set_port_fault; simpl; case_match;
             [by intros [= _ <-]|intros Hi; apply port_write_switch in Hi;
              by eapply versions_agree_switch]).
      destruct (sorted_items (connections_ d)) as [|[k c] rest] eqn:Hs.
      * unfold injectFault in Hi. simpl in Hi. rewrite Hs in Hi. by simplify_eq.
      * destruct (drift_step d k c rest Hwf Hs) as (i2o & o2i & Heq & _).
        change (injectFault _ d) with (injectFault (mkFaultSpec FaultType.kOutOfBandDrift 0) d) in Hi.
        rewrite Heq in Hi. simplify_eq. by apply versions_agree_delete.
    + destruct f as [t p]. destruct t; try (revert Hc; intros [= _ <-]; done);
        (revert Hc; unfold clearFault, set_port_fault; simpl; case_match;
         [by intros [= _ <-]|intros Hc; apply port_write_switch in Hc;
          by eapply versions_agree_switch]).
    + unfold setPortAdminState in Ha. case_match; [by simplify_eq|].
      apply port_write_switch in Ha. by eapply versions_agree_switch.
    + pose proof (getPortState_state dir id d) as Hst. rewrite Hg in Hst. by simplify_eq/=.
  - pose proof (wf_in d Hwf). pose proof (wf_out d Hwf).
    unfold reset in Hr. rewrite !makePorts_Some in Hr by lia. simplify_eq/=.
    intros k c Hk. simpl in Hk. by apply lookup_empty_Some in Hk.
Qed.

Lemma device_steps_versions_agree d d' :
  device_wf d -> rtc device_step d d' -> versions_agree d -> versions_agree d'.
Proof.
  intros Hwf Hs. induction Hs; [done|].
  eauto using device_step_wf, device_step_versions_agree.
Qed.

(** The index vectors are determined by the connections. *)
Lemma side_unique (P : nat -> Z -> Prop) (v w : list (option Z)) :
  length v = length w ->
  (forall i o, v !! i = Some (Some o) <-> P i o) ->
  (forall i o, w !! i = Some (Some o) <-> P i o) -> v = w.
Proof.
  intros Hlen Hv Hw. apply list_eq_same_length with (length w); [done..|].
  intros i x y _ Hx Hy. destruct x as [o|].
  - apply Hv, Hw in Hx. congruence.
  - destruct y as [o|]; [|done]. apply Hw, Hv in Hy. congruence.
Qed.

Lemma matrix_unique d d' :
  device_wf d -> device_wf d' -> info_ d = info_ d' -> connections_ d = connections_ d' ->
  input_to_output_ d = input_to_output_ d' /\ output_to_input_ d = output_to_input_ d'.
Proof.
  intros Hwf Hwf' Hi Hc.
  destruct (wf_matrix d Hwf) as [H1 H2]. destruct (wf_matrix d' Hwf') as [H1' H2'].
  rewrite <-Hc in H1', H2'.
  pose proof (wf_i2o d Hwf). pose proof (wf_o2i d Hwf).
  pose proof (wf_i2o d' Hwf'). pose proof (wf_o2i d' Hwf'). rewrite Hi in *.
  split; [eapply side_unique; [lia|exact H1|exact H1']|eapply side_unique; [lia|exact H2|exact H2']].
Qed.

(** The command that reinstalls a connection. *)
Definition reinstall (c : AppliedConnection) : ConnectionCommand :=
  mkCommand ConnectionOperation.kUpsert (app_id c) (app_input_port c) (app_output_port c)
    (applied_version c).

(** Out-of-band drift loses the first connection in ID order and nothing else, and
    one UPSERT of the lost connection at its own version repairs it: on any reachable
    device with no armed fault and both ports usable, the connections and both index
    vectors are those before the drift. *)
Theorem drift_is_repaired info d0 d k c rest o :
  info_wf info -> SimulatedOcsDevice info = Some (Ok d0) -> rtc device_step d0 d ->
  sorted_items (connections_ d) = (k, c) :: rest ->
  fail_next_apply_ d = false -> timeout_next_apply_ d = false ->
  port_error d PortDirection.kInput (app_input_port c) = None ->
  port_error d PortDirection.kOutput (app_output_port c) = None ->
  opt_atomic o = true -> cached_result o d = None ->
  exists d1 r d2,
    injectFault (mkFaultSpec FaultType.kOutOfBandDrift 0) d = (Ok (mkFaultResult success), d1) /\
    connections_ d1 = delete k (connections_ d) /\
    applyConnections [reinstall c] o d1 = (Ok r, d2) /\ apply_ok r = true /\
    apply_connections r = [c] /\ connections_ d2 = connections_ d /\
    input_to_output_ d2 = input_to_output_ d /\ output_to_input_ d2 = output_to_input_ d.
Proof.
  intros Hinfo H0 Hsteps Hs Hf Ht Hpi Hpo Ha Hfresh.
  assert (device_wf d0) as Hwf0 by (by eapply constructor_wf).
  assert (device_wf d) as Hwf by (clear -Hwf0 Hsteps; induction Hsteps; eauto using device_step_wf).
  assert (versions_agree d) as Hv.
  { apply (device_steps_versions_agree d0); [done..|]. revert H0. unfold SimulatedOcsDevice.
    destruct (makePorts PortDirection.kInput _); [|discriminate]. simpl.
    destruct (makePorts PortDirection.kOutput _); [|discriminate]. simpl.
    repeat case_bool_decide; simpl; [done..|]. intros [= <-] k' c' Hk. simpl in Hk. by apply lookup_empty_Some in Hk. }
  assert (connections_ d !! k = Some c) as Hk.
  { apply elem_of_sorted_items. rewrite Hs. apply list_elem_of_here. }
  destruct (wf_conns d Hwf k c Hk) as (Hid & Hne & Hi & Ho).
  destruct (drift_step d k c rest Hwf Hs) as (i2o & o2i & Hinj & Hwf1).
  set (d1 := set_matrix _ _ _ _) in *.
  assert (Forall command_ports_unsigned [reinstall c]) as Hcs.
  { constructor; [|done]. split; simpl; lia. }
  assert (apply_commands [reinstall c] (connections_ d1) = connections_ d) as Hsame.
  { simpl. unfold apply_command. simpl. rewrite Hid, insert_delete_eq.
    apply insert_id. rewrite Hk. by destruct c. }
  destruct (applyConnections_refines [reinstall c] o d1 Hwf1 Hcs Hfresh)
    as (r & d2 & rs & order & Hrun & Hsp & Hcw & _).
  assert (rejection [reinstall c] o d1 = None) as Hrej.
  { apply rejection_None. split; [done|]. split.
    - simpl. rewrite orb_false_r. unfold is_stale. simpl. rewrite Hid.
      destruct (Hv k c Hk) as [->|Hl]; [done|]. rewrite Hl, (bool_decide_eq_false_2 (_ < _)%Z) by lia.
      apply andb_false_r.
    - constructor; [|done]. unfold command_error. simpl. rewrite Hid, decide_False by done.
      change (port_error d1) with (port_error d). by rewrite Hpi. }
  exists d1, r. eexists. split; [done|]. split; [done|]. split; [done|].
  assert (device_wf (set_cache rs order d2)) as Hwf2
    by (apply wf_set_cache; [by eapply apply_spec_wf|done]).
  pose proof (wf_bijective d Hwf) as Hb. rewrite <-Hsame in Hb.
  change (fail_next_apply_ d) with (fail_next_apply_ d1) in Hf.
  change (timeout_next_apply_ d) with (timeout_next_apply_ d1) in Ht.
  destruct Hsp as [? ?|? ? ?|? ? ?|? ? ? ?|i2o' o2i' ? ? ? ? ? ?];
    try (congruence || contradiction).
  assert (connections_ (set_cache rs order (commit [reinstall c] i2o' o2i' d1)) = connections_ d)
    as Hc2 by done.
  split; [done|]. split.
  { change (changed_connections (apply_commands [reinstall c] (connections_ d1)) [reinstall c] = [c]).
    rewrite Hsame. simpl. by rewrite Hid, Hk. }
  split; [done|]. by apply matrix_unique.
Qed.
