(* ===== verification/DeviceApi.v ===== *)
(** * device_api.hpp and in_process_sim_backend.{hpp,cpp}: the interface every
    backend implements, as a type class, and the in-process backend.

    A method returns [None] when the call never returns (only [reset] and the
    constructor can, see SimDeviceFaults.v), and otherwise a value or a thrown
    exception with the new state. *)
From S2P Require Import Prelude.
From S2P Require Import Errors.
From S2P Require Import Types.
From S2P Require Import SimDevice.
From stdpp Require Import options.

Definition call (S A : Type) : Type := S -> option (result A * S).
Definition returns {S A} (m : prog S A) : call S A := fun s => Some (m s).

Class OcsDeviceApi (S : Type) := {
  api_getDeviceInfo : call S DeviceInfo;
  api_getHealth : call S DeviceHealth;
  api_applyConnections : list ConnectionCommand -> ApplyOptions -> call S ApplyResult;
  api_getConnections : call S (list AppliedConnection);
  api_getInputPortState : PortId -> call S PortState;
  api_getOutputPortState : PortId -> call S PortState;
  api_reset : ResetMode.t -> call S ResetResult;
  api_injectFault : FaultSpec -> call S FaultResult;
  api_clearFault : FaultSelector -> call S FaultResult;
}.

(** The state of the in-process backend is the device it points to. *)
#[export] Instance InProcessSimBackend : OcsDeviceApi SimDevice := {
  api_getDeviceInfo := returns getDeviceInfo;
  api_getHealth := returns getHealth;
  api_applyConnections commands options := returns (applyConnections commands options);
  api_getConnections := returns getConnections;
  api_getInputPortState id := returns (getPortState PortDirection.kInput id);
  api_getOutputPortState id := returns (getPortState PortDirection.kOutput id);
  api_reset := reset;
  api_injectFault fault := returns (injectFault fault);
  api_clearFault selector := returns (clearFault selector);
}.

(** The constructor from a shared pointer, which may be null. *)
Definition InProcessSimBackend_make (device : option SimDevice) : result SimDevice :=
  match device with
  | None => Throw (InvalidArgument "simulated device must not be null")
  | Some d => Ok d
  end.
