(* ===== verification/Reconciler.v ===== *)
(** * reconciler.{hpp,cpp}: the difference between the desired and the applied
    connections, and the batch that removes it.

    [std::ranges::sort] is not stable; the model's sort is.  They agree whenever
    the IDs are distinct, and otherwise the function throws. *)
From S2P Require Import Prelude.
From S2P Require Import Errors.
From S2P Require Import Types.
From stdpp Require Import options.

Module ConnectionDriftKind.
Inductive t := kMissing | kMismatched | kUnexpected.
#[global] Instance eq_dec : EqDecision t.
Proof. solve_decision. Defined.
End ConnectionDriftKind.

Record ConnectionDrift := mkDrift {
  drift_id : string;
  kind : ConnectionDriftKind.t;
  desired : ConnectionCommand;
  actual : AppliedConnection;
}.

Record ReconciliationPlan := mkPlan {
  full_snapshot : DeviceCommandBatch;
  drifts : list ConnectionDrift;
}.

Definition converged (p : ReconciliationPlan) : bool :=
  match drifts p with [] => true | _ => false end.

(** ** Sorting by a string member *)
Definition by_key {A} (f : A -> string) (a b : A) : Prop := String.le (f a) (f b).
#[export] Instance by_key_dec {A} (f : A -> string) : RelDecision (by_key f).
Proof. intros a b. unfold by_key. apply _. Defined.
#[export] Instance by_key_total {A} (f : A -> string) : Total (by_key f).
Proof. intros a b. apply (total String.le). Qed.
#[export] Instance by_key_trans {A} (f : A -> string) : Transitive (by_key f).
Proof. intros a b c ??. unfold by_key in *. by etrans. Qed.

Definition sort_by {A} (f : A -> string) (l : list A) : list A := merge_sort (by_key f) l.

(** [std::ranges::adjacent_find(l, {}, f) != l.end()] *)
Fixpoint adjacent_find {A} (f : A -> string) (l : list A) : bool :=
  match l with
  | a :: ((b :: _) as rest) => bool_decide (f a = f b) || adjacent_find f rest
  | _ => false
  end.

(** ** buildReconciliationPlan *)

Definition no_connection : AppliedConnection := mkApplied "" 0 0 0.

Definition same_connection (c : ConnectionCommand) (a : AppliedConnection) : bool :=
  bool_decide (app_input_port a = cmd_input_port c)
  && bool_decide (app_output_port a = cmd_output_port c)
  && bool_decide (applied_version a = desired_version c).

(** The loop over the desired commands: the drifts so far and the applied connections
    no command has named. *)
Fixpoint compare_desired (cs : list ConnectionCommand)
    (actual_by_id : gmap string AppliedConnection)
    : list ConnectionDrift * gmap string AppliedConnection :=
  match cs with
  | [] => ([], actual_by_id)
  | c :: rest =>
      match actual_by_id !! cmd_id c with
      | None =>
          let '(ds, m) := compare_desired rest actual_by_id in
          (mkDrift (cmd_id c) ConnectionDriftKind.kMissing c no_connection :: ds, m)
      | Some a =>
          let '(ds, m) := compare_desired rest (delete (cmd_id c) actual_by_id) in
          if same_connection c a then (ds, m)
          else (mkDrift (cmd_id c) ConnectionDriftKind.kMismatched c a :: ds, m)
      end
  end.

Definition removal_of (id : string) (a : AppliedConnection) : ConnectionCommand :=
  mkCommand ConnectionOperation.kRemove id 0 0 (Z.max (applied_version a) 1).

Definition index_by_id (l : list AppliedConnection) : gmap string AppliedConnection :=
  fold_left (fun m a => if decide (is_Some (m !! app_id a)) then m else <[app_id a := a]> m) l ∅.

Definition buildReconciliationPlan (desired : list ConnectionCommand)
    (actual : list AppliedConnection) : result ReconciliationPlan :=
  let desired := sort_by cmd_id desired in
  let actual := sort_by app_id actual in
  if adjacent_find cmd_id desired || adjacent_find app_id actual then
    Throw (InvalidArgument "reconciliation snapshots contain duplicate connection IDs")
  else
    let '(ds, unexpected) := compare_desired desired (index_by_id actual) in
    let leftovers := sorted_items unexpected in
    let removals := (fun '(id, a) => removal_of id a) <$> leftovers in
    let removed := (fun '(id, a) =>
      mkDrift id ConnectionDriftKind.kUnexpected (removal_of id a) a) <$> leftovers in
    Ok (mkPlan (mkBatch (sort_by cmd_id (desired ++ removals)) (mkOptions true 1000 ""))
          (sort_by drift_id (ds ++ removed))).
