(* ===== verification/ReconcilerProps.v ===== *)
(** * The reconciliation plan: its drifts are exactly the differences, and its batch
    turns the applied connections into the desired ones. *)
From S2P Require Import Prelude.
From S2P Require Import Errors.
From S2P Require Import Types.
From S2P Require Import SimDevice.
From S2P Require Import SimDeviceInv.
From S2P Require Import SimDeviceProps.
From S2P Require Import Reconciler.
From stdpp Require Import options.

(** ** Sorting and duplicates *)

Lemma sort_by_perm {A} (f : A -> string) l : sort_by f l ≡ₚ l.
Proof. apply merge_sort_Permutation. Qed.

Lemma sort_by_sorted {A} (f : A -> string) l : StronglySorted (by_key f) (sort_by f l).
Proof. apply StronglySorted_merge_sort; apply _. Qed.

Lemma adjacent_find_false {A} (f : A -> string) l :
  StronglySorted (by_key f) l -> adjacent_find f l = false <-> NoDup (f <$> l).
Proof.
  induction 1 as [|a l Hs IH Ha]; [split; constructor|].
  rewrite fmap_cons, NoDup_cons, <-IH. destruct l as [|b l]; simpl; [split; [|done]|].
  { intros _. split; [|done]. apply not_elem_of_nil. }
  rewrite orb_false_iff, bool_decide_eq_false. split; intros [Hab Hr]; (split; [|done]).
  - intros [Hin|Hin]%elem_of_cons; [done|].
    apply Forall_cons in Ha as [Hab' Ha]. apply StronglySorted_inv in Hs as [_ Hb].
    apply list_elem_of_fmap in Hin as (c & Hac & Hc). rewrite Forall_forall in Hb.
    specialize (Hb c Hc). unfold by_key in *. destruct Hab.
    apply (anti_symm String.le); [done|]. by rewrite Hac.
  - intros Heq. apply Hab. rewrite Heq. apply list_elem_of_here.
Qed.

Lemma sort_by_adjacent {A} (f : A -> string) l :
  adjacent_find f (sort_by f l) = false <-> NoDup (f <$> l).
Proof.
  rewrite adjacent_find_false by apply sort_by_sorted. by rewrite sort_by_perm.
Qed.

(** ** The two snapshots as maps *)

(** What the device must hold for the desired commands. *)
Definition target (cs : list ConnectionCommand) : gmap string AppliedConnection :=
  list_to_map ((fun c => (cmd_id c, applied_of c)) <$> cs).
Definition applied_map (l : list AppliedConnection) : gmap string AppliedConnection :=
  list_to_map ((fun a => (app_id a, a)) <$> l).

Lemma keyed_fst {A B} (f : A -> string) (g : A -> B) l :
  ((fun a => (f a, g a)) <$> l).*1 = f <$> l.
Proof. by rewrite <-list_fmap_compose. Qed.

Lemma keyed_lookup {A B} (f : A -> string) (g : A -> B) l k v :
  NoDup (f <$> l) ->
  (list_to_map ((fun a => (f a, g a)) <$> l) : gmap string B) !! k = Some v
  <-> exists a, a ∈ l /\ f a = k /\ g a = v.
Proof.
  intros Hnd. rewrite <-elem_of_list_to_map by (by rewrite keyed_fst).
  rewrite list_elem_of_fmap. naive_solver.
Qed.

Lemma index_by_id_spec l m0 k :
  NoDup (app_id <$> l) -> (forall a, a ∈ l -> m0 !! app_id a = None) ->
  fold_left (fun m a => if decide (is_Some (m !! app_id a)) then m else <[app_id a := a]> m) l m0
  !! k = (applied_map l ∪ m0) !! k.
Proof.
  revert m0. induction l as [|a l IH]; intros m0 Hnd Hfr; simpl.
  { unfold applied_map. simpl. by rewrite (left_id_L ∅ (∪)). }
  apply NoDup_cons in Hnd as [Ha Hnd].
  rewrite decide_False by (rewrite Hfr by apply list_elem_of_here; by intros [? ?]).
  rewrite IH; [|done|].
  - unfold applied_map. simpl. rewrite <-insert_union_l, insert_union_r; [done|].
    apply not_elem_of_list_to_map. by rewrite keyed_fst.
  - intros b Hb. rewrite lookup_insert_ne; [apply Hfr; set_solver|].
    intros Heq. apply Ha. rewrite Heq. apply list_elem_of_fmap. by exists b.
Qed.

(** What an index has comes from the list. *)
Lemma index_inv {A} (f : A -> string) (l : list A) (m : gmap string A) k x :
  fold_left (fun m a => if decide (is_Some (m !! f a)) then m else <[f a := a]> m) l m !! k = Some x ->
  m !! k = Some x \/ (x ∈ l /\ f x = k).
Proof.
  revert m. induction l as [|a l IH]; intros m; simpl; [by left|].
  intros [Hm|[Hin <-]]%IH; [|by right; split; [right|]]. revert Hm. case_decide; [by left|].
  intros [[<- <-]|[_ Hx]]%lookup_insert_Some; [|by left]. right. by split; [left|].
Qed.

Lemma index_by_id_inv actual id a :
  index_by_id actual !! id = Some a -> a ∈ actual /\ app_id a = id.
Proof. by intros [?|?]%index_inv. Qed.

Lemma index_by_id_map l : NoDup (app_id <$> l) -> index_by_id l = applied_map l.
Proof.
  intros Hnd. apply map_eq. intros k. unfold index_by_id.
  rewrite index_by_id_spec by (done || (intros; apply lookup_empty)).
  by rewrite (right_id_L ∅ (∪)).
Qed.

Lemma applied_map_perm l1 l2 : NoDup (app_id <$> l1) -> l1 ≡ₚ l2 -> applied_map l1 = applied_map l2.
Proof.
  intros Hnd Hp. apply list_to_map_proper; [by rewrite keyed_fst|]. by rewrite Hp.
Qed.

Lemma target_perm l1 l2 : NoDup (cmd_id <$> l1) -> l1 ≡ₚ l2 -> target l1 = target l2.
Proof.
  intros Hnd Hp. apply list_to_map_proper; [by rewrite keyed_fst|]. by rewrite Hp.
Qed.

Definition ids_match (m : gmap string AppliedConnection) : Prop :=
  forall k a, m !! k = Some a -> app_id a = k.

Lemma applied_map_ids l : NoDup (app_id <$> l) -> ids_match (applied_map l).
Proof. intros Hnd k a Hk. apply keyed_lookup in Hk; naive_solver. Qed.

Lemma same_connection_true c a :
  app_id a = cmd_id c -> same_connection c a = true <-> a = applied_of c.
Proof.
  intros Hid. unfold same_connection, applied_of.
  rewrite !andb_true_iff, !bool_decide_eq_true. destruct a; simpl in *. split.
  - intros [[-> ->] ->]. by rewrite Hid.
  - by intros [= -> -> -> ->].
Qed.

(** ** compare_desired *)

(** How the applied connections differ from one desired command. *)
Definition drift_of (m : gmap string AppliedConnection) (c : ConnectionCommand)
    : option ConnectionDrift :=
  match m !! cmd_id c with
  | None => Some (mkDrift (cmd_id c) ConnectionDriftKind.kMissing c no_connection)
  | Some a => if same_connection c a then None
              else Some (mkDrift (cmd_id c) ConnectionDriftKind.kMismatched c a)
  end.

Definition drop_ids (cs : list ConnectionCommand) (m : gmap string AppliedConnection) :=
  filter (fun kv : string * AppliedConnection => kv.1 ∉ (cmd_id <$> cs)) m.

Lemma drop_ids_lookup cs m k a :
  drop_ids cs m !! k = Some a <-> m !! k = Some a /\ k ∉ (cmd_id <$> cs).
Proof. unfold drop_ids. apply map_lookup_filter_Some. Qed.

Lemma drift_of_delete id m (cs : list ConnectionCommand) :
  id ∉ (cmd_id <$> cs) -> omap (drift_of (delete id m)) cs = omap (drift_of m) cs.
Proof.
  intros Hid. apply omap_congr. intros c Hc. unfold drift_of. rewrite lookup_delete_ne; [done|].
  intros ->. apply Hid, list_elem_of_fmap. by exists c.
Qed.

Lemma compare_desired_spec cs m :
  NoDup (cmd_id <$> cs) -> compare_desired cs m = (omap (drift_of m) cs, drop_ids cs m).
Proof.
  revert m. induction cs as [|c cs IH]; intros m Hnd.
  { simpl. f_equal. symmetry. apply map_filter_id. intros. apply not_elem_of_nil. }
  rewrite fmap_cons, NoDup_cons in Hnd. destruct Hnd as [Hc Hnd]. simpl. unfold drift_of at 1.
  destruct (m !! cmd_id c) as [a|] eqn:Ha; rewrite IH by done.
  - assert (omap (drift_of (delete (cmd_id c) m)) cs = omap (drift_of m) cs) as ->.
    { by apply drift_of_delete. }
    assert (drop_ids cs (delete (cmd_id c) m) = drop_ids (c :: cs) m) as ->.
    { apply map_eq. intros k. apply option_eq. intros x.
      rewrite !drop_ids_lookup, lookup_delete_Some, fmap_cons, not_elem_of_cons. naive_solver. }
    by destruct (same_connection c a).
  - assert (drop_ids cs m = drop_ids (c :: cs) m) as ->; [|done].
    apply map_eq. intros k. apply option_eq. intros x.
    rewrite !drop_ids_lookup, fmap_cons, not_elem_of_cons. naive_solver.
Qed.

(** ** The plan *)

(** [buildReconciliationPlan] with the loops replaced by what they compute. *)
Definition plan_of (des : list ConnectionCommand) (m : gmap string AppliedConnection)
    : ReconciliationPlan :=
  let leftovers := sorted_items (drop_ids des m) in
  mkPlan
    (mkBatch (sort_by cmd_id (des ++ ((fun '(id, a) => removal_of id a) <$> leftovers)))
       (mkOptions true 1000 ""))
    (sort_by drift_id (omap (drift_of m) des
       ++ ((fun '(id, a) => mkDrift id ConnectionDriftKind.kUnexpected (removal_of id a) a)
             <$> leftovers))).

Lemma build_plan_spec des act :
  buildReconciliationPlan des act
  = if decide (NoDup (cmd_id <$> des) /\ NoDup (app_id <$> act)) then
      Ok (plan_of (sort_by cmd_id des) (applied_map act))
    else Throw (InvalidArgument "reconciliation snapshots contain duplicate connection IDs").
Proof.
  unfold buildReconciliationPlan.
  destruct (adjacent_find cmd_id _) eqn:Hd; simpl.
  { rewrite decide_False; [done|]. intros [Hnd _].
    apply sort_by_adjacent in Hnd. congruence. }
  destruct (adjacent_find app_id _) eqn:Ha.
  { rewrite decide_False; [done|]. intros [_ Hnd].
    apply sort_by_adjacent in Hnd. congruence. }
  apply sort_by_adjacent in Hd, Ha. rewrite decide_True by done.
  rewrite index_by_id_map by (by rewrite sort_by_perm).
  rewrite (applied_map_perm _ act) by (rewrite ?sort_by_perm; done).
  by rewrite compare_desired_spec by (by rewrite sort_by_perm).
Qed.

Lemma build_plan_inv des act p :
  buildReconciliationPlan des act = Ok p ->
  NoDup (cmd_id <$> des) /\ NoDup (app_id <$> act)
  /\ p = plan_of (sort_by cmd_id des) (applied_map act).
Proof. rewrite build_plan_spec. case_decide; [|done]. intros [= <-]. naive_solver. Qed.

Lemma plan_drifts_elem des m d :
  d ∈ drifts (plan_of des m) <->
  (exists c, c ∈ des /\ drift_of m c = Some d) \/
  (exists id a, m !! id = Some a /\ (id ∉ (cmd_id <$> des))
     /\ d = mkDrift id ConnectionDriftKind.kUnexpected (removal_of id a) a).
Proof.
  simpl. rewrite sort_by_perm, elem_of_app, list_elem_of_omap, list_elem_of_fmap.
  f_equiv. split.
  - intros ([id a] & -> & Hi). apply elem_of_sorted_items, drop_ids_lookup in Hi as [? ?].
    by exists id, a.
  - intros (id & a & Hm & Hid & ->). exists (id, a). split; [done|].
    by apply elem_of_sorted_items, drop_ids_lookup.
Qed.

Lemma plan_drifts_empty des m :
  ids_match m -> NoDup (cmd_id <$> des) -> drifts (plan_of des m) = [] <-> target des = m.
Proof.
  intros Hids Hnd. split.
  - intros He. apply map_eq. intros k. apply option_eq. intros a.
    unfold target. rewrite keyed_lookup by done. split.
    + intros (c & Hc & <- & <-).
      destruct (drift_of m c) as [d|] eqn:Hd.
      { assert (d ∈ drifts (plan_of des m)) as Hin by (apply plan_drifts_elem; left; by exists c).
        rewrite He in Hin. by apply elem_of_nil in Hin. }
      unfold drift_of in Hd. destruct (m !! cmd_id c) as [a|] eqn:Hm; [|done].
      destruct (same_connection c a) eqn:Hs; [|done].
      apply same_connection_true in Hs; [congruence|]. by apply Hids.
    + intros Ha. destruct (decide (k ∈ (cmd_id <$> des))) as [Hk|Hk].
      * apply list_elem_of_fmap in Hk as (c & -> & Hc). exists c. split; [done|]. split; [done|].
        destruct (drift_of m c) as [d|] eqn:Hd.
        { assert (d ∈ drifts (plan_of des m)) as Hin by (apply plan_drifts_elem; left; by exists c).
          rewrite He in Hin. by apply elem_of_nil in Hin. }
        unfold drift_of in Hd. rewrite Ha in Hd. destruct (same_connection c a) eqn:Hs; [|done].
        apply same_connection_true in Hs; [done|]. by apply Hids.
      * assert (mkDrift k ConnectionDriftKind.kUnexpected (removal_of k a) a ∈ drifts (plan_of des m))
          as Hin by (apply plan_drifts_elem; right; by exists k, a).
        rewrite He in Hin. by apply elem_of_nil in Hin.
  - intros Ht. destruct (drifts (plan_of des m)) as [|d ds] eqn:Hd; [done|].
    assert (d ∈ drifts (plan_of des m)) as Hin by (rewrite Hd; apply list_elem_of_here).
    apply plan_drifts_elem in Hin as [(c & Hc & Hdr)|(id & a & Hm & Hid & _)].
    + unfold drift_of in Hdr. rewrite <-Ht in Hdr. unfold target in Hdr.
      assert (Hl : target des !! cmd_id c = Some (applied_of c))
        by (apply keyed_lookup; [done|by exists c]).
      unfold target in Hl. rewrite Hl in Hdr.
      by rewrite (proj2 (same_connection_true c (applied_of c) eq_refl)) in Hdr.
    + rewrite <-Ht in Hm. apply keyed_lookup in Hm as (c & Hc & <- & _); [|done].
      destruct Hid. apply list_elem_of_fmap. by exists c.
Qed.

(** ** The batch of the plan *)

Lemma last_command_unique cs c :
  NoDup (cmd_id <$> cs) -> c ∈ cs -> last_command (cmd_id c) cs = Some c.
Proof.
  induction cs as [|b cs IH]; [by intros _ ?%elem_of_nil|].
  rewrite fmap_cons, NoDup_cons, last_command_cons. intros [Hb Hnd] [->|Hc]%elem_of_cons.
  - rewrite decide_True by done.
    destruct (last_command (cmd_id b) cs) as [x|] eqn:Hl; [|done].
    apply last_Some in Hl as [l' Hl]. destruct Hb. apply list_elem_of_fmap.
    assert (x ∈ filter (fun c => cmd_id c = cmd_id b) cs) as Hx by (rewrite Hl; set_solver).
    apply list_elem_of_filter in Hx as [? ?]. by exists x.
  - by rewrite IH.
Qed.

Lemma last_command_absent k cs : k ∉ (cmd_id <$> cs) -> last_command k cs = None.
Proof.
  intros Hk. unfold last_command. destruct (filter _ cs) as [|x xs] eqn:Hf; [done|].
  destruct Hk. apply list_elem_of_fmap.
  assert (x ∈ filter (fun c => cmd_id c = k) cs) as Hx by (rewrite Hf; apply list_elem_of_here).
  apply list_elem_of_filter in Hx as [? ?]. by exists x.
Qed.

(** The unsorted batch. *)
Definition plan_commands (des : list ConnectionCommand) (m : gmap string AppliedConnection) :=
  des ++ ((fun '(id, a) => removal_of id a) <$> sorted_items (drop_ids des m)).

Lemma plan_commands_elem des m c :
  c ∈ plan_commands des m <->
  c ∈ des \/ exists id a, m !! id = Some a /\ (id ∉ (cmd_id <$> des)) /\ c = removal_of id a.
Proof.
  unfold plan_commands. rewrite elem_of_app, list_elem_of_fmap. f_equiv. split.
  - intros ([id a] & -> & Hi). apply elem_of_sorted_items, drop_ids_lookup in Hi as [? ?].
    by exists id, a.
  - intros (id & a & Hm & Hid & ->). exists (id, a). split; [done|].
    by apply elem_of_sorted_items, drop_ids_lookup.
Qed.

Lemma plan_commands_NoDup des m :
  NoDup (cmd_id <$> des) -> NoDup (cmd_id <$> plan_commands des m).
Proof.
  intros Hnd. unfold plan_commands. rewrite fmap_app, <-list_fmap_compose.
  assert (cmd_id ∘ (fun '(id, a) => removal_of id a) <$> sorted_items (drop_ids des m)
    = (sorted_items (drop_ids des m)).*1) as ->.
  { apply list_fmap_ext. by intros ? [id a] _. }
  apply NoDup_app. split; [done|]. split; [|apply sorted_items_keys_NoDup].
  intros k Hk Hin. apply list_elem_of_fmap in Hin as ([id a] & -> & Hi).
  by apply elem_of_sorted_items, drop_ids_lookup in Hi as [_ ?].
Qed.

Definition all_upserts (cs : list ConnectionCommand) : Prop :=
  Forall (fun c => operation c = ConnectionOperation.kUpsert) cs.

Lemma plan_effect des m cs :
  NoDup (cmd_id <$> des) -> all_upserts des -> cs ≡ₚ plan_commands des m ->
  apply_commands cs m = target des.
Proof.
  intros Hnd Hup Hperm. apply map_eq. intros k. rewrite apply_commands_lookup.
  assert (NoDup (cmd_id <$> cs)) as Hcs by (rewrite Hperm; by apply plan_commands_NoDup).
  destruct (decide (k ∈ (cmd_id <$> cs))) as [Hk|Hk].
  - apply list_elem_of_fmap in Hk as (c & -> & Hc).
    rewrite last_command_unique by done. rewrite Hperm in Hc.
    apply plan_commands_elem in Hc as [Hc|(id & a & Hm & Hid & ->)]; simpl.
    + unfold all_upserts in Hup. rewrite Forall_forall in Hup. rewrite (Hup c Hc).
      symmetry. apply keyed_lookup; [done|by exists c].
    + symmetry. apply not_elem_of_list_to_map. by rewrite keyed_fst.
  - rewrite last_command_absent by done. simpl.
    assert (k ∉ (cmd_id <$> des)) as Hd.
    { intros (c & -> & Hc)%list_elem_of_fmap. apply Hk, list_elem_of_fmap. exists c.
      split; [done|]. rewrite Hperm. apply plan_commands_elem. by left. }
    destruct (m !! k) as [a|] eqn:Hm.
    + destruct Hk. apply list_elem_of_fmap. exists (removal_of k a). split; [done|].
      rewrite Hperm. apply plan_commands_elem. right. by exists k, a.
    + symmetry. apply not_elem_of_list_to_map. by rewrite keyed_fst.
Qed.

(** The plan is built exactly when neither snapshot repeats an ID, and it has
    converged (no drift) exactly when the two snapshots describe the same
    connections, ports and versions. *)
Theorem plan_converged_iff des act :
  match buildReconciliationPlan des act with
  | Ok p => NoDup (cmd_id <$> des) /\ NoDup (app_id <$> act)
            /\ (converged p = true <-> target des = applied_map act)
  | Throw e => (exists m, e = InvalidArgument m)
            /\ ~ (NoDup (cmd_id <$> des) /\ NoDup (app_id <$> act))
  end.
Proof.
  rewrite build_plan_spec. case_decide as Hnd; [|split; [by eexists|done]].
  destruct Hnd as [Hd Ha]. split; [done|]. split; [done|].
  pose proof (sort_by_perm cmd_id des) as Hp.
  rewrite (target_perm des (sort_by cmd_id des)) by (done || by rewrite Hp).
  rewrite <-plan_drifts_empty.
  - unfold converged. destruct (drifts _); naive_solver.
  - by apply applied_map_ids.
  - by rewrite Hp.
Qed.

(** The drifts of a plan, ID by ID: a desired connection the device lacks is
    MISSING, one with other ports or another version is MISMATCHED, an applied one
    nobody asks for is UNEXPECTED, and there is no other drift. *)
Theorem plan_drifts_exact des act p d :
  buildReconciliationPlan des act = Ok p ->
  d ∈ drifts p <->
  match kind d with
  | ConnectionDriftKind.kMissing =>
      desired d ∈ des /\ drift_id d = cmd_id (desired d) /\ actual d = no_connection
      /\ applied_map act !! drift_id d = None
  | ConnectionDriftKind.kMismatched =>
      desired d ∈ des /\ actual d ∈ act /\ drift_id d = cmd_id (desired d)
      /\ drift_id d = app_id (actual d) /\ actual d <> applied_of (desired d)
  | ConnectionDriftKind.kUnexpected =>
      actual d ∈ act /\ drift_id d = app_id (actual d) /\ (drift_id d ∉ (cmd_id <$> des))
      /\ desired d = removal_of (drift_id d) (actual d)
  end.
Proof.
  intros Hb. apply build_plan_inv in Hb as (Hd & Ha & ->).
  pose proof (sort_by_perm cmd_id des) as Hp. rewrite plan_drifts_elem.
  assert (forall k a, applied_map act !! k = Some a <-> a ∈ act /\ app_id a = k) as Hlk.
  { intros k a. unfold applied_map. rewrite keyed_lookup by done. naive_solver. }
  setoid_rewrite Hp. split.
  - intros [(c & Hc & Hdr)|(id & a & Hm & Hid & ->)].
    + unfold drift_of in Hdr. destruct (applied_map act !! cmd_id c) as [a|] eqn:Hm.
      * destruct (same_connection c a) eqn:Hs; [done|]. simplify_eq. simpl.
        apply Hlk in Hm as [? ?]. split_and!; try done.
        intros Heq. apply same_connection_true in Heq; congruence.
      * by simplify_eq/=.
    + simpl. apply Hlk in Hm as [? ?]. done.
  - destruct d as [id k c a]. simpl. destruct k.
    + intros (Hc & -> & -> & Hm). left. exists c. split; [done|].
      unfold drift_of. by rewrite Hm.
    + intros (Hc & Hac & -> & Hid & Hne). left. exists c. split; [done|].
      unfold drift_of. rewrite (proj2 (Hlk (cmd_id c) a)) by done.
      destruct (same_connection c a) eqn:Hs; [|done].
      apply same_connection_true in Hs; done.
    + intros (Hac & -> & Hid & ->). right. exists (app_id a), a.
      split; [by apply Hlk|]. done.
Qed.

(** The batch of a plan is sorted by ID without repetition, atomic, and turns the
    applied connections into exactly the desired ones (all UPSERTs, as syncd builds
    them from the desired table). *)
Theorem plan_repairs des act p :
  buildReconciliationPlan des act = Ok p -> all_upserts des ->
  apply_commands (batch_commands (full_snapshot p)) (applied_map act) = target des /\
  StronglySorted (by_key cmd_id) (batch_commands (full_snapshot p)) /\
  NoDup (cmd_id <$> batch_commands (full_snapshot p)) /\
  opt_atomic (batch_options (full_snapshot p)) = true.
Proof.
  intros Hb Hup. apply build_plan_inv in Hb as (Hd & Ha & ->). simpl.
  pose proof (sort_by_perm cmd_id des) as Hp.
  fold (plan_commands (sort_by cmd_id des) (applied_map act)).
  split; [|split; [apply sort_by_sorted|split; [|done]]].
  - rewrite (target_perm des (sort_by cmd_id des)) by (done || by rewrite Hp).
    apply plan_effect; [by rewrite Hp| |apply sort_by_perm].
    unfold all_upserts. by rewrite Hp.
  - rewrite sort_by_perm. apply plan_commands_NoDup. by rewrite Hp.
Qed.

(** ** Reconciling a device *)

Lemma device_snapshot_map d :
  device_wf d ->
  NoDup (app_id <$> sorted_values (connections_ d))
  /\ applied_map (sorted_values (connections_ d)) = connections_ d.
Proof.
  intros Hwf.
  assert (app_id <$> sorted_values (connections_ d) = (sorted_items (connections_ d)).*1) as Hids.
  { unfold sorted_values. rewrite <-list_fmap_compose. apply list_fmap_ext.
    intros i [k c] Hi. apply list_elem_of_lookup_2, elem_of_sorted_items in Hi.
    by destruct (wf_conns d Hwf k c Hi). }
  assert (NoDup (app_id <$> sorted_values (connections_ d))) as Hnd
    by (rewrite Hids; apply sorted_items_keys_NoDup).
  split; [done|]. apply map_eq. intros k. apply option_eq. intros c. unfold applied_map.
  rewrite keyed_lookup by done. split.
  - intros (a & Ha & <- & ->). apply elem_of_sorted_values in Ha as [k Hk].
    by destruct (wf_conns d Hwf k c Hk) as [-> _].
  - intros Hk. exists c. split; [apply elem_of_sorted_values; by exists k|].
    by destruct (wf_conns d Hwf k c Hk).
Qed.

(** The desired commands can be installed on the device. *)
Record installable (des : list ConnectionCommand) (d : SimDevice) : Prop := {
  inst_upserts : all_upserts des;
  inst_unique : NoDup (cmd_id <$> des);
  inst_usable : Forall (fun c => command_error d c = None) des;
  inst_fresh : Forall (fun c => is_stale d c = false) des;
  inst_free : no_conflicts (target des);
  inst_fault : fail_next_apply_ d = false /\ timeout_next_apply_ d = false;
  inst_versions : forall k c, connections_ d !! k = Some c -> (0 < applied_version c)%Z
    /\ last_versions_ d !! k = Some (applied_version c);
}.

Lemma port_error_unsigned d dir id : port_error d dir id = None -> (0 <= id)%Z.
Proof. intros H. apply port_error_None_range in H. lia. Qed.

Lemma plan_admissible des d cs o :
  device_wf d -> installable des d -> opt_atomic o = true ->
  cs ≡ₚ plan_commands des (connections_ d) ->
  Forall command_ports_unsigned cs /\ admissible cs o d.
Proof.
  intros Hwf Hin Ho Hperm. pose proof (inst_upserts _ _ Hin) as Hup.
  assert (forall c, c ∈ cs -> command_error d c = None /\ is_stale d c = false
            /\ command_ports_unsigned c) as Hall.
  { intros c. rewrite Hperm, plan_commands_elem. intros [Hc|(id & a & Hm & _ & ->)].
    - pose proof (inst_usable _ _ Hin) as Hu. pose proof (inst_fresh _ _ Hin) as Hf.
      unfold all_upserts in Hup. rewrite Forall_forall in Hu, Hf, Hup.
      specialize (Hu c Hc). split; [done|]. split; [by apply Hf|].
      unfold command_error in Hu. rewrite (Hup c Hc) in Hu. case_decide; [done|].
      destruct (port_error d PortDirection.kInput _) eqn:Hi; [done|].
      split; by eapply port_error_unsigned.
    - destruct (wf_conns d Hwf id a Hm) as (_ & Hne & _).
      destruct (inst_versions _ _ Hin id a Hm) as [Hpos Hlast].
      unfold command_error, is_stale. simpl. rewrite decide_False, Hlast by done.
      rewrite (bool_decide_eq_false_2 (_ < _)%Z) by lia. by rewrite andb_false_r. }
  split; [apply Forall_forall; intros c Hc; by apply Hall|]. unfold admissible.
  split; [done|]. split; [apply Forall_forall; intros c Hc; by apply Hall|].
  split; [apply Forall_forall; intros c Hc; by apply Hall|].
  rewrite (plan_effect des) by (done || apply Hin). split; [apply Hin|apply Hin].
Qed.

(** The plan of a device's own report, applied to the device. *)
Lemma plan_applies des d o p :
  device_wf d -> installable des d -> opt_atomic o = true -> cached_result o d = None ->
  buildReconciliationPlan des (sorted_values (connections_ d)) = Ok p ->
  exists r d', applyConnections (batch_commands (full_snapshot p)) o d = (Ok r, d') /\
    apply_ok r = true /\ connections_ d' = target des /\
    exists p', buildReconciliationPlan des (sorted_values (connections_ d')) = Ok p'
               /\ converged p' = true.
Proof.
  intros Hwf Hin Ho Hfresh Hb. destruct (device_snapshot_map d Hwf) as [Hnd Hmap].
  pose proof (inst_unique _ _ Hin) as Huniq.
  pose proof (sort_by_perm cmd_id des) as Hp.
  apply build_plan_inv in Hb as (_ & _ & ->). rewrite Hmap. set (p := plan_of _ _).
  assert (batch_commands (full_snapshot p) ≡ₚ plan_commands des (connections_ d)) as Hcs.
  { simpl. rewrite sort_by_perm. unfold plan_commands.
    assert (drop_ids (sort_by cmd_id des) (connections_ d) = drop_ids des (connections_ d)) as ->.
    { apply map_eq. intros k. apply option_eq. intros x. rewrite !drop_ids_lookup. by rewrite Hp. }
    by rewrite Hp. }
  destruct (plan_admissible des d _ o Hwf Hin Ho Hcs) as [Hports Hadm].
  destruct (applyConnections_refines _ o d Hwf Hports Hfresh)
    as (r & d1 & rs & order & Hrun & Hs & Hcw & _).
  exists r. eexists. split; [exact Hrun|].
  assert (exists i2o o2i, r = commit_result (batch_commands (full_snapshot p)) d
    /\ d1 = commit (batch_commands (full_snapshot p)) i2o o2i d) as (i2o & o2i & -> & ->).
  { destruct Hadm as (Ha & Hst & Hce & Hnc & Hf & Ht).
    assert (rejection (batch_commands (full_snapshot p)) o d = None) as Hrej
      by (apply rejection_None; by rewrite existsb_Forall).
    destruct Hs; try congruence. by eexists _, _. }
  assert (connections_ (set_cache rs order (commit (batch_commands (full_snapshot p)) i2o o2i d))
    = target des) as Hc.
  { apply (plan_effect des); [done|apply Hin|done]. }
  split; [done|]. split; [done|].
  assert (device_wf (set_cache rs order (commit (batch_commands (full_snapshot p)) i2o o2i d)))
    as Hwf' by (apply wf_set_cache; [by eapply apply_spec_wf|done]).
  destruct (device_snapshot_map _ Hwf') as [Hnd' Hmap'].
  rewrite build_plan_spec, decide_True by done. eexists. split; [done|].
  unfold converged.
  match goal with |- context [drifts ?q] => assert (drifts q = []) as ->; [|done] end.
  rewrite Hmap'. apply plan_drifts_empty.
  - intros k c Hk. by destruct (wf_conns _ Hwf' k c Hk).
  - by rewrite Hp.
  - by rewrite Hc, (target_perm des (sort_by cmd_id des)) by (done || by rewrite Hp).
Qed.

(** C25: one reconciliation repairs the device: on a well-formed device that can take
    the desired connections, the plan built from its own report is accepted as one
    atomic batch, under an operation ID without a cached result, and the plan built from its
    next report has converged. *)
Theorem reconcile_converges des d o :
  device_wf d -> installable des d -> opt_atomic o = true -> cached_result o d = None ->
  exists p r d',
    buildReconciliationPlan des (sorted_values (connections_ d)) = Ok p /\
    applyConnections (batch_commands (full_snapshot p)) o d = (Ok r, d') /\ apply_ok r = true /\
    connections_ d' = target des /\
    exists p', buildReconciliationPlan des (sorted_values (connections_ d')) = Ok p'
               /\ converged p' = true.
Proof.
  intros Hwf Hin Ho Hfresh. destruct (device_snapshot_map d Hwf) as [Hnd Hmap].
  assert (exists p, buildReconciliationPlan des (sorted_values (connections_ d)) = Ok p) as [p Hb].
  { rewrite build_plan_spec, decide_True; [by eexists|]. by split; [apply (inst_unique _ _ Hin)|]. }
  exists p. destruct (plan_applies des d o p Hwf Hin Ho Hfresh Hb) as (r & d' & Happly).
  by exists r, d'.
Qed.
