(* ===== verification/SimDeviceExamples.v ===== *)
(** * The theorems on the simulated matrix and the reconciler, at concrete inputs: a
    4 x 4 device with two connections. *)
From S2P Require Import Prelude.
From S2P Require Import Errors.
From S2P Require Import Types.
From S2P Require Import ConnStateMachine.
From S2P Require Import SimDevice.
From S2P Require Import SimDeviceInv.
From S2P Require Import SimDeviceProps.
From S2P Require Import SimDeviceFaults.
From S2P Require Import Reconciler.
From S2P Require Import ReconcilerProps.
From stdpp Require Import options.

Definition info4 : DeviceInfo := mkDeviceInfo "sim" 4 4 "OCS-4" "SN-1" "1.0" 7.

Definition dev0 : SimDevice :=
  mkDevice info4 (mkHealth DeviceOperStatus.kReady success) ∅ ∅
    (replicate 4 None) (replicate 4 None)
    (port_range PortDirection.kInput 1 4) (port_range PortDirection.kOutput 1 4) ∅ [] false false.

Lemma dev0_made : SimulatedOcsDevice info4 = Some (Ok dev0).
Proof. reflexivity. Qed.

Lemma info4_wf : info_wf info4.
Proof. unfold info_wf, in_width. simpl. lia. Qed.

Lemma dev0_wf : device_wf dev0.
Proof. apply (constructor_wf info4); [apply info4_wf|apply dev0_made]. Qed.

Definition upsert (id : string) (i o v : Z) : ConnectionCommand :=
  mkCommand ConnectionOperation.kUpsert id i o v.
Definition remove (id : string) (v : Z) : ConnectionCommand :=
  mkCommand ConnectionOperation.kRemove id 0 0 v.
Definition with_id (k : string) : ApplyOptions := mkOptions true 1000 k.

Definition first_batch : list ConnectionCommand := [upsert "a" 1 2 1; upsert "b" 2 3 1].
Definition run_apply cs k d : result ApplyResult * SimDevice := applyConnections cs (with_id k) d.
Definition the_result (r : result ApplyResult) : ApplyResult :=
  match r with Ok x => x | Throw _ => mkApplyResult success [] end.

(** The device with connections a: 1 -> 2 and b: 2 -> 3. *)
Definition dev1 : SimDevice := (run_apply first_batch "op-1" dev0).2.

Lemma unsigned_ports cs :
  forallb (fun c => (0 <=? cmd_input_port c) && (0 <=? cmd_output_port c))%Z cs = true ->
  Forall command_ports_unsigned cs.
Proof.
  intros H. apply Forall_forall. intros c Hc. rewrite forallb_forall in H.
  apply list_elem_of_In in Hc. specialize (H c Hc). apply andb_true_iff in H as [H1 H2].
  split; by apply Z.leb_le.
Qed.

Lemma first_step : device_step dev0 dev1.
Proof.
  apply step_live. apply (step_apply first_batch (with_id "op-1")
    (run_apply first_batch "op-1" dev0).1 dev0 dev1); [by apply unsigned_ports|].
  unfold dev1, run_apply. by destruct (applyConnections _ _ _).
Qed.

Lemma dev1_wf : device_wf dev1.
Proof. eapply device_step_wf; [apply dev0_wf|apply first_step]. Qed.

(** A batch whose second command takes the output of b. *)
Definition conflicting : list ConnectionCommand := [upsert "c" 3 4 2; upsert "d" 4 3 2].

Lemma apply_error_is_atomic_witness :
  code (apply_error (the_result (run_apply conflicting "op-2" dev1).1)) = ErrorCode.kOutputConflict
  /\ same_switch dev1 (run_apply conflicting "op-2" dev1).2.
Proof.
  split; [vm_compute; reflexivity|].
  apply (apply_error_is_atomic conflicting (with_id "op-2") dev1
    (the_result (run_apply conflicting "op-2" dev1).1)).
  - exact dev1_wf.
  - apply unsigned_ports. reflexivity.
  - vm_compute. reflexivity.
  - vm_compute. reflexivity.
Defined.

Lemma apply_total_and_functional_witness :
  exists r d', run_apply [remove "a" 2; upsert "c" 1 4 1] "op-2" dev1 = (Ok r, d')
    /\ device_wf d' /\ connections_ d' !! "a" = None
    /\ connections_ d' !! "c" = Some (mkApplied "c" 1 4 1).
Proof.
  destruct (apply_total_and_functional [remove "a" 2; upsert "c" 1 4 1] (with_id "op-2") dev1
    dev1_wf (unsigned_ports [remove "a" 2; upsert "c" 1 4 1] eq_refl)) as (r & d' & Hrun & Hwf & Hc).
  assert (cached_result (with_id "op-2") dev1 = None) as Hfresh by (vm_compute; reflexivity).
  assert (apply_ok (the_result (run_apply [remove "a" 2; upsert "c" 1 4 1] "op-2" dev1).1) = true)
    as Hok by (vm_compute; reflexivity).
  unfold run_apply in Hok. rewrite Hrun in Hok.
  destruct (Hc Hfresh Hok) as [Hlk _]. exists r, d'. split; [exact Hrun|]. split; [exact Hwf|].
  split; rewrite Hlk; vm_compute; reflexivity.
Defined.

Lemma apply_succeeds_iff_witness :
  apply_ok (the_result (run_apply [upsert "c" 3 4 1] "op-2" dev1).1) = true
  /\ admissible [upsert "c" 3 4 1] (with_id "op-2") dev1.
Proof.
  split; [vm_compute; reflexivity|].
  apply (apply_succeeds_iff [upsert "c" 3 4 1] (with_id "op-2") dev1
    (the_result (run_apply [upsert "c" 3 4 1] "op-2" dev1).1)
    (run_apply [upsert "c" 3 4 1] "op-2" dev1).2).
  - exact dev1_wf.
  - apply unsigned_ports. reflexivity.
  - vm_compute. reflexivity.
  - vm_compute. reflexivity.
  - vm_compute. reflexivity.
Defined.

Lemma apply_replay_is_idempotent_witness :
  applyConnections [] (with_id "op-1") dev1
  = (Ok (the_result (run_apply first_batch "op-1" dev0).1), dev1).
Proof.
  apply (apply_replay_is_idempotent first_batch [] (with_id "op-1") (with_id "op-1") dev0).
  - exact dev0_wf.
  - apply unsigned_ports. reflexivity.
  - discriminate.
  - reflexivity.
  - vm_compute. reflexivity.
Defined.

Lemma device_reachable_wf_witness : device_wf dev1.
Proof.
  apply (device_reachable_wf info4 dev0 dev1).
  - exact info4_wf.
  - exact dev0_made.
  - apply rtc_once. exact first_step.
Defined.

Lemma apply_replay_window_witness :
  let d2 := (run_apply [upsert "c" 3 4 1] "op-2" dev1).2 in
  applyConnections first_batch (with_id "op-1") d2
  = (Ok (the_result (run_apply first_batch "op-1" dev0).1), d2).
Proof.
  intros d2. apply (apply_replay_window first_batch first_batch (with_id "op-1") (with_id "op-1")
    dev0 (the_result (run_apply first_batch "op-1" dev0).1) dev1 1 d2).
  - exact dev0_wf.
  - apply unsigned_ports. reflexivity.
  - discriminate.
  - reflexivity.
  - vm_compute. reflexivity.
  - vm_compute. reflexivity.
  - apply nsteps_once. apply (step_apply [upsert "c" 3 4 1] (with_id "op-2")
      (run_apply [upsert "c" 3 4 1] "op-2" dev1).1 dev1 d2); [by apply unsigned_ports|].
    unfold d2, run_apply. by destruct (applyConnections _ _ _).
  - vm_compute. discriminate.
Defined.

Lemma makePorts_terminates_iff_witness :
  exists fuel ports, makePorts_loop fuel PortDirection.kInput 4 1 [] = Some ports.
Proof.
  apply (makePorts_terminates_iff PortDirection.kInput 4); [|discriminate].
  unfold in_width. lia.
Defined.

Lemma apply_versions_monotone_witness :
  (version_of dev1 "a"
   <= version_of (run_apply [upsert "a" 1 4 5; upsert "a" 1 2 3] "op-2" dev1).2 "a")%Z.
Proof.
  apply (apply_versions_monotone [upsert "a" 1 4 5; upsert "a" 1 2 3] (with_id "op-2") dev1
    (the_result (run_apply [upsert "a" 1 4 5; upsert "a" 1 2 3] "op-2" dev1).1)).
  - exact dev1_wf.
  - repeat constructor; simpl; lia.
  - vm_compute. reflexivity.
  - vm_compute. reflexivity.
Defined.

Lemma port_fault_blocks_and_clears_witness :
  exists d1, injectFault (mkFaultSpec FaultType.kInputPortDown 3) dev1
    = (Ok (mkFaultResult success), d1)
  /\ apply_ok (the_result (run_apply [upsert "c" 3 4 1] "op-2" d1).1) = false
  /\ clearFault (mkFaultSelector FaultType.kInputPortDown 3) d1 = (Ok (mkFaultResult success), dev1).
Proof.
  destruct (port_fault_blocks_and_clears PortDirection.kInput 3 dev1 dev1_wf) as (d1 & Hi & Hb & Hc).
  - vm_compute. split; discriminate.
  - intros p. vm_compute. by intros [= <-].
  - exists d1. split; [exact Hi|]. split; [|exact Hc].
    assert (d1 = (injectFault (mkFaultSpec FaultType.kInputPortDown 3) dev1).2) as Hd by exact (eq_sym (f_equal snd Hi)).
    apply (Hb [upsert "c" 3 4 1] (with_id "op-2") (upsert "c" 3 4 1) _
      (run_apply [upsert "c" 3 4 1] "op-2" d1).2).
    + by apply unsigned_ports.
    + rewrite Hd. vm_compute. reflexivity.
    + apply list_elem_of_here.
    + reflexivity.
    + reflexivity.
    + rewrite Hd. vm_compute. reflexivity.
Defined.

Lemma reset_restores_a_fresh_device_witness :
  exists d' g, reset ResetMode.kHard dev1 = Some (Ok (mkResetResult success g), d')
    /\ g = 8%Z /\ connections_ d' = ∅ /\ port_error d' PortDirection.kOutput 4 = None.
Proof.
  destruct (reset_restores_a_fresh_device ResetMode.kHard dev1 dev1_wf)
    as (d' & g & Hr & _ & _ & Hg & Hc & _ & _ & _ & _ & Hp).
  exists d', g. split; [exact Hr|]. split; [rewrite Hg; vm_compute; reflexivity|].
  split; [exact Hc|]. apply Hp. vm_compute. split; discriminate.
Defined.

Lemma drift_is_repaired_witness :
  exists d1 r d2,
    injectFault (mkFaultSpec FaultType.kOutOfBandDrift 0) dev1 = (Ok (mkFaultResult success), d1) /\
    connections_ d1 !! "a" = None /\
    applyConnections [upsert "a" 1 2 1] (with_id "op-2") d1 = (Ok r, d2) /\ apply_ok r = true /\
    connections_ d2 = connections_ dev1.
Proof.
  destruct (drift_is_repaired info4 dev0 dev1 "a" (mkApplied "a" 1 2 1)
    [("b", mkApplied "b" 2 3 1)] (with_id "op-2"))
    as (d1 & r & d2 & Hi & Hd & Ha & Hok & _ & Hc & _).
  - exact info4_wf.
  - exact dev0_made.
  - apply rtc_once. exact first_step.
  - vm_compute. reflexivity.
  - reflexivity.
  - reflexivity.
  - vm_compute. reflexivity.
  - vm_compute. reflexivity.
  - reflexivity.
  - vm_compute. reflexivity.
  - exists d1, r, d2. rewrite Hd, lookup_delete_eq. by split_and!.
Defined.

(** ** The reconciler *)

Definition desired4 : list ConnectionCommand := [upsert "c" 3 4 1; upsert "a" 1 1 2].

Definition the_plan : ReconciliationPlan :=
  match buildReconciliationPlan desired4 (sorted_values (connections_ dev1)) with
  | Ok p => p
  | Throw _ => mkPlan (mkBatch [] default_options) []
  end.

Lemma plan_drifts_exact_witness :
  mkDrift "b" ConnectionDriftKind.kUnexpected (remove "b" 1) (mkApplied "b" 2 3 1) ∈ drifts the_plan.
Proof.
  apply (plan_drifts_exact desired4 (sorted_values (connections_ dev1)) the_plan).
  - vm_compute. reflexivity.
  - cbn [kind actual drift_id desired]. split.
    + apply elem_of_sorted_values. exists "b". vm_compute. reflexivity.
    + split; [reflexivity|]. split; [|reflexivity]. vm_compute.
      intros H. repeat (apply elem_of_cons in H as [H|H]; [discriminate|]). by apply elem_of_nil in H.
Defined.

Lemma plan_repairs_witness :
  apply_commands (batch_commands (full_snapshot the_plan))
    (applied_map (sorted_values (connections_ dev1))) = target desired4.
Proof.
  apply (plan_repairs desired4 (sorted_values (connections_ dev1)) the_plan).
  - vm_compute. reflexivity.
  - repeat constructor.
Defined.

Lemma desired4_installable : installable desired4 dev1.
Proof.
  constructor.
  - repeat constructor.
  - apply (bool_decide_unpack _). vm_compute. exact I.
  - repeat constructor; vm_compute; reflexivity.
  - repeat constructor; vm_compute; reflexivity.
  - intros k1 k2 c1 c2 H1 H2. unfold target in H1, H2.
    apply keyed_lookup in H1 as (x & Hx & <- & <-); [|apply (bool_decide_unpack _); vm_compute; exact I].
    apply keyed_lookup in H2 as (y & Hy & <- & <-); [|apply (bool_decide_unpack _); vm_compute; exact I].
    unfold desired4 in Hx, Hy.
    repeat (apply elem_of_cons in Hx as [->|Hx]); [..|by apply elem_of_nil in Hx];
      (repeat (apply elem_of_cons in Hy as [->|Hy]); [..|by apply elem_of_nil in Hy]); simpl; lia || done.
  - split; vm_compute; reflexivity.
  - intros k c Hk. apply elem_of_sorted_items in Hk.
    assert (sorted_items (connections_ dev1)
      = [("a", mkApplied "a" 1 2 1); ("b", mkApplied "b" 2 3 1)]) as Hi by (vm_compute; reflexivity).
    rewrite Hi in Hk. repeat (apply elem_of_cons in Hk as [[= -> ->]|Hk]; [split; [simpl; lia|vm_compute; reflexivity]|]).
    by apply elem_of_nil in Hk.
Qed.

Lemma reconcile_converges_witness :
  exists p r d',
    buildReconciliationPlan desired4 (sorted_values (connections_ dev1)) = Ok p /\
    applyConnections (batch_commands (full_snapshot p)) (with_id "op-2") dev1 = (Ok r, d') /\
    apply_ok r = true /\ connections_ d' = target desired4.
Proof.
  destruct (reconcile_converges desired4 dev1 (with_id "op-2")) as (p & r & d' & H1 & H2 & H3 & H4 & _).
  - exact dev1_wf.
  - exact desired4_installable.
  - reflexivity.
  - vm_compute. reflexivity.
  - by exists p, r, d'.
Defined.
