(* ===== verification/UdsCodec.v ===== *)
(** * uds_protocol.hpp and uds_codec.cpp: frames on the UDS wire.

    A [std::byte] is a [Z] below 2^8.  [input[offset++]] past the end is undefined
    in C++; the model throws there, and [decode_returns] shows it never happens. *)
From S2P Require Import Prelude.
From S2P Require Import Errors.
From stdpp Require Import options.

Definition kMagic : Z := 0x4F435331.
Definition kProtocolVersion : Z := 1.
Definition kHeaderSize : Z := 32.
Definition kMaxPayloadSize : Z := 1024 * 1024.

Module MessageType.
Inductive t :=
  | kHello | kHelloReply
  | kGetDeviceInfo | kDeviceInfoReply
  | kApplyConnections | kApplyResult
  | kGetConnections | kConnectionsReply
  | kGetPortState | kPortStateReply
  | kReset | kResetResult
  | kInjectFault | kFaultResult
  | kDeviceEvent | kErrorReply.
#[global] Instance eq_dec : EqDecision t.
Proof. solve_decision. Defined.

(** [static_cast<std::uint16_t>(type)] *)
Definition value (type : t) : Z :=
  match type with
  | kHello => 1 | kHelloReply => 2
  | kGetDeviceInfo => 3 | kDeviceInfoReply => 4
  | kApplyConnections => 5 | kApplyResult => 6
  | kGetConnections => 7 | kConnectionsReply => 8
  | kGetPortState => 9 | kPortStateReply => 10
  | kReset => 11 | kResetResult => 12
  | kInjectFault => 13 | kFaultResult => 14
  | kDeviceEvent => 15 | kErrorReply => 16
  end.

(** [static_cast<MessageType>(value)], used on known values only. *)
Definition cast (v : Z) : t :=
  match v with
  | 1 => kHello | 2 => kHelloReply
  | 3 => kGetDeviceInfo | 4 => kDeviceInfoReply
  | 5 => kApplyConnections | 6 => kApplyResult
  | 7 => kGetConnections | 8 => kConnectionsReply
  | 9 => kGetPortState | 10 => kPortStateReply
  | 11 => kReset | 12 => kResetResult
  | 13 => kInjectFault | 14 => kFaultResult
  | 15 => kDeviceEvent | _ => kErrorReply
  end%Z.
End MessageType.

Record Frame := mkFrame {
  version : Z;
  message_type : MessageType.t;
  flags : Z;
  request_id : Z;
  device_generation : Z;
  payload : string;
}.

#[export] Instance Frame_eq_dec : EqDecision Frame.
Proof. solve_decision. Defined.

Record EncodeResult := mkEncoded { encode_error : Error; bytes : list Z }.
Record DecodeResult := mkDecoded { decode_error : Error; frame : option Frame }.

Definition encode_ok (r : EncodeResult) : bool := error_ok (encode_error r).
Definition decode_ok (r : DecodeResult) : bool :=
  error_ok (decode_error r) && bool_decide (is_Some (frame r)).

(** ** Big-endian integers of [n] bytes *)

(** [for (offset = n; offset > 0; --offset)] *)
Fixpoint appendBigEndian (n : nat) (output : list Z) (value : Z) : list Z :=
  match n with
  | O => output
  | S k => appendBigEndian k
             (output ++ [Z.land (Z.shiftr value (8 * Z.of_nat k)) 255]) value
  end.

(** [input[offset]] *)
Definition byte_at (input : list Z) (offset : nat) : result Z :=
  match input !! offset with
  | Some b => Ok b
  | None => Throw (OutOfRange "vector index out of range")
  end.

(** The loop of [readBigEndian] for a [w]-bit [Integer]: the value and the new offset. *)
Fixpoint readBigEndian_loop (w : Z) (n : nat) (input : list Z) (offset : nat) (value : Z)
    : result (Z * nat) :=
  match n with
  | O => Ok (value, offset)
  | S k =>
      b ← byte_at input offset;
      readBigEndian_loop w k input (S offset) (wrap w (Z.lor (Z.shiftl value 8) b))
  end.
Definition readBigEndian (n : nat) (input : list Z) (offset : nat) : result (Z * nat) :=
  readBigEndian_loop (8 * Z.of_nat n) n input offset 0.

Definition isKnownMessageType (v : Z) : bool :=
  bool_decide (MessageType.value MessageType.kHello <= v)%Z
  && bool_decide (v <= MessageType.value MessageType.kErrorReply)%Z.

(** [static_cast<std::byte>(static_cast<unsigned char>(c))] and back. *)
Definition byte_of_char (c : ascii) : Z := Z.of_N (N_of_ascii c).
Definition char_of_byte (b : Z) : ascii := ascii_of_N (Z.to_N b).
Definition string_bytes (s : string) : list Z := byte_of_char <$> String.list_ascii_of_string s.
Definition string_of_bytes (l : list Z) : string := String.string_of_list_ascii (char_of_byte <$> l).

Definition payload_size (s : string) : Z := Z.of_nat (String.length s).

Definition protocolError (c : ErrorCode.t) (m : string) : Error := mkError c m.

(** ** encode *)
Definition encode (f : Frame) : EncodeResult :=
  if negb (bool_decide (version f = kProtocolVersion)) then
    mkEncoded (protocolError ErrorCode.kProtocolVersion "unsupported UDS protocol version") []
  else if bool_decide (kMaxPayloadSize < payload_size (payload f))%Z
          || bool_decide (2 ^ 32 - 1 < payload_size (payload f))%Z then
    mkEncoded (protocolError ErrorCode.kPayloadTooLarge "UDS payload exceeds limit") []
  else
    let output := appendBigEndian 4 [] kMagic in
    let output := appendBigEndian 2 output (version f) in
    let output := appendBigEndian 2 output (MessageType.value (message_type f)) in
    let output := appendBigEndian 4 output (flags f) in
    let output := appendBigEndian 8 output (request_id f) in
    let output := appendBigEndian 4 output (u32 (payload_size (payload f))) in
    let output := appendBigEndian 8 output (device_generation f) in
    mkEncoded success (output ++ string_bytes (payload f)).

(** ** decode *)
Definition decode_failed (c : ErrorCode.t) (m : string) : DecodeResult :=
  mkDecoded (protocolError c m) None.

Definition decode (bs : list Z) : result DecodeResult :=
  if bool_decide (Z.of_nat (length bs) < kHeaderSize)%Z then
    Ok (decode_failed ErrorCode.kProtocolMalformed "UDS frame header is truncated")
  else
    '(magic, offset) ← readBigEndian 4 bs 0;
    '(ver, offset) ← readBigEndian 2 bs offset;
    '(type, offset) ← readBigEndian 2 bs offset;
    '(fl, offset) ← readBigEndian 4 bs offset;
    '(rid, offset) ← readBigEndian 8 bs offset;
    '(payload_length, offset) ← readBigEndian 4 bs offset;
    '(gen, offset) ← readBigEndian 8 bs offset;
    Ok (if negb (bool_decide (magic = kMagic)) then
          decode_failed ErrorCode.kProtocolMalformed "UDS frame magic is invalid"
        else if negb (bool_decide (ver = kProtocolVersion)) then
          decode_failed ErrorCode.kProtocolVersion "unsupported UDS protocol version"
        else if negb (isKnownMessageType type) then
          decode_failed ErrorCode.kProtocolMalformed "UDS message type is invalid"
        else if bool_decide (kMaxPayloadSize < payload_length)%Z then
          decode_failed ErrorCode.kPayloadTooLarge "UDS payload exceeds limit"
        else if negb (bool_decide (Z.of_nat (length bs) = kHeaderSize + payload_length)%Z) then
          decode_failed ErrorCode.kProtocolMalformed "UDS payload length does not match frame"
        else
          mkDecoded success
            (Some (mkFrame ver (MessageType.cast type) fl rid gen
                     (string_of_bytes (drop offset bs))))).
