(* ===== verification/UdsCodecProps.v ===== *)
(** * The frame codec: round trips, totality and rejection. *)
From S2P Require Import Prelude.
From S2P Require Import Errors.
From S2P Require Import UdsCodec.
From stdpp Require Import options.

(** ** Big-endian integers *)

(** The [n] bytes of [v], most significant first. *)
Fixpoint be (n : nat) (v : Z) : list Z :=
  match n with
  | O => []
  | S k => Z.land (Z.shiftr v (8 * Z.of_nat k)) 255 :: be k v
  end.

Lemma appendBigEndian_be n out v : appendBigEndian n out v = out ++ be n v.
Proof.
  revert out. induction n as [|n IH]; intros out; simpl; [by rewrite app_nil_r|].
  by rewrite IH, <-app_assoc.
Qed.

Lemma length_be n v : length (be n v) = n.
Proof. induction n; simpl; congruence. Qed.
#[export] Hint Rewrite length_be : ocs.

Lemma low_byte x : Z.land x 255 = (x mod 256)%Z.
Proof. change 255%Z with (Z.ones 8). by rewrite Z.land_ones. Qed.

Lemma be_bytes n v : Forall (in_width 8) (be n v).
Proof.
  induction n; simpl; constructor; [|done]. rewrite low_byte.
  unfold in_width. by apply Z.mod_pos_bound.
Qed.

Lemma shift_in_byte v k :
  (0 <= k)%Z ->
  Z.lor (Z.shiftl (Z.shiftr v (k + 8)) 8) (Z.land (Z.shiftr v k) 255) = Z.shiftr v k.
Proof.
  intros Hk. apply Z.bits_inj'. intros i Hi.
  rewrite Z.lor_spec, Z.shiftl_spec, Z.land_spec by done.
  change 255%Z with (Z.ones 8). rewrite Z.testbit_ones_nonneg by lia.
  rewrite (Z.shiftr_spec v k i) by done.
  destruct (Z.ltb_spec i 8).
  - rewrite (Z.testbit_neg_r _ (i - 8)) by lia. by rewrite andb_true_r.
  - rewrite Z.shiftr_spec by lia. rewrite andb_false_r, orb_false_r. f_equal. lia.
Qed.

Lemma shiftr_in_width w v k : in_width w v -> (0 <= k)%Z -> in_width w (Z.shiftr v k).
Proof.
  intros [Hv1 Hv2] Hk. rewrite Z.shiftr_div_pow2 by done.
  pose proof (Z.pow_pos_nonneg 2 k). split; [apply Z.div_pos; lia|].
  apply Z.le_lt_trans with v; [|done]. apply Z.div_le_upper_bound; [lia|]. nia.
Qed.

Lemma byte_at_app pre b rest : byte_at (pre ++ b :: rest) (length pre) = Ok b.
Proof. unfold byte_at. by rewrite lookup_app_r, Nat.sub_diag by done. Qed.

Lemma readBigEndian_loop_be w n : forall pre v rest,
  in_width w v ->
  readBigEndian_loop w n (pre ++ be n v ++ rest) (length pre) (Z.shiftr v (8 * Z.of_nat n))
  = Ok (v, (length pre + n)%nat).
Proof.
  induction n as [|n IH]; intros pre v rest Hv.
  - simpl. by rewrite Z.shiftr_0_r, Nat.add_0_r.
  - cbn [be readBigEndian_loop app]. rewrite byte_at_app. simpl.
    replace (8 * Z.of_nat (S n))%Z with (8 * Z.of_nat n + 8)%Z by lia.
    rewrite shift_in_byte by lia.
    rewrite wrap_small by (apply shiftr_in_width; [done|lia]).
    specialize (IH (pre ++ [Z.land (Z.shiftr v (8 * Z.of_nat n)) 255]) v rest Hv).
    rewrite <-app_assoc, length_app in IH. simpl in IH.
    replace (length pre + 1)%nat with (S (length pre)) in IH by lia.
    rewrite IH. do 2 f_equal. lia.
Qed.

Lemma readBigEndian_be n pre v rest :
  in_width (8 * Z.of_nat n) v ->
  readBigEndian n (pre ++ be n v ++ rest) (length pre) = Ok (v, (length pre + n)%nat).
Proof.
  intros Hv. unfold readBigEndian. rewrite <-(readBigEndian_loop_be _ n pre v rest Hv).
  f_equal. destruct Hv as [Hv1 Hv2]. rewrite Z.shiftr_div_pow2 by lia.
  by rewrite Z.div_small.
Qed.

(** Every [n] bytes are the bytes of an integer. *)
Lemma be_low n v x : be n (x * 2 ^ (8 * Z.of_nat n) + v) = be n v.
Proof.
  assert (forall m, (m <= n)%nat -> be m (x * 2 ^ (8 * Z.of_nat n) + v) = be m v) as H;
    [|by apply H].
  induction m as [|m IH]; intros Hm; [done|]. simpl. rewrite IH by lia. f_equal.
  rewrite !low_byte, !Z.shiftr_div_pow2 by lia.
  replace (8 * Z.of_nat n)%Z with (8 * (Z.of_nat n - Z.of_nat m - 1) + 8 + 8 * Z.of_nat m)%Z by lia.
  rewrite !Z.pow_add_r by lia.
  rewrite Z.mul_assoc, (Z.add_comm _ v), Z.div_add by (apply Z.pow_nonzero; lia).
  rewrite Z.mul_assoc. change (2 ^ 8)%Z with 256%Z. by rewrite Z.mod_add.
Qed.

Lemma be_surj bs :
  Forall (in_width 8) bs ->
  exists v, in_width (8 * Z.of_nat (length bs)) v /\ be (length bs) v = bs.
Proof.
  induction 1 as [|b bs [Hb1 Hb2] _ (v & [Hv1 Hv2] & Hbe)]; [by exists 0%Z|].
  exists (b * 2 ^ (8 * Z.of_nat (length bs)) + v)%Z.
  pose proof (Z.pow_pos_nonneg 2 (8 * Z.of_nat (length bs))) as Hp. split.
  - simpl length. unfold in_width.
    replace (8 * Z.of_nat (S (length bs)))%Z with (8 + 8 * Z.of_nat (length bs))%Z by lia.
    rewrite Z.pow_add_r by lia. change (2 ^ 8)%Z with 256%Z in *. nia.
  - simpl. rewrite be_low, Hbe. f_equal. rewrite low_byte, Z.shiftr_div_pow2 by lia.
    rewrite (Z.add_comm _ v), Z.div_add, Z.div_small by lia.
    change (2 ^ 8)%Z with 256%Z in *. by apply Z.mod_small.
Qed.

(** ** Text *)

Lemma char_of_byte_of_char c : char_of_byte (byte_of_char c) = c.
Proof. unfold char_of_byte, byte_of_char. by rewrite N2Z.id, ascii_N_embedding. Qed.

Lemma byte_of_char_of_byte b : in_width 8 b -> byte_of_char (char_of_byte b) = b.
Proof.
  intros [Hb1 Hb2]. unfold char_of_byte, byte_of_char.
  rewrite N_ascii_embedding by (change 256%N with (Z.to_N (2 ^ 8)); lia). lia.
Qed.

Lemma string_of_bytes_of_string s : string_of_bytes (string_bytes s) = s.
Proof.
  unfold string_of_bytes, string_bytes. rewrite <-list_fmap_compose.
  rewrite (list_fmap_ext _ id) by (intros; apply char_of_byte_of_char).
  by rewrite list_fmap_id, String.string_of_list_ascii_of_string.
Qed.

Lemma string_bytes_of_bytes bs : Forall (in_width 8) bs -> string_bytes (string_of_bytes bs) = bs.
Proof.
  intros Hbs. unfold string_of_bytes, string_bytes.
  rewrite String.list_ascii_of_string_of_list_ascii, <-list_fmap_compose.
  induction Hbs as [|b bs Hb _ IH]; [done|]. rewrite fmap_cons, IH. f_equal.
  by apply byte_of_char_of_byte.
Qed.

Lemma length_string_bytes s : Z.of_nat (length (string_bytes s)) = payload_size s.
Proof.
  unfold string_bytes, payload_size. rewrite length_fmap. f_equal.
  induction s; simpl; congruence.
Qed.

(** ** The header *)

(** Seven big-endian fields and the payload bytes. *)
Definition wire (magic ver type fl rid len gen : Z) (body : list Z) : list Z :=
  be 4 magic ++ be 2 ver ++ be 2 type ++ be 4 fl ++ be 8 rid ++ be 4 len ++ be 8 gen ++ body.

Lemma length_wire magic ver type fl rid len gen body :
  Z.of_nat (length (wire magic ver type fl rid len gen body))
  = (kHeaderSize + Z.of_nat (length body))%Z.
Proof. unfold wire, kHeaderSize. rewrite !length_app, !length_be. lia. Qed.

(** What [decode] does with the fields of a frame of at least 32 bytes. *)
Definition decode_fields (magic ver type fl rid len gen : Z) (body : list Z) : DecodeResult :=
  if negb (bool_decide (magic = kMagic)) then
    decode_failed ErrorCode.kProtocolMalformed "UDS frame magic is invalid"
  else if negb (bool_decide (ver = kProtocolVersion)) then
    decode_failed ErrorCode.kProtocolVersion "unsupported UDS protocol version"
  else if negb (isKnownMessageType type) then
    decode_failed ErrorCode.kProtocolMalformed "UDS message type is invalid"
  else if bool_decide (kMaxPayloadSize < len)%Z then
    decode_failed ErrorCode.kPayloadTooLarge "UDS payload exceeds limit"
  else if negb (bool_decide (Z.of_nat (length body) = len)) then
    decode_failed ErrorCode.kProtocolMalformed "UDS payload length does not match frame"
  else
    mkDecoded success (Some (mkFrame ver (MessageType.cast type) fl rid gen (string_of_bytes body))).

Lemma decode_wire magic ver type fl rid len gen body :
  is_u32 magic -> is_u16 ver -> is_u16 type -> is_u32 fl -> is_u64 rid -> is_u32 len ->
  is_u64 gen ->
  decode (wire magic ver type fl rid len gen body)
  = Ok (decode_fields magic ver type fl rid len gen body).
Proof.
  intros Hm Hv Ht Hf Hr Hl Hg. unfold decode.
  rewrite bool_decide_eq_false_2 by (rewrite length_wire; lia).
  pose proof (length_wire magic ver type fl rid len gen body) as Hlen.
  remember (wire _ _ _ _ _ _ _ _) as bs eqn:Hbs.
  assert (forall pre n v rest, bs = pre ++ be n v ++ rest -> in_width (8 * Z.of_nat n) v ->
    readBigEndian n bs (length pre) = Ok (v, (length pre + n)%nat)) as Hread.
  { intros pre n v rest -> Hw. by apply readBigEndian_be. }
  unfold mbind, result_bind.
  assert (readBigEndian 4 bs 0 = Ok (magic, 4%nat)) as -> by exact (Hread [] 4%nat _ _ Hbs Hm).
  cbn beta iota.
  assert (readBigEndian 2 bs 4 = Ok (ver, 6%nat)) as ->
    by exact (Hread (be 4 magic) 2%nat _ _ Hbs Hv).
  cbn beta iota.
  assert (readBigEndian 2 bs 6 = Ok (type, 8%nat)) as ->
    by exact (Hread (be 4 magic ++ be 2 ver) 2%nat _ _ Hbs Ht).
  cbn beta iota.
  assert (readBigEndian 4 bs 8 = Ok (fl, 12%nat)) as ->
    by exact (Hread (be 4 magic ++ be 2 ver ++ be 2 type) 4%nat _ _ Hbs Hf).
  cbn beta iota.
  assert (readBigEndian 8 bs 12 = Ok (rid, 20%nat)) as ->
    by exact (Hread (be 4 magic ++ be 2 ver ++ be 2 type ++ be 4 fl) 8%nat _ _ Hbs Hr).
  cbn beta iota.
  assert (readBigEndian 4 bs 20 = Ok (len, 24%nat)) as ->
    by exact (Hread (be 4 magic ++ be 2 ver ++ be 2 type ++ be 4 fl ++ be 8 rid) 4%nat _ _ Hbs Hl).
  cbn beta iota.
  assert (readBigEndian 8 bs 24 = Ok (gen, 32%nat)) as ->
    by exact (Hread (be 4 magic ++ be 2 ver ++ be 2 type ++ be 4 fl ++ be 8 rid ++ be 4 len)
                8%nat _ _ Hbs Hg).
  cbn beta iota.
  assert (drop 32 bs = body) as -> by (by subst bs).
  unfold decode_fields. rewrite Hlen.
  replace (bool_decide (kHeaderSize + Z.of_nat (length body) = kHeaderSize + len)%Z)
    with (bool_decide (Z.of_nat (length body) = len)); [done|].
  apply bool_decide_ext. lia.
Qed.

Lemma split_field n bs :
  Forall (in_width 8) bs -> (n <= length bs)%nat ->
  exists v rest, in_width (8 * Z.of_nat n) v /\ bs = be n v ++ rest
    /\ Forall (in_width 8) rest /\ length rest = (length bs - n)%nat.
Proof.
  intros Hbs Hn. destruct (be_surj (take n bs)) as (v & Hv & Hbe); [by apply Forall_take|].
  rewrite length_take_le in Hv, Hbe by done. exists v, (drop n bs).
  rewrite Hbe, take_drop. split_and!; auto using Forall_drop, length_drop.
Qed.

(** Any 32 bytes or more are a header and a body. *)
Lemma wire_surj bs :
  Forall (in_width 8) bs -> (kHeaderSize <= Z.of_nat (length bs))%Z ->
  exists magic ver type fl rid len gen body,
    (is_u32 magic /\ is_u16 ver /\ is_u16 type /\ is_u32 fl /\ is_u64 rid /\ is_u32 len
     /\ is_u64 gen) /\ Forall (in_width 8) body
    /\ bs = wire magic ver type fl rid len gen body.
Proof.
  intros Hbs Hlen. unfold kHeaderSize in Hlen.
  destruct (split_field 4 bs) as (magic & b1 & Hw1 & -> & Hb1 & L1); [done|lia|].
  destruct (split_field 2 b1) as (ver & b2 & Hw2 & -> & Hb2 & L2); [done|lia|].
  destruct (split_field 2 b2) as (type & b3 & Hw3 & -> & Hb3 & L3); [done|lia|].
  destruct (split_field 4 b3) as (fl & b4 & Hw4 & -> & Hb4 & L4); [done|lia|].
  destruct (split_field 8 b4) as (rid & b5 & Hw5 & -> & Hb5 & L5); [done|lia|].
  destruct (split_field 4 b5) as (len & b6 & Hw6 & -> & Hb6 & L6); [done|lia|].
  destruct (split_field 8 b6) as (gen & b7 & Hw7 & -> & Hb7 & L7); [done|lia|].
  by exists magic, ver, type, fl, rid, len, gen, b7.
Qed.

(** ** Message types *)

Lemma cast_value t : MessageType.cast (MessageType.value t) = t.
Proof. by destruct t. Qed.

Lemma value_known t : isKnownMessageType (MessageType.value t) = true.
Proof. by destruct t. Qed.

Lemma value_cast v : isKnownMessageType v = true -> MessageType.value (MessageType.cast v) = v.
Proof.
  unfold isKnownMessageType. rewrite andb_true_iff, !bool_decide_eq_true. simpl. intros [H1 H2].
  assert (v = 1 \/ v = 2 \/ v = 3 \/ v = 4 \/ v = 5 \/ v = 6 \/ v = 7 \/ v = 8 \/ v = 9 \/ v = 10
    \/ v = 11 \/ v = 12 \/ v = 13 \/ v = 14 \/ v = 15 \/ v = 16)%Z as Hc by lia.
  destruct_or! Hc; by subst.
Qed.

Lemma value_u16 t : is_u16 (MessageType.value t).
Proof. unfold in_width. by destruct t. Qed.

(** ** encode *)

Definition frame_wf (f : Frame) : Prop :=
  version f = kProtocolVersion /\ is_u32 (flags f) /\ is_u64 (request_id f)
  /\ is_u64 (device_generation f) /\ (payload_size (payload f) <= kMaxPayloadSize)%Z.

Definition frame_wire (f : Frame) : list Z :=
  wire kMagic (version f) (MessageType.value (message_type f)) (flags f) (request_id f)
    (payload_size (payload f)) (device_generation f) (string_bytes (payload f)).

Lemma payload_u32 s : (payload_size s <= kMaxPayloadSize)%Z -> is_u32 (payload_size s).
Proof. unfold in_width, payload_size, kMaxPayloadSize. lia. Qed.

Lemma encode_spec f :
  version f = kProtocolVersion -> (payload_size (payload f) <= kMaxPayloadSize)%Z ->
  encode f = mkEncoded success (frame_wire f).
Proof.
  intros Hv Hp. unfold encode. rewrite bool_decide_eq_true_2 by done. cbn [negb].
  pose proof (payload_u32 _ Hp) as [_ Hs].
  rewrite !bool_decide_eq_false_2 by lia. cbn [orb].
  rewrite (wrap_small 32) by (by apply payload_u32).
  rewrite !appendBigEndian_be. unfold frame_wire, wire. by rewrite <-!app_assoc.
Qed.

Lemma decode_frame_wire f :
  frame_wf f -> decode (frame_wire f) = Ok (mkDecoded success (Some f)).
Proof.
  intros (Hv & Hf & Hr & Hg & Hp). unfold frame_wire.
  rewrite decode_wire; try done; [|by rewrite Hv|apply value_u16|by apply payload_u32].
  unfold decode_fields. rewrite value_known, Hv, length_string_bytes.
  rewrite (bool_decide_eq_false_2 (_ < _)%Z) by lia.
  rewrite !bool_decide_eq_true_2 by done. cbn [negb].
  rewrite cast_value, string_of_bytes_of_string. destruct f; simpl in *. by subst.
Qed.

(** C36: encoding succeeds exactly for the protocol's version and payloads of at most
    1 MiB, with a 32-byte header, and then decoding gives back the frame, every field
    at its full width. *)
Theorem encode_decode_roundtrip f :
  is_u32 (flags f) -> is_u64 (request_id f) -> is_u64 (device_generation f) ->
  if encode_ok (encode f) then
    version f = kProtocolVersion /\ (payload_size (payload f) <= kMaxPayloadSize)%Z
    /\ Z.of_nat (length (bytes (encode f))) = (kHeaderSize + payload_size (payload f))%Z
    /\ decode (bytes (encode f)) = Ok (mkDecoded success (Some f))
  else
    code (encode_error (encode f))
    = (if decide (version f = kProtocolVersion) then ErrorCode.kPayloadTooLarge
       else ErrorCode.kProtocolVersion) /\
    (version f <> kProtocolVersion \/ (kMaxPayloadSize < payload_size (payload f))%Z).
Proof.
  intros Hf Hr Hg. destruct (decide (version f = kProtocolVersion)) as [Hv|Hv].
  - destruct (decide (payload_size (payload f) <= kMaxPayloadSize)%Z) as [Hp|Hp].
    + rewrite encode_spec by done. unfold encode_ok. cbn [encode_error bytes].
      change (error_ok success) with true. cbv iota. split_and!; try done.
      * unfold frame_wire. by rewrite length_wire, length_string_bytes.
      * apply decode_frame_wire. by split_and!.
    + unfold encode. rewrite bool_decide_eq_true_2 by done. simpl.
      rewrite (bool_decide_eq_true_2 (kMaxPayloadSize < _)%Z) by lia. simpl. split; [done|lia].
  - unfold encode. rewrite bool_decide_eq_false_2 by done. simpl. by auto.
Qed.

(** Every byte sequence is decoded without reading out of bounds; an accepted one is the
    encoding of the frame it yields. *)
Lemma decode_total bs :
  Forall (in_width 8) bs ->
  exists r, decode bs = Ok r /\
    match frame r with
    | Some f => decode_error r = success /\ frame_wf f /\ bytes (encode f) = bs
    | None => error_ok (decode_error r) = false
    end.
Proof.
  intros Hbs. destruct (decide (kHeaderSize <= Z.of_nat (length bs))%Z) as [Hlen|Hlen].
    2:{ unfold decode. rewrite bool_decide_eq_true_2 by lia. eexists. split; [done|]. done. }
    destruct (wire_surj bs Hbs Hlen)
      as (magic & ver & type & fl & rid & len & gen & body & (? & ? & ? & ? & ? & Hl & ?) & Hbody & ->).
    rewrite decode_wire by done. eexists. split; [done|]. unfold decode_fields.
    destruct (decide (magic = kMagic)) as [->|?];
      [rewrite bool_decide_eq_true_2 by done|by rewrite bool_decide_eq_false_2].
    destruct (decide (ver = kProtocolVersion)) as [->|?];
      [rewrite (bool_decide_eq_true_2 (kProtocolVersion = _)) by done
      |by rewrite (bool_decide_eq_false_2 (ver = _))].
    destruct (isKnownMessageType type) eqn:Ht; [|done]. simpl.
    case_bool_decide as Hmax; [done|]. case_bool_decide as Hlb; [|done]. simpl.
    pose proof (string_bytes_of_bytes _ Hbody) as Hsb.
    assert (payload_size (string_of_bytes body) = len) as Hps
      by (rewrite <-length_string_bytes, Hsb; done).
    assert (frame_wf (mkFrame kProtocolVersion (MessageType.cast type) fl rid gen (string_of_bytes body)))
      as Hwf by (split_and!; simpl; done || lia).
    split; [done|]. split; [done|]. rewrite encode_spec; [|done|apply Hwf]. simpl.
    unfold frame_wire. simpl. by rewrite value_cast, Hps, Hsb.
Qed.

(** C37: [decode] returns for every byte sequence, never reading out of bounds, and it
    accepts exactly the encodings of well-formed frames: an accepted packet is the
    encoding of the frame it yields, a refused one of none. *)
Theorem decode_returns_and_is_exact bs :
  Forall (in_width 8) bs ->
  exists r, decode bs = Ok r /\
    match frame r with
    | Some f => decode_error r = success /\ frame_wf f /\ bytes (encode f) = bs
    | None => error_ok (decode_error r) = false
              /\ forall f, frame_wf f -> bytes (encode f) <> bs
    end.
Proof.
  intros Hbs.
  assert (forall f, frame_wf f -> bytes (encode f) = bs ->
            decode bs = Ok (mkDecoded success (Some f))) as Hacc.
  { intros f Hf <-. pose proof Hf as (Hv & _ & _ & _ & Hp). rewrite encode_spec by done.
    by apply decode_frame_wire. }
  destruct (decode_total bs Hbs) as (r & Hr & Hm).
  exists r. split; [done|]. destruct (frame r) as [f|] eqn:Hf; [done|]. split; [done|].
  intros f Hwf Heq. rewrite (Hacc f Hwf Heq) in Hr. by simplify_eq.
Qed.
