(* ===== verification/Json.v ===== *)
(** * The interface of nlohmann::json the code relies on.

    The library is third-party code, so it is a parameter: [JsonLib] has the
    operations the sources call and [JsonLaws] the documented behaviour they rely
    on.  JsonRef.v has a small instance, used only to show that the laws can hold. *)
From S2P Require Import Prelude.
From S2P Require Import Types.
From Stdlib Require Import SpecFloat.
From stdpp Require Import options.

Class JsonLib := {
  Json : Type;
  (** Construction: [json_uint] from an unsigned integer type, [json_int] from a
      signed one, [json_object] from an initializer list of pairs. *)
  json_bool : bool -> Json;
  json_uint : Z -> Json;
  json_int : Z -> Json;
  json_double : double -> Json;
  json_string : string -> Json;
  json_array : list Json -> Json;
  json_object : list (string * Json) -> Json;
  (** [dump()] and [Json::parse] *)
  dump : Json -> result string;
  parse : string -> result Json;
  (** [at(key)], [value(key, default)] with a string default, and range-for *)
  json_at : Json -> string -> result Json;
  json_value : Json -> string -> string -> result string;
  elements : Json -> list Json;
  (** [get<T>()] *)
  get_bool : Json -> result bool;
  get_string : Json -> result string;
  get_u16 : Json -> result Z;
  get_u64 : Json -> result Z;
  get_i64 : Json -> result Z;
  get_double : Json -> result double;
  is_number_unsigned : Json -> bool;
  is_number_integer : Json -> bool;
}.

Definition is_i64 (z : Z) : Prop := (- 2 ^ 63 <= z < 2 ^ 63)%Z.
#[export] Instance is_i64_dec z : Decision (is_i64 z).
Proof. unfold is_i64. apply _. Defined.

(** A finite binary64 value: what [dump] can print exactly. *)
Definition finite_double (d : double) : Prop :=
  match d with S754_zero _ | S754_finite _ _ _ => True | _ => False end
  /\ valid_binary 53 1024 d = true.

Definition json_error {A} (r : result A) : Prop :=
  match r with Ok _ => True | Throw (JsonError _) => True | Throw _ => False end.

Definition ascii_text (s : string) : Prop :=
  Forall (fun c => N_of_ascii c < 128)%N (String.list_ascii_of_string s).

#[export] Instance ascii_text_dec s : Decision (ascii_text s).
Proof. unfold ascii_text. apply _. Defined.

Class JsonLaws {J : JsonLib} := {
  (** [parsed v w]: [w] is what parsing the text of [v] gives. *)
  parsed : Json -> Json -> Prop;
  (** well-formed UTF-8 *)
  utf8 : string -> Prop;
  utf8_ascii s : ascii_text s -> utf8 s;
  (** [dump] throws exactly on ill-formed text (strict error handler). *)
  dump_bool b : is_ok (dump (json_bool b)) = true;
  dump_uint z : is_ok (dump (json_uint z)) = true;
  dump_int z : is_ok (dump (json_int z)) = true;
  dump_double d : is_ok (dump (json_double d)) = true;
  dump_string s : utf8 s -> is_ok (dump (json_string s)) = true;
  dump_array l : Forall (fun v => is_ok (dump v) = true) l -> is_ok (dump (json_array l)) = true;
  dump_object l :
    Forall (fun kv => utf8 kv.1 /\ is_ok (dump kv.2) = true) l ->
    is_ok (dump (json_object l)) = true;
  dump_string_strict s : is_ok (dump (json_string s)) = true -> utf8 s;
  dump_object_strict k v l : NoDup l.*1 ->
    (k, v) ∈ l -> is_ok (dump v) = false -> is_ok (dump (json_object l)) = false;
  (** every exception of the library is a [nlohmann::json::exception] *)
  dump_json_error v : json_error (dump v);
  parse_json_error s : json_error (parse s);
  at_json_error v k : json_error (json_at v k);
  value_json_error v k d : json_error (json_value v k d);
  get_bool_json_error v : json_error (get_bool v);
  get_string_json_error v : json_error (get_string v);
  get_u16_json_error v : json_error (get_u16 v);
  get_u64_json_error v : json_error (get_u64 v);
  get_i64_json_error v : json_error (get_i64 v);
  get_double_json_error v : json_error (get_double v);
  (** ranges of the integer conversions *)
  get_u16_range v z : get_u16 v = Ok z -> is_u16 z;
  get_u64_range v z : get_u64 v = Ok z -> is_u64 z;
  get_i64_range v z : get_i64 v = Ok z -> is_i64 z;
  (** strings of parsed text are well-formed UTF-8 *)
  from_text : Json -> Prop;
  parse_from_text s v : parse s = Ok v -> from_text v;
  at_from_text v k x : from_text v -> json_at v k = Ok x -> from_text x;
  elements_from_text v : from_text v -> Forall from_text (elements v);
  string_from_text v s : from_text v -> get_string v = Ok s -> utf8 s;
  value_from_text v k d s : from_text v -> utf8 d -> json_value v k d = Ok s -> utf8 s;
  (** text round trip, value by value *)
  parse_dump v s : dump v = Ok s -> exists w, parse s = Ok w /\ parsed v w;
  parsed_bool b w : parsed (json_bool b) w -> get_bool w = Ok b;
  parsed_uint z w : is_u64 z -> parsed (json_uint z) w ->
    get_u64 w = Ok z /\ get_u16 w = Ok (u16 z) /\ is_number_unsigned w = true;
  parsed_int z w : is_i64 z -> parsed (json_int z) w -> get_i64 w = Ok z;
  parsed_double d w : finite_double d -> parsed (json_double d) w -> get_double w = Ok d;
  parsed_string s w : parsed (json_string s) w -> get_string w = Ok s;
  parsed_array l w : parsed (json_array l) w -> Forall2 parsed l (elements w);
  parsed_at l k v w : NoDup l.*1 -> (k, v) ∈ l -> parsed (json_object l) w ->
    exists x, json_at w k = Ok x /\ parsed v x;
  parsed_value l k s d w : NoDup l.*1 -> (k, json_string s) ∈ l -> parsed (json_object l) w ->
    json_value w k d = Ok s;
  (** a parsed value can be dumped and parsed again *)
  dump_parsed v w : parsed v w -> is_ok (dump v) = true -> is_ok (dump w) = true;
  parsed_trans v w x : parsed v w -> parsed w x -> parsed v x;
}.
Arguments JsonLaws : clear implicits.

(** ** Reading a dumped object *)

(** [get] reads [a] back from every parsed form of [v]. *)
Definition reads_as {J : JsonLib} {JL : JsonLaws J} {A} (get : Json -> result A) (v : Json) (a : A)
    : Prop := forall w, parsed v w -> get w = Ok a.

Section Reading.
Context {J : JsonLib} {JL : JsonLaws J}.

Lemma reads_bool b : reads_as get_bool (json_bool b) b.
Proof. intros w. apply parsed_bool. Qed.
Lemma reads_string s : reads_as get_string (json_string s) s.
Proof. intros w. apply parsed_string. Qed.
Lemma reads_u64 z : is_u64 z -> reads_as get_u64 (json_uint z) z.
Proof. intros Hz w Hw. by apply (parsed_uint z). Qed.
Lemma reads_u16 z : is_u16 z -> reads_as get_u16 (json_uint z) z.
Proof.
  intros [Hz1 Hz2] w Hw. destruct (parsed_uint z w) as (_ & -> & _); [|done|].
  - unfold in_width in *. lia.
  - by rewrite (wrap_small 16).
Qed.
Lemma reads_i64 z : is_i64 z -> reads_as get_i64 (json_int z) z.
Proof. intros Hz w. by apply parsed_int. Qed.
Lemma reads_double d : finite_double d -> reads_as get_double (json_double d) d.
Proof. intros Hd w. by apply parsed_double. Qed.

(** One member of an object, then a getter. *)
Lemma reads_member {A} (get : Json -> result A) l k v a w :
  NoDup l.*1 -> (k, v) ∈ l -> parsed (json_object l) w -> reads_as get v a ->
  (json_at w k ≫= get) = Ok a.
Proof.
  intros Hnd Hin Hw Hr. destruct (parsed_at l k v w Hnd Hin Hw) as (x & -> & Hx). simpl.
  by apply Hr.
Qed.

(** Every element of an array, with one reader. *)
Lemma reads_elements {A B} (enc : A -> Json) (get : Json -> result B) (f : A -> B) l ws :
  Forall2 parsed (enc <$> l) ws -> Forall (fun a => reads_as get (enc a) (f a)) l ->
  mapM get ws = Ok (f <$> l).
Proof.
  revert ws. induction l as [|a l IH]; intros ws Hws Hl; inversion Hws as [|? w ? ws' Hw Hws']; subst;
    [done|]. apply Forall_cons in Hl as [Ha Hl]. simpl. rewrite (Ha w Hw). simpl.
  by rewrite (IH ws').
Qed.

(** Dump then parse. *)
Lemma dump_parse v : is_ok (dump v) = true -> exists s, dump v = Ok s /\
  forall A (f : Json -> result A) a, reads_as f v a -> (parse s ≫= f) = Ok a.
Proof.
  destruct (dump v) as [s|] eqn:Hd; [|done]. intros _. exists s. split; [done|].
  intros A f a Hr. destruct (parse_dump v s Hd) as (w & -> & Hw). simpl. by apply Hr.
Qed.

(** What [dump] is strict about. *)
Lemma dump_ill_formed s : ~ utf8 s -> is_ok (dump (json_string s)) = false.
Proof. intros Hs. apply not_true_is_false. intros H. by apply Hs, dump_string_strict. Qed.

Lemma dumped_member k s l :
  NoDup l.*1 -> (k, json_string s) ∈ l -> is_ok (dump (json_object l)) = true -> utf8 s.
Proof.
  intros Hnd Hin Hl. apply dump_string_strict. destruct (is_ok (dump (json_string s))) eqn:Hs; [done|].
  by rewrite (dump_object_strict k _ l Hnd Hin Hs) in Hl.
Qed.
End Reading.

#[export] Hint Resolve reads_bool reads_string reads_u64 reads_u16 reads_i64 reads_double : ocs.

(** ** Tactics for the codecs *)

(** The keys and values of an object literal can be dumped. *)
Ltac dump_members :=
  apply dump_object; rewrite ?Forall_cons, ?Forall_nil; cbn [fst snd];
  repeat match goal with
    | |- _ /\ _ => split
    | |- True => exact I
    | |- utf8 (String _ _) => apply utf8_ascii; repeat constructor
    | |- is_ok (dump (json_bool _)) = true => apply dump_bool
    | |- is_ok (dump (json_uint _)) = true => apply dump_uint
    | |- is_ok (dump (json_int _)) = true => apply dump_int
    | |- is_ok (dump (json_double _)) = true => apply dump_double
    | |- is_ok (dump (json_string _)) = true => apply dump_string
    end; auto with ocs.

(** The position of a member in an object literal, and that its keys are distinct. *)
Ltac member := first [apply list_elem_of_here | apply list_elem_of_further; member].
Ltac distinct_keys :=
  match goal with |- NoDup ?l => apply (bool_decide_unpack (NoDup l)); vm_compute; exact I end.

(** Read every member of the object [Hw : parsed (json_object l) w]. *)
Ltac read_members Hw :=
  match type of Hw with
  | parsed (json_object ?l) ?w =>
      let ks := eval cbv [fmap list_fmap fst] in l.*1 in
      let Hnd := fresh "Hnd" in
      assert (NoDup l.*1) as Hnd by (change (NoDup ks); distinct_keys);
      repeat (erewrite (reads_member _ _ _ _ _ w Hnd); [|member|exact Hw|solve [eauto with ocs]]; simpl)
  end.
