(* ===== verification/DeviceCommand.v ===== *)
(** * device_command.{hpp,cpp}: the batch the orchestrator queues for syncd, its round trip
    and its validation. *)
From S2P Require Import Prelude Types Json.
From stdpp Require Import options.

Section DeviceCommand.
Context {J : JsonLib}.

Definition operationName (op : ConnectionOperation.t) : string :=
  match op with ConnectionOperation.kRemove => "REMOVE" | ConnectionOperation.kUpsert => "UPSERT" end.

Definition parseOperation (s : string) : result ConnectionOperation.t :=
  if decide (s = "UPSERT") then Ok ConnectionOperation.kUpsert
  else if decide (s = "REMOVE") then Ok ConnectionOperation.kRemove
  else Throw (InvalidArgument "unsupported device command operation").

Definition parsePort (command : Json) (field : string) : result PortId :=
  value ← json_at command field;
  parsed ← (if is_number_unsigned value then get_u64 value
            else if is_number_integer value then
              signed_value ← get_i64 value;
              if decide (signed_value <= 0)%Z then
                Throw (InvalidArgument (field +:+ " must be positive"))
              else Ok (u64 signed_value)
            else Throw (InvalidArgument (field +:+ " must be an integer")));
  if decide (parsed = 0 \/ 2 ^ 16 - 1 < parsed)%Z then
    Throw (InvalidArgument (field +:+ " is outside the supported port range"))
  else Ok (u16 parsed).

(** One element of the "commands" array. *)
Definition command_json (c : ConnectionCommand) : Json :=
  json_object
    [("operation", json_string (operationName (operation c)));
     ("id", json_string (cmd_id c));
     ("input_port", json_uint (cmd_input_port c));
     ("output_port", json_uint (cmd_output_port c));
     ("desired_version", json_uint (desired_version c))].

Definition batch_json (commands : list ConnectionCommand) (options : ApplyOptions) : Json :=
  json_object
    [("commands", json_array (command_json <$> commands));
     ("atomic", json_bool (opt_atomic options));
     ("timeout_ms", json_int (opt_timeout options));
     ("operation_id", json_string (operation_id options))].

Definition encodeDeviceCommand (batch : DeviceCommandBatch) : result string :=
  dump (batch_json (batch_commands batch) (batch_options batch)).

(** The body of the loop of [decodeDeviceCommand]. *)
Definition decode_command (command : Json) : result ConnectionCommand :=
  operation ← (json_at command "operation" ≫= get_string) ≫= parseOperation;
  id ← json_at command "id" ≫= get_string;
  version ← json_at command "desired_version" ≫= get_u64;
  match operation with
  | ConnectionOperation.kUpsert =>
      i ← parsePort command "input_port";
      o ← parsePort command "output_port";
      Ok (mkCommand operation id i o version)
  | ConnectionOperation.kRemove => Ok (mkCommand operation id 0 0 version)
  end.

(** [decodeDeviceCommand], once the text is parsed *)
Definition decode_batch (value : Json) : result DeviceCommandBatch :=
  atomic ← json_at value "atomic" ≫= get_bool;
  timeout ← json_at value "timeout_ms" ≫= get_i64;
  operation_id ← json_value value "operation_id" "";
  if decide (timeout <= 0)%Z then
    Throw (InvalidArgument "device command timeout must be positive")
  else
    list ← json_at value "commands";
    commands ← mapM decode_command (elements list);
    if bool_decide (commands = []) then
      Throw (InvalidArgument "device command batch must not be empty")
    else Ok (mkBatch commands (mkOptions atomic timeout operation_id)).

Definition decodeDeviceCommand (payload : string) : result DeviceCommandBatch :=
  value ← parse payload; decode_batch value.

End DeviceCommand.

#[local] Set Default Proof Using "Type*".

Section Props.
Context {J : JsonLib} {JL : JsonLaws J}.

(** What the receiver sees of a command: REMOVE carries no ports. *)
Definition received (c : ConnectionCommand) : ConnectionCommand :=
  match operation c with
  | ConnectionOperation.kUpsert => c
  | ConnectionOperation.kRemove => mkCommand ConnectionOperation.kRemove (cmd_id c) 0 0 (desired_version c)
  end.

(** A command both ends accept: ports of an UPSERT are positive. *)
Definition sendable (c : ConnectionCommand) : Prop :=
  command_wf c /\ utf8 (cmd_id c) /\
  (operation c = ConnectionOperation.kUpsert -> (0 < cmd_input_port c)%Z /\ (0 < cmd_output_port c)%Z).

Definition options_wf (o : ApplyOptions) : Prop := is_i64 (opt_timeout o) /\ utf8 (operation_id o).

Lemma operation_ascii op : utf8 (operationName op).
Proof. apply utf8_ascii. destruct op; repeat constructor. Qed.

Lemma command_json_ok c : utf8 (cmd_id c) -> is_ok (dump (command_json c)) = true.
Proof.
  intros Hid. unfold command_json. dump_members. apply operation_ascii.
Qed.

Lemma batch_json_ok cs o :
  Forall (fun c => utf8 (cmd_id c)) cs -> utf8 (operation_id o) ->
  is_ok (dump (batch_json cs o)) = true.
Proof.
  intros Hcs Ho. unfold batch_json. dump_members. apply dump_array, Forall_fmap. eapply Forall_impl; [done|]. apply command_json_ok.
Qed.

Lemma parsePort_reads l k z w :
  NoDup l.*1 -> (k, json_uint z) ∈ l -> parsed (json_object l) w -> is_u16 z -> (0 < z)%Z ->
  parsePort w k = Ok z.
Proof.
  intros Hnd Hin Hw Hz Hpos. unfold parsePort.
  destruct (parsed_at l k _ w Hnd Hin Hw) as (x & -> & Hx). simpl.
  unfold in_width in Hz.
  destruct (parsed_uint z x) as (Hu & _ & Hnum); [unfold in_width; lia|done|].
  rewrite Hnum, Hu. simpl. rewrite decide_False by lia. by rewrite (wrap_small 16).
Qed.

Lemma command_reads c : sendable c -> reads_as decode_command (command_json c) (received c).
Proof.
  intros ((Hi & Ho & Hv) & Hid & Hports) w Hw. unfold command_json in Hw. unfold decode_command.
  read_members Hw.
  destruct (operation c) eqn:Hop; simpl.
  - destruct (Hports eq_refl).
    rewrite (parsePort_reads _ "input_port" (cmd_input_port c) w Hnd) by (done || member).
    simpl. rewrite (parsePort_reads _ "output_port" (cmd_output_port c) w Hnd) by (done || member).
    simpl. unfold received. rewrite Hop. destruct c; simpl in *; by subst.
  - unfold received. by rewrite Hop.
Qed.

(** A batch both ends accept. *)
Definition sendable_batch (b : DeviceCommandBatch) : Prop :=
  batch_commands b <> [] /\ Forall sendable (batch_commands b) /\
  options_wf (batch_options b) /\ (0 < opt_timeout (batch_options b))%Z.

Definition received_batch (b : DeviceCommandBatch) : DeviceCommandBatch :=
  mkBatch (received <$> batch_commands b) (batch_options b).

Lemma batch_ok b :
  sendable_batch b -> is_ok (dump (batch_json (batch_commands b) (batch_options b))) = true.
Proof.
  intros (_ & Hcs & [_ Hop] & _). apply batch_json_ok; [|done].
  eapply Forall_impl; [done|]. intros c (_ & ? & _). done.
Qed.

Lemma batch_reads b :
  sendable_batch b ->
  reads_as decode_batch (batch_json (batch_commands b) (batch_options b)) (received_batch b).
Proof.
  intros (Hne & Hcs & [Ht Hop] & Hpos) w Hw. unfold decode_batch. unfold batch_json in Hw.
  pose proof Hw as Hobj. read_members Hw.
  rewrite (parsed_value _ "operation_id" (operation_id (batch_options b)) "" w Hnd)
    by (exact Hobj || member). simpl.
  rewrite decide_False by lia.
  destruct (parsed_at _ "commands" (json_array (command_json <$> batch_commands b)) w Hnd)
    as (x & -> & Hx); [member|exact Hobj|]. simpl.
  apply parsed_array in Hx.
  rewrite (reads_elements command_json decode_command received (batch_commands b)); [|done|].
  - simpl. rewrite bool_decide_eq_false_2 by (by destruct (batch_commands b)).
    unfold received_batch. by destruct (batch_options b).
  - eapply Forall_impl; [done|]. apply command_reads.
Qed.

Lemma batch_roundtrip b :
  sendable_batch b ->
  exists s, encodeDeviceCommand b = Ok s /\ decodeDeviceCommand s = Ok (received_batch b).
Proof.
  intros Hb. unfold encodeDeviceCommand.
  destruct (dump_parse _ (batch_ok b Hb)) as (s & -> & Hs). exists s. split; [done|].
  unfold decodeDeviceCommand. apply Hs. by apply batch_reads.
Qed.

(** C39: a batch the orchestrator queues is what syncd decodes: for every non-empty
    batch of well-formed commands with a positive timeout the encoding succeeds and
    decodes to the same commands in the same order and the same options, except that a
    REMOVE loses its ports. *)
Theorem device_command_roundtrip b :
  batch_commands b <> [] -> Forall sendable (batch_commands b) ->
  options_wf (batch_options b) -> (0 < opt_timeout (batch_options b))%Z ->
  exists s, encodeDeviceCommand b = Ok s /\
    decodeDeviceCommand s = Ok (mkBatch (received <$> batch_commands b) (batch_options b)).
Proof. intros Hne Hcs Ho Hpos. by apply batch_roundtrip. Qed.

(** ** What the decoder accepts *)

(** A command as decoded: UPSERT ports are 1 to 65535 and a REMOVE has none. *)
Definition decoded_wf (c : ConnectionCommand) : Prop :=
  is_u64 (desired_version c) /\
  match operation c with
  | ConnectionOperation.kUpsert =>
      (1 <= cmd_input_port c <= 65535)%Z /\ (1 <= cmd_output_port c <= 65535)%Z
  | ConnectionOperation.kRemove => cmd_input_port c = 0%Z /\ cmd_output_port c = 0%Z
  end.

Lemma parsePort_range v k z : parsePort v k = Ok z -> (1 <= z <= 65535)%Z.
Proof.
  unfold parsePort. rewrite result_bind_Ok. intros (x & _ & Hx).
  apply result_bind_Ok in Hx as (p & Hp & Hr).
  assert (0 <= p)%Z as Hp0.
  { destruct (is_number_unsigned x).
    - apply get_u64_range in Hp. by destruct Hp.
    - destruct (is_number_integer x); [|done]. apply result_bind_Ok in Hp as (y & _ & Hy).
      destruct (decide (y <= 0)%Z); [done|]. simplify_eq. pose proof (wrap_in_width 64 y ltac:(lia)) as [? _]. done. }
  case_decide; [done|]. simplify_eq. rewrite (wrap_small 16) by (unfold in_width; lia). lia.
Qed.

Lemma decode_command_wf v c : decode_command v = Ok c -> decoded_wf c.
Proof.
  unfold decode_command. rewrite result_bind_Ok. intros (op & _ & H1).
  apply result_bind_Ok in H1 as (id & _ & H2).
  apply result_bind_Ok in H2 as (ver & Hver & H3).
  apply result_bind_Ok in Hver as (? & _ & Hver%get_u64_range).
  destruct op.
  - apply result_bind_Ok in H3 as (i & Hi%parsePort_range & H4).
    apply result_bind_Ok in H4 as (o & Ho%parsePort_range & [= <-]). by split.
  - simplify_eq. by split.
Qed.

Lemma decode_batch_wf s b :
  decodeDeviceCommand s = Ok b ->
  batch_commands b <> [] /\ Forall decoded_wf (batch_commands b)
  /\ (0 < opt_timeout (batch_options b) < 2 ^ 63)%Z.
Proof.
  unfold decodeDeviceCommand. rewrite result_bind_Ok. intros (v & _ & H1).
  unfold decode_batch in H1.
  apply result_bind_Ok in H1 as (atomic & _ & H1).
  apply result_bind_Ok in H1 as (t & Ht & H1).
  apply result_bind_Ok in Ht as (? & _ & Ht%get_i64_range).
  apply result_bind_Ok in H1 as (oid & _ & H1). case_decide; [done|].
  apply result_bind_Ok in H1 as (l & _ & H1).
  apply result_bind_Ok in H1 as (cs & Hcs & H1). case_bool_decide; [done|]. simplify_eq. simpl.
  split; [done|]. split; [|unfold is_i64 in Ht; lia].
  eapply mapM_Ok_Forall; [|done]. apply decode_command_wf.
Qed.

(** Whatever text is queued, a batch the decoder accepts is non-empty and has a
    positive timeout, 64-bit versions, and for each UPSERT two ports between 1 and
    65535 (no wrap-around of larger numbers). *)
Theorem decoded_batch_is_valid s b :
  decodeDeviceCommand s = Ok b ->
  batch_commands b <> [] /\ Forall decoded_wf (batch_commands b)
  /\ (0 < opt_timeout (batch_options b) < 2 ^ 63)%Z.
Proof. apply decode_batch_wf. Qed.
End Props.
