(* ===== verification/UdsJson.v ===== *)
(** * uds_json.{hpp,cpp}: the payloads of the UDS messages. *)
From S2P Require Import Prelude.
From S2P Require Import Errors.
From S2P Require Import Types.
From S2P Require Import Json.
From stdpp Require Import options.

Record ApplyRequest := mkApplyRequest {
  request_commands : list ConnectionCommand;
  request_options : ApplyOptions;
}.
Record PortRequest := mkPortRequest { request_direction : PortDirection.t; request_port : PortId }.
Record FaultRequest := mkFaultRequest { request_clear : bool; request_fault : FaultSpec }.

(** ** Names *)
Definition directionName (d : PortDirection.t) : string :=
  match d with PortDirection.kInput => "INPUT" | PortDirection.kOutput => "OUTPUT" end.
Definition parseDirection (s : string) : PortDirection.t :=
  if decide (s = "OUTPUT") then PortDirection.kOutput else PortDirection.kInput.

Definition operationName (op : ConnectionOperation.t) : string :=
  match op with ConnectionOperation.kRemove => "REMOVE" | ConnectionOperation.kUpsert => "UPSERT" end.
Definition parseOperation (s : string) : ConnectionOperation.t :=
  if decide (s = "REMOVE") then ConnectionOperation.kRemove else ConnectionOperation.kUpsert.

Definition portStatusName (s : PortOperStatus.t) : string :=
  match s with
  | PortOperStatus.kUp => "UP"
  | PortOperStatus.kDown => "DOWN"
  | PortOperStatus.kLowPower => "LOW_POWER"
  | PortOperStatus.kFault => "FAULT"
  | PortOperStatus.kUnknown => "UNKNOWN"
  end.
Definition parsePortStatus (s : string) : PortOperStatus.t :=
  if decide (s = "UP") then PortOperStatus.kUp
  else if decide (s = "DOWN") then PortOperStatus.kDown
  else if decide (s = "LOW_POWER") then PortOperStatus.kLowPower
  else if decide (s = "FAULT") then PortOperStatus.kFault
  else PortOperStatus.kUnknown.

Definition faultName (t : FaultType.t) : string :=
  match t with
  | FaultType.kNextApplyError => "NEXT_APPLY_ERROR"
  | FaultType.kNextApplyTimeout => "NEXT_APPLY_TIMEOUT"
  | FaultType.kInputPortDown => "INPUT_PORT_DOWN"
  | FaultType.kOutputPortDown => "OUTPUT_PORT_DOWN"
  | FaultType.kOutOfBandDrift => "OUT_OF_BAND_DRIFT"
  | FaultType.kAll => "ALL"
  end.
Definition parseFault (s : string) : FaultType.t :=
  if decide (s = "NEXT_APPLY_TIMEOUT") then FaultType.kNextApplyTimeout
  else if decide (s = "INPUT_PORT_DOWN") then FaultType.kInputPortDown
  else if decide (s = "OUTPUT_PORT_DOWN") then FaultType.kOutputPortDown
  else if decide (s = "OUT_OF_BAND_DRIFT") then FaultType.kOutOfBandDrift
  else if decide (s = "ALL") then FaultType.kAll
  else FaultType.kNextApplyError.

Section Codecs.
Context {J : JsonLib}.

(** ** Errors and connections *)
Definition errorJson (e : Error) : Json :=
  json_object [("code", json_string (ErrorCode.toString (code e)));
               ("message", json_string (message e))].

Definition parseError (value : Json) : result Error :=
  c ← json_value value "code" "OCS_INTERNAL_ERROR";
  m ← json_value value "message" "";
  Ok (mkError (ErrorCode.errorCodeFromString c) m).

Definition connectionJson (c : AppliedConnection) : Json :=
  json_object [("id", json_string (app_id c));
               ("input_port", json_uint (app_input_port c));
               ("output_port", json_uint (app_output_port c));
               ("applied_version", json_uint (applied_version c))].

Definition parseConnection (value : Json) : result AppliedConnection :=
  id ← json_at value "id" ≫= get_string;
  i ← json_at value "input_port" ≫= get_u16;
  o ← json_at value "output_port" ≫= get_u16;
  v ← json_at value "applied_version" ≫= get_u64;
  Ok (mkApplied id i o v).

Definition encodeError (e : Error) : result string := dump (errorJson e).
Definition decodeError (payload : string) : result Error := parse payload ≫= parseError.

(** ** Device information *)
Definition deviceInfoJson (info : DeviceInfo) : Json :=
  json_object [("name", json_string (info_name info));
               ("input_port_count", json_uint (input_port_count info));
               ("output_port_count", json_uint (output_port_count info));
               ("model", json_string (info_model info));
               ("serial_number", json_string (serial_number info));
               ("firmware_version", json_string (firmware_version info));
               ("generation", json_uint (generation info))].
Definition encodeDeviceInfo (info : DeviceInfo) : result string := dump (deviceInfoJson info).

Definition parseDeviceInfo (value : Json) : result DeviceInfo :=
  name ← json_at value "name" ≫= get_string;
  i ← json_at value "input_port_count" ≫= get_u16;
  o ← json_at value "output_port_count" ≫= get_u16;
  model ← json_at value "model" ≫= get_string;
  serial ← json_at value "serial_number" ≫= get_string;
  firmware ← json_at value "firmware_version" ≫= get_string;
  gen ← json_at value "generation" ≫= get_u64;
  Ok (mkDeviceInfo name i o model serial firmware gen).
Definition decodeDeviceInfo (payload : string) : result DeviceInfo :=
  parse payload ≫= parseDeviceInfo.

(** ** Apply *)
Definition requestCommandJson (c : ConnectionCommand) : Json :=
  json_object [("operation", json_string (operationName (operation c)));
               ("id", json_string (cmd_id c));
               ("input_port", json_uint (cmd_input_port c));
               ("output_port", json_uint (cmd_output_port c));
               ("desired_version", json_uint (desired_version c))].
Definition applyRequestJson (commands : list ConnectionCommand) (options : ApplyOptions) : Json :=
  json_object [("commands", json_array (requestCommandJson <$> commands));
               ("atomic", json_bool (opt_atomic options));
               ("timeout_ms", json_int (opt_timeout options));
               ("operation_id", json_string (operation_id options))].
Definition encodeApplyRequest (commands : list ConnectionCommand) (options : ApplyOptions)
    : result string := dump (applyRequestJson commands options).

Definition parseRequestCommand (command : Json) : result ConnectionCommand :=
  op ← json_at command "operation" ≫= get_string;
  id ← json_at command "id" ≫= get_string;
  i ← json_at command "input_port" ≫= get_u16;
  o ← json_at command "output_port" ≫= get_u16;
  v ← json_at command "desired_version" ≫= get_u64;
  Ok (mkCommand (parseOperation op) id i o v).
Definition parseApplyRequest (value : Json) : result ApplyRequest :=
  atomic ← json_at value "atomic" ≫= get_bool;
  timeout ← json_at value "timeout_ms" ≫= get_i64;
  oid ← json_value value "operation_id" "";
  list ← json_at value "commands";
  commands ← mapM parseRequestCommand (elements list);
  Ok (mkApplyRequest commands (mkOptions atomic timeout oid)).
Definition decodeApplyRequest (payload : string) : result ApplyRequest :=
  parse payload ≫= parseApplyRequest.

Definition applyResultJson (r : ApplyResult) : Json :=
  json_object [("error", errorJson (apply_error r));
               ("connections", json_array (connectionJson <$> apply_connections r))].
Definition encodeApplyResult (r : ApplyResult) : result string := dump (applyResultJson r).

Definition parseApplyResult (value : Json) : result ApplyResult :=
  e ← json_at value "error" ≫= parseError;
  list ← json_at value "connections";
  conns ← mapM parseConnection (elements list);
  Ok (mkApplyResult e conns).
Definition decodeApplyResult (payload : string) : result ApplyResult :=
  parse payload ≫= parseApplyResult.

(** ** Connections *)
Definition encodeConnections (conns : list AppliedConnection) : result string :=
  dump (json_array (connectionJson <$> conns)).
Definition decodeConnections (payload : string) : result (list AppliedConnection) :=
  value ← parse payload;
  mapM parseConnection (elements value).

(** ** Ports *)
Definition encodePortRequest (dir : PortDirection.t) (id : PortId) : result string :=
  dump (json_object [("direction", json_string (directionName dir)); ("port_id", json_uint id)]).
Definition parsePortRequest (value : Json) : result PortRequest :=
  d ← json_at value "direction" ≫= get_string;
  p ← json_at value "port_id" ≫= get_u16;
  Ok (mkPortRequest (parseDirection d) p).
Definition decodePortRequest (payload : string) : result PortRequest :=
  parse payload ≫= parsePortRequest.

Definition encodePortState (s : PortState) : result string :=
  dump (json_object [("id", json_uint (port_id s));
                     ("direction", json_string (directionName (direction s)));
                     ("admin_enabled", json_bool (admin_enabled s));
                     ("oper_status", json_string (portStatusName (oper_status s)));
                     ("optical_power_dbm", json_double (optical_power_dbm s))]).
Definition parsePortState (value : Json) : result PortState :=
  id ← json_at value "id" ≫= get_u16;
  d ← json_at value "direction" ≫= get_string;
  a ← json_at value "admin_enabled" ≫= get_bool;
  s ← json_at value "oper_status" ≫= get_string;
  p ← json_at value "optical_power_dbm" ≫= get_double;
  Ok (mkPort id (parseDirection d) a (parsePortStatus s) p).
Definition decodePortState (payload : string) : result PortState := parse payload ≫= parsePortState.

(** ** Reset *)
Definition encodeResetRequest (mode : ResetMode.t) : result string :=
  dump (json_object [("mode", json_string (match mode with
                                           | ResetMode.kHard => "HARD"
                                           | ResetMode.kSoft => "SOFT"
                                           end))]).
Definition parseResetRequest (value : Json) : result ResetMode.t :=
  m ← json_at value "mode" ≫= get_string;
  Ok (if decide (m = "HARD") then ResetMode.kHard else ResetMode.kSoft).
Definition decodeResetRequest (payload : string) : result ResetMode.t :=
  parse payload ≫= parseResetRequest.

Definition encodeResetResult (r : ResetResult) : result string :=
  dump (json_object [("error", errorJson (reset_error r));
                     ("generation", json_uint (reset_generation r))]).
Definition parseResetResult (value : Json) : result ResetResult :=
  e ← json_at value "error" ≫= parseError;
  g ← json_at value "generation" ≫= get_u64;
  Ok (mkResetResult e g).
Definition decodeResetResult (payload : string) : result ResetResult :=
  parse payload ≫= parseResetResult.

(** ** Faults *)
Definition encodeFaultRequest (fault : FaultSpec) (clear : bool) : result string :=
  dump (json_object [("action", json_string (if clear then "CLEAR" else "INJECT"));
                     ("type", json_string (faultName (fault_type fault)));
                     ("port_id", json_uint (fault_port fault))]).
Definition parseFaultRequest (value : Json) : result FaultRequest :=
  a ← json_at value "action" ≫= get_string;
  t ← json_at value "type" ≫= get_string;
  p ← json_at value "port_id" ≫= get_u16;
  Ok (mkFaultRequest (bool_decide (a = "CLEAR")) (mkFaultSpec (parseFault t) p)).
Definition decodeFaultRequest (payload : string) : result FaultRequest :=
  parse payload ≫= parseFaultRequest.

Definition encodeFaultResult (r : FaultResult) : result string :=
  dump (json_object [("error", errorJson (fault_error r))]).
Definition parseFaultResult (value : Json) : result FaultResult :=
  e ← json_at value "error" ≫= parseError;
  Ok (mkFaultResult e).
Definition decodeFaultResult (payload : string) : result FaultResult :=
  parse payload ≫= parseFaultResult.

End Codecs.
