(* ===== verification/UdsJsonProps.v ===== *)
(** * The payload codecs: every message survives the wire. *)
From S2P Require Import Prelude.
From S2P Require Import Errors.
From S2P Require Import Types.
From S2P Require Import Json.
From S2P Require Import UdsJson.
From stdpp Require Import options.
#[local] Set Default Proof Using "Type*".

(** ** Names *)
Lemma direction_roundtrip d : parseDirection (directionName d) = d.
Proof. by destruct d. Qed.
Lemma operation_roundtrip op : parseOperation (operationName op) = op.
Proof. by destruct op. Qed.
Lemma port_status_roundtrip s : parsePortStatus (portStatusName s) = s.
Proof. by destruct s. Qed.
Lemma fault_roundtrip t : parseFault (faultName t) = t.
Proof. by destruct t. Qed.
#[export] Hint Rewrite direction_roundtrip operation_roundtrip port_status_roundtrip fault_roundtrip
  : ocs.

Section Props.
Context {J : JsonLib} {JL : JsonLaws J}.

(** The wire carries [a]: its encoding succeeds and decodes to [a]. *)
Definition carries {A} (encoded : result string) (decode : string -> result A) (a : A) : Prop :=
  exists s, encoded = Ok s /\ decode s = Ok a.

Lemma carries_dump {A} (get : Json -> result A) v a :
  is_ok (dump v) = true -> reads_as get v a -> carries (dump v) (fun s => parse s ≫= get) a.
Proof.
  intros Hd Hr. destruct (dump_parse v Hd) as (s & Hs & Hp). exists s. split; [done|].
  by apply Hp.
Qed.

(** *** Errors and connections *)

Definition error_text (e : Error) : Prop := utf8 (message e).

Lemma error_json_ok e : error_text e -> is_ok (dump (errorJson e)) = true.
Proof.
  intros He. unfold errorJson. dump_members.
  apply utf8_ascii. destruct (code e); repeat constructor.
Qed.

Lemma error_reads e : reads_as parseError (errorJson e) e.
Proof.
  intros w Hw. unfold errorJson in Hw. unfold parseError. pose proof Hw as Hobj. read_members Hw.
  rewrite (parsed_value _ "code" (ErrorCode.toString (code e)) _ w Hnd) by (exact Hobj || member).
  simpl. rewrite (parsed_value _ "message" (message e) _ w Hnd) by (exact Hobj || member).
  simpl. rewrite error_code_roundtrip. by destruct e.
Qed.

Definition connection_text (c : AppliedConnection) : Prop := applied_wf c /\ utf8 (app_id c).

Lemma connection_json_ok c : connection_text c -> is_ok (dump (connectionJson c)) = true.
Proof. intros [_ Hc]. unfold connectionJson. dump_members. Qed.

Lemma connection_reads c :
  connection_text c -> reads_as parseConnection (connectionJson c) c.
Proof.
  intros [(Hi & Ho & Hv) _] w Hw. unfold connectionJson in Hw. unfold parseConnection.
  read_members Hw. by destruct c.
Qed.

Lemma connections_json_ok l :
  Forall connection_text l -> is_ok (dump (json_array (connectionJson <$> l))) = true.
Proof.
  intros Hl. apply dump_array, Forall_fmap. eapply Forall_impl; [done|]. apply connection_json_ok.
Qed.

Lemma connections_read l w :
  Forall connection_text l -> parsed (json_array (connectionJson <$> l)) w ->
  mapM parseConnection (elements w) = Ok l.
Proof.
  intros Hl Hw%parsed_array. rewrite (reads_elements connectionJson parseConnection id l); [|done|].
  - by rewrite list_fmap_id.
  - eapply Forall_impl; [done|]. apply connection_reads.
Qed.

(** *** The messages *)

Lemma error_carried e : error_text e -> carries (encodeError e) decodeError e.
Proof. intros He. apply (carries_dump parseError); [by apply error_json_ok|apply error_reads]. Qed.

Definition info_text (i : DeviceInfo) : Prop :=
  info_wf i /\ utf8 (info_name i) /\ utf8 (info_model i) /\ utf8 (serial_number i)
  /\ utf8 (firmware_version i).

Lemma device_info_carried i : info_text i -> carries (encodeDeviceInfo i) decodeDeviceInfo i.
Proof.
  intros ((Hi & Ho & Hg) & ? & ? & ? & ?). apply (carries_dump parseDeviceInfo).
  - unfold deviceInfoJson. dump_members.
  - intros w Hw. unfold deviceInfoJson in Hw. unfold parseDeviceInfo. read_members Hw.
    by destruct i.
Qed.

Definition command_text (c : ConnectionCommand) : Prop := command_wf c /\ utf8 (cmd_id c).

Lemma request_command_reads c :
  command_text c -> reads_as parseRequestCommand (requestCommandJson c) c.
Proof.
  intros [(Hi & Ho & Hv) _] w Hw. unfold requestCommandJson in Hw. unfold parseRequestCommand.
  read_members Hw. rewrite operation_roundtrip. by destruct c.
Qed.

Lemma request_command_ok c : command_text c -> is_ok (dump (requestCommandJson c)) = true.
Proof.
  intros [_ Hc]. unfold requestCommandJson. dump_members.
  apply utf8_ascii. destruct (operation c); repeat constructor.
Qed.

Definition request_text (cs : list ConnectionCommand) (o : ApplyOptions) : Prop :=
  Forall command_text cs /\ is_i64 (opt_timeout o) /\ utf8 (operation_id o).

Lemma apply_request_carried cs o :
  request_text cs o ->
  carries (encodeApplyRequest cs o) decodeApplyRequest (mkApplyRequest cs o).
Proof.
  intros (Hcs & Ht & Ho). apply (carries_dump parseApplyRequest).
  - unfold applyRequestJson. dump_members.
    apply dump_array, Forall_fmap. eapply Forall_impl; [done|]. apply request_command_ok.
  - intros w Hw. unfold applyRequestJson in Hw. unfold parseApplyRequest.
    pose proof Hw as Hobj. read_members Hw.
    rewrite (parsed_value _ "operation_id" (operation_id o) _ w Hnd) by (exact Hobj || member).
    simpl. destruct (parsed_at _ "commands" (json_array (requestCommandJson <$> cs)) w Hnd)
      as (x & -> & Hx); [member|exact Hobj|]. simpl. apply parsed_array in Hx.
    rewrite (reads_elements requestCommandJson parseRequestCommand id cs); [|done|].
    + simpl. rewrite list_fmap_id. by destruct o.
    + eapply Forall_impl; [done|]. apply request_command_reads.
Qed.

Definition result_text (r : ApplyResult) : Prop :=
  error_text (apply_error r) /\ Forall connection_text (apply_connections r).

Lemma apply_result_carried r :
  result_text r -> carries (encodeApplyResult r) decodeApplyResult r.
Proof.
  intros [He Hc]. apply (carries_dump parseApplyResult).
  - unfold applyResultJson. dump_members; [by apply error_json_ok|by apply connections_json_ok].
  - intros w Hw. unfold applyResultJson in Hw. unfold parseApplyResult.
    pose proof (error_reads (apply_error r)) as Her.
    pose proof Hw as Hobj. read_members Hw.
    destruct (parsed_at _ "connections" (json_array (connectionJson <$> apply_connections r)) w Hnd)
      as (x & -> & Hx); [member|exact Hobj|]. simpl.
    rewrite (connections_read (apply_connections r)) by done. simpl. by destruct r.
Qed.

Lemma connections_carried l :
  Forall connection_text l -> carries (encodeConnections l) decodeConnections l.
Proof.
  intros Hl. unfold decodeConnections. apply (carries_dump (fun v => mapM parseConnection (elements v))).
  - by apply connections_json_ok.
  - intros w Hw. by apply connections_read.
Qed.

Lemma port_request_carried d p :
  is_u16 p -> carries (encodePortRequest d p) decodePortRequest (mkPortRequest d p).
Proof.
  intros Hp. apply (carries_dump parsePortRequest).
  - dump_members. apply utf8_ascii. destruct d; repeat constructor.
  - intros w Hw. unfold parsePortRequest. read_members Hw. by rewrite direction_roundtrip.
Qed.

Definition port_text (s : PortState) : Prop :=
  is_u16 (port_id s) /\ finite_double (optical_power_dbm s).

Lemma port_state_carried s : port_text s -> carries (encodePortState s) decodePortState s.
Proof.
  intros [Hi Hp]. apply (carries_dump parsePortState).
  - dump_members; apply utf8_ascii; [destruct (direction s)|destruct (oper_status s)];
      repeat constructor.
  - intros w Hw. unfold parsePortState. read_members Hw.
    rewrite direction_roundtrip, port_status_roundtrip. by destruct s.
Qed.

Lemma reset_request_carried m : carries (encodeResetRequest m) decodeResetRequest m.
Proof.
  apply (carries_dump parseResetRequest).
  - dump_members. apply utf8_ascii. destruct m; repeat constructor.
  - intros w Hw. unfold parseResetRequest. read_members Hw. by destruct m.
Qed.

Lemma reset_result_carried r :
  error_text (reset_error r) -> is_u64 (reset_generation r) ->
  carries (encodeResetResult r) decodeResetResult r.
Proof.
  intros He Hg. apply (carries_dump parseResetResult).
  - dump_members. by apply error_json_ok.
  - pose proof (error_reads (reset_error r)) as Her.
    intros w Hw. unfold parseResetResult. read_members Hw. by destruct r.
Qed.

Lemma fault_request_carried f clear :
  is_u16 (fault_port f) ->
  carries (encodeFaultRequest f clear) decodeFaultRequest (mkFaultRequest clear f).
Proof.
  intros Hp. apply (carries_dump parseFaultRequest).
  - dump_members; apply utf8_ascii; [destruct clear|destruct (fault_type f)]; repeat constructor.
  - intros w Hw. unfold parseFaultRequest. read_members Hw. rewrite fault_roundtrip.
    destruct f, clear; done.
Qed.

Lemma fault_result_carried r :
  error_text (fault_error r) -> carries (encodeFaultResult r) decodeFaultResult r.
Proof.
  intros He. apply (carries_dump parseFaultResult).
  - dump_members. by apply error_json_ok.
  - pose proof (error_reads (fault_error r)) as Her.
    intros w Hw. unfold parseFaultResult. read_members Hw. by destruct r.
Qed.

(** C38: every request and reply of the protocol survives the wire: for values within
    their widths and with well-formed UTF-8 text, encoding succeeds and decoding the
    text gives the value back (batches in order, ports and 64-bit versions exactly). *)
Theorem uds_messages_roundtrip :
  (forall e, error_text e -> carries (encodeError e) decodeError e) /\
  (forall i, info_text i -> carries (encodeDeviceInfo i) decodeDeviceInfo i) /\
  (forall cs o, request_text cs o ->
     carries (encodeApplyRequest cs o) decodeApplyRequest (mkApplyRequest cs o)) /\
  (forall r, result_text r -> carries (encodeApplyResult r) decodeApplyResult r) /\
  (forall l, Forall connection_text l -> carries (encodeConnections l) decodeConnections l) /\
  (forall d p, is_u16 p -> carries (encodePortRequest d p) decodePortRequest (mkPortRequest d p)) /\
  (forall s, port_text s -> carries (encodePortState s) decodePortState s) /\
  (forall m, carries (encodeResetRequest m) decodeResetRequest m) /\
  (forall r, error_text (reset_error r) -> is_u64 (reset_generation r) ->
     carries (encodeResetResult r) decodeResetResult r) /\
  (forall f clear, is_u16 (fault_port f) ->
     carries (encodeFaultRequest f clear) decodeFaultRequest (mkFaultRequest clear f)) /\
  (forall r, error_text (fault_error r) -> carries (encodeFaultResult r) decodeFaultResult r).
Proof.
  split_and!; intros;
    auto using error_carried, device_info_carried, apply_request_carried, apply_result_carried,
      connections_carried, port_request_carried, port_state_carried, reset_request_carried,
      reset_result_carried, fault_request_carried, fault_result_carried.
Qed.

(** ** The decoders throw only JSON exceptions *)

Lemma json_error_bind {A B} (r : result A) (f : A -> result B) :
  json_error r -> (forall a, json_error (f a)) -> json_error (r ≫= f).
Proof. destruct r as [a|[]]; simpl; auto. Qed.

Lemma json_error_mapM {A B} (f : A -> result B) l :
  (forall a, json_error (f a)) -> json_error (mapM f l).
Proof.
  intros Hf. induction l as [|a l IH]; simpl; [exact I|].
  apply json_error_bind; [done|]. intros b. by apply json_error_bind.
Qed.

Ltac json_errors :=
  repeat first
    [ apply json_error_bind; [|intros ?] | apply json_error_mapM; intros ?
    | apply parse_json_error | apply at_json_error | apply value_json_error
    | apply get_bool_json_error | apply get_string_json_error | apply get_u16_json_error
    | apply get_u64_json_error | apply get_i64_json_error | apply get_double_json_error
    | apply dump_json_error | exact I ].

Lemma decodeApplyRequest_json_error s : json_error (decodeApplyRequest s).
Proof. unfold decodeApplyRequest, parseApplyRequest, parseRequestCommand. json_errors. Qed.
Lemma decodePortRequest_json_error s : json_error (decodePortRequest s).
Proof. unfold decodePortRequest, parsePortRequest. json_errors. Qed.
Lemma decodeResetRequest_json_error s : json_error (decodeResetRequest s).
Proof. unfold decodeResetRequest, parseResetRequest. json_errors. Qed.
Lemma decodeFaultRequest_json_error s : json_error (decodeFaultRequest s).
Proof. unfold decodeFaultRequest, parseFaultRequest. json_errors. Qed.

(** The requests decode to values of their widths, with well-formed text. *)
Lemma member_text v k s : from_text v -> (json_at v k ≫= get_string) = Ok s -> utf8 s.
Proof.
  intros Hv (x & Hx & Hs)%result_bind_Ok. eapply string_from_text; [|exact Hs]. by eapply at_from_text.
Qed.

Lemma parseRequestCommand_text v c :
  from_text v -> parseRequestCommand v = Ok c -> command_text c.
Proof.
  intros Hv. unfold parseRequestCommand. rewrite result_bind_Ok. intros (? & _ & Hc).
  apply result_bind_Ok in Hc as (id & Hid%member_text & Hc); [|done].
  apply result_bind_Ok in Hc as (i & (? & _ & Hi%get_u16_range)%result_bind_Ok & Hc).
  apply result_bind_Ok in Hc as (o & (? & _ & Ho%get_u16_range)%result_bind_Ok & Hc).
  apply result_bind_Ok in Hc as (n & (? & _ & Hn%get_u64_range)%result_bind_Ok & [= <-]).
  by repeat split; try apply Hi; try apply Ho; try apply Hn.
Qed.

Lemma mapM_Ok_in {A B} (f : A -> result B) (P : A -> Prop) (Q : B -> Prop) l l' :
  (forall a b, P a -> f a = Ok b -> Q b) -> Forall P l -> mapM f l = Ok l' -> Forall Q l'.
Proof.
  intros Hf. revert l'. induction l as [|a l IH]; intros l' Hl; simpl; [by intros [= <-]|].
  apply Forall_cons in Hl as [Ha Hl].
  rewrite result_bind_Ok. intros (b & Hb & (bs & Hbs & [= <-])%result_bind_Ok). eauto.
Qed.

Lemma decodeApplyRequest_text s r :
  decodeApplyRequest s = Ok r -> request_text (request_commands r) (request_options r).
Proof.
  unfold decodeApplyRequest. rewrite result_bind_Ok. intros (v & Hv%parse_from_text & H).
  unfold parseApplyRequest in H.
  apply result_bind_Ok in H as (a & _ & H).
  apply result_bind_Ok in H as (t & (? & _ & Ht%get_i64_range)%result_bind_Ok & H).
  apply result_bind_Ok in H as (oid & Hoid & H).
  apply value_from_text in Hoid; [|done|apply utf8_ascii; constructor].
  apply result_bind_Ok in H as (l & Hl & H). apply at_from_text in Hl; [|done].
  apply result_bind_Ok in H as (cs & Hcs & [= <-]). simpl. split; [|done].
  apply (mapM_Ok_in _ from_text _ _ _ parseRequestCommand_text) in Hcs; [done|].
  by apply elements_from_text.
Qed.

Lemma decodePortRequest_wf s r : decodePortRequest s = Ok r -> is_u16 (request_port r).
Proof.
  unfold decodePortRequest, parsePortRequest. rewrite result_bind_Ok. intros (v & _ & H).
  apply result_bind_Ok in H as (? & _ & H).
  by apply result_bind_Ok in H as (o & (? & _ & Ho%get_u16_range)%result_bind_Ok & [= <-]).
Qed.

Lemma decodeFaultRequest_wf s r : decodeFaultRequest s = Ok r -> is_u16 (fault_port (request_fault r)).
Proof.
  unfold decodeFaultRequest, parseFaultRequest. rewrite result_bind_Ok. intros (v & _ & H).
  apply result_bind_Ok in H as (? & _ & H). apply result_bind_Ok in H as (? & _ & H).
  by apply result_bind_Ok in H as (o & (? & _ & Ho%get_u16_range)%result_bind_Ok & [= <-]).
Qed.

Lemma constant_text c m : bool_decide (ascii_text m) = true -> error_text (mkError c m).
Proof. intros Hm%bool_decide_eq_true. by apply utf8_ascii. Qed.

End Props.

(** The message of an error is a literal. *)
Ltac literal_text := apply constant_text; vm_compute; reflexivity.
