(* ===== verification/JsonRef.v ===== *)
(** * A concrete instance of the JSON interface.

    [RefJson] is not nlohmann::json: its text is a string of binary digits and its
    UTF-8 is plain ASCII.  It satisfies every law of Json.v, so the theorems proved
    from the laws can be evaluated on concrete messages. *)
From S2P Require Import Prelude.
From S2P Require Import Types.
From S2P Require Import Json.
From Stdlib Require Import SpecFloat.
From stdpp Require Import options.

Inductive RefJson :=
  | RNull
  | RBool (b : bool)
  | RNum (z : Z)
  | RFloat (d : spec_float)
  | RString (s : string)
  | RArray (l : list RefJson)
  | RObject (l : list (string * RefJson)).

(** ** Text *)
Abbreviation leaf := (bool + Z + spec_float + string)%type.

Definition spec_float_code (d : spec_float) : bool + bool + unit + bool * positive * Z :=
  match d with
  | S754_zero s => inl (inl (inl s))
  | S754_infinity s => inl (inl (inr s))
  | S754_nan => inl (inr tt)
  | S754_finite s m e => inr (s, m, e)
  end.
Definition spec_float_decode (c : bool + bool + unit + bool * positive * Z) : spec_float :=
  match c with
  | inl (inl (inl s)) => S754_zero s
  | inl (inl (inr s)) => S754_infinity s
  | inl (inr _) => S754_nan
  | inr (s, m, e) => S754_finite s m e
  end.
#[export] Instance spec_float_countable : Countable spec_float.
Proof. apply (inj_countable' spec_float_code spec_float_decode). by intros []. Defined.

Fixpoint to_tree (v : RefJson) : gen_tree leaf :=
  match v with
  | RNull => GenNode 0 []
  | RBool b => GenLeaf (inl (inl (inl b)))
  | RNum z => GenLeaf (inl (inl (inr z)))
  | RFloat d => GenLeaf (inl (inr d))
  | RString s => GenLeaf (inr s)
  | RArray l => GenNode 1 (map to_tree l)
  | RObject l =>
      GenNode 2 (map (fun kv => GenNode 3 [GenLeaf (inr kv.1); to_tree kv.2]) l)
  end.

Fixpoint of_tree (t : gen_tree leaf) : RefJson :=
  match t with
  | GenLeaf (inl (inl (inl b))) => RBool b
  | GenLeaf (inl (inl (inr z))) => RNum z
  | GenLeaf (inl (inr d)) => RFloat d
  | GenLeaf (inr s) => RString s
  | GenNode 1 ts => RArray (map of_tree ts)
  | GenNode 2 ts =>
      RObject (map (fun t => match t with
                             | GenNode _ [GenLeaf (inr k); u] => (k, of_tree u)
                             | _ => (EmptyString, RNull)
                             end) ts)
  | _ => RNull
  end.

(** Induction through arrays and objects. *)
Lemma RefJson_nested_ind (P : RefJson -> Prop) :
  P RNull -> (forall b, P (RBool b)) -> (forall z, P (RNum z)) -> (forall d, P (RFloat d)) ->
  (forall s, P (RString s)) -> (forall l, Forall P l -> P (RArray l)) ->
  (forall l, Forall (fun kv => P kv.2) l -> P (RObject l)) -> forall v, P v.
Proof.
  intros Hn Hb Hz Hd Hs Ha Ho. fix IH 1.
  intros [| | | | |l|l]; [apply Hn|apply Hb|apply Hz|apply Hd|apply Hs|..].
  - apply Ha. induction l as [|v l IHl]; constructor; [apply IH|apply IHl].
  - apply Ho. induction l as [|[k v] l IHl]; constructor; [apply IH|apply IHl].
Qed.

Lemma of_to_tree v : of_tree (to_tree v) = v.
Proof.
  induction v as [| | | | |l Hl|l Hl] using RefJson_nested_ind; try done; simpl; f_equal.
  - induction Hl as [|v l Hv _ IH]; [done|]. simpl. by rewrite Hv, IH.
  - induction Hl as [|[k v] l Hv _ IH]; [done|]. simpl in *. by rewrite Hv, IH.
Qed.

Fixpoint bits_of (p : positive) : string :=
  match p with
  | xH => EmptyString
  | xO q => String "0" (bits_of q)
  | xI q => String "1" (bits_of q)
  end.
Fixpoint of_bits (s : string) : positive :=
  match s with
  | EmptyString => xH
  | String c r => if decide (c = "1"%char) then xI (of_bits r) else xO (of_bits r)
  end.
Lemma of_bits_of p : of_bits (bits_of p) = p.
Proof. induction p; simpl; congruence. Qed.

(** ** The operations *)
Definition is_ascii (s : string) : bool :=
  forallb (fun c => N_of_ascii c <? 128)%N (String.list_ascii_of_string s).

Fixpoint printable (v : RefJson) : bool :=
  match v with
  | RString s => is_ascii s
  | RArray l => forallb printable l
  | RObject l => forallb (fun kv => is_ascii kv.1 && printable kv.2) l
  | _ => true
  end.

Definition ref_dump (v : RefJson) : result string :=
  if printable v then Ok (bits_of (encode (to_tree v)))
  else Throw (JsonError "invalid UTF-8 byte").

Definition ref_parse (s : string) : result RefJson :=
  match decode (A:=gen_tree leaf) (of_bits s) with
  | Some t =>
      if printable (of_tree t) then Ok (of_tree t)
      else Throw (JsonError ("ill-formed UTF-8 byte; last read: " +:+ s))
  | None => Throw (JsonError ("syntax error; last read: " +:+ s))
  end.

Fixpoint ref_lookup (l : list (string * RefJson)) (k : string) : option RefJson :=
  match l with
  | [] => None
  | (k', v) :: r => if decide (k' = k) then Some v else ref_lookup r k
  end.

Definition type_error {A} : result A := Throw (JsonError "type must be different").

Definition ref_at (v : RefJson) (k : string) : result RefJson :=
  match v with
  | RObject l => match ref_lookup l k with
                 | Some x => Ok x
                 | None => Throw (JsonError "key not found")
                 end
  | _ => type_error
  end.
Definition ref_value (v : RefJson) (k d : string) : result string :=
  match v with
  | RObject l => match ref_lookup l k with
                 | Some (RString s) => Ok s
                 | Some _ => type_error
                 | None => Ok d
                 end
  | _ => type_error
  end.
Definition ref_num (f : Z -> Z) (v : RefJson) : result Z :=
  match v with RNum z => Ok (f z) | _ => type_error end.
Definition i64 (z : Z) : Z := (wrap 64 (z + 2 ^ 63) - 2 ^ 63)%Z.

#[export] Instance RefJsonLib : JsonLib := {
  Json := RefJson;
  json_bool := RBool;
  json_uint := RNum;
  json_int := RNum;
  json_double := RFloat;
  json_string := RString;
  json_array := RArray;
  json_object := RObject;
  dump := ref_dump;
  parse := ref_parse;
  json_at := ref_at;
  json_value := ref_value;
  elements v := match v with RArray l => l | RObject l => l.*2 | RNull => [] | x => [x] end;
  get_bool v := match v with RBool b => Ok b | _ => type_error end;
  get_string v := match v with RString s => Ok s | _ => type_error end;
  get_u16 := ref_num u16;
  get_u64 := ref_num u64;
  get_i64 := ref_num i64;
  get_double v := match v with RFloat d => Ok d | _ => type_error end;
  is_number_unsigned v := match v with RNum z => bool_decide (0 <= z)%Z | _ => false end;
  is_number_integer v := match v with RNum _ => true | _ => false end;
}.

(** ** The laws *)
Lemma is_ascii_true s : is_ascii s = true <-> ascii_text s.
Proof.
  unfold is_ascii, ascii_text. induction (String.list_ascii_of_string s) as [|c l IH]; simpl.
  - split; [constructor|done].
  - rewrite andb_true_iff, N.ltb_lt, IH, Forall_cons. done.
Qed.

Lemma ref_dump_ok v : is_ok (ref_dump v) = printable v.
Proof. unfold ref_dump. by destruct (printable v). Qed.

Lemma forallb_Forall {A} (f : A -> bool) l : forallb f l = true <-> Forall (fun x => f x = true) l.
Proof. induction l; simpl; rewrite ?andb_true_iff, ?Forall_cons; naive_solver. Qed.

Lemma ref_lookup_in l k v : NoDup l.*1 -> (k, v) ∈ l -> ref_lookup l k = Some v.
Proof.
  induction l as [|[k' v'] l IH]; [by intros _ ?%elem_of_nil|]. simpl.
  rewrite NoDup_cons. intros [Hk Hnd] [[= -> ->]|Hin]%elem_of_cons; [by rewrite decide_True|].
  rewrite decide_False; [by apply IH|]. intros ->. apply Hk, list_elem_of_fmap. by exists (k, v).
Qed.

Lemma ref_lookup_elem l k v : ref_lookup l k = Some v -> (k, v) ∈ l.
Proof.
  induction l as [|[k' v'] l IH]; [done|]. simpl. case_decide as Hk.
  - intros [= ->]. subst. apply list_elem_of_here.
  - intros Hv. apply list_elem_of_further. by apply IH.
Qed.

Lemma i64_small z : is_i64 z -> i64 z = z.
Proof. intros [H1 H2]. unfold i64. rewrite wrap_small by (unfold in_width; lia). lia. Qed.

Lemma i64_range z : is_i64 (i64 z).
Proof.
  pose proof (wrap_in_width 64 (z + 2 ^ 63) ltac:(lia)) as [? ?]. unfold is_i64, i64. lia.
Qed.

#[local] Obligation Tactic := idtac.
#[export] Program Instance RefJsonLaws : JsonLaws RefJsonLib := {
  parsed := eq;
  utf8 := ascii_text;
  from_text v := printable v = true;
}.
Next Obligation. done. Qed.
Next Obligation. done. Qed.
Next Obligation. done. Qed.
Next Obligation. done. Qed.
Next Obligation. done. Qed.
Next Obligation. simpl. intros s Hs. rewrite ref_dump_ok. by apply is_ascii_true. Qed.
Next Obligation.
  simpl. intros l Hl. rewrite ref_dump_ok. apply forallb_Forall.
  eapply Forall_impl; [done|]. simpl. intros v. by rewrite ref_dump_ok.
Qed.
Next Obligation.
  simpl. intros l Hl. rewrite ref_dump_ok. apply forallb_Forall.
  eapply Forall_impl; [done|]. simpl. intros [k v] [Hk Hv].
  rewrite ref_dump_ok in Hv. apply andb_true_iff. split; [by apply is_ascii_true|done].
Qed.
Next Obligation.
  simpl. intros s. rewrite ref_dump_ok. apply is_ascii_true.
Qed.
Next Obligation.
  simpl. intros k v l _ Hin. rewrite !ref_dump_ok. intros Hv. apply not_true_is_false. simpl.
  rewrite forallb_Forall, Forall_forall. intros Hl. specialize (Hl _ Hin). simpl in Hl.
  by rewrite Hv, andb_false_r in Hl.
Qed.
Next Obligation. simpl. intros v. unfold ref_dump. by destruct (printable v). Qed.
Next Obligation. simpl. intros s. unfold ref_parse. repeat case_match; done. Qed.
Next Obligation. simpl. intros [] k; try done. simpl. by destruct (ref_lookup _ _). Qed.
Next Obligation. simpl. intros [] k dflt; try done. simpl. by destruct (ref_lookup _ _) as [[]|]. Qed.
Next Obligation. by intros []. Qed.
Next Obligation. by intros []. Qed.
Next Obligation. by intros []. Qed.
Next Obligation. by intros []. Qed.
Next Obligation. by intros []. Qed.
Next Obligation. by intros []. Qed.
Next Obligation. intros [] y; try done. intros [= <-]. by apply wrap_in_width. Qed.
Next Obligation. intros [] y; try done. intros [= <-]. by apply wrap_in_width. Qed.
Next Obligation. intros [] y; try done. intros [= <-]. apply i64_range. Qed.
Next Obligation. simpl. intros s v. unfold ref_parse. repeat case_match; by intros [= <-]. Qed.
Next Obligation.
  intros [] k x; try done. simpl. intros Hl. destruct (ref_lookup l k) as [y|] eqn:Hk; [|done].
  intros [= <-]. rewrite forallb_Forall, Forall_forall in Hl.
  specialize (Hl _ (ref_lookup_elem _ _ _ Hk)). by apply andb_true_iff in Hl as [_ ?].
Qed.
Next Obligation.
  intros v. simpl. destruct v; simpl; try (intros Hv; constructor; [exact Hv|constructor]).
  - constructor.
  - by rewrite forallb_Forall.
  - rewrite forallb_Forall, Forall_fmap. intros Hl. eapply Forall_impl; [done|].
    simpl. intros kv Hkv. by apply andb_true_iff in Hkv as [_ ?].
Qed.
Next Obligation. intros [] y; try done. simpl. intros Hs [= <-]. by apply is_ascii_true. Qed.
Next Obligation.
  intros [] k dflt y; try done. simpl. intros Hl Hd. destruct (ref_lookup l k) as [x|] eqn:Hk; [|by intros [= <-]].
  destruct x; try done. intros [= <-]. rewrite forallb_Forall, Forall_forall in Hl.
  specialize (Hl _ (ref_lookup_elem _ _ _ Hk)). apply andb_true_iff in Hl as [_ ?].
  by apply is_ascii_true.
Qed.
Next Obligation.
  simpl. intros v s. unfold ref_dump, ref_parse. destruct (printable v) eqn:Hp; [|done]. intros [= <-].
  exists v. split; [|done]. by rewrite of_bits_of, decode_encode, of_to_tree, Hp.
Qed.
Next Obligation. by intros b w <-. Qed.
Next Obligation.
  intros z w Hz <-. simpl. rewrite wrap_small by done. destruct Hz.
  by rewrite bool_decide_eq_true_2 by done.
Qed.
Next Obligation. intros z w Hz <-. simpl. by rewrite i64_small. Qed.
Next Obligation. by intros d w _ <-. Qed.
Next Obligation. by intros s w <-. Qed.
Next Obligation. intros l w <-. simpl. induction l; by constructor. Qed.
Next Obligation. intros l k v w Hnd Hin <-. exists v. simpl. by rewrite (ref_lookup_in l k v). Qed.
Next Obligation. intros l k s d w Hnd Hin <-. simpl. by rewrite (ref_lookup_in l k (RString s)). Qed.
Next Obligation. by intros v w <-. Qed.
Next Obligation. by intros v w x <- <-. Qed.
