(* ===== verification/Rpc.v ===== *)
(** * The device calls as data: the abstract contract of the UDS path.

    [run_call c] makes the call [c] through the device interface; on a [SimDevice] it is
    the direct call, against which server and client are verified (UdsServerProps.v,
    UdsBackendProps.v). *)
From S2P Require Import Prelude.
From S2P Require Import Errors.
From S2P Require Import Types.
From S2P Require Import SimDevice.
From S2P Require Import SimDeviceInv.
From S2P Require Import SimDeviceProps.
From S2P Require Import DeviceApi.
From S2P Require Import UdsCodec.
From S2P Require Import Json.
From S2P Require Import UdsJson.
From S2P Require Import UdsJsonProps.
From stdpp Require Import options.
#[local] Set Default Proof Using "Type*".

Inductive device_call :=
  | CInfo
  | CApply (cs : list ConnectionCommand) (o : ApplyOptions)
  | CConnections
  | CPort (dir : PortDirection.t) (id : PortId)
  | CReset (mode : ResetMode.t)
  | CFault (fault : FaultSpec) (clear : bool).

Inductive device_value :=
  | VInfo (i : DeviceInfo)
  | VApply (r : ApplyResult)
  | VConnections (l : list AppliedConnection)
  | VPort (p : PortState)
  | VReset (r : ResetResult)
  | VFault (r : FaultResult).

Definition map_call {S A B} (f : A -> B) (m : call S A) : call S B := fun s =>
  match m s with
  | None => None
  | Some (r, s') => Some (f <$> r, s')
  end.

(** The call through the device interface, whatever implements it. *)
Definition run_call {S} `{OcsDeviceApi S} (c : device_call) : call S device_value :=
  match c with
  | CInfo => map_call VInfo api_getDeviceInfo
  | CApply cs o => map_call VApply (api_applyConnections cs o)
  | CConnections => map_call VConnections api_getConnections
  | CPort PortDirection.kInput id => map_call VPort (api_getInputPortState id)
  | CPort PortDirection.kOutput id => map_call VPort (api_getOutputPortState id)
  | CReset mode => map_call VReset (api_reset mode)
  | CFault fault false => map_call VFault (api_injectFault fault)
  | CFault fault true =>
      map_call VFault (api_clearFault (mkFaultSelector (fault_type fault) (fault_port fault)))
  end.

Definition request_type (c : device_call) : MessageType.t :=
  match c with
  | CInfo => MessageType.kGetDeviceInfo
  | CApply _ _ => MessageType.kApplyConnections
  | CConnections => MessageType.kGetConnections
  | CPort _ _ => MessageType.kGetPortState
  | CReset _ => MessageType.kReset
  | CFault _ _ => MessageType.kInjectFault
  end.
Definition reply_type (c : device_call) : MessageType.t :=
  match c with
  | CInfo => MessageType.kDeviceInfoReply
  | CApply _ _ => MessageType.kApplyResult
  | CConnections => MessageType.kConnectionsReply
  | CPort _ _ => MessageType.kPortStateReply
  | CReset _ => MessageType.kResetResult
  | CFault _ _ => MessageType.kFaultResult
  end.

(** Calls that may not be repeated. *)
Definition is_mutation (c : device_call) : bool :=
  match c with CApply _ _ | CReset _ | CFault _ _ => true | _ => false end.

Section Wire.
Context {J : JsonLib} {JL : JsonLaws J}.

Definition encode_call (c : device_call) : result string :=
  match c with
  | CInfo | CConnections => Ok "{}"
  | CApply cs o => encodeApplyRequest cs o
  | CPort dir id => encodePortRequest dir id
  | CReset mode => encodeResetRequest mode
  | CFault fault clear => encodeFaultRequest fault clear
  end.

Definition encode_value (v : device_value) : result string :=
  match v with
  | VInfo i => encodeDeviceInfo i
  | VApply r => encodeApplyResult r
  | VConnections l => encodeConnections l
  | VPort p => encodePortState p
  | VReset r => encodeResetResult r
  | VFault r => encodeFaultResult r
  end.

(** The reply to a call, decoded. *)
Definition decode_value (c : device_call) (s : string) : result device_value :=
  match c with
  | CInfo => VInfo <$> decodeDeviceInfo s
  | CApply _ _ => VApply <$> decodeApplyResult s
  | CConnections => VConnections <$> decodeConnections s
  | CPort _ _ => VPort <$> decodePortState s
  | CReset _ => VReset <$> decodeResetResult s
  | CFault _ _ => VFault <$> decodeFaultResult s
  end.

(** The arguments fit their widths and their text is well-formed. *)
Definition call_text (c : device_call) : Prop :=
  match c with
  | CInfo | CConnections | CReset _ => True
  | CApply cs o => request_text cs o
  | CPort _ id => is_u16 id
  | CFault fault _ => is_u16 (fault_port fault)
  end.

Definition value_text (v : device_value) : Prop :=
  match v with
  | VInfo i => info_text i
  | VApply r => result_text r
  | VConnections l => Forall connection_text l
  | VPort p => port_text p
  | VReset r => error_text (reset_error r) /\ is_u64 (reset_generation r)
  | VFault r => error_text (fault_error r)
  end.

(** The value answers the call. *)
Definition value_of_call (c : device_call) (v : device_value) : Prop :=
  match c, v with
  | CInfo, VInfo _ | CApply _ _, VApply _ | CConnections, VConnections _ | CPort _ _, VPort _
  | CReset _, VReset _ | CFault _ _, VFault _ => True
  | _, _ => False
  end.

Lemma value_carried c v :
  value_of_call c v -> value_text v -> carries (encode_value v) (decode_value c) v.
Proof.
  intros Hc Hv.
  assert (forall A (f : A -> device_value) e dec a, carries e dec a ->
    carries e (fun s => f <$> dec s) (f a)) as Hmap.
  { intros A f e dec a (s & -> & Hs). exists s. by rewrite Hs. }
  destruct c, v; try done; apply Hmap; simpl in Hv.
  - by apply device_info_carried.
  - by apply apply_result_carried.
  - by apply connections_carried.
  - by apply port_state_carried.
  - destruct Hv. by apply reset_result_carried.
  - by apply fault_result_carried.
Qed.

(** ** The text of a device *)
Record device_text (d : SimDevice) : Prop := {
  text_info : info_text (info_ d);
  text_conns : forall k c, connections_ d !! k = Some c -> connection_text c;
  text_cache : forall k r, apply_results_ d !! k = Some r -> result_text r;
  text_inputs : Forall port_text (input_ports_ d);
  text_outputs : Forall port_text (output_ports_ d);
}.

Lemma text_ports d dir : device_text d -> Forall port_text (ports_of d dir).
Proof. intros []. by destruct dir. Qed.

Lemma port_error_text d dir id e : port_error d dir id = Some e -> error_text e.
Proof.
  unfold port_error. intros H. repeat case_match; simplify_eq; literal_text.
Qed.

Lemma command_error_text d c e : command_error d c = Some e -> error_text e.
Proof.
  unfold command_error. intros H. repeat case_match; simplify_eq;
    eauto using port_error_text; literal_text.
Qed.

Lemma rejection_text cs o d e : rejection cs o d = Some e -> error_text e.
Proof.
  unfold rejection. intros H.
  destruct (negb _); [simplify_eq; literal_text|].
  destruct (existsb _ _); [simplify_eq; literal_text|].
  induction cs as [|c cs IH]; [done|]. rewrite omap_cons in H.
  destruct (command_error d c) eqn:Hc; [|by apply IH]. simplify_eq/=. by eapply command_error_text.
Qed.

(** *** Applies keep the text of the device well-formed *)

Lemma applied_of_text c : command_text c -> connection_text (applied_of c).
Proof. by intros [(? & ? & ?) ?]. Qed.

Lemma apply_commands_text cs m :
  Forall command_text cs -> (forall k c, m !! k = Some c -> connection_text c) ->
  forall k c, apply_commands cs m !! k = Some c -> connection_text c.
Proof.
  intros Hcs. revert m. induction Hcs as [|x cs Hx _ IH]; intros m Hm; [done|]. simpl. apply IH.
  intros k c. unfold apply_command. destruct (operation x).
  - intros [[_ <-]|[_ Hk]]%lookup_insert_Some; [by apply applied_of_text|by eapply Hm].
  - intros [_ Hk]%lookup_delete_Some. by eapply Hm.
Qed.

Lemma set_text d d' :
  info_ d' = info_ d -> connections_ d' = connections_ d -> apply_results_ d' = apply_results_ d ->
  input_ports_ d' = input_ports_ d -> output_ports_ d' = output_ports_ d ->
  device_text d -> device_text d'.
Proof. intros H1 H2 H3 H4 H5 []. constructor; by rewrite ?H1, ?H2, ?H3, ?H4, ?H5. Qed.

Lemma apply_spec_text cs o d r d1 :
  Forall command_text cs -> device_text d -> apply_spec cs o d r d1 ->
  result_text r /\ device_text d1.
Proof.
  intros Hcs Hd Hs. destruct Hs as [e He|e _ _ He| | |i2o o2i Hrej].
  - split; [|done]. split; [by eapply rejection_text|constructor].
  - split; [|done]. split; [|constructor].
    destruct He as [->| ->]; literal_text.
  - split; [split; [literal_text|exact (List.Forall_nil _)]|by apply (set_text d)].
  - split; [split; [literal_text|exact (List.Forall_nil _)]|by apply (set_text d)].
  - pose proof (apply_commands_text cs (connections_ d) Hcs (text_conns d Hd)) as Hm. split.
    + split; [literal_text|]. simpl. apply Forall_forall. intros c Hc.
      apply list_elem_of_omap in Hc as (x & _ & Hx). by eapply Hm.
    + destruct Hd. by constructor.
Qed.

Lemma command_text_ports cs : Forall command_text cs -> Forall command_ports_unsigned cs.
Proof. intros H. eapply Forall_impl; [done|]. by intros c [([? _] & [? _] & _) _]. Qed.

Lemma finish_text o r d r' d' :
  result_text r -> device_text d -> finish o r d = (Ok r', d') -> r' = r /\ device_text d'.
Proof.
  intros Hr Hd. unfold finish. case_bool_decide; [by intros [= <- <-]|].
  case_decide; intros [= <- <-]; (split; [done|]); destruct Hd; constructor; simpl; try done;
    intros k x; rewrite lookup_insert_Some; [rewrite lookup_delete_Some|]; naive_solver.
Qed.

Lemma apply_text cs o d :
  device_wf d -> device_text d -> request_text cs o ->
  exists r d', applyConnections cs o d = (Ok r, d') /\ device_wf d' /\ device_text d'
    /\ result_text r.
Proof.
  intros Hwf Hd (Hcs & _ & _). pose proof (command_text_ports cs Hcs) as Hports.
  destruct (apply_cases cs o d Hwf Hports)
    as [(r & Hc & Hrun)|(Hc & r & d1 & rs & order & Hrun & Hs & Hcw & _)]; rewrite Hrun.
  - exists r, d. split_and!; try done. unfold cached_result in Hc.
    case_bool_decide; [done|]. by eapply text_cache.
  - eexists _, _. split; [done|].
    split; [by apply wf_set_cache; [eapply apply_spec_wf|]|].
    destruct (applyConnections_finish cs o d Hwf Hports Hc) as (r2 & d2 & Hf & Hs2).
    destruct (apply_spec_text _ _ _ _ _ Hcs Hd Hs2) as [Hr Hd2].
    rewrite Hf in Hrun. destruct (finish_text _ _ _ _ _ Hr Hd2 Hrun) as [-> ?]. done.
Qed.

(** *** Port writes and resets *)

Lemma set_oper_text st p : port_text p -> port_text (set_oper st p).
Proof. done. Qed.

Lemma set_port_fault_text t id st d :
  device_wf d -> device_text d -> (0 <= id)%Z ->
  exists r d', set_port_fault t id st d = (Ok r, d') /\ device_text d' /\ error_text (fault_error r).
Proof.
  intros Hwf Hd Hid. unfold set_port_fault. rewrite validatePort_ok by done. case_decide as Hr.
  - destruct (update_port_spec (fault_direction t) id (set_oper st) d Hwf Hr) as (p & Hp & Hu).
    simpl. unfold mbind, prog_bind. rewrite Hu. eexists _, _. split; [done|].
    split; [|literal_text].
    pose proof (text_ports d (fault_direction t) Hd) as Ht.
    assert (port_text (set_oper st p)) as Hsp
      by (apply set_oper_text; rewrite Forall_lookup in Ht; by eapply Ht).
    destruct Hd. destruct (fault_direction t); constructor; simpl in *; try done;
      by apply Forall_insert.
  - simpl. eexists _, _. split; [done|]. split; [done|]. literal_text.
Qed.

Lemma ports_text_oper st ports :
  Forall port_text ports -> Forall port_text (set_oper st <$> ports).
Proof. intros H. apply Forall_fmap. eapply Forall_impl; [exact H|]. by intros p Hp. Qed.

Lemma clear_text f d :
  device_wf d -> device_text d -> (0 <= selector_port f)%Z ->
  exists r d', clearFault f d = (Ok r, d') /\ device_wf d' /\ device_text d'
    /\ error_text (fault_error r).
Proof.
  intros Hwf Hd Hp.
  assert (exists r d', clearFault f d = (Ok r, d') /\ device_text d' /\ error_text (fault_error r))
    as (r & d' & Hr & Ht & He).
  { destruct f as [t p]. destruct t; try (by apply set_port_fault_text);
      (eexists _, _; split; [done|]; split; [|literal_text]);
      try (by apply (set_text d)); try done.
    destruct Hd. constructor; simpl; try done; by apply ports_text_oper. }
  exists r, d'. split_and!; try done. by eapply clearFault_wf.
Qed.

Lemma inject_text f d :
  device_wf d -> device_text d -> (0 <= fault_port f)%Z ->
  exists r d', injectFault f d = (Ok r, d') /\ device_wf d' /\ device_text d'
    /\ error_text (fault_error r).
Proof.
  intros Hwf Hd Hp.
  assert (exists r d', injectFault f d = (Ok r, d') /\ device_text d' /\ error_text (fault_error r))
    as (r & d' & Hr & Ht & He).
  { destruct f as [t p]. destruct t; try (by apply set_port_fault_text);
      try (eexists _, _; split; [done|]; split; [by apply (set_text d)|literal_text]).
    destruct (sorted_items (connections_ d)) as [|[k c] rest] eqn:Hs.
      + unfold injectFault. simpl. rewrite Hs. eexists _, _. split; [done|].
        split; [done|]. literal_text.
      + destruct (drift_step d k c rest Hwf Hs) as (i2o & o2i & Heq & _).
        change (injectFault _ d) with (injectFault (mkFaultSpec FaultType.kOutOfBandDrift 0) d).
        rewrite Heq. eexists _, _. split; [done|]. split; [|literal_text].
        destruct Hd as [? Hconns]. constructor; simpl; try done.
        intros k' c' [_ Hk']%lookup_delete_Some. by eapply Hconns. }
  exists r, d'. split_and!; try done. by eapply injectFault_wf.
Qed.

Lemma minus_three_finite : finite_double minus_three.
Proof. split; [exact I|]. by vm_compute. Qed.
Lemma zero_finite : finite_double zero_dbm.
Proof. split; [exact I|]. by vm_compute. Qed.

Lemma port_range_text dir n : (Z.of_nat n < 65535)%Z -> Forall port_text (port_range dir 1 n).
Proof.
  intros Hn. unfold port_range. apply Forall_fmap, Forall_forall. intros i Hi.
  apply elem_of_seq in Hi. split; [unfold in_width; simpl; lia|apply minus_three_finite].
Qed.

Lemma reset_text mode d :
  device_wf d -> device_text d ->
  exists r d', reset mode d = Some (Ok r, d') /\ device_wf d' /\ device_text d'
    /\ error_text (reset_error r) /\ is_u64 (reset_generation r).
Proof.
  intros Hwf Hd. pose proof (wf_in d Hwf). pose proof (wf_out d Hwf).
  assert (is_Some (reset mode d)) as [[r d'] Hr].
  { unfold reset. rewrite !makePorts_Some by lia. by eexists. }
  pose proof (reset_wf _ _ _ _ Hwf Hr) as Hwf'. pose proof Hr as Hr'.
  unfold reset in Hr'. rewrite !makePorts_Some in Hr' by lia. simpl in Hr'. injection Hr' as <- Hd'.
  assert (is_u64 (match mode with
     | ResetMode.kHard => u64 (generation (info_ d) + 1)
     | ResetMode.kSoft => generation (info_ d) end)) as Hg.
  { destruct (text_info d Hd) as ((_ & _ & Hg) & _).
    destruct mode; [done|]. apply wrap_in_width. lia. }
  eexists _, d'. split; [exact Hr|]. split; [done|]. split; [|split; [literal_text|done]].
  subst d'. constructor; simpl.
  - destruct (text_info d Hd) as ((? & ? & _) & ? & ? & ? & ?). split; [split; [done|]; by split|]. done.
  - intros k c Hk. by apply lookup_empty_Some in Hk.
  - intros k c Hk. by apply lookup_empty_Some in Hk.
  - apply port_range_text. lia.
  - apply port_range_text. lia.
Qed.

Lemma getPortState_total dir id d :
  device_wf d -> device_text d -> is_u16 id ->
  exists p, getPortState dir id d = (Ok p, d) /\ port_text p.
Proof.
  intros Hwf Hd [Hid1 Hid2]. unfold getPortState. rewrite validatePort_ok by done.
  case_decide as Hr; simpl.
  - destruct (wf_port_lookup d dir id Hwf Hr) as (p & Hp & _). exists p.
    rewrite (vec_at_Ok _ _ p) by (done || lia). split; [done|].
    pose proof (text_ports d dir Hd) as Ht. rewrite Forall_lookup in Ht. by eapply Ht.
  - eexists. split; [done|]. split; [by split|apply zero_finite].
Qed.

(** *** Every call on a well-formed device returns a value of its kind that the wire can
    carry, and keeps the device well-formed. *)
Lemma run_call_total c d :
  device_wf d -> device_text d -> call_text c ->
  exists v d', run_call c d = Some (Ok v, d') /\ device_wf d' /\ device_text d'
    /\ value_of_call c v /\ value_text v.
Proof.
  intros Hwf Hd Hc. destruct c as [|cs o| |dir id|mode|f []]; simpl in Hc.
  - eexists _, _. split; [done|]. split_and!; try done. simpl. by apply text_info.
  - destruct (apply_text cs o d Hwf Hd Hc) as (r & d' & Hr & ? & ? & ?).
    exists (VApply r), d'. simpl. unfold map_call, returns. by rewrite Hr.
  - eexists _, _. split; [done|]. split_and!; try done. simpl. apply Forall_forall. intros x Hx.
    apply elem_of_sorted_values in Hx as [k Hk]. by eapply text_conns.
  - destruct (getPortState_total dir id d Hwf Hd Hc) as (p & Hp & Ht). exists (VPort p), d.
    split; [|done]. destruct dir; simpl; unfold map_call, returns; by rewrite Hp.
  - destruct (reset_text mode d Hwf Hd) as (r & d' & Hr & ? & ? & ?). exists (VReset r), d'.
    simpl. unfold map_call. by rewrite Hr.
  - destruct Hc. destruct (clear_text (mkFaultSelector (fault_type f) (fault_port f)) d Hwf Hd)
      as (r & d' & Hr & ? & ? & ?); [done|].
    exists (VFault r), d'. simpl. unfold map_call, returns. by rewrite Hr.
  - destruct Hc. destruct (inject_text f d Hwf Hd) as (r & d' & Hr & ? & ? & ?); [done|].
    exists (VFault r), d'. simpl. unfold map_call, returns. by rewrite Hr.
Qed.

End Wire.
