(* ===== verification/UdsServer.v ===== *)
(** * uds_server.{hpp,cpp}: what the simulator's server does with a packet.

    The listening socket and the threads are in UdsListener.v; here is the request
    handling of one client.  The device's mutex makes each device call atomic, and the
    model runs the calls of one [dispatch] without interference from other clients. *)
From S2P Require Import Prelude.
From S2P Require Import Errors.
From S2P Require Import Types.
From S2P Require Import SimDevice.
From S2P Require Import DeviceApi.
From S2P Require Import UdsCodec.
From S2P Require Import Json.
From S2P Require Import UdsJson.
From stdpp Require Import options.

Record UdsServer := mkServer {
  device_ : SimDevice;
  drop_next_apply_reply_ : bool;
}.

(** The constructor, from a pointer that may be null. *)
Definition UdsServer_make (device : option SimDevice) : result UdsServer :=
  match device with
  | None => Throw (InvalidArgument "simulated device must not be null")
  | Some d => Ok (mkServer d false)
  end.

Definition dropNextApplyReplyForTest (s : UdsServer) : UdsServer := mkServer (device_ s) true.

Section Server.
Context {J : JsonLib}.

Definition errorReply (request : Frame) (error : Error) (generation : Z) : result Frame :=
  payload ← encodeError error;
  Ok (mkFrame kProtocolVersion MessageType.kErrorReply 0 (request_id request) generation payload).

(** A response with the members the [try] block initialises. *)
Definition response (request : Frame) (type : MessageType.t) (generation : Z) (payload : string)
    : Frame :=
  mkFrame kProtocolVersion type 0 (request_id request) generation payload.

(** Run a device call and encode its value as the reply; an exception keeps the state
    the device has reached. *)
Definition reply {A} (m : call SimDevice A) (mk : A -> result Frame) : call SimDevice Frame := fun d =>
  match m d with
  | None => None
  | Some (Throw e, d') => Some (Throw e, d')
  | Some (Ok a, d') => Some (mk a, d')
  end.

(** Decode the request first: an exception leaves the device alone. *)
Definition with_request {A B} (decoded : result A) (f : A -> call SimDevice B) : call SimDevice B :=
  fun d => match decoded with
           | Throw e => Some (Throw e, d)
           | Ok a => f a d
           end.

(** The [try] block of [dispatch]. *)
Definition dispatch_body (request : Frame) (generation : Z) : call SimDevice Frame :=
  let answer type generation encoded :=
    payload ← encoded; Ok (response request type generation payload) in
  match message_type request with
  | MessageType.kHello =>
      reply (returns getDeviceInfo) (fun info =>
        answer MessageType.kHelloReply generation (encodeDeviceInfo info))
  | MessageType.kGetDeviceInfo =>
      reply (returns getDeviceInfo) (fun info =>
        answer MessageType.kDeviceInfoReply generation (encodeDeviceInfo info))
  | MessageType.kApplyConnections =>
      with_request (decodeApplyRequest (payload request)) (fun apply =>
        reply (returns (applyConnections (request_commands apply) (request_options apply)))
          (fun r => answer MessageType.kApplyResult generation (encodeApplyResult r)))
  | MessageType.kGetConnections =>
      reply (returns getConnections) (fun conns =>
        answer MessageType.kConnectionsReply generation (encodeConnections conns))
  | MessageType.kGetPortState =>
      with_request (decodePortRequest (payload request)) (fun port =>
        reply (returns (getPortState (request_direction port) (request_port port)))
          (fun p => answer MessageType.kPortStateReply generation (encodePortState p)))
  | MessageType.kReset =>
      with_request (decodeResetRequest (payload request)) (fun mode =>
        reply (reset mode) (fun r =>
          answer MessageType.kResetResult (reset_generation r) (encodeResetResult r)))
  | MessageType.kInjectFault =>
      with_request (decodeFaultRequest (payload request)) (fun fault =>
        reply
          (returns (if request_clear fault then
                      clearFault (mkFaultSelector (fault_type (request_fault fault))
                                    (fault_port (request_fault fault)))
                    else injectFault (request_fault fault)))
          (fun r => answer MessageType.kFaultResult generation (encodeFaultResult r)))
  | _ =>
      reply (returns (mret tt)) (fun _ =>
        errorReply request
          (mkError ErrorCode.kUnsupported "UDS request type is not supported") generation)
  end.

Definition dispatch (request : Frame) : call SimDevice Frame := fun d =>
  let gen := generation (info_ d) in
  match dispatch_body request gen d with
  | None => None
  | Some (Ok f, d') => Some (Ok f, d')
  | Some (Throw e, d') =>
      Some (errorReply request (mkError ErrorCode.kProtocolMalformed (what e)) gen, d')
  end.

(** One turn of the loop of [serveClient] on a received packet: a reply, the end of the
    connection, or an exception that leaves the thread function (the process
    terminates). *)
Inductive served :=
  | Reply (packet : list Z)
  | Closed
  | Terminated (e : exn).

Definition serve_packet (packet : list Z) (s : UdsServer) : option (served * UdsServer) :=
  if bool_decide (kHeaderSize + kMaxPayloadSize < Z.of_nat (length packet))%Z then Some (Closed, s)
  else
  match decode packet with
  | Throw e => Some (Terminated e, s)
  | Ok decoded =>
    match frame decoded with
    | Some request =>
      if negb (decode_ok decoded) then Some (Closed, s)
      else
        match dispatch request (device_ s) with
        | None => None
        | Some (Throw e, d) => Some (Terminated e, mkServer d (drop_next_apply_reply_ s))
        | Some (Ok f, d) =>
            if bool_decide (message_type request = MessageType.kApplyConnections)
               && drop_next_apply_reply_ s then
              Some (Closed, mkServer d false)
            else
              let s' := mkServer d (drop_next_apply_reply_ s) in
              let encoded := encode f in
              if negb (encode_ok encoded) then Some (Closed, s')
              else Some (Reply (bytes encoded), s')
        end
    | None => Some (Closed, s)
    end
  end.

(** [serveClient]: packets are served until the connection ends. *)
Fixpoint serve_client (packets : list (list Z)) (s : UdsServer)
    : option (list served * UdsServer) :=
  match packets with
  | [] => Some ([], s)
  | packet :: rest =>
      match serve_packet packet s with
      | None => None
      | Some (Reply r, s') =>
          match serve_client rest s' with
          | None => None
          | Some (out, s'') => Some (Reply r :: out, s'')
          end
      | Some (out, s') => Some ([out], s')
      end
  end.

End Server.
