(* ===== verification/UdsServerProps.v ===== *)
(** * The server implements the device calls, and survives any packet whose error text
    it can encode. *)
From S2P Require Import Prelude.
From S2P Require Import Errors.
From S2P Require Import Types.
From S2P Require Import SimDevice.
From S2P Require Import SimDeviceInv.
From S2P Require Import DeviceApi.
From S2P Require Import UdsCodec.
From S2P Require Import UdsCodecProps.
From S2P Require Import Json.
From S2P Require Import UdsJson.
From S2P Require Import UdsJsonProps.
From S2P Require Import Rpc.
From S2P Require Import UdsServer.
From stdpp Require Import options.
#[local] Set Default Proof Using "Type*".

Section Props.
Context {J : JsonLib} {JL : JsonLaws J}.

(** The call a frame asks for; [Ok None] when its type is not a request. *)
Definition decode_request (f : Frame) : result (option device_call) :=
  match message_type f with
  | MessageType.kHello | MessageType.kGetDeviceInfo => Ok (Some CInfo)
  | MessageType.kApplyConnections =>
      (fun r => Some (CApply (request_commands r) (request_options r)))
        <$> decodeApplyRequest (payload f)
  | MessageType.kGetConnections => Ok (Some CConnections)
  | MessageType.kGetPortState =>
      (fun r => Some (CPort (request_direction r) (request_port r)))
        <$> decodePortRequest (payload f)
  | MessageType.kReset => (fun m => Some (CReset m)) <$> decodeResetRequest (payload f)
  | MessageType.kInjectFault =>
      (fun r => Some (CFault (request_fault r) (request_clear r)))
        <$> decodeFaultRequest (payload f)
  | _ => Ok None
  end.

Definition answer_type (f : Frame) (c : device_call) : MessageType.t :=
  match message_type f with MessageType.kHello => MessageType.kHelloReply | _ => reply_type c end.

(** The generation in the header of a reply: a reset reports its own. *)
Definition answer_generation (d : SimDevice) (v : device_value) : Z :=
  match v with VReset r => reset_generation r | _ => generation (info_ d) end.

Definition unsupported_error : Error :=
  mkError ErrorCode.kUnsupported "UDS request type is not supported".

Lemma decode_request_text f c : decode_request f = Ok (Some c) -> call_text c.
Proof.
  unfold decode_request. destruct (message_type f); try (intros [= <-]; exact I); try done.
  - destruct (decodeApplyRequest _) eqn:H; intros [= <-]. by apply decodeApplyRequest_text in H.
  - destruct (decodePortRequest _) eqn:H; intros [= <-]. by apply decodePortRequest_wf in H.
  - by destruct (decodeResetRequest _) eqn:H; intros [= <-].
  - destruct (decodeFaultRequest _) eqn:H; intros [= <-]. by apply decodeFaultRequest_wf in H.
Qed.

Lemma errorReply_ok f e g :
  error_text e -> exists p, errorReply f e g = Ok (response f MessageType.kErrorReply g p)
    /\ decodeError p = Ok e.
Proof.
  intros He. destruct (error_carried e He) as (p & Hp & Hd). exists p.
  unfold errorReply. by rewrite Hp.
Qed.

Lemma errorReply_ill_formed f c text g :
  ~ utf8 text -> is_ok (errorReply f (mkError c text) g) = false.
Proof.
  intros Hu. unfold errorReply, encodeError, errorJson. cbn [code message].
  pose proof (dump_object_strict "message" (json_string text)
    [("code", json_string (ErrorCode.toString c)); ("message", json_string text)]
    ltac:(simpl; distinct_keys) ltac:(member) (dump_ill_formed _ Hu)) as Hd.
  by destruct (dump _).
Qed.

(** [dispatch] on a decoded call: the device call, and its value encoded. *)
Lemma dispatch_body_call f g c d v d' :
  decode_request f = Ok (Some c) -> run_call c d = Some (Ok v, d') -> value_of_call c v ->
  dispatch_body f g d
  = Some (p ← encode_value v;
          Ok (response f (answer_type f c)
                (match v with VReset r => reset_generation r | _ => g end) p), d').
Proof.
  unfold decode_request, dispatch_body, answer_type.
  destruct (message_type f); try done.
  - by intros [= <-] [= <- <-] _.
  - by intros [= <-] [= <- <-] _.
  - destruct (decodeApplyRequest _) as [rq|]; intros [= <-]. simpl.
    unfold map_call, returns, with_request, reply.
    destruct (applyConnections _ _ d) as [[r|] d1]; [|done]. by intros [= <- <-] _.
  - by intros [= <-] [= <- <-] _.
  - destruct (decodePortRequest _) as [rq|]; intros [= <-]. simpl.
    unfold with_request, reply, returns. destruct (request_direction rq); simpl;
      unfold map_call, returns; destruct (getPortState _ _ d) as [[r|] d1]; try done;
      by intros [= <- <-] _.
  - destruct (decodeResetRequest _) as [m|]; intros [= <-]. simpl.
    unfold map_call, with_request, reply. destruct (reset m d) as [[[r|] d1]|]; try done.
    by intros [= <- <-] _.
  - destruct (decodeFaultRequest _) as [rq|]; intros [= <-]. simpl.
    unfold with_request, reply, returns. destruct (request_clear rq); simpl;
      unfold map_call, returns;
      [destruct (clearFault _ d) as [[r|] d1]|destruct (injectFault _ d) as [[r|] d1]]; try done;
      by intros [= <- <-] _.
Qed.

Lemma dispatch_body_throw f g d e :
  decode_request f = Throw e -> dispatch_body f g d = Some (Throw e, d).
Proof.
  unfold decode_request, dispatch_body. destruct (message_type f); try done;
    [destruct (decodeApplyRequest _)|destruct (decodePortRequest _)
    |destruct (decodeResetRequest _)|destruct (decodeFaultRequest _)]; by intros [= <-].
Qed.

Lemma dispatch_body_unsupported f g d :
  decode_request f = Ok None -> dispatch_body f g d = Some (errorReply f unsupported_error g, d).
Proof.
  unfold decode_request, dispatch_body. destruct (message_type f); try done;
    [destruct (decodeApplyRequest _)|destruct (decodePortRequest _)
    |destruct (decodeResetRequest _)|destruct (decodeFaultRequest _)]; done.
Qed.

Lemma dispatch_call f c d :
  device_wf d -> device_text d -> decode_request f = Ok (Some c) ->
  exists v d' p, run_call c d = Some (Ok v, d') /\ device_wf d' /\ device_text d' /\
    dispatch f d = Some (Ok (response f (answer_type f c) (answer_generation d v) p), d') /\
    decode_value c p = Ok v /\ value_text v.
Proof.
  intros Hwf Hd Hc. pose proof (decode_request_text f c Hc) as Ht.
  destruct (run_call_total c d Hwf Hd Ht) as (v & d' & Hrun & Hwf' & Hd' & Hv & Hvt).
  destruct (value_carried c v Hv Hvt) as (p & Hp & Hdec).
  exists v, d', p. split_and!; try done. unfold dispatch.
  rewrite (dispatch_body_call f _ c d v d') by done. by rewrite Hp.
Qed.

Lemma dispatch_throw f d e :
  decode_request f = Throw e ->
  dispatch f d = Some (errorReply f (mkError ErrorCode.kProtocolMalformed (what e))
                         (generation (info_ d)), d).
Proof. intros He. unfold dispatch. by rewrite (dispatch_body_throw f _ d e). Qed.

Lemma dispatch_unsupported f d :
  decode_request f = Ok None ->
  exists p, dispatch f d
    = Some (Ok (response f MessageType.kErrorReply (generation (info_ d)) p), d)
    /\ decodeError p = Ok unsupported_error.
Proof.
  intros He. unfold dispatch. rewrite (dispatch_body_unsupported f _ d) by done.
  destruct (errorReply_ok f unsupported_error (generation (info_ d))) as (p & -> & Hp);
    [literal_text|]. by exists p.
Qed.

(** C35: the server implements the device interface: a request whose payload decodes is
    the direct device call, with the caller's request ID, the reply type of the call,
    and a payload that decodes to exactly the call's value.  A type that is no request is
    answered with an error, and so is a payload that does not decode, when the text of the
    decoding error is well-formed UTF-8; when it is not, the error cannot be encoded and
    [dispatch] throws, which terminates the process.  The device is untouched in each of
    these cases. *)
Theorem server_refines_device f d :
  device_wf d -> device_text d ->
  match decode_request f with
  | Ok (Some c) =>
      exists v d' p, run_call c d = Some (Ok v, d') /\
        dispatch f d = Some (Ok (response f (answer_type f c) (answer_generation d v) p), d') /\
        decode_value c p = Ok v
  | Ok None =>
      exists p, dispatch f d
        = Some (Ok (response f MessageType.kErrorReply (generation (info_ d)) p), d)
        /\ decodeError p = Ok unsupported_error
  | Throw e =>
      exists r, dispatch f d = Some (r, d) /\
        (utf8 (what e) -> exists p,
           r = Ok (response f MessageType.kErrorReply (generation (info_ d)) p)
           /\ decodeError p = Ok (mkError ErrorCode.kProtocolMalformed (what e))) /\
        (~ utf8 (what e) -> is_ok r = false)
  end.
Proof.
  intros Hwf Hd. destruct (decode_request f) as [[c|]|e] eqn:Hc.
  - destruct (dispatch_call f c d Hwf Hd Hc) as (v & d' & p & ? & _ & _ & ? & ? & _).
    by exists v, d', p.
  - by apply dispatch_unsupported.
  - rewrite (dispatch_throw f d e Hc). eexists. split; [done|].
    split; intros He; [by apply errorReply_ok|by apply errorReply_ill_formed].
Qed.

(** ** Packets *)

Definition server_ok (s : UdsServer) : Prop := device_wf (device_ s) /\ device_text (device_ s).

(** The packet is the frame [f]. *)
Definition packet_is (packet : list Z) (f : Frame) : Prop :=
  UdsCodec.decode packet = Ok (mkDecoded success (Some f)).

Lemma packet_cases packet :
  Forall (in_width 8) packet ->
  (exists f, packet_is packet f /\ frame_wf f
     /\ (Z.of_nat (length packet) <= kHeaderSize + kMaxPayloadSize)%Z) \/
  (forall J s, @serve_packet J packet s = Some (Closed, s)).
Proof using.
  intros Hp. destruct (decide (kHeaderSize + kMaxPayloadSize < Z.of_nat (length packet))%Z) as [Hl|Hl].
  { right. intros J' s. unfold serve_packet. by rewrite bool_decide_eq_true_2. }
  destruct (decode_total packet Hp) as (r & Hr & Hm).
  destruct (frame r) as [f|] eqn:Hf.
  - left. exists f. destruct Hm as (He & Hwf & _). split; [|split; [done|lia]].
    unfold packet_is. rewrite Hr. destruct r; simpl in *. by subst.
  - right. intros J' s. unfold serve_packet. rewrite bool_decide_eq_false_2 by done.
    by rewrite Hr, Hf.
Qed.

(** [serve_packet] on a frame, given what [dispatch] does. *)
Definition serve_frame (f : Frame) (s : UdsServer) : option (served * UdsServer) :=
  match dispatch f (device_ s) with
  | None => None
  | Some (Throw e, d) => Some (Terminated e, mkServer d (drop_next_apply_reply_ s))
  | Some (Ok r, d) =>
      if bool_decide (message_type f = MessageType.kApplyConnections)
         && drop_next_apply_reply_ s then Some (Closed, mkServer d false)
      else
        let s' := mkServer d (drop_next_apply_reply_ s) in
        if encode_ok (encode r) then Some (Reply (bytes (encode r)), s') else Some (Closed, s')
  end.

Lemma serve_packet_frame packet f s :
  packet_is packet f -> (Z.of_nat (length packet) <= kHeaderSize + kMaxPayloadSize)%Z ->
  serve_packet packet s = serve_frame f s.
Proof.
  intros Hf Hl. unfold serve_packet, serve_frame. rewrite bool_decide_eq_false_2 by lia.
  unfold packet_is in Hf. rewrite Hf. cbn [frame decode_ok decode_error].
  change (decode_ok (mkDecoded success (Some f))) with true. cbn [negb].
  destruct (dispatch f (device_ s)) as [[[r|e] d]|]; try done.
  destruct (_ && _); [done|]. by destruct (encode_ok _).
Qed.

(** A response to a well-formed frame, once encoded, decodes to itself. *)
Lemma response_packet f t g p :
  frame_wf f -> is_u64 g -> encode_ok (encode (response f t g p)) = true ->
  packet_is (bytes (encode (response f t g p))) (response f t g p).
Proof.
  intros (_ & _ & Hr & _ & _) Hg Hok.
  destruct (decide (payload_size p <= kMaxPayloadSize)%Z) as [Hp|Hp].
  - rewrite encode_spec by done. apply decode_frame_wire. by split_and!.
  - exfalso. revert Hok. unfold encode_ok, encode. cbn [version response].
    rewrite bool_decide_eq_true_2 by done. cbn [negb payload].
    rewrite (bool_decide_eq_true_2 (kMaxPayloadSize < _)%Z) by (simpl; lia). done.
Qed.

(** Whatever bytes a client sends, the server call returns, its device stays
    well-formed, and an answer is a decodable frame with the request's ID.  The serving
    thread dies only when the text of a decoding exception is not well-formed UTF-8. *)
Theorem serve_packet_survives packet s :
  Forall (in_width 8) packet -> server_ok s ->
  exists out s', serve_packet packet s = Some (out, s') /\ server_ok s' /\
    match out with
    | Reply bs => exists f r, packet_is packet f /\ packet_is bs r /\ request_id r = request_id f
    | Closed => True
    | Terminated _ =>
        exists f e, packet_is packet f /\ decode_request f = Throw e /\ ~ utf8 (what e)
    end.
Proof.
  intros Hp [Hwf Hd]. destruct (packet_cases packet Hp) as [(f & Hf & Hfw & Hl)|Hc].
  2:{ rewrite Hc. by exists Closed, s. }
  rewrite (serve_packet_frame packet f s Hf Hl). unfold serve_frame.
  destruct (text_info _ Hd) as ((_ & _ & Hg) & _).
  assert (forall t g p d, is_u64 g -> device_wf d -> device_text d ->
    dispatch f (device_ s) = Some (Ok (response f t g p), d) ->
    exists out s', serve_frame f s = Some (out, s') /\ server_ok s' /\
      match out with
      | Reply bs => exists f0 r, packet_is packet f0 /\ packet_is bs r /\ request_id r = request_id f0
      | Closed => True
      | Terminated _ => False
      end) as Hreply.
  { intros t g p d Hg' Hwd Htd Hdis. unfold serve_frame. rewrite Hdis.
    destruct (_ && _); [by eexists _, _|]. cbv zeta.
    destruct (encode_ok (encode (response f t g p))) eqn:Hok; [|by eexists _, _].
    eexists _, _. split; [done|]. split; [done|]. exists f, (response f t g p).
    split; [done|]. split; [by apply response_packet|done]. }
  fold (serve_frame f s).
  destruct (decode_request f) as [[c|]|e] eqn:Hreq.
  - destruct (dispatch_call f c _ Hwf Hd Hreq) as (v & d' & p & _ & Hw' & Hd' & Hdis & _ & Hv).
    assert (is_u64 (answer_generation (device_ s) v)) as Hag by (destruct v; try done; by destruct Hv).
    destruct (Hreply _ _ _ _ Hag Hw' Hd' Hdis) as (out & s' & ? & ? & Hm).
    exists out, s'. split_and!; try done. by destruct out.
  - destruct (dispatch_unsupported f (device_ s) Hreq) as (p & Hdis & _).
    destruct (Hreply _ _ _ _ Hg Hwf Hd Hdis) as (out & s' & ? & ? & Hm).
    exists out, s'. split_and!; try done. by destruct out.
  - pose proof (dispatch_throw f (device_ s) e Hreq) as Hdis.
    destruct (errorReply f _ _) as [r|e'] eqn:Her.
    + unfold errorReply in Her. apply result_bind_Ok in Her as (p & _ & [= <-]).
      destruct (Hreply _ _ _ _ Hg Hwf Hd Hdis) as (out & s' & ? & ? & Hm).
      exists out, s'. split_and!; try done. by destruct out.
    + unfold serve_frame. rewrite Hdis. eexists _, _. split; [done|]. split; [done|].
      exists f, e. split_and!; try done. intros Hu.
      destruct (errorReply_ok f (mkError ErrorCode.kProtocolMalformed (what e))
        (generation (info_ (device_ s))) Hu) as (p & Hok & _). congruence.
Qed.

(** The error path of the server is itself unprotected: when the text of the
    decoding exception is not well-formed UTF-8 (a parser that quotes the offending
    bytes), encoding the error reply throws out of the handler and the serving thread
    terminates the process, instead of answering PROTOCOL_MALFORMED. *)
Theorem ill_formed_error_text_terminates packet f e s :
  packet_is packet f -> (Z.of_nat (length packet) <= kHeaderSize + kMaxPayloadSize)%Z ->
  decode_request f = Throw e -> ~ utf8 (what e) ->
  exists e', serve_packet packet s = Some (Terminated e', s).
Proof.
  intros Hf Hl Hreq Hu. rewrite (serve_packet_frame packet f s Hf Hl). unfold serve_frame.
  rewrite (dispatch_throw f _ e Hreq).
  pose proof (errorReply_ill_formed f ErrorCode.kProtocolMalformed (what e)
    (generation (info_ (device_ s))) Hu) as Hd.
  destruct (errorReply _ _ _) as [p|e']; [done|]. exists e'. by destruct s.
Qed.
End Props.
