(* ===== verification/UdsListener.v ===== *)
(** * uds_server.{hpp,cpp}: listening, accepting and stopping.

    The system calls and std::filesystem are not code of the repository: [ServerSys] is
    their interface over an abstract state [W] of the rest of the world, with the results
    and the [errno] the code tests.  The server's threads are steps: one turn of the accept
    loop, one client thread that ends, and a call of [start] or [stop].  UdsServer.v has
    what a client thread does with its packets. *)
From S2P Require Import Prelude Errors.
From stdpp Require Import options.

(** A call that fails returns a negative result and an [errno]. *)
Class ServerSys (W : Type) := {
  os_strerror : Z -> string;
  os_create_directories : string -> W -> bool * W;   (* whether the error code is set *)
  os_lstat : string -> W -> (bool + Z) * W;          (* whether it is a socket, or errno *)
  os_socket : W -> (Z * Z) * W;
  os_connect : Z -> string -> W -> (Z * Z) * W;
  os_bind : Z -> string -> W -> (Z * Z) * W;
  os_chmod : string -> Z -> W -> (Z * Z) * W;
  os_listen : Z -> Z -> W -> (Z * Z) * W;
  os_accept : Z -> W -> (Z * Z) * W;
  os_unlink : string -> W -> (Z * Z) * W;
  os_remove : string -> W -> W;                      (* std::filesystem::remove *)
  os_shutdown : Z -> W -> W;
  os_close : Z -> W -> W;
  (** Whether a thread that waits in [accept4], [recv] or [send] on the descriptor returns.
      When it does not, it waits for ever: no client connects, sends or reads. *)
  os_wakes : Z -> W -> bool;
}.

(** What stopping relies on: [shutdown] with SHUT_RDWR wakes the threads that wait on the
    socket, and what other descriptors do later does not put them back to sleep.  A number
    that [accept4] returns is a new socket. *)
Class ServerSysLaws (W : Type) {OS : ServerSys W} := {
  shutdown_wakes fd w : os_wakes fd (os_shutdown fd w) = true;
  shutdown_keeps fd fd' w : os_wakes fd w = true -> os_wakes fd (os_shutdown fd' w) = true;
  close_keeps fd fd' w : os_wakes fd w = true -> os_wakes fd (os_close fd' w) = true;
}.

(** errno on Linux *)
Definition ENOENT : Z := 2.
Definition EINTR : Z := 4.
Definition ECONNREFUSED : Z := 111.

(** The members: [worker_] is a thread or none, a client worker its descriptor and whether
    it is done. *)
Record Listener := mkListener {
  socket_path_ : string;
  listen_fd_ : Z;
  owns_socket_ : bool;
  worker_ : bool;
  client_workers_ : list (Z * bool);
}.

Definition UdsListener (socket_path : string) : Listener := mkListener socket_path (-1) false false [].
Definition running (l : Listener) : bool := bool_decide (0 <= listen_fd_ l)%Z.

Definition set_listen (fd : Z) (owns worker : bool) (l : Listener) : Listener :=
  mkListener (socket_path_ l) fd owns worker (client_workers_ l).
Definition set_workers (ws : list (Z * bool)) (l : Listener) : Listener :=
  mkListener (socket_path_ l) (listen_fd_ l) (owns_socket_ l) (worker_ l) ws.

(** [std::filesystem::path::parent_path] on Linux: the text before the last separator,
    without separators at its end, unless it is the root. *)
Fixpoint drop_slashes (reversed : list ascii) : list ascii :=
  match reversed with
  | "/"%char :: rest => drop_slashes rest
  | _ => reversed
  end.
Fixpoint after_slash (reversed : list ascii) : option (list ascii) :=
  match reversed with
  | [] => None
  | "/"%char :: rest => Some rest
  | _ :: rest => after_slash rest
  end.
Definition parent_path (path : string) : string :=
  match after_slash (rev (String.list_ascii_of_string path)) with
  | None => ""
  | Some rest =>
      match drop_slashes rest with
      | [] => "/"
      | kept => String.string_of_list_ascii (rev kept)
      end
  end.

(** sizeof(sockaddr_un::sun_path) on Linux *)
Definition sun_path_size : Z := 108.

Section Listen.
Context {W : Type} {OS : ServerSys W}.
Abbreviation M := (prog (Listener * W)).

Definition os {A} (f : W -> A * W) : M A := fun s =>
  let '(a, w) := f s.2 in (Ok a, (s.1, w)).
Definition os_do (f : W -> W) : M unit := fun s => (Ok tt, (s.1, f s.2)).
Definition member {A} (f : Listener -> A) : M A := gets (fun s => f s.1).
Definition assign (f : Listener -> Listener) : M unit := modify (fun s => (f s.1, s.2)).

Definition makeError (c : ErrorCode.t) (message : string) : Error := mkError c message.
Definition internal (errno : Z) : Error := makeError ErrorCode.kInternalError (os_strerror errno).

(** Another process listens on the socket, or it is left over and removed. *)
Definition removeStaleSocket (socket_path : string) : M Error :=
  status ← os (os_lstat socket_path);
  match status with
  | inr errno => mret (if decide (errno = ENOENT) then success else internal errno)
  | inl false =>
      mret (makeError ErrorCode.kInvalidArgument "UDS path exists and is not a socket")
  | inl true =>
      probe ← os os_socket;
      let '(probe_fd, errno) := probe in
      if decide (probe_fd < 0)%Z then mret (internal errno)
      else
        connected ← os (os_connect probe_fd socket_path);
        let '(connect_result, connect_error) := connected in
        os_do (os_close probe_fd) ;;
        if decide (connect_result = 0)%Z then
          mret (makeError ErrorCode.kInvalidArgument "UDS socket is already active")
        else if decide (connect_error <> ECONNREFUSED /\ connect_error <> ENOENT) then
          mret (internal connect_error)
        else
          unlinked ← os (os_unlink socket_path);
          let '(result, errno) := unlinked in
          mret (if decide (result < 0 /\ errno <> ENOENT)%Z then internal errno else success)
  end.

(** [::chmod(...) < 0 || ::listen(...) < 0], with the [errno] of the call that failed *)
Definition chmod_and_listen (server_fd : Z) (socket_path : string) : M (option Z) :=
  mode ← os (os_chmod socket_path 432);                  (* 0660 *)
  if decide (mode.1 < 0)%Z then mret (Some mode.2)
  else
    listening ← os (os_listen server_fd 8);
    mret (if decide (listening.1 < 0)%Z then Some listening.2 else None).

Definition open_listener (socket_path : string) : M Error :=
  opened ← os os_socket;
  let '(server_fd, errno) := opened in
  if decide (server_fd < 0)%Z then mret (internal errno)
  else
    bound ← os (os_bind server_fd socket_path);
    if decide (bound.1 < 0)%Z then
      os_do (os_close server_fd) ;; mret (internal bound.2)
    else
      failure ← chmod_and_listen server_fd socket_path;
      match failure with
      | Some errno =>
          os_do (os_close server_fd) ;; os_do (os_remove socket_path) ;; mret (internal errno)
      | None => assign (set_listen server_fd true true) ;; mret success
      end.

Definition start : M Error :=
  active ← member running;
  if active : bool then
    mret (makeError ErrorCode.kInvalidArgument "UDS server is already running")
  else
    socket_path ← member socket_path_;
    if decide (socket_path = "" \/ sun_path_size <= Z.of_nat (String.length socket_path))%Z then
      mret (makeError ErrorCode.kInvalidArgument "UDS socket path is invalid")
    else
      let parent := parent_path socket_path in
      filesystem_error ← (if decide (parent = "") then mret false
                          else os (os_create_directories parent));
      if filesystem_error : bool then
        mret (makeError ErrorCode.kInternalError "failed to create UDS runtime directory")
      else
        stale_error ← removeStaleSocket socket_path;
        if negb (error_ok stale_error) then mret stale_error else open_listener socket_path.

(** A new client: its worker, after those that are done have been joined. *)
Definition add_client (client_fd : Z) : M unit :=
  workers ← member client_workers_;
  assign (set_workers (filter (fun w => w.2 = false) workers ++ [(client_fd, false)])).

(** One turn of [acceptLoop]: whether the loop goes on.  The two readings of the stop token
    are arguments. *)
Definition accept_turn (stop_requested stop_requested_after : bool) : M bool :=
  if stop_requested then mret false
  else
    server_fd ← member listen_fd_;
    if decide (server_fd < 0)%Z then mret false
    else
      accepted ← os (os_accept server_fd);
      let '(client_fd, errno) := accepted in
      if decide (client_fd < 0)%Z then mret (bool_decide (errno = EINTR))
      else add_client client_fd ;; mret (negb stop_requested_after).

(** The thread of the client worker [i] ends: [serveClient] has returned. *)
Definition end_client (i : nat) : M unit :=
  workers ← member client_workers_;
  match workers !! i with
  | Some (fd, false) =>
      assign (set_workers (<[i := (fd, true)]> workers)) ;; os_do (os_close fd)
  | _ => mret tt
  end.

(** Waiting for a thread that never ends: the call does not return. *)
Definition blocked : exn := RuntimeError "the call does not return".

(** A thread that waits on the descriptor goes on. *)
Definition wake (fd : Z) : M unit := fun s =>
  (if os_wakes fd s.2 then Ok tt else Throw blocked, s).

(** The accept thread may be inside [accept4] when [stop] takes its descriptor: the thread is
    joined when that call has returned, and what it still accepts is added before. *)
Definition last_accept (server_fd : Z) : M unit :=
  wake server_fd ;;
  accepted ← os (os_accept server_fd);
  if decide (accepted.1 < 0)%Z then mret tt else add_client accepted.1.

(** Every client thread is asked to stop, its socket is shut down, and it is joined: when it
    waits for its client no longer it ends, and closes its descriptor. *)
Definition stop_client (worker : Z * bool) : M unit :=
  if worker.2 then mret tt else os_do (os_shutdown worker.1).
Definition join_client (worker : Z * bool) : M unit :=
  if worker.2 then mret tt else wake worker.1 ;; os_do (os_close worker.1).

Definition stop (in_accept : bool) : M unit :=
  server_fd ← member listen_fd_;
  owned ← member owns_socket_;
  active ← member worker_;
  assign (set_listen (-1) owned active) ;;
  (if decide (0 <= server_fd)%Z then
     os_do (os_shutdown server_fd) ;;
     os_do (os_close server_fd) ;;
     if active && in_accept then last_accept server_fd else mret tt
   else mret tt) ;;
  workers ← member client_workers_;
  for_each stop_client workers ;;
  for_each join_client workers ;;
  assign (fun l => set_workers [] (set_listen (listen_fd_ l) false false l)) ;;
  if owned : bool then
    socket_path ← member socket_path_;
    status ← os (os_lstat socket_path);
    match status with
    | inl true => unlinked ← os (os_unlink socket_path); mret tt
    | _ => mret tt
    end
  else mret tt.
End Listen.
