(* ===== verification/UdsListenerProps.v ===== *)
(** * The server's descriptors: none is leaked, none is closed twice. *)
From S2P Require Import Prelude ProgLogic Errors UdsListener.
From stdpp Require Import gmultiset.
From stdpp Require Import options.
#[local] Set Default Proof Using "Type*".

(** What the server opened and closed, in order. *)
Inductive fd_event := Opened (fd : Z) | Closed (fd : Z).

Definition opened (r : Z * Z) : list fd_event := if decide (r.1 < 0)%Z then [] else [Opened r.1].

(** A world that records them. *)
#[export] Instance LoggedSys {W} (OS : ServerSys W) : ServerSys (W * list fd_event) := {
  os_strerror := os_strerror;
  os_create_directories p s := let '(r, w) := os_create_directories p s.1 in (r, (w, s.2));
  os_lstat p s := let '(r, w) := os_lstat p s.1 in (r, (w, s.2));
  os_socket s := let '(r, w) := os_socket s.1 in (r, (w, s.2 ++ opened r));
  os_connect fd p s := let '(r, w) := os_connect fd p s.1 in (r, (w, s.2));
  os_bind fd p s := let '(r, w) := os_bind fd p s.1 in (r, (w, s.2));
  os_chmod p m s := let '(r, w) := os_chmod p m s.1 in (r, (w, s.2));
  os_listen fd n s := let '(r, w) := os_listen fd n s.1 in (r, (w, s.2));
  os_accept fd s := let '(r, w) := os_accept fd s.1 in (r, (w, s.2 ++ opened r));
  os_unlink p s := let '(r, w) := os_unlink p s.1 in (r, (w, s.2));
  os_remove p s := (os_remove p s.1, s.2);
  os_shutdown fd s := (os_shutdown fd s.1, s.2);
  os_close fd s := (os_close fd s.1, s.2 ++ [Closed fd]);
  os_wakes fd s := os_wakes fd s.1;
}.
#[export] Instance LoggedLaws {W} (OS : ServerSys W) (OL : ServerSysLaws W)
    : ServerSysLaws (W * list fd_event).
Proof.
  split; [intros fd s; apply (shutdown_wakes (W:=W))|intros fd fd' s; apply (shutdown_keeps (W:=W))
         |intros fd fd' s; apply (close_keeps (W:=W))].
Qed.

(** The descriptors that are open after the events; [None] when one was closed that was
    not open. *)
Definition account (m : option (gmultiset Z)) (e : fd_event) : option (gmultiset Z) :=
  m ← m;
  match e with
  | Opened fd => Some ({[+ fd +]} ⊎ m)
  | Closed fd => if decide (fd ∈ m) then Some (m ∖ {[+ fd +]}) else None
  end.
Definition ledger (log : list fd_event) : option (gmultiset Z) := fold_left account log (Some ∅).

(** The descriptors the server is responsible for. *)
Definition live_clients (ws : list (Z * bool)) : gmultiset Z :=
  list_to_set_disj (filter (fun w => w.2 = false) ws).*1.
Definition held (l : Listener) : gmultiset Z :=
  (if running l then {[+ listen_fd_ l +]} else ∅) ⊎ live_clients (client_workers_ l).

(** ** A logic for the descriptors *)
Section Logic.
Context {W : Type} {OS : ServerSys W}.
Abbreviation state := (Listener * (W * list fd_event))%type.

(** The open descriptors are [extra] and those the server holds. *)
Definition balanced (extra : gmultiset Z) (s : state) : Prop :=
  ledger s.2.2 = Some (extra ⊎ held s.1).

(** Reading a member *)
Lemma runs_member {A} (f : Listener -> A) (P : state -> Prop) :
  runs P (member f) (fun a s => P s /\ a = f s.1).
Proof using Type. intros s Hs. by exists (f s.1), s. Qed.

Lemma runs_assign f (P Q : state -> Prop) :
  (forall s, P s -> Q (f s.1, s.2)) -> runs P (assign f) (fun _ => Q).
Proof using Type. intros HQ s Hs. exists tt, (f s.1, s.2). split; [done|by apply HQ]. Qed.

Lemma ledger_snoc log e : ledger (log ++ [e]) = account (ledger log) e.
Proof using Type. unfold ledger. by rewrite fold_left_app. Qed.

(** [P] does not look at the world or the log. *)
Definition about (p : Listener -> Prop) (extra : gmultiset Z) (s : state) : Prop :=
  balanced extra s /\ p s.1.

(** A call that neither opens nor closes. *)
Definition plain_call {A} (f : W * list fd_event -> A * (W * list fd_event)) : Prop :=
  forall s, (f s).2.2 = s.2.

Lemma runs_os {A} (f : W * list fd_event -> A * (W * list fd_event)) p extra :
  plain_call f -> runs (about p extra) (os f) (fun _ => about p extra).
Proof using Type.
  intros Hf [l s] [Hb Hp]. unfold os. simpl. pose proof (Hf s) as Hlog. destruct (f s) as [a s'].
  exists a, (l, s'). split; [done|]. split; [|done]. unfold balanced in *. simpl in *. by rewrite Hlog.
Qed.

Lemma runs_os_do (f : W * list fd_event -> W * list fd_event) p extra :
  (forall s, (f s).2 = s.2) -> runs (about p extra) (os_do f) (fun _ => about p extra).
Proof using Type.
  intros Hf [l s] [Hb Hp]. exists tt, (l, f s). split; [done|]. split; [|done].
  unfold balanced in *. simpl in *. by rewrite Hf.
Qed.

(** A call that opens a descriptor, or fails. *)
Lemma runs_open (f : W * list fd_event -> (Z * Z) * (W * list fd_event)) p extra :
  (forall s, (f s).2.2 = s.2 ++ opened (f s).1) ->
  runs (about p extra) (os f)
    (fun r => about p (if decide (r.1 < 0)%Z then extra else {[+ r.1 +]} ⊎ extra)).
Proof using Type.
  intros Hf [l s] [Hb Hp]. unfold os. simpl. pose proof (Hf s) as Hlog. destruct (f s) as [r s'].
  exists r, (l, s'). split; [done|]. split; [|done]. unfold balanced in *. simpl in *. rewrite Hlog.
  unfold opened. destruct (decide (r.1 < 0)%Z); [by rewrite app_nil_r|].
  rewrite ledger_snoc, Hb. simpl. f_equal. multiset_solver.
Qed.

Lemma runs_close fd p extra :
  runs (about p ({[+ fd +]} ⊎ extra)) (os_do (os_close fd)) (fun _ => about p extra).
Proof using Type.
  intros [l [w log]] [Hb Hp]. exists tt, (l, (os_close fd w, log ++ [Closed fd])).
  split; [done|]. split; [|done]. unfold balanced in *. simpl in *. rewrite ledger_snoc, Hb. simpl.
  rewrite decide_True by multiset_solver. f_equal. multiset_solver.
Qed.

(** ** The operations *)
#[local] Abbreviation unchanged l0 extra := (about (fun l => l = l0) extra).

Ltac logged := intros [? ?]; simpl; by (repeat case_match; simplify_eq).
Ltac plain_os := eapply runs_bind; [apply runs_os; logged|].

Lemma stale_unchanged l0 path :
  runs (unchanged l0 ∅) (removeStaleSocket path) (fun _ => unchanged l0 ∅).
Proof using Type.
  unfold removeStaleSocket. plain_os. intros [[|]|]; [|apply runs_ret..].
  eapply runs_bind; [apply (runs_open os_socket); logged|]. intros [fd errno]. cbn [fst].
  case_decide; [apply runs_ret|].
  plain_os. intros [result error]. eapply runs_bind; [apply runs_close|]. intros [].
  case_decide; [apply runs_ret|]. case_decide; [apply runs_ret|].
  plain_os. intros [r e]. apply runs_ret.
Qed.

(** How [start] may leave the server: an error changes nothing, a success makes it listen. *)
Definition started (l0 : Listener) (e : Error) (s : state) : Prop :=
  balanced ∅ s /\
  if error_ok e then exists fd, (0 <= fd)%Z /\ s.1 = set_listen fd true true l0 else s.1 = l0.

Lemma started_error l0 e : error_ok e = false -> runs (unchanged l0 ∅) (mret e) (started l0).
Proof using Type.
  intros He s [Hb Hl]. exists e, s. split; [done|]. split; [done|]. by rewrite He.
Qed.

Lemma open_listener_started l0 path :
  running l0 = false -> runs (unchanged l0 ∅) (open_listener path) (started l0).
Proof using Type.
  intros Hrun. unfold open_listener.
  eapply runs_bind; [apply (runs_open os_socket); logged|]. intros [fd errno]. cbn [fst].
  case_decide; [by apply started_error|].
  plain_os. intros bound. case_decide.
  { eapply runs_bind; [apply runs_close|]. intros []. by apply started_error. }
  unfold chmod_and_listen. eapply (runs_bind _ _ _ (fun _ => unchanged l0 ({[+ fd +]} ⊎ ∅))).
  { plain_os. intros mode. case_decide; [apply runs_ret|]. plain_os. intros l. apply runs_ret. }
  intros [failure|].
  - eapply runs_bind; [apply runs_close|]. intros [].
    eapply runs_bind; [apply runs_os_do; by intros []|]. intros []. by apply started_error.
  - eapply runs_bind; [apply (runs_assign _ _ (started l0 success))|]; [|intros []].
    + intros [l [w log]] [Hb Hl]. simpl in Hl. subst l. split.
      * unfold balanced, held in *. simpl in *. rewrite Hb. f_equal. rewrite Hrun.
        unfold running. simpl. rewrite bool_decide_eq_true_2 by lia. multiset_solver.
      * simpl. exists fd. split; [lia|done].
    + intros s Hs. by exists success, s.
Qed.

Lemma start_started l0 : runs (unchanged l0 ∅) start (started l0).
Proof using Type.
  assert (forall A (f : Listener -> A) (k : A -> prog state Error),
    runs (unchanged l0 ∅) (k (f l0)) (started l0) ->
    runs (unchanged l0 ∅) (member f ≫= k) (started l0)) as Hmember.
  { intros A f k Hk [l s] [Hb Hl]. simpl in Hl. subst l. by apply Hk. }
  unfold start. apply Hmember. destruct (running l0) eqn:Hrun; [by apply started_error|].
  apply Hmember. case_decide; [by apply started_error|]. cbv zeta.
  eapply (runs_bind _ _ _ (fun _ => unchanged l0 ∅)).
  { case_decide; [apply runs_ret|]. apply runs_os. logged. }
  intros [|]; [by apply started_error|].
  eapply runs_bind; [apply stale_unchanged|]. intros stale.
  destruct (error_ok stale) eqn:Hok; [by apply open_listener_started|by apply started_error].
Qed.

(** A member is read from a known server. *)
Lemma runs_read {A B} (f : Listener -> A) (k : A -> prog state B) p extra Q :
  (forall l, p l -> runs (unchanged l extra) (k (f l)) Q) ->
  runs (about p extra) (member f ≫= k) Q.
Proof using Type.
  intros Hk [l s] [Hb Hp]. simpl in Hp. by apply (Hk l Hp).
Qed.

Lemma live_clients_app ws ws' : live_clients (ws ++ ws') = live_clients ws ⊎ live_clients ws'.
Proof using Type. unfold live_clients. by rewrite list.filter_app, fmap_app, list_to_set_disj_app. Qed.

Lemma live_clients_cons fd (done_ : bool) ws :
  live_clients ((fd, done_) :: ws) = (if done_ then ∅ else {[+ fd +]}) ⊎ live_clients ws.
Proof using Type.
  unfold live_clients. destruct done_.
  - rewrite filter_cons_False by done. multiset_solver.
  - by rewrite filter_cons_True.
Qed.

Lemma live_clients_filter ws : live_clients (filter (fun w => w.2 = false) ws) = live_clients ws.
Proof using Type. unfold live_clients. rewrite list_filter_filter_l; naive_solver. Qed.

Lemma add_client_balanced l fd :
  runs (unchanged l ({[+ fd +]} ⊎ ∅)) (add_client fd)
    (fun _ => about (fun l' => (listen_fd_ l', owns_socket_ l', worker_ l')
                               = (listen_fd_ l, owns_socket_ l, worker_ l)) ∅).
Proof using Type.
  unfold add_client. apply runs_read. intros l' ->. apply runs_assign.
  intros [l' s] [Hb Hl]. simpl in Hl. subst l'. split; [|done].
  unfold balanced, held in *. simpl in *. rewrite Hb. f_equal.
  rewrite live_clients_app, live_clients_filter, live_clients_cons.
  change (running (set_workers ?ws l)) with (running l).
  change (live_clients []) with (∅ : gmultiset Z).
  destruct (running l); multiset_solver.
Qed.

Lemma accept_turn_balanced stop1 stop2 :
  runs (balanced ∅) (accept_turn stop1 stop2) (fun _ => balanced ∅).
Proof using Type.
  apply (runs_weaken (about (fun _ => True) ∅) _ _ (fun _ => balanced ∅)); [|by intros s Hs|done].
  unfold accept_turn. destruct stop1.
  { eapply runs_weaken; [apply runs_ret|done|by intros ?? []]. }
  apply runs_read. intros l _. case_decide.
  { eapply runs_weaken; [apply runs_ret|done|by intros ?? []]. }
  eapply runs_bind; [apply (runs_open (os_accept _)); logged|]. intros [fd errno]. cbn [fst].
  case_decide; [eapply runs_weaken; [apply runs_ret|done|by intros ?? []]|].
  eapply runs_bind; [apply add_client_balanced|]. intros [].
  eapply runs_weaken; [apply runs_ret|done|by intros ?? []].
Qed.

Lemma end_client_balanced i : runs (balanced ∅) (end_client i) (fun _ => balanced ∅).
Proof using Type.
  apply (runs_weaken (about (fun _ => True) ∅) _ _ (fun _ => about (fun _ => True) ∅));
    [|by intros s Hs|by intros ?? []].
  unfold end_client. apply runs_read. intros l _.
  destruct (client_workers_ l !! i) as [[fd [|]]|] eqn:Hi;
    [eapply runs_weaken; [apply runs_ret|by intros s []|done]| |
     eapply runs_weaken; [apply runs_ret|by intros s []|done]].
  apply (runs_bind _ _ _ (fun _ => about (fun _ => True) ({[+ fd +]} ⊎ ∅)));
    [|intros []; apply runs_close]. apply runs_assign.
  intros [l' s] [Hb Hl]. simpl in Hl. subst l'. split; [|done].
  unfold balanced, held in *. simpl in *. rewrite Hb. f_equal.
  change (running (set_workers ?ws l)) with (running l).
  rewrite <-(take_drop_middle _ _ _ Hi) at 1.
  rewrite insert_take_drop by (by eapply lookup_lt_Some).
  rewrite !live_clients_app, !live_clients_cons. destruct (running l); multiset_solver.
Qed.

(** ** Stopping *)
Context {OL : ServerSysLaws W}.

(** The threads that wait on these descriptors go on. *)
Definition awake (fds : list Z) (s : state) : Prop := Forall (fun fd => os_wakes fd s.2 = true) fds.

Lemma runs_wake fd (P : state -> Prop) :
  runs (fun s => P s /\ awake [fd] s) (wake fd) (fun _ => P).
Proof using Type.
  intros s [HP Hw%Forall_inv]. exists tt, s. unfold wake. by rewrite Hw.
Qed.

Lemma awake_shutdown fds fd s : awake fds s -> awake (fd :: fds) (s.1, os_shutdown fd s.2).
Proof using OL.
  unfold awake. intros Hs. constructor; [apply shutdown_wakes|]. revert Hs. apply Forall_impl.
  intros fd' Hfd. by apply shutdown_keeps.
Qed.
Lemma awake_close fds fd s : awake fds s -> awake fds (s.1, os_close fd s.2).
Proof using OL. 
  unfold awake. intros Hs. revert Hs. apply Forall_impl. intros fd' Hfd. by apply close_keeps.
 Qed.

Definition books (l : Listener) (m : gmultiset Z) (s : state) : Prop :=
  ledger s.2.2 = Some m /\ s.1 = l.

(** The clients that are being served *)
Definition live (ws : list (Z * bool)) : list Z := (filter (fun w => w.2 = false) ws).*1.

Lemma shutdown_all l m ws fds :
  runs (fun s => books l m s /\ awake fds s) (for_each stop_client ws)
    (fun _ s => books l m s /\ awake (live ws ++ fds) s).
Proof using OL.
  revert fds. induction ws as [|[fd [|]] ws IH]; intros fds; simpl; [apply runs_ret| |].
  - eapply runs_bind; [apply runs_ret|]. intros []. apply IH.
  - eapply (runs_bind _ _ _ (fun _ s => books l m s /\ awake (fd :: fds) s)).
    + intros [l' [w log]] [Hb Ha]. exists tt, (l', (os_shutdown fd w, log)).
      split; [done|]. split; [done|]. by apply (awake_shutdown _ _ (l', (w, log))).
    + intros []. eapply runs_weaken; [apply (IH (fd :: fds))|done|].
      intros [] s [Hb Ha]. split; [done|]. unfold live in *.
      unfold awake in *. apply Forall_app in Ha as [Ha Hfds]. constructor; [by apply Forall_inv in Hfds|].
      apply Forall_app. split; [done|]. by apply Forall_inv_tail in Hfds.
Qed.

Lemma join_all l m ws :
  runs (fun s => books l (live_clients ws ⊎ m) s /\ awake (live ws) s) (for_each join_client ws)
    (fun _ => books l m).
Proof using OL.
  induction ws as [|[fd done_] ws IH]; simpl.
  { eapply runs_weaken; [apply runs_ret| |exact (fun _ _ H => H)]. intros s [[Hm Hl] _].
    split; [|done]. rewrite Hm. f_equal. multiset_solver. }
  eapply (runs_bind _ _ _ (fun _ s => books l (live_clients ws ⊎ m) s /\ awake (live ws) s));
    [|intros []; apply IH].
  rewrite live_clients_cons. unfold join_client. destruct done_; simpl.
  { eapply runs_weaken; [apply runs_ret| |exact (fun _ _ H => H)]. intros s [[Hm Hl] Ha].
    split; [|done]. split; [|done]. rewrite Hm. f_equal. multiset_solver. }
  eapply runs_bind.
  { eapply runs_weaken; [apply (runs_wake fd (fun s =>
      books l ({[+ fd +]} ⊎ live_clients ws ⊎ m) s /\ awake (live ws) s))| |exact (fun _ _ H => H)].
    intros s [Hb Ha].    unfold awake in *. split; [split; [done|by apply Forall_inv_tail in Ha]|].
    constructor; [by apply Forall_inv in Ha|constructor]. }
  intros [] [l' [w log]] [[Hm Hl] Ha]. exists tt, (l', (os_close fd w, log ++ [Closed fd])).
  split; [done|]. split; [|by apply (awake_close _ _ (l', (w, log)))]. split; [|done].
  simpl in *. rewrite ledger_snoc, Hm. simpl.
  rewrite decide_True by multiset_solver. f_equal. multiset_solver.
Qed.

(** The server as [stop] leaves it. *)
Definition stopped (s : state) : Prop :=
  ledger s.2.2 = Some ∅ /\ (listen_fd_ s.1, owns_socket_ s.1, worker_ s.1) = ((-1)%Z, false, false) /\
  client_workers_ s.1 = [].

(** [stop] as far as the accept thread: only the clients' descriptors are left. *)
Lemma listen_closed l in_accept :
  let l1 := set_listen (-1) (owns_socket_ l) (worker_ l) l in
  runs (books l1 (held l))
    (if decide (0 <= listen_fd_ l)%Z then
       os_do (os_shutdown (listen_fd_ l)) ;; os_do (os_close (listen_fd_ l)) ;;
       if worker_ l && in_accept then last_accept (listen_fd_ l) else mret tt
     else mret tt)
    (fun _ => about (fun l' => (listen_fd_ l', owns_socket_ l', worker_ l')
                               = ((-1)%Z, owns_socket_ l, worker_ l)) ∅).
Proof using OL.
  intros l1. case_decide as Hfd.
  - apply (runs_weaken (unchanged l1 ({[+ listen_fd_ l +]} ⊎ ∅)) _ _
      (fun _ => about (fun l' => (listen_fd_ l', owns_socket_ l', worker_ l')
                                 = (listen_fd_ l1, owns_socket_ l1, worker_ l1)) ∅)); [| |exact (fun _ _ H => H)].
    2: { intros [l' s] [Hm Hl]. split; [|done]. unfold balanced. simpl in *. rewrite Hm, Hl. f_equal.
         unfold held. change (live_clients (client_workers_ l1)) with (live_clients (client_workers_ l)).
         change (running l1) with false. unfold running. rewrite bool_decide_eq_true_2 by done.
         multiset_solver. }
    eapply (runs_bind _ _ _ (fun _ s => unchanged l1 ({[+ listen_fd_ l +]} ⊎ ∅) s /\
      awake [listen_fd_ l] s)).
    { intros [l' [w log]] Hb. exists tt, (l', (os_shutdown (listen_fd_ l) w, log)).
      split; [done|]. split; [done|]. apply (awake_shutdown [] _ (l', (w, log))). constructor. }
    intros []. eapply (runs_bind _ _ _ (fun _ s => unchanged l1 ∅ s /\ awake [listen_fd_ l] s)).
    { intros s [Hb Ha]. destruct (runs_close (listen_fd_ l) (fun l' => l' = l1) ∅ s Hb)
        as ([] & s' & Hr & Hb'). exists tt, s'. split; [done|]. split; [done|].
      injection Hr as <-. by apply awake_close. }
    intros []. destruct (_ && _).
    + unfold last_accept. eapply runs_bind; [apply runs_wake|]. intros [].
      eapply runs_bind; [apply (runs_open (os_accept _)); logged|].
      intros [fd errno]. cbn [fst]. case_decide; [|apply add_client_balanced].
      eapply runs_weaken; [apply runs_ret|done|]. intros ? s [Hb Hl]. split; [done|]. by rewrite Hl.
    + eapply runs_weaken; [apply runs_ret|exact (fun _ H => H)|]. intros ? s [[Hb Hl] _].
      split; [done|]. by rewrite Hl.
  - eapply runs_weaken; [apply runs_ret| |]; [exact (fun s H => H)|].
    intros ? s [Hm Hl]. unfold about, balanced. rewrite Hl. split; [|done]. rewrite Hm. f_equal.
    unfold held. change (running l1) with false. unfold running.
    rewrite bool_decide_eq_false_2 by done. simpl. multiset_solver.
Qed.

Lemma stop_stopped in_accept : runs (balanced ∅) (stop in_accept) (fun _ => stopped).
Proof using OL.
  apply (runs_weaken (about (fun _ => True) ∅) _ _ (fun _ => stopped)); [|by intros s Hs|done].
  unfold stop. apply runs_read. intros l _.
  assert (forall A (f : Listener -> A) (k : A -> prog state unit) Q,
    runs (unchanged l ∅) (k (f l)) Q -> runs (unchanged l ∅) (member f ≫= k) Q) as Hmember.
  { intros A f k Q Hk. apply runs_read. by intros l' ->. }
  do 2 apply Hmember.
  eapply runs_bind.
  { apply (runs_assign _ _ (books (set_listen (-1) (owns_socket_ l) (worker_ l) l) (held l))).
    intros [l' s] [Hb Hl]. simpl in Hl. subst l'. split; [|done]. simpl. rewrite Hb. f_equal.
    multiset_solver. }
  intros []. eapply runs_bind; [apply listen_closed|]. intros [].
  apply runs_read. intros l2 Hl2. injection Hl2 as H1 H2 H3.
  apply (runs_weaken (books l2 (live_clients (client_workers_ l2) ⊎ ∅)) _ _ (fun _ => stopped)); [| |done].
  2: { intros s [Hb Hl]. split; [|exact Hl]. unfold balanced in Hb. rewrite Hb, Hl. f_equal.
       unfold held, running. rewrite H1. rewrite bool_decide_eq_false_2 by lia. multiset_solver. }
  eapply runs_bind.
  { eapply runs_weaken; [apply (shutdown_all l2 (live_clients (client_workers_ l2) ⊎ ∅) _ [])| |exact (fun _ _ H => H)].
    intros s Hs. split; [done|constructor]. }
  intros []. rewrite (right_id_L [] (++)). eapply runs_bind; [apply join_all|]. intros [].
  eapply runs_bind.
  { apply (runs_assign _ _ stopped). intros s [Hm Hl]. split; [done|]. simpl. by rewrite Hl, H1. }
  intros []. destruct (owns_socket_ l); [|apply runs_ret].
  intros [l' s] Hs. unfold member, gets, mbind, prog_bind, os. cbn.
  destruct s as [w log]. cbn. destruct (os_lstat _ w) as [[[|]|] w1]; cbn;
    [destruct (os_unlink _ w1); cbn|..]; by eexists _, _.
Qed.
End Logic.

(** ** The life of a server *)
Section Life.
Context {W : Type} {OS : ServerSys W} {OL : ServerSysLaws W}.
Abbreviation state := (Listener * (W * list fd_event))%type.

(** Calls of [start] and [stop] in any order, turns of the accept thread while there is
    one, clients that end, and the rest of the world. *)
Inductive listener_step : relation state :=
  | StartStep s e s' : start s = (Ok e, s') -> listener_step s s'
  | AcceptStep stop1 stop2 s go s' :
      worker_ s.1 = true -> accept_turn stop1 stop2 s = (Ok go, s') -> listener_step s s'
  | EndStep i s s' : end_client i s = (Ok tt, s') -> listener_step s s'
  | StopStep in_accept s s' : stop in_accept s = (Ok tt, s') -> listener_step s s'
  | WorldStep l w w' log : listener_step (l, (w, log)) (l, (w', log)).

Lemma start_run (s : state) :
  balanced ∅ s -> exists e s', start s = (Ok e, s') /\ started s.1 e s'.
Proof using Type. intros Hb. by apply start_started. Qed.

Lemma stopped_balanced (s : state) : stopped s -> balanced ∅ s.
Proof using Type.
  intros (Hm & Hl & Hc). unfold balanced. rewrite Hm. f_equal.
  injection Hl as Hl _ _. unfold held, running. by rewrite Hl, Hc.
Qed.

Lemma step_balanced s s' : listener_step s s' -> balanced ∅ s -> balanced ∅ s'.
Proof using OL.
  intros Hstep Hb. destruct Hstep as [s e s' Hr|stop1 stop2 s go s' _ Hr|i s s' Hr|in_accept s s' Hr|].
  - destruct (start_run s Hb) as (e' & s1 & Hr' & [Hb' _]). congruence.
  - destruct (accept_turn_balanced stop1 stop2 s Hb) as (go' & s1 & Hr' & Hb'). congruence.
  - destruct (end_client_balanced i s Hb) as ([] & s1 & Hr' & Hb'). congruence.
  - destruct (stop_stopped in_accept s Hb) as ([] & s1 & Hr' & Hs).
    assert (s1 = s') as -> by congruence. by apply stopped_balanced.
  - done.
Qed.

Lemma steps_balanced s s' : rtc listener_step s s' -> balanced ∅ s -> balanced ∅ s'.
Proof using OL.
  induction 1 as [|s0 s1 s2 Hstep _ IH]; [done|]. intros Hb. apply IH. by eapply step_balanced.
Qed.

(** C29: whatever the system calls return, and in whatever order the server is started, accepts
    clients, loses them and is stopped: no descriptor is closed twice or closed without
    having been opened, and those that are open are exactly the listening one and those of
    the clients being served.  A [start] that fails leaves the server as it was with
    nothing open besides.  A [stop] shuts down every socket a thread of the server may wait
    on, so that the accept thread, even in the middle of accepting, and the client threads
    end and can be joined: it returns, and then nothing is open and no thread is left. *)
Theorem descriptors_are_accounted_for path (w : W) (s : state) :
  rtc listener_step (UdsListener path, (w, [])) s ->
  ledger s.2.2 = Some (held s.1) /\
  (exists e s', start s = (Ok e, s') /\ ledger s'.2.2 = Some (held s'.1) /\
     (error_ok e = false -> s'.1 = s.1) /\
     (error_ok e = true -> running s.1 = false /\ running s'.1 = true)) /\
  (forall in_accept, exists s', stop in_accept s = (Ok tt, s') /\ ledger s'.2.2 = Some ∅ /\
     running s'.1 = false /\ worker_ s'.1 = false /\ client_workers_ s'.1 = []).
Proof using OL.
  intros Hsteps.
  assert (balanced ∅ s) as Hb by (by eapply steps_balanced).
  assert (forall s : state, balanced ∅ s -> ledger s.2.2 = Some (held s.1)) as Hledger.
  { intros s' Hs'. unfold balanced in Hs'. rewrite Hs'. f_equal. multiset_solver. }
  split; [by apply Hledger|]. split.
  - destruct (start_run s Hb) as (e & s' & Hr & [Hb' Hs']). exists e, s'.
    split; [done|]. split; [by apply Hledger|]. destruct (error_ok e) eqn:He; [|done].
    destruct Hs' as (fd & Hfd & Hl). split; [done|]. intros _. split.
    + destruct (running s.1) eqn:Hrun; [|done]. exfalso.
      unfold start, mbind, prog_bind, member, gets in Hr. simpl in Hr. rewrite Hrun in Hr.
      by injection Hr as <- _.
    + rewrite Hl. by apply bool_decide_eq_true.
  - intros in_accept. destruct (stop_stopped in_accept s Hb) as ([] & s' & Hr & (Hm & Hl & Hc)).
    exists s'. injection Hl as Hl _ Hw. split; [done|]. split; [done|]. split; [|done].
    unfold running. by rewrite Hl.
Qed.
End Life.

(** ** What [start] leaves alone

    A path that is not a socket, or a socket on which a server answers, is not removed: the
    calls made are those shown, and the error is returned. *)
Lemma other_file_is_kept {W} {OS : ServerSys W} path l (w w1 : W) :
  os_lstat path w = (inl false, w1) ->
  removeStaleSocket path (l, w)
  = (Ok (mkError ErrorCode.kInvalidArgument "UDS path exists and is not a socket"), (l, w1)).
Proof. intros H. unfold removeStaleSocket, os, mbind, prog_bind. cbn. by rewrite H. Qed.

Lemma live_socket_is_kept {W} {OS : ServerSys W} path l fd e1 e2 (w w1 w2 w3 : W) :
  os_lstat path w = (inl true, w1) -> os_socket w1 = ((fd, e1), w2) -> (0 <= fd)%Z ->
  os_connect fd path w2 = ((0%Z, e2), w3) ->
  removeStaleSocket path (l, w)
  = (Ok (mkError ErrorCode.kInvalidArgument "UDS socket is already active"), (l, os_close fd w3)).
Proof.
  intros H1 H2 Hfd H3. unfold removeStaleSocket, os, os_do, mbind, prog_bind. cbn. rewrite H1. cbn.
  rewrite H2. cbn. rewrite decide_False by lia. cbn. rewrite H3. done.
Qed.

(** ** A concrete world: descriptors are counted up, those that were shut down are kept,
    and every call succeeds *)
#[local] Instance CountingSys : ServerSys (Z * list Z) := {
  os_strerror _ := "error";
  os_create_directories _ w := (false, w);
  os_lstat _ w := (inr ENOENT, w);
  os_socket w := ((w.1, 0%Z), ((w.1 + 1)%Z, w.2));
  os_connect _ _ w := ((0%Z, 0%Z), w);
  os_bind _ _ w := ((0%Z, 0%Z), w);
  os_chmod _ _ w := ((0%Z, 0%Z), w);
  os_listen _ _ w := ((0%Z, 0%Z), w);
  os_accept _ w := ((w.1, 0%Z), ((w.1 + 1)%Z, w.2));
  os_unlink _ w := ((0%Z, 0%Z), w);
  os_remove _ w := w;
  os_shutdown fd w := (w.1, fd :: w.2);
  os_close _ w := w;
  os_wakes fd w := bool_decide (fd ∈ w.2);
}.
#[local] Instance CountingLaws : ServerSysLaws (Z * list Z).
Proof.
  split; simpl.
  - intros fd w. apply bool_decide_eq_true. by left.
  - intros fd fd' w Hw%bool_decide_eq_true. apply bool_decide_eq_true. by right.
  - done.
Qed.

Definition server_up := start (UdsListener "/run/ocs/hwsim.sock", ((3%Z, []), [])).
Definition one_client := accept_turn false false server_up.2.
Definition two_clients := accept_turn false false one_client.2.
Definition one_left := end_client 0 two_clients.2.

Lemma life_example :
  held one_left.2.1 = {[+ 3; 5 +]}%Z /\ (stop true one_left.2).2.2.2
    = [Opened 3; Opened 4; Opened 5; Closed 4; Closed 3; Opened 6; Closed 5; Closed 6]%Z.
Proof. by vm_compute. Qed.

(** Without a [shutdown] the join of the second client would not return. *)
Lemma join_needs_shutdown :
  (join_client (5%Z, false) one_left.2).1 = Throw blocked /\
  (stop true one_left.2).1 = Ok tt.
Proof. by vm_compute. Qed.

Lemma descriptors_are_accounted_for_witness :
  ledger one_left.2.2.2 = Some (held one_left.2.1) /\
  exists s', stop true one_left.2 = (Ok tt, s') /\ ledger s'.2.2 = Some ∅.
Proof.
  destruct (descriptors_are_accounted_for "/run/ocs/hwsim.sock" (3%Z, []) one_left.2) as (Hl & _ & Hstop).
  { eapply rtc_l; [by apply (StartStep _ success server_up.2)|].
    eapply rtc_l; [by apply (AcceptStep false false _ true one_client.2)|].
    eapply rtc_l; [by apply (AcceptStep false false _ true two_clients.2)|].
    apply rtc_once. by apply (EndStep 0). }
  split; [exact Hl|]. destruct (Hstop true) as (s' & Hr & Hm & _). by exists s'.
Defined.
