(* ===== verification/UdsBackend.v ===== *)
(** * uds_device_backend.{hpp,cpp}: the client side of the UDS path.

    The socket system calls are not code of the repository: [Sockets] is their
    interface, with the outcomes the code distinguishes, over an abstract state [W] of
    the rest of the world.  A method is a [prog] on the backend's members and [W]; the
    mutex is held for a whole method. *)
From S2P Require Import Prelude.
From S2P Require Import Errors.
From S2P Require Import Types.
From S2P Require Import DeviceApi.
From S2P Require Import UdsCodec.
From S2P Require Import Json.
From S2P Require Import UdsJson.
From stdpp Require Import options.

(** What [recv] with [MSG_TRUNC] returned: the packet, whose length may exceed the
    buffer; or a count of 0 or -1, with what [errno] then says. *)
Inductive recv_outcome :=
  | Received (packet : list Z)
  | Disconnected (errno_is_again : bool)
  | RecvFailed (errno_is_again : bool) (strerror : string).

Inductive timeout_option := SO_RCVTIMEO | SO_SNDTIMEO.

Class Sockets (W : Type) := {
  sys_socket : W -> (Z + string) * W;                (* a descriptor, or strerror(errno) *)
  sys_setsockopt : Z -> timeout_option -> Z * Z -> W -> option string * W;
  sys_connect : Z -> string -> W -> option string * W;
  sys_send : Z -> list Z -> W -> Z * string * W;     (* bytes sent and strerror(errno) *)
  sys_recv : Z -> Z -> W -> recv_outcome * W;
  sys_close : Z -> W -> W;
}.

Record UdsDeviceBackend := mkBackend {
  socket_path_ : string;
  timeout_ : Z;
  socket_fd_ : Z;
  next_request_id_ : Z;
  device_generation_ : Z;
}.

Definition set_fd fd (b : UdsDeviceBackend) : UdsDeviceBackend :=
  mkBackend (socket_path_ b) (timeout_ b) fd (next_request_id_ b) (device_generation_ b).
Definition set_generation g (b : UdsDeviceBackend) : UdsDeviceBackend :=
  mkBackend (socket_path_ b) (timeout_ b) (socket_fd_ b) (next_request_id_ b) g.

(** sizeof(sockaddr_un::sun_path) on Linux *)
Definition kSunPathSize : Z := 108.

Definition UdsDeviceBackend_make (socket_path : string) (timeout : Z) : result UdsDeviceBackend :=
  if bool_decide (socket_path = "")
     || bool_decide (kSunPathSize <= Z.of_nat (String.length socket_path))%Z then
    Throw (InvalidArgument "UDS socket path is invalid")
  else if bool_decide (timeout <= 0)%Z then
    Throw (InvalidArgument "UDS timeout must be positive")
  else Ok (mkBackend socket_path timeout (-1) 1 0).

Section Backend.
Context {J : JsonLib} {W : Type} {SK : Sockets W}.

Abbreviation M := (prog (UdsDeviceBackend * W)).

Definition sys {A} (f : W -> A * W) : M A := fun s =>
  let '(a, w) := f s.2 in (Ok a, (s.1, w)).
Definition member {A} (f : UdsDeviceBackend -> A) : M A := gets (fun s => f s.1).
Definition assign (f : UdsDeviceBackend -> UdsDeviceBackend) : M unit :=
  modify (fun s => (f s.1, s.2)).

Definition failed (e : Error) : DecodeResult := mkDecoded e None.

(** [next_request_id_++] *)
Definition fresh_request_id : M Z :=
  id ← member next_request_id_;
  assign (fun b => mkBackend (socket_path_ b) (timeout_ b) (socket_fd_ b) (u64 (id + 1))
                     (device_generation_ b));;
  mret id.

Definition closeLocked : M unit :=
  fd ← member socket_fd_;
  if decide (0 <= fd)%Z then
    sys (fun w => (tt, sys_close fd w));; assign (set_fd (-1))
  else mret tt.

Definition sendAndReceiveLocked (request : Frame) (response_type : MessageType.t)
    : M DecodeResult :=
  let encoded := encode request in
  if negb (encode_ok encoded) then mret (failed (encode_error encoded))
  else
    fd ← member socket_fd_;
    '(sent, text) ← sys (fun w => let '(n, t, w') := sys_send fd (bytes encoded) w in ((n, t), w'));
    if negb (bool_decide (sent = Z.of_nat (length (bytes encoded)))) then
      mret (failed (mkError ErrorCode.kDeviceNotReady text))
    else
      received ← sys (sys_recv fd (kHeaderSize + kMaxPayloadSize));
      match received with
      | Disconnected again =>
          mret (failed (mkError (if again : bool then ErrorCode.kApplyTimeout
                                 else ErrorCode.kDeviceNotReady) "UDS peer disconnected"))
      | RecvFailed again text =>
          mret (failed (mkError (if again : bool then ErrorCode.kApplyTimeout
                                 else ErrorCode.kDeviceNotReady) text))
      | Received packet =>
          if bool_decide (kHeaderSize + kMaxPayloadSize < Z.of_nat (length packet))%Z then
            mret (failed (mkError ErrorCode.kPayloadTooLarge "UDS response packet exceeds limit"))
          else
            decoded ← lift (decode packet);
            match frame decoded with
            | Some f =>
                if negb (decode_ok decoded) then mret decoded
                else if negb (bool_decide (request_id f = request_id request)) then
                  mret (failed (mkError ErrorCode.kProtocolMalformed
                                  "UDS response request ID mismatch"))
                else if bool_decide (message_type f = MessageType.kErrorReply) then
                  e ← lift (decodeError (payload f));
                  mret (failed e)
                else if negb (bool_decide (message_type f = response_type)) then
                  mret (failed (mkError ErrorCode.kProtocolMalformed "UDS response type mismatch"))
                else mret decoded
            | None => mret decoded
            end
      end.

Definition ensureConnectedLocked : M Error :=
  fd ← member socket_fd_;
  if decide (0 <= fd)%Z then mret success
  else
    opened ← sys sys_socket;
    match opened with
    | inr text => mret (mkError ErrorCode.kDeviceNotReady text)
    | inl client_fd =>
        timeout ← member timeout_;
        let tv := (Z.quot timeout 1000, Z.rem (timeout * 1000) 1000000) in
        rcv ← sys (sys_setsockopt client_fd SO_RCVTIMEO tv);
        snd ← match rcv with
              | Some text => mret (Some text)
              | None => sys (sys_setsockopt client_fd SO_SNDTIMEO tv)
              end;
        match snd with
        | Some text =>
            sys (fun w => (tt, sys_close client_fd w));;
            mret (mkError ErrorCode.kInternalError text)
        | None =>
            path ← member socket_path_;
            refused ← sys (sys_connect client_fd path);
            match refused with
            | Some text =>
                sys (fun w => (tt, sys_close client_fd w));;
                mret (mkError ErrorCode.kDeviceNotReady text)
            | None =>
                assign (set_fd client_fd);;
                id ← fresh_request_id;
                let quote := String (ascii_of_N 34) EmptyString in
                let hello := mkFrame kProtocolVersion MessageType.kHello 0 id 0
                  ("{" +:+ quote +:+ "client" +:+ quote +:+ ":" +:+ quote +:+ "ocs-syncd"
                   +:+ quote +:+ "}") in
                response ← sendAndReceiveLocked hello MessageType.kHelloReply;
                match frame response with
                | Some f =>
                    if decode_ok response then
                      assign (set_generation (device_generation f));; mret success
                    else closeLocked;; mret (decode_error response)
                | None => closeLocked;; mret (decode_error response)
                end
            end
        end
    end.

Definition retry_safe (t : MessageType.t) : bool :=
  bool_decide (t = MessageType.kGetDeviceInfo) || bool_decide (t = MessageType.kGetConnections)
  || bool_decide (t = MessageType.kGetPortState).

(** The frame of a request: a fresh ID and the last generation seen. *)
Definition send_request (request_type response_type : MessageType.t) (payload : string)
    : M DecodeResult :=
  id ← fresh_request_id;
  gen ← member device_generation_;
  sendAndReceiveLocked (mkFrame kProtocolVersion request_type 0 id gen payload) response_type.

Definition exchangeLocked (request_type response_type : MessageType.t) (payload : string)
    : M DecodeResult :=
  connection_error ← ensureConnectedLocked;
  if negb (error_ok connection_error) then mret (failed connection_error)
  else
    first ← send_request request_type response_type payload;
    response ←
      (if decode_ok first then mret first
       else
         closeLocked;;
         if retry_safe request_type then
           reconnect ← ensureConnectedLocked;
           if error_ok reconnect then
             second ← send_request request_type response_type payload;
             (if decode_ok second then mret tt else closeLocked);;
             mret second
           else mret first
         else mret first);
    match frame response with
    | Some f =>
        if decode_ok response then
          assign (set_generation (device_generation f));; mret response
        else mret response
    | None => mret response
    end.

(** The payload of a good response; the [frame->payload] of an absent frame is not
    reached. *)
Definition response_payload (r : DecodeResult) : string :=
  match frame r with Some f => payload f | None => "" end.

(** ** The methods *)

(** A read: an error response is thrown as [std::runtime_error]. *)
Definition read_call {A} (request_type response_type : MessageType.t) (encoded : result string)
    (decode : string -> result A) : M A :=
  p ← lift encoded;
  response ← exchangeLocked request_type response_type p;
  if negb (decode_ok response) then throw (RuntimeError (message (decode_error response)))
  else lift (decode (response_payload response)).

(** A mutation: an error response is returned in the result. *)
Definition write_call {A} (request_type response_type : MessageType.t) (encoded : result string)
    (on_error : Error -> M A) (decode : string -> result A) : M A :=
  p ← lift encoded;
  response ← exchangeLocked request_type response_type p;
  if negb (decode_ok response) then on_error (decode_error response)
  else lift (decode (response_payload response)).

Definition uds_getDeviceInfo : M DeviceInfo :=
  read_call MessageType.kGetDeviceInfo MessageType.kDeviceInfoReply (Ok "{}") decodeDeviceInfo.

Definition uds_getHealth : M DeviceHealth :=
  try_catch
    (uds_getDeviceInfo;; mret (mkHealth DeviceOperStatus.kReady success))
    (fun e => mret (mkHealth DeviceOperStatus.kFailed (mkError ErrorCode.kDeviceNotReady (what e)))).

Definition uds_applyConnections (commands : list ConnectionCommand) (options : ApplyOptions)
    : M ApplyResult :=
  write_call MessageType.kApplyConnections MessageType.kApplyResult
    (encodeApplyRequest commands options) (fun e => mret (mkApplyResult e [])) decodeApplyResult.

Definition uds_getConnections : M (list AppliedConnection) :=
  read_call MessageType.kGetConnections MessageType.kConnectionsReply (Ok "{}") decodeConnections.

Definition uds_getInputPortState (id : PortId) : M PortState :=
  read_call MessageType.kGetPortState MessageType.kPortStateReply
    (encodePortRequest PortDirection.kInput id) decodePortState.
Definition uds_getOutputPortState (id : PortId) : M PortState :=
  read_call MessageType.kGetPortState MessageType.kPortStateReply
    (encodePortRequest PortDirection.kOutput id) decodePortState.

Definition uds_reset (mode : ResetMode.t) : M ResetResult :=
  p ← lift (encodeResetRequest mode);
  response ← exchangeLocked MessageType.kReset MessageType.kResetResult p;
  if negb (decode_ok response) then
    gen ← member device_generation_; mret (mkResetResult (decode_error response) gen)
  else
    r ← lift (decodeResetResult (response_payload response));
    assign (set_generation (reset_generation r));; mret r.

Definition uds_injectFault (fault : FaultSpec) : M FaultResult :=
  write_call MessageType.kInjectFault MessageType.kFaultResult
    (encodeFaultRequest fault false) (fun e => mret (mkFaultResult e)) decodeFaultResult.
Definition uds_clearFault (selector : FaultSelector) : M FaultResult :=
  write_call MessageType.kInjectFault MessageType.kFaultResult
    (encodeFaultRequest (mkFaultSpec (selector_type selector) (selector_port selector)) true)
    (fun e => mret (mkFaultResult e)) decodeFaultResult.

Definition deviceGeneration : M Z := member device_generation_.

(** The destructor *)
Definition UdsDeviceBackend_destroy : M unit := closeLocked.

#[global] Instance UdsDeviceBackendApi : OcsDeviceApi (UdsDeviceBackend * W) := {
  api_getDeviceInfo := returns uds_getDeviceInfo;
  api_getHealth := returns uds_getHealth;
  api_applyConnections commands options := returns (uds_applyConnections commands options);
  api_getConnections := returns uds_getConnections;
  api_getInputPortState id := returns (uds_getInputPortState id);
  api_getOutputPortState id := returns (uds_getOutputPortState id);
  api_reset mode := returns (uds_reset mode);
  api_injectFault fault := returns (uds_injectFault fault);
  api_clearFault selector := returns (uds_clearFault selector);
}.

End Backend.
