(* ===== verification/UdsBackendProps.v ===== *)
(** * The UDS backend: at-most-once mutations, matched replies, and refinement of the
    in-process backend over a link to the server. *)
From S2P Require Import Prelude.
From S2P Require Import Errors.
From S2P Require Import Types.
From S2P Require Import SimDevice.
From S2P Require Import SimDeviceInv.
From S2P Require Import DeviceApi.
From S2P Require Import UdsCodec.
From S2P Require Import UdsCodecProps.
From S2P Require Import Json.
From S2P Require Import UdsJson.
From S2P Require Import UdsJsonProps.
From S2P Require Import Rpc.
From S2P Require Import UdsServer.
From S2P Require Import UdsServerProps.
From S2P Require Import UdsBackend.
From stdpp Require Import options.
#[local] Set Default Proof Using "Type*".

(** ** Counting what is sent *)

(** A world that records every packet handed to [send]. *)
#[export] Instance LoggedSockets {W} (SK : Sockets W) : Sockets (W * list (list Z)) := {
  sys_socket s := let '(r, w) := sys_socket s.1 in (r, (w, s.2));
  sys_setsockopt fd o tv s := let '(r, w) := sys_setsockopt fd o tv s.1 in (r, (w, s.2));
  sys_connect fd path s := let '(r, w) := sys_connect fd path s.1 in (r, (w, s.2));
  sys_send fd p s := let '(r, w) := sys_send fd p s.1 in (r, (w, s.2 ++ [p]));
  sys_recv fd n s := let '(r, w) := sys_recv fd n s.1 in (r, (w, s.2));
  sys_close fd s := (sys_close fd s.1, s.2);
}.

(** The message type in the header of a packet. *)
Definition packet_type (p : list Z) : option Z :=
  hi ← p !! 6%nat; lo ← p !! 7%nat; Some (hi * 256 + lo)%Z.

Definition count_type (t : MessageType.t) (log : list (list Z)) : nat :=
  length (filter (fun p => packet_type p = Some (MessageType.value t)) log).

Lemma encode_packet_type f :
  encode_ok (encode f) = true ->
  packet_type (bytes (encode f)) = Some (MessageType.value (message_type f)).
Proof.
  unfold encode_ok, encode. destruct (negb _); [done|]. destruct (_ || _); [done|].
  rewrite !appendBigEndian_be. cbn [bytes]. intros _.
  unfold packet_type. cbn [be app lookup list_lookup].
  by destruct (message_type f).
Qed.

Section Sends.
Context {J : JsonLib} {W : Type} {SK : Sockets W}.

(** Running [m] sends at most [n] packets of type [t]. *)
Definition sends {A} (t : MessageType.t) (n : nat)
    (m : prog (UdsDeviceBackend * (W * list (list Z))) A) : Prop :=
  forall b w log r b' w' log', m (b, (w, log)) = (r, (b', (w', log'))) ->
    (count_type t log' <= count_type t log + n)%nat.

Lemma sends_bind {A B} t n k (m : prog _ A) (f : A -> prog _ B) :
  sends t n m -> (forall a, sends t k (f a)) -> sends t (n + k) (m ≫= f).
Proof.
  intros Hm Hf b w log r b' w' log'. unfold mbind, prog_bind.
  destruct (m (b, (w, log))) as [[a|e] (b1 & w1 & log1)] eqn:H1.
  - intros H2. specialize (Hm _ _ _ _ _ _ _ H1). specialize (Hf a _ _ _ _ _ _ _ H2). lia.
  - intros [= _ <- <- <-]. specialize (Hm _ _ _ _ _ _ _ H1). lia.
Qed.

Lemma sends_weaken {A} t n k (m : prog _ A) : (n <= k)%nat -> sends t n m -> sends t k m.
Proof. intros Hk Hm b w log r b' w' log' H. specialize (Hm _ _ _ _ _ _ _ H). lia. Qed.

Lemma sends_bind0 {A B} t k (m : prog _ A) (f : A -> prog _ B) :
  sends t 0 m -> (forall a, sends t k (f a)) -> sends t k (m ≫= f).
Proof. apply (sends_bind t 0 k). Qed.

Lemma sends_ret {A} t (a : A) : sends t 0 (mret a).
Proof. intros b w log r b' w' log' [= _ <- <- <-]. lia. Qed.
Lemma sends_lift {A} t (a : result A) : sends t 0 (lift a).
Proof. intros b w log r b' w' log' [= _ <- <- <-]. lia. Qed.
Lemma sends_throw {A} t e : sends t 0 (@throw _ A e).
Proof. intros b w log r b' w' log' [= _ <- <- <-]. lia. Qed.
Lemma sends_member {A} t (f : _ -> A) : sends t 0 (member f).
Proof. intros b w log r b' w' log' [= _ <- <- <-]. lia. Qed.
Lemma sends_assign t f : sends t 0 (assign f).
Proof. intros b w log r b' w' log' [= _ <- <- <-]. lia. Qed.

(** A system call that leaves the log alone. *)
Lemma sends_sys {A} t (f : W * list (list Z) -> A * (W * list (list Z))) :
  (forall s, (f s).2.2 = s.2) -> sends t 0 (sys f).
Proof.
  intros Hf b w log r b' w' log'. unfold sys. simpl.
  specialize (Hf (w, log)). destruct (f (w, log)) as [a [w1 log1]]. intros [= _ _ _ <-].
  simpl in Hf. subst. lia.
Qed.

Lemma sends_any {A} t n (m : prog _ A) : sends t 0 m -> sends t n m.
Proof. apply sends_weaken. lia. Qed.

Create HintDb sends.
#[local] Hint Resolve sends_ret sends_lift sends_throw sends_member sends_assign : sends.

(** Decompose a program whose calls do not send. *)
Ltac no_sends :=
  repeat first
    [ progress (eauto with sends)
    | apply sends_bind0; [|intros ?]
    | apply sends_sys; intros [? ?]; simpl; by repeat case_match
    | case_match ].

Lemma sends_closeLocked t : sends t 0 closeLocked.
Proof. unfold closeLocked. no_sends. Qed.
#[local] Hint Resolve sends_closeLocked : sends.

Lemma sends_fresh t : sends t 0 fresh_request_id.
Proof. unfold fresh_request_id. no_sends. Qed.
#[local] Hint Resolve sends_fresh : sends.

Lemma sends_send t fd f :
  encode_ok (encode f) = true ->
  sends t (if decide (message_type f = t) then 1 else 0)
    (sys (fun w => let '(n, x, w') := sys_send fd (bytes (encode f)) w in ((n, x), w'))).
Proof.
  intros Hok b w log r b' w' log'. unfold sys. simpl.
  destruct (sys_send fd (bytes (encode f)) w) as [[n x] w1]. intros [= _ _ _ <-].
  unfold count_type. rewrite filter_app, length_app, filter_cons, encode_packet_type by done.
  case_decide as H1; case_decide as H2; simpl; try lia.
  destruct H2. apply (inj Some) in H1. revert H1. clear.
  by destruct (message_type f), t.
Qed.

Lemma sends_sendAndReceive t f rt :
  sends t (if decide (message_type f = t) then 1 else 0) (sendAndReceiveLocked f rt).
Proof.
  unfold sendAndReceiveLocked. destruct (encode_ok (encode f)) eqn:Hok; simpl;
    [|apply sends_any; no_sends].
  apply sends_bind0; [no_sends|]. intros fd.
  rewrite <-(Nat.add_0_r (if decide _ then _ else _)).
  apply sends_bind; [by apply sends_send|]. intros [n x]. no_sends.
Qed.

Lemma sends_ensureConnected t : t <> MessageType.kHello -> sends t 0 ensureConnectedLocked.
Proof.
  intros Ht. unfold ensureConnectedLocked.
  assert (forall id p rt,
    sends t 0 (sendAndReceiveLocked (mkFrame kProtocolVersion MessageType.kHello 0 id 0 p) rt)) as Hs.
  { intros. pose proof (sends_sendAndReceive t
      (mkFrame kProtocolVersion MessageType.kHello 0 id 0 p) rt) as H.
    simpl in H. by rewrite decide_False in H. }
  no_sends.
Qed.

Lemma sends_request t rt p : sends t 1 (send_request t rt p).
Proof.
  unfold send_request. do 2 (apply sends_bind0; [no_sends|intros ?]).
  pose proof (sends_sendAndReceive t (mkFrame kProtocolVersion t 0 a a0 p) rt) as H.
  simpl in H. by rewrite decide_True in H.
Qed.

Lemma sends_exchange t rt p :
  t <> MessageType.kHello -> sends t (if retry_safe t then 2 else 1) (exchangeLocked t rt p).
Proof.
  intros Ht. unfold exchangeLocked. pose proof (sends_ensureConnected t Ht) as He.
  apply sends_bind0; [done|]. intros e. destruct (negb _); [apply sends_any; no_sends|].
  replace (if retry_safe t then 2 else 1) with (1 + ((if retry_safe t then 1 else 0) + 0))%nat
    by (by destruct (retry_safe t)).
  apply sends_bind; [apply sends_request|]. intros first. apply sends_bind.
  - destruct (decode_ok first); [apply sends_any; no_sends|].
    apply sends_bind0; [no_sends|]. intros ?. destruct (retry_safe t); [|no_sends].
    apply sends_bind0; [done|]. intros e2. destruct (error_ok e2); [|apply sends_any; no_sends].
    rewrite <-(Nat.add_0_r 1). apply sends_bind; [apply sends_request|]. intros ?. no_sends.
  - intros r. no_sends.
Qed.

Lemma sends_read {A} t rt e (dec : string -> result A) :
  t <> MessageType.kHello -> sends t (if retry_safe t then 2 else 1) (read_call t rt e dec).
Proof.
  intros Ht. unfold read_call. apply sends_bind0; [no_sends|]. intros p.
  rewrite <-(Nat.add_0_r (if retry_safe t then 2 else 1)%nat).
  apply sends_bind; [by apply sends_exchange|]. intros r. no_sends.
Qed.

Lemma sends_write {A} t rt e on_error (dec : string -> result A) :
  t <> MessageType.kHello -> retry_safe t = false -> (forall x, sends t 0 (on_error x)) ->
  sends t 1 (write_call t rt e on_error dec).
Proof.
  intros Ht Hs Hon. unfold write_call. apply sends_bind0; [no_sends|]. intros p.
  rewrite <-(Nat.add_0_r 1). apply sends_bind; [|intros r; destruct (negb _); no_sends].
  pose proof (sends_exchange t rt p Ht) as H. by rewrite Hs in H.
Qed.

Lemma sends_device_info : sends MessageType.kGetDeviceInfo 2 uds_getDeviceInfo.
Proof. by apply (sends_read MessageType.kGetDeviceInfo). Qed.
Lemma sends_connections : sends MessageType.kGetConnections 2 uds_getConnections.
Proof. by apply (sends_read MessageType.kGetConnections). Qed.
Lemma sends_input_port id : sends MessageType.kGetPortState 2 (uds_getInputPortState id).
Proof. by apply (sends_read MessageType.kGetPortState). Qed.
Lemma sends_output_port id : sends MessageType.kGetPortState 2 (uds_getOutputPortState id).
Proof. by apply (sends_read MessageType.kGetPortState). Qed.
Lemma sends_apply cs o : sends MessageType.kApplyConnections 1 (uds_applyConnections cs o).
Proof. apply sends_write; [done..|]. intros. apply sends_ret. Qed.
Lemma sends_inject f : sends MessageType.kInjectFault 1 (uds_injectFault f).
Proof. apply sends_write; [done..|]. intros. apply sends_ret. Qed.
Lemma sends_clear f : sends MessageType.kInjectFault 1 (uds_clearFault f).
Proof. apply sends_write; [done..|]. intros. apply sends_ret. Qed.
Lemma sends_reset mode : sends MessageType.kReset 1 (uds_reset mode).
Proof.
  unfold uds_reset. apply sends_bind0; [no_sends|]. intros p. rewrite <-(Nat.add_0_r 1).
  apply sends_bind; [by apply (sends_exchange MessageType.kReset)|]. intros x. no_sends.
Qed.

Lemma map_call_run {S A B} (f : A -> B) (m : prog S A) s r s' :
  map_call f (returns m) s = Some (r, s') -> exists x, m s = (x, s').
Proof. unfold map_call, returns. destruct (m s) as [x y]. intros [= _ <-]. by exists x. Qed.

(** C24: whatever the sockets do, one call of the backend hands at most one packet of
    its request type to [send] when it is a mutation (apply, reset, fault), and at most
    two (one retry after a reconnect) when it is a read: a command whose outcome is
    unknown is never sent again. *)
Theorem mutations_are_never_resent c b w log r b' w' log' :
  run_call c (b, (w, log)) = Some (r, (b', (w', log'))) ->
  (count_type (request_type c) log'
   <= count_type (request_type c) log + (if is_mutation c then 1 else 2))%nat.
Proof.
  destruct c as [|cs o| |dir id|mode|f clear].
  - intros [x Hx]%map_call_run. exact (sends_device_info _ _ _ _ _ _ _ Hx).
  - intros [x Hx]%map_call_run. exact (sends_apply cs o _ _ _ _ _ _ _ Hx).
  - intros [x Hx]%map_call_run. exact (sends_connections _ _ _ _ _ _ _ Hx).
  - destruct dir; intros [x Hx]%map_call_run;
      [exact (sends_input_port id _ _ _ _ _ _ _ Hx)|exact (sends_output_port id _ _ _ _ _ _ _ Hx)].
  - intros [x Hx]%map_call_run. exact (sends_reset mode _ _ _ _ _ _ _ Hx).
  - destruct clear; intros [x Hx]%map_call_run;
      [exact (sends_clear _ _ _ _ _ _ _ _ Hx)|exact (sends_inject f _ _ _ _ _ _ _ Hx)].
Qed.

End Sends.

(** ** What an exchange can return *)

Section Exchange.
Context {J : JsonLib} {W : Type} {SK : Sockets W}.
Implicit Types (b : UdsDeviceBackend) (w : W).

Ltac bind_inv H a s1 H1 := apply bind_Ok_inv in H as (a & s1 & H1 & H).

Lemma failed_not_ok e : decode_ok (failed e) = false.
Proof. apply andb_false_r. Qed.

Ltac refused H := injection H as <- <-; split; [done|by rewrite failed_not_ok].

Lemma sendAndReceive_Ok f rt b w r s' :
  sendAndReceiveLocked f rt (b, w) = (Ok r, s') ->
  s'.1 = b /\ (decode_ok r = true -> exists g, frame r = Some g
                /\ request_id g = request_id f /\ message_type g = rt).
Proof.
  unfold sendAndReceiveLocked. destruct (negb (encode_ok (encode f))); [intros H; refused H|].
  intros H. bind_inv H fd s1 H1. injection H1 as <- <-.
  bind_inv H st s2 H2. unfold sys in H2. simpl in H2.
  destruct (sys_send _ _ w) as [[n x] w2]. injection H2 as <- <-.
  destruct (negb _); [refused H|].
  bind_inv H rc s3 H3. unfold sys in H3. simpl in H3.
  destruct (sys_recv _ _ w2) as [rc' w3]. injection H3 as <- <-.
  destruct rc' as [packet|again|again text]; [|refused H|refused H].
  destruct (bool_decide _); [refused H|].
  bind_inv H dec s4 H4. unfold lift in H4. injection H4 as Hdec <-.
  destruct (frame dec) as [g|] eqn:Hg; [|injection H as <- <-; split; [done|];
    unfold decode_ok; rewrite Hg; by rewrite andb_comm].
  destruct (decode_ok dec) eqn:Hok; simpl in H; [|injection H as <- <-; by rewrite Hok].
  case_bool_decide as Hid; simpl in H; [|refused H].
  case_bool_decide; [bind_inv H e s5 H5; unfold lift in H5; injection H5 as _ <-; refused H|].
  case_bool_decide as Hty; simpl in H; [|refused H].
  injection H as <- <-. split; [done|]. intros _. by exists g.
Qed.

Lemma closeLocked_run b w u s' :
  closeLocked (b, w) = (Ok u, s') -> (socket_fd_ s'.1 < 0)%Z
    /\ next_request_id_ s'.1 = next_request_id_ b.
Proof.
  unfold closeLocked. intros H. bind_inv H fd s1 H1. injection H1 as <- <-.
  case_decide as Hfd; [|injection H as _ <-; simpl; split; [lia|done]].
  bind_inv H x s2 H2. injection H2 as <- <-. by injection H as _ <-.
Qed.

Lemma ensureConnected_error b w e s' :
  ensureConnectedLocked (b, w) = (Ok e, s') -> error_ok e = false -> (socket_fd_ s'.1 < 0)%Z.
Proof.
  unfold ensureConnectedLocked. intros H He. bind_inv H fd s1 H1. injection H1 as <- <-.
  case_decide as Hfd; [by injection H as <- <-|].
  bind_inv H op s2 H2. unfold sys in H2. simpl in H2. destruct (sys_socket w) as [o w2].
  injection H2 as <- <-. destruct o as [client|text]; [|injection H as <- <-; simpl; lia].
  bind_inv H tmo s3 H3. injection H3 as <- <-. cbv zeta in H.
  bind_inv H rcv s4 H4. unfold sys in H4. simpl in H4.
  destruct (sys_setsockopt _ SO_RCVTIMEO _ w2) as [rc w4]. injection H4 as <- <-.
  bind_inv H snd5 s5 H5.
  assert (s5.1 = b) as Hb5.
  { destruct rc; [by injection H5 as <- <-|]. unfold sys in H5. simpl in H5.
    destruct (sys_setsockopt _ SO_SNDTIMEO _ w4) as [rc' w5]. by injection H5 as <- <-. }
  destruct s5 as [b5 w5]. simpl in Hb5. subst b5. destruct snd5 as [text|].
  { bind_inv H u s6 H6. injection H6 as _ <-. injection H as <- <-. simpl. lia. }
  bind_inv H path s6 H6. injection H6 as <- <-.
  bind_inv H rf s7 H7. unfold sys in H7. simpl in H7.
  destruct (sys_connect client _ w5) as [rf' w7]. injection H7 as <- <-.
  destruct rf' as [text|].
  { bind_inv H u s8 H8. injection H8 as _ <-. injection H as <- <-. simpl. lia. }
  bind_inv H u s8 H8. injection H8 as _ <-.
  bind_inv H rid s9 H9. cbv zeta in H. bind_inv H resp s10 H10.
  destruct (frame resp) as [g|].
  - destruct (decode_ok resp).
    + bind_inv H u1 s11 H11. injection H as <- <-. done.
    + bind_inv H u1 s11 H11. injection H as <- <-. destruct s10. by apply closeLocked_run in H11 as [? _].
  - bind_inv H u1 s11 H11. injection H as <- <-. destruct s10. by apply closeLocked_run in H11 as [? _].
Qed.

Lemma fresh_run b w :
  fresh_request_id (b, w)
  = (Ok (next_request_id_ b),
     (mkBackend (socket_path_ b) (timeout_ b) (socket_fd_ b) (u64 (next_request_id_ b + 1))
        (device_generation_ b), w)).
Proof. done. Qed.

Lemma send_request_Ok t rt p b w r s' :
  send_request t rt p (b, w) = (Ok r, s') ->
  next_request_id_ s'.1 = u64 (next_request_id_ b + 1) /\
  (decode_ok r = true -> exists g, frame r = Some g /\ request_id g = next_request_id_ b
     /\ message_type g = rt).
Proof.
  unfold send_request. intros H. bind_inv H rid s1 H1. rewrite fresh_run in H1.
  injection H1 as <- <-. bind_inv H g0 s2 H2. injection H2 as <- <-.
  apply sendAndReceive_Ok in H as [Hb Hr]. rewrite Hb. split; [done|]. intros Hok.
  destruct (Hr Hok) as (g & ? & ? & ?). by exists g.
Qed.

(** An exchange never confuses replies and never keeps a doubtful connection:
    whatever the sockets and the peer do, when [exchangeLocked] returns, either the
    response is a frame of the expected type carrying the ID of the last request sent,
    whose generation the backend then records, or it is an error and the socket is
    closed. *)
Theorem exchange_is_matched_or_closed t rt p b w r b' w' :
  exchangeLocked t rt p (b, w) = (Ok r, (b', w')) ->
  if decode_ok r then
    exists f, frame r = Some f /\ message_type f = rt
      /\ next_request_id_ b' = u64 (request_id f + 1)
      /\ device_generation_ b' = device_generation f
  else (socket_fd_ b' < 0)%Z.
Proof.
  unfold exchangeLocked. intros H. bind_inv H ce s1 H1.
  destruct (error_ok ce) eqn:Hce; simpl in H.
  2:{ injection H as <- ->. rewrite failed_not_ok.
      by apply (ensureConnected_error b w ce (b', w')). }
  bind_inv H r1 s2 H2. destruct s1 as [b1 w1].
  apply send_request_Ok in H2 as [Hid2 Hr1]. bind_inv H resp s3 H3.
  assert (if decode_ok resp then
    exists f, frame resp = Some f /\ message_type f = rt
      /\ next_request_id_ s3.1 = u64 (request_id f + 1)
    else (socket_fd_ s3.1 < 0)%Z) as Hresp.
  { destruct (decode_ok r1) eqn:Hf.
    - injection H3 as <- <-. rewrite Hf. destruct (Hr1 eq_refl) as (g & ? & Hg & ?).
      exists g. by rewrite Hid2, Hg.
    - bind_inv H3 u s4 H4. destruct s2 as [b2 w2]. apply closeLocked_run in H4 as [Hfd _].
      destruct (retry_safe t); [|injection H3 as <- <-; by rewrite Hf].
      bind_inv H3 rc s5 H5. destruct s4 as [b4 w4].
      destruct (error_ok rc) eqn:Hrc; [|injection H3 as <- <-; rewrite Hf; by eapply ensureConnected_error].
      bind_inv H3 r2 s6 H6. destruct s5 as [b5 w5].
      apply send_request_Ok in H6 as [Hid6 Hr2]. bind_inv H3 u2 s7 H7. injection H3 as <- <-.
      destruct (decode_ok r2) eqn:Hs.
      + injection H7 as _ <-. destruct (Hr2 eq_refl) as (g & ? & Hg & ?).
        exists g. by rewrite Hid6, Hg.
      + destruct s6. by apply closeLocked_run in H7 as [? _]. }
  destruct (decode_ok resp) eqn:Hok.
  - destruct Hresp as (f & Hf & Hty & Hid). rewrite Hf in H.
    bind_inv H u s4 H4. injection H4 as _ <-. injection H as <- <- <-. rewrite Hok.
    exists f. by split_and!.
  - destruct (frame resp); injection H as <- ->; by rewrite Hok.
Qed.
End Exchange.
