(* ===== verification/UdsLink.v ===== *)
(** * Client and server together.

    [Link] is a world in which the socket system calls connect the backend to one
    [UdsServer] through a packet socket that loses nothing: [send] has the server
    serve the packet, [recv] takes the oldest reply.  Over it the UDS backend behaves
    as the in-process backend on the server's device. *)
From S2P Require Import Prelude.
From S2P Require Import Errors.
From S2P Require Import Types.
From S2P Require Import SimDevice.
From S2P Require Import SimDeviceInv.
From S2P Require Import DeviceApi.
From S2P Require Import UdsCodec.
From S2P Require Import UdsCodecProps.
From S2P Require Import Json.
From S2P Require Import UdsJson.
From S2P Require Import UdsJsonProps.
From S2P Require Import Rpc.
From S2P Require Import UdsServer.
From S2P Require Import UdsServerProps.
From S2P Require Import UdsBackend.
From stdpp Require Import options.
#[local] Set Default Proof Using "Type*".

Record Link := mkLink {
  link_server : UdsServer;
  link_open : bool;
  link_inbox : list (list Z);
}.

Section Link.
Context {J : JsonLib} {JL : JsonLaws J}.

Definition link_send (p : list Z) (w : Link) : Link :=
  if link_open w then
    match serve_packet p (link_server w) with
    | None => w
    | Some (Reply r, s) => mkLink s true (link_inbox w ++ [r])
    | Some (_, s) => mkLink s false (link_inbox w)
    end
  else w.

#[global] Instance LinkSockets : Sockets Link := {
  sys_socket w := (inl 3%Z, w);
  sys_setsockopt _ _ _ w := (None, w);
  sys_connect _ _ w := (None, mkLink (link_server w) true []);
  sys_send _ p w := (Z.of_nat (length p), "", link_send p w);
  sys_recv _ _ w :=
    match link_inbox w with
    | p :: rest => (Received p, mkLink (link_server w) (link_open w) rest)
    | [] => (if link_open w then RecvFailed true "Resource temporarily unavailable"
             else Disconnected false, w)
    end;
  sys_close _ w := mkLink (link_server w) false [];
}.

Definition link_device (w : Link) : SimDevice := device_ (link_server w).

(** An encoded payload that fits a frame. *)
Definition fits (r : result string) : Prop :=
  match r with Ok s => (payload_size s <= kMaxPayloadSize)%Z | Throw _ => False end.

(** A backend with its connection open, or not yet made. *)
Record linked (b : UdsDeviceBackend) (w : Link) : Prop := {
  linked_server : server_ok (link_server w);
  linked_keep : drop_next_apply_reply_ (link_server w) = false;
  linked_ids : is_u64 (next_request_id_ b) /\ is_u64 (device_generation_ b);
  linked_socket : (0 <= socket_fd_ b)%Z -> link_open w = true /\ link_inbox w = [];
}.

Lemma device_generation_u64 s : server_ok s -> is_u64 (generation (info_ (device_ s))).
Proof. intros [_ Hd]. by destruct (text_info _ Hd) as ((_ & _ & ?) & _). Qed.

(** *** One request over an open connection *)

Lemma serve_call f c s :
  server_ok s -> drop_next_apply_reply_ s = false -> frame_wf f ->
  decode_request f = Ok (Some c) ->
  exists v d' p, run_call c (device_ s) = Some (Ok v, d') /\ encode_value v = Ok p /\
    decode_value c p = Ok v /\ device_wf d' /\ device_text d' /\
    is_u64 (answer_generation (device_ s) v) /\
    ((payload_size p <= kMaxPayloadSize)%Z ->
     let r := response f (answer_type f c) (answer_generation (device_ s) v) p in
     serve_packet (bytes (encode f)) s = Some (Reply (bytes (encode r)), mkServer d' false)
     /\ packet_is (bytes (encode r)) r
     /\ (Z.of_nat (length (bytes (encode r))) <= kHeaderSize + kMaxPayloadSize)%Z).
Proof.
  intros Hs Hdrop Hf Hreq. destruct Hs as [Hwf Hd].
  pose proof (decode_request_text f c Hreq) as Ht.
  destruct (run_call_total c _ Hwf Hd Ht) as (v & d' & Hrun & Hwf' & Hd' & Hv & Hvt).
  destruct (value_carried c v Hv Hvt) as (p & Hp & Hdec).
  assert (is_u64 (answer_generation (device_ s) v)) as Hg.
  { destruct v; try (by apply device_generation_u64; split). by destruct Hvt. }
  exists v, d', p. split_and!; try done. intros Hfit r.
  pose proof Hf as (Hver & Hfl & Hid & Hgen & Hpl).
  assert (packet_is (bytes (encode f)) f) as Hpk
    by (unfold packet_is; rewrite encode_spec by done; by apply decode_frame_wire).
  assert (Z.of_nat (length (bytes (encode f))) <= kHeaderSize + kMaxPayloadSize)%Z as Hlen.
  { rewrite encode_spec by done. cbn [bytes]. unfold frame_wire.
    rewrite length_wire, length_string_bytes. lia. }
  assert (frame_wf r) as Hrw by (split_and!; done).
  assert (encode r = mkEncoded success (frame_wire r)) as Her by (by apply encode_spec).
  split; [|split].
  - rewrite (serve_packet_frame _ f s Hpk Hlen). unfold serve_frame, dispatch.
    rewrite (dispatch_body_call f _ c _ v d') by done. rewrite Hp.
    cbn [mbind result_bind]. rewrite Hdrop, andb_false_r. cbv zeta.
    change (response f (answer_type f c) _ p) with r. by rewrite Her.
  - rewrite Her. by apply decode_frame_wire.
  - rewrite Her. cbn [bytes]. unfold frame_wire. rewrite length_wire, length_string_bytes.
    cbn [r payload response]. lia.
Qed.

Lemma sendAndReceive_link f c b w :
  (0 <= socket_fd_ b)%Z -> linked b w -> frame_wf f -> decode_request f = Ok (Some c) ->
  exists v d' p, run_call c (link_device w) = Some (Ok v, d') /\ encode_value v = Ok p /\
    decode_value c p = Ok v /\ device_wf d' /\ device_text d' /\
    is_u64 (answer_generation (link_device w) v) /\
    ((payload_size p <= kMaxPayloadSize)%Z ->
     sendAndReceiveLocked f (answer_type f c) (b, w)
     = (Ok (mkDecoded success
              (Some (response f (answer_type f c) (answer_generation (link_device w) v) p))),
        (b, mkLink (mkServer d' false) true []))).
Proof.
  intros Hfd [Hs Hdrop _ Hsock] Hf Hreq. destruct (Hsock Hfd) as [Hopen Hin].
  destruct (serve_call f c _ Hs Hdrop Hf Hreq)
    as (v & d' & p & Hrun & Hp & Hdec & Hw' & Hd' & Hg & Hserve).
  exists v, d', p. split_and!; try done. intros Hfit.
  destruct (Hserve Hfit) as (Hsv & Hpk & Hlen).
  pose proof Hf as (Hver & _ & _ & _ & Hpl).
  assert (encode_ok (encode f) = true) as Hok by (by rewrite encode_spec).
  unfold sendAndReceiveLocked. rewrite Hok. cbn [negb].
  unfold packet_is in Hpk. unfold link_device in *.
  set (reply := response f _ _ p) in *.
  rewrite (run_bind _ _ _ (socket_fd_ b) (b, w)) by done.
  rewrite (run_bind _ _ _ (Z.of_nat (length (bytes (encode f))), "")
             (b, mkLink (mkServer d' false) true [bytes (encode reply)])).
  2:{ unfold sys. cbn [snd fst sys_send LinkSockets]. unfold link_send.
      by rewrite Hopen, Hsv, Hin. }
  cbv beta iota. rewrite bool_decide_eq_true_2 by done. cbn [negb].
  rewrite (run_bind _ _ _ (Received (bytes (encode reply))) (b, mkLink (mkServer d' false) true []))
    by done.
  cbv beta iota. rewrite bool_decide_eq_false_2 by lia.
  rewrite (run_bind _ _ _ (mkDecoded success (Some reply)) (b, mkLink (mkServer d' false) true []))
    by (unfold lift; by rewrite Hpk).
  cbn [frame]. change (decode_ok (mkDecoded success (Some reply))) with true. cbn [negb].
  rewrite (bool_decide_eq_true_2 (request_id reply = _)) by done. cbn [negb].
  rewrite bool_decide_eq_false_2.
  2:{ cbn [reply message_type response]. unfold answer_type.
      destruct (message_type f); destruct c; done. }
  rewrite bool_decide_eq_true_2 by done. done.
Qed.

(** *** Connecting *)

Definition hello_fits (b : UdsDeviceBackend) (w : Link) : Prop :=
  (socket_fd_ b < 0)%Z -> fits (encodeDeviceInfo (info_ (link_device w))).

Lemma fresh_request_id_run b (w : Link) :
  fresh_request_id (b, w)
  = (Ok (next_request_id_ b),
     (mkBackend (socket_path_ b) (timeout_ b) (socket_fd_ b) (u64 (next_request_id_ b + 1))
        (device_generation_ b), w)).
Proof. done. Qed.

Lemma ensureConnected_link b w :
  linked b w -> hello_fits b w ->
  exists b1 w1, ensureConnectedLocked (b, w) = (Ok success, (b1, w1)) /\ linked b1 w1
    /\ (0 <= socket_fd_ b1)%Z /\ link_device w1 = link_device w.
Proof.
  intros Hl Hh. pose proof Hl as [Hs Hdrop [Hid Hgen] Hsock].
  unfold ensureConnectedLocked. rewrite (run_bind _ _ _ (socket_fd_ b) (b, w)) by done.
  case_decide as Hfd; [by exists b, w|].
  specialize (Hh ltac:(lia)).
  rewrite (run_bind _ _ _ (inl 3%Z) (b, w)) by done. cbv beta iota.
  rewrite (run_bind _ _ _ (timeout_ b) (b, w)) by done. cbv zeta.
  rewrite (run_bind _ _ _ None (b, w)) by done.
  rewrite (run_bind _ _ _ None (b, w)) by done. cbv iota.
  rewrite (run_bind _ _ _ (socket_path_ b) (b, w)) by done.
  set (w0 := mkLink (link_server w) true []).
  rewrite (run_bind _ _ _ None (b, w0)) by done. cbv iota.
  rewrite (run_bind _ _ _ tt (set_fd 3 b, w0)) by done.
  set (b0 := mkBackend (socket_path_ b) (timeout_ b) 3 (u64 (next_request_id_ b + 1))
               (device_generation_ b)).
  rewrite (run_bind _ _ _ (next_request_id_ b) (b0, w0)) by done.
  match goal with |- context [sendAndReceiveLocked ?f _] => set (hello := f) end.
  assert (is_u64 (u64 (next_request_id_ b + 1))) as Hid1 by (apply wrap_in_width; lia).
  assert (linked b0 w0) as Hl0 by (by constructor).
  assert (frame_wf hello) as Hfw by (split_and!; done).
  destruct (sendAndReceive_link hello CInfo b0 w0)
    as (v & d' & p & Hrun & Hp & _ & Hwf' & Hd' & Hg & Hsr); try done.
  simpl in Hrun. injection Hrun as <- <-. simpl in Hp. unfold fits in Hh.
  change (link_device w) with (link_device w0) in Hh. rewrite Hp in Hh.
  specialize (Hsr Hh). rewrite (run_bind _ _ _ _ _ Hsr). cbn [frame].
  match goal with |- context [decode_ok ?r] => change (decode_ok r) with true end.
  eexists _, _. split; [reflexivity|]. split; [|done].
  by constructor.
Qed.

(** *** A request and its exchange *)

Lemma call_request c :
  call_text c -> exists p, encode_call c = Ok p /\
    forall f, message_type f = request_type c -> payload f = p ->
      decode_request f = Ok (Some c) /\ answer_type f c = reply_type c.
Proof.
  intros Hc. unfold decode_request, answer_type.
  destruct c as [|cs o| |dir id|mode|fault clear]; simpl in *.
  - eexists. split; [done|]. by intros f -> _.
  - destruct (apply_request_carried cs o Hc) as (p & -> & Hd). eexists. split; [done|].
    intros f -> ->. by rewrite Hd.
  - eexists. split; [done|]. by intros f -> _.
  - destruct (port_request_carried dir id Hc) as (p & -> & Hd). eexists. split; [done|].
    intros f -> ->. by rewrite Hd.
  - destruct (reset_request_carried mode) as (p & -> & Hd). eexists. split; [done|].
    intros f -> ->. by rewrite Hd.
  - destruct (fault_request_carried fault clear Hc) as (p & -> & Hd). eexists. split; [done|].
    intros f -> ->. by rewrite Hd.
Qed.

(** The state of the pair after a call: the server's device is [d']. *)
Definition after_call (d' : SimDevice) (b : UdsDeviceBackend) (w : Link) : Prop :=
  linked b w /\ link_device w = d' /\ (0 <= socket_fd_ b)%Z.

Lemma exchange_link c b w p :
  linked b w -> hello_fits b w -> call_text c -> encode_call c = Ok p ->
  (payload_size p <= kMaxPayloadSize)%Z ->
  exists v d' q, run_call c (link_device w) = Some (Ok v, d') /\ encode_value v = Ok q /\
    decode_value c q = Ok v /\
    ((payload_size q <= kMaxPayloadSize)%Z ->
     exists r b' w', exchangeLocked (request_type c) (reply_type c) p (b, w) = (Ok r, (b', w')) /\
       decode_ok r = true /\ response_payload r = q /\ after_call d' b' w' /\
       device_generation_ b' = answer_generation (link_device w) v).
Proof.
  intros Hl Hh Hc Hp Hfit.
  destruct (ensureConnected_link b w Hl Hh) as (b1 & w1 & Hens & Hl1 & Hfd1 & Hdev).
  pose proof Hl1 as [Hs1 Hdrop1 [Hid1 Hgen1] Hsock1].
  set (b2 := mkBackend (socket_path_ b1) (timeout_ b1) (socket_fd_ b1)
               (u64 (next_request_id_ b1 + 1)) (device_generation_ b1)).
  set (f := mkFrame kProtocolVersion (request_type c) 0 (next_request_id_ b1)
              (device_generation_ b1) p).
  assert (is_u64 (u64 (next_request_id_ b1 + 1))) as Hid2 by (apply wrap_in_width; lia).
  assert (linked b2 w1) as Hl2 by (by constructor).
  destruct (call_request c Hc) as (p' & Hp' & Hreq). rewrite Hp in Hp'. injection Hp' as <-.
  destruct (Hreq f eq_refl eq_refl) as [Hdec Hans].
  assert (frame_wf f) as Hfw by (split_and!; done).
  destruct (sendAndReceive_link f c b2 w1 Hfd1 Hl2 Hfw Hdec)
    as (v & d' & q & Hrun & Hq & Hdv & Hwf' & Hd' & Hg & Hsr).
  rewrite Hdev in Hrun, Hsr, Hg. exists v, d', q. split_and!; try done. intros Hqfit.
  specialize (Hsr Hqfit). rewrite Hans in Hsr. unfold exchangeLocked.
  rewrite (run_bind _ _ _ _ _ Hens). change (error_ok success) with true. cbn [negb].
  assert (send_request (request_type c) (reply_type c) p (b1, w1)
    = sendAndReceiveLocked f (reply_type c) (b2, w1)) as Hsend by done.
  rewrite Hsr in Hsend. rewrite (run_bind _ _ _ _ _ Hsend).
  match goal with |- context [decode_ok ?r] => change (decode_ok r) with true end. cbv iota.
  rewrite run_ret_bind. cbn [frame].
  match goal with |- context [decode_ok ?r] => change (decode_ok r) with true end. cbv iota.
  eexists _, _, _. split; [reflexivity|]. split_and!; try done.
Qed.

Lemma backend_call_link c b w p :
  linked b w -> hello_fits b w -> call_text c -> encode_call c = Ok p ->
  (payload_size p <= kMaxPayloadSize)%Z ->
  exists v d', run_call c (link_device w) = Some (Ok v, d') /\
    (fits (encode_value v) ->
     exists b' w', run_call c (b, w) = Some (Ok v, (b', w')) /\ after_call d' b' w').
Proof.
  intros Hl Hh Hc Hp Hfit.
  destruct (exchange_link c b w p Hl Hh Hc Hp Hfit) as (v & d' & q & Hrun & Hq & Hdv & Hex).
  exists v, d'. split; [done|]. unfold fits. rewrite Hq. intros Hqfit.
  destruct (Hex Hqfit) as (r & b' & w' & Hx & Hok & Hpay & Haft & Hgen).
  assert (forall A (f : A -> device_value) enc dec on_error,
    enc = Ok p -> (decode_value c q = f <$> dec q) ->
    exists b' w', map_call f (returns (write_call (request_type c) (reply_type c) enc on_error dec)) (b, w)
      = Some (Ok v, (b', w')) /\ after_call d' b' w') as Hwrite.
  { intros A f enc dec on_error -> Hdec. exists b', w'. split; [|done].
    unfold map_call, returns, write_call.
    rewrite (run_bind _ _ _ p (b, w)) by done. rewrite (run_bind _ _ _ _ _ Hx), Hok, Hpay.
    cbn [negb]. unfold lift. rewrite <-Hdv, Hdec. done. }
  assert (forall A (f : A -> device_value) enc dec,
    enc = Ok p -> (decode_value c q = f <$> dec q) ->
    exists b' w', map_call f (returns (read_call (request_type c) (reply_type c) enc dec)) (b, w)
      = Some (Ok v, (b', w')) /\ after_call d' b' w') as Hread.
  { intros A f enc dec -> Hdec. exists b', w'. split; [|done].
    unfold map_call, returns, read_call.
    rewrite (run_bind _ _ _ p (b, w)) by done. rewrite (run_bind _ _ _ _ _ Hx), Hok, Hpay.
    cbn [negb]. unfold lift. rewrite <-Hdv, Hdec. done. }
  destruct c as [|cs o| |[] id|mode|fault []]; try (by apply Hread); try (by apply Hwrite).
  simpl in Hdv, Hp. apply result_fmap_Ok in Hdv as (rr & Hrr & ->).
  exists (set_generation (reset_generation rr) b'), w'. simpl. unfold map_call, returns, uds_reset.
  rewrite Hp. rewrite (run_bind _ _ _ p (b, w)) by done.
  rewrite (run_bind _ _ _ _ _ Hx), Hok, Hpay. cbn [negb].
  rewrite (run_bind _ _ _ rr (b', w')) by (unfold lift; by rewrite Hrr).
  split; [done|]. destruct Haft as ([Hs Hd Hids Hsock] & ? & ?).
  split; [|done]. constructor; try done. split; [apply Hids|]. simpl.
  simpl in Hgen. rewrite <-Hgen. apply Hids.
Qed.

(** C28: over the link, the UDS backend is the in-process backend: from a state with or
    without an open connection, every call whose request and reply fit a frame returns
    the value of the direct call on the server's device, and leaves exactly the device
    state of the direct call. *)
Theorem uds_backend_refines_device c b w p :
  linked b w -> hello_fits b w -> call_text c -> encode_call c = Ok p ->
  (payload_size p <= kMaxPayloadSize)%Z ->
  exists v d', run_call c (link_device w) = Some (Ok v, d') /\
    (fits (encode_value v) ->
     exists b' w', run_call c (b, w) = Some (Ok v, (b', w')) /\ after_call d' b' w').
Proof. apply backend_call_link. Qed.

End Link.
