(* ===== verification/HwsimMain.v ===== *)
(** * The processes of the simulated switch: the device ocs-hwsim starts with
    (ocs-hwsim/main.cpp) and the control tool ocs-hwsimctl (ocs-hwsimctl/main.cpp).

    The tool runs over the UDS backend of UdsBackend.v; what it prints is not modelled. *)
From S2P Require Import Prelude Errors Types SimDevice SimDeviceInv SimDeviceProps.
From S2P Require Import UdsListener UdsListenerProps DeviceApi UdsCodec Json UdsJson Rpc UdsServer UdsServerProps UdsBackend UdsLink.
From stdpp Require Import options.

(** ** ocs-hwsim *)

(** The generation is the system clock in nanoseconds, as 64 bits. *)
Definition defaultDeviceInfo (now_ns : Z) : DeviceInfo :=
  mkDeviceInfo "ocs0" 16 16 "SIM-16X16" "SIM-0001" "sim-1.0.0" (u64 now_ns).

Definition hwsim_socket_path (argv : list string) : string :=
  match argv with _ :: path :: _ => path | _ => "/tmp/mini-ocs/ocs-hwsim.sock" end.

(** [main]: until a signal comes the server's threads run, and change the server and the
    world as [serving] does; the destructor stops the server (again).  The exit status. *)
Definition hwsim_main {W} {OS : ServerSys W} (serving : Listener * W -> Listener * W)
    (in_accept : bool) (argv : list string) : prog W Z := fun w =>
  let '(status, (_, w)) :=
    (error ← start;
     status ← (if negb (error_ok error) then mret 1%Z
               else modify serving ;; stop in_accept ;; mret 0%Z);
     stop false ;; mret status) (UdsListener (hwsim_socket_path argv), w) in
  (status, w).

(** ** ocs-hwsimctl *)
Definition faultType (value : string) : result FaultType.t :=
  if decide (value = "INPUT_PORT_DOWN") then Ok FaultType.kInputPortDown
  else if decide (value = "OUTPUT_PORT_DOWN") then Ok FaultType.kOutputPortDown
  else Throw (InvalidArgument "fault must be INPUT_PORT_DOWN or OUTPUT_PORT_DOWN").

Section Ctl.
Context {J : JsonLib} {W : Type} {SK : Sockets W}.

(** A new backend with the default timeout, and what is done with it. *)
Definition with_backend {A} (socket_path : string) (m : prog (UdsDeviceBackend * W) A)
    : prog W A := fun w =>
  match UdsDeviceBackend_make socket_path 1000 with
  | Throw x => (Throw x, w)
  | Ok backend =>
      let '(r, (backend, w)) := m (backend, w) in
      (r, (UdsDeviceBackend_destroy (backend, w)).2.2)
  end.

(** ocs-hwsimctl HWSIM_SOCKET health *)
Definition health_check (socket_path : string) : prog W Z :=
  try_catch
    (with_backend socket_path
       (info ← uds_getDeviceInfo;
        health ← uds_getHealth;
        mret (if decide (health_status health <> DeviceOperStatus.kReady
                         \/ error_ok (last_error health) = false
                         \/ generation info = 0%Z) then 1%Z else 0%Z)))
    (fun _ => mret 1%Z).

Definition parse_fault (fault port_id : string) : result FaultSpec :=
  type ← faultType fault;
  parsed ← stoul port_id;
  if decide (parsed = 0 \/ 65535 < parsed)%Z then
    Throw (InvalidArgument "port ID is outside 1..65535")
  else Ok (mkFaultSpec type (u16 parsed)).

(** ocs-hwsimctl HWSIM_SOCKET inject|clear FAULT PORT_ID *)
Definition change_fault (socket_path operation fault port_id : string) : prog W Z :=
  try_catch
    (spec ← lift (parse_fault fault port_id);
     with_backend socket_path
       (result ← (if decide (operation = "inject") then uds_injectFault spec
                  else if decide (operation = "clear") then
                    uds_clearFault (mkFaultSelector (fault_type spec) (fault_port spec))
                  else throw (InvalidArgument "operation must be inject or clear"));
        mret (if error_ok (fault_error result) then 0%Z else 1%Z)))
    (fun _ => mret 2%Z).

(** The exit status *)
Definition main (argv : list string) : prog W Z :=
  match argv with
  | [_; socket_path; "health"%string] => health_check socket_path
  | [_; socket_path; operation; fault; port_id] => change_fault socket_path operation fault port_id
  | _ => mret 2%Z
  end.
End Ctl.

(** ** What they do *)

(** The switch ocs-hwsim starts is well formed, whatever the clock shows. *)
Lemma default_device_wf now :
  exists d, SimulatedOcsDevice (defaultDeviceInfo now) = Some (Ok d) /\ device_wf d /\
    connections_ d = ∅.
Proof.
  assert (info_wf (defaultDeviceInfo now)) as Hinfo.
  { split; [done|split; [done|]]. apply wrap_in_width. lia. }
  eexists. split; [reflexivity|]. split; [|done]. by eapply constructor_wf.
Qed.

(** Settings the tool refuses: it does not touch the socket. *)
Lemma ctl_refuses {J : JsonLib} {W} {SK : Sockets W} path op fault port x (w : W) :
  parse_fault fault port = Throw x -> change_fault path op fault port w = (Ok 2%Z, w).
Proof. intros Hx. unfold change_fault, try_catch, lift, mbind, prog_bind. by rewrite Hx. Qed.

(** However long it serves, ocs-hwsim exits with every descriptor closed, with 0 if it
    could listen and with 1 if it could not. *)
Theorem hwsim_leaves_nothing_open {W} {OS : ServerSys W} {OL : ServerSysLaws W} serving in_accept argv (w : W) :
  (forall s, rtc listener_step s (serving s)) ->
  exists status w' log, hwsim_main serving in_accept argv (w, []) = (Ok status, (w', log)) /\
    ledger log = Some ∅ /\ (status = 0 \/ status = 1)%Z.
Proof.
  intros Hserving. unfold hwsim_main.
  set (s0 := (UdsListener (hwsim_socket_path argv), (w, [] : list fd_event))).
  assert (balanced ∅ s0) as H0 by done.
  destruct (start_run s0 H0) as (e & s1 & Hr1 & [H1 _]).
  rewrite (run_bind _ _ _ _ _ Hr1).
  assert (exists status s2, (if negb (error_ok e) then mret 1%Z
     else modify serving ;; stop in_accept ;; mret 0%Z) s1 = (Ok status, s2)
     /\ balanced ∅ s2 /\ (status = 0 \/ status = 1)%Z) as (status & s2 & Hr2 & H2 & Hst).
  { destruct (error_ok e); simpl; [|by exists 1%Z, s1; auto].
    assert (balanced ∅ (serving s1)) as Hs by exact (steps_balanced _ _ (Hserving s1) H1).
    destruct (stop_stopped in_accept _ Hs) as ([] & s2 & Hr2 & H2).
    exists 0%Z, s2. split; [|split; [by apply stopped_balanced|by left]].
    unfold modify, mbind, prog_bind. by rewrite Hr2. }
  rewrite (run_bind _ _ _ _ _ Hr2).
  destruct (stop_stopped false _ H2) as ([] & [l [w3 log]] & Hr3 & Hm & _).
  rewrite (run_bind _ _ _ _ _ Hr3). exists status, w3, log. done.
Qed.

(** A fault call through the interface. *)
Lemma fault_call_inv {S} {API : OcsDeviceApi S} spec clear (s : S) v s' :
  run_call (CFault spec clear) s = Some (Ok v, s') ->
  exists r, v = VFault r /\
    (if clear then api_clearFault (mkFaultSelector (fault_type spec) (fault_port spec))
     else api_injectFault spec) s = Some (Ok r, s').
Proof.
  destruct clear; simpl; unfold map_call;
    (match goal with |- match ?m with _ => _ end = _ -> _ => destruct m as [[[r|x] s1]|] end);
    try done; intros [= <- <-]; by exists r.
Qed.

Section OverLink.
Context {J : JsonLib} {JL : JsonLaws J}.

(** Closing the connection leaves the switch alone. *)
Lemma destroy_link b (w : Link) : link_device (UdsDeviceBackend_destroy (b, w)).2.2 = link_device w.
Proof using Type.
  unfold UdsDeviceBackend_destroy, closeLocked, member, gets, mbind, prog_bind.
  by case_decide.
Qed.

(** Over a link to a running ocs-hwsim, [ocs-hwsimctl SOCKET inject|clear FAULT PORT]
    changes the switch exactly as the direct call does, whatever faults it has, and exits
    with 0 if and only if the switch accepted the change. *)
Theorem ctl_changes_the_switch path op fault port spec (w : Link) p :
  path <> "" -> (Z.of_nat (String.length path) < kSunPathSize)%Z ->
  op = "inject" \/ op = "clear" -> parse_fault fault port = Ok spec ->
  server_ok (link_server w) -> drop_next_apply_reply_ (link_server w) = false ->
  fits (encodeDeviceInfo (info_ (link_device w))) ->
  encodeFaultRequest spec (bool_decide (op = "clear")) = Ok p ->
  (payload_size p <= kMaxPayloadSize)%Z ->
  exists r d', run_call (CFault spec (bool_decide (op = "clear"))) (link_device w)
                 = Some (Ok (VFault r), d') /\
    (fits (encode_value (VFault r)) ->
     exists w', change_fault path op fault port w
                  = (Ok (if error_ok (fault_error r) then 0 else 1)%Z, w') /\
       link_device w' = d').
Proof using JL.
  intros Hpath Hlen Hop Hspec Hs Hdrop Hinfo Hp Hfit.
  set (clear := bool_decide (op = "clear")) in *. set (c := CFault spec clear).
  set (b := mkBackend path 1000 (-1) 1 0).
  assert (linked b w) as Hl by (constructor; [done|done|done|simpl; lia]).
  assert (call_text c) as Hc.
  { apply result_bind_Ok in Hspec as (t & _ & Hspec).
    apply result_bind_Ok in Hspec as (n & _ & Hspec). case_decide; [done|].
    injection Hspec as <-. apply wrap_in_width. lia. }
  destruct (backend_call_link c b w p Hl (fun _ => Hinfo) Hc Hp Hfit) as (v & d' & Hrun & Hcall).
  destruct (fault_call_inv _ _ _ _ _ Hrun) as (r & -> & _).
  exists r, d'. split; [done|]. intros Hfits.
  destruct (Hcall Hfits) as (b' & w' & Hback & _ & <- & _).
  apply fault_call_inv in Hback as (? & [= <-] & Hback).
  exists (UdsDeviceBackend_destroy (b', w')).2.2. split; [|apply destroy_link].
  unfold change_fault, with_backend, UdsDeviceBackend_make.
  rewrite Hspec, bool_decide_eq_false_2, bool_decide_eq_false_2 by (done || lia).
  simpl in Hback. unfold returns in Hback.
  unfold try_catch, lift, mbind, prog_bind. fold b. simpl.
  unfold clear in Hback. destruct Hop as [-> | ->]; simpl in Hback; injection Hback as Hback;
    simpl; rewrite Hback; reflexivity.
Qed.
End OverLink.
