(* ===== verification/UdsExamples.v ===== *)
(** * The theorems on the UDS path at concrete inputs, with the reference JSON
    instance and the link between client and server. *)
From S2P Require Import Prelude.
From S2P Require Import Errors.
From S2P Require Import Types.
From S2P Require Import SimDevice.
From S2P Require Import SimDeviceInv.
From S2P Require Import SimDeviceProps.
From S2P Require Import SimDeviceExamples.
From S2P Require Import DeviceApi.
From S2P Require Import UdsCodec.
From S2P Require Import UdsCodecProps.
From S2P Require Import Json.
From S2P Require Import JsonRef.
From S2P Require Import DeviceCommand.
From S2P Require Import DeviceCommand.
From S2P Require Import UdsJson.
From S2P Require Import UdsJsonProps.
From S2P Require Import Rpc.
From S2P Require Import UdsServer.
From S2P Require Import UdsServerProps.
From S2P Require Import UdsBackend.
From S2P Require Import UdsBackendProps.
From S2P Require Import UdsLink.
From stdpp Require Import options.

(** ** Frames *)
Definition hello1 : Frame := mkFrame 1 MessageType.kHello 0 258 7 "{}".

Lemma encode_decode_roundtrip_witness :
  decode (bytes (encode hello1)) = Ok (mkDecoded success (Some hello1)).
Proof.
  pose proof (encode_decode_roundtrip hello1 ltac:(by split) ltac:(by split) ltac:(by split)) as H.
  change (encode_ok (encode hello1)) with true in H. apply H.
Defined.

Definition byte_list (l : list Z) : bool := forallb (fun b => (0 <=? b) && (b <? 256))%Z l.
Lemma byte_list_wf l : byte_list l = true -> Forall (in_width 8) l.
Proof.
  unfold byte_list. intros H. apply Forall_forall. intros b Hb. rewrite forallb_forall in H.
  apply list_elem_of_In in Hb. specialize (H b Hb). unfold in_width. lia.
Qed.

Lemma decode_returns_and_is_exact_witness :
  exists r, decode (bytes (encode hello1) ++ [0%Z]) = Ok r
    /\ error_ok (decode_error r) = false.
Proof.
  destruct (decode_returns_and_is_exact (bytes (encode hello1) ++ [0%Z])) as (r & Hr & Hm).
  - apply byte_list_wf. vm_compute. reflexivity.
  - exists r. split; [exact Hr|]. vm_compute in Hr. injection Hr as <-. apply Hm.
Defined.

(** ** The queued batch *)
Definition batch1 : DeviceCommandBatch :=
  mkBatch [upsert "a" 1 2 18446744073709551615; remove "b" 3] (mkOptions true 1000 "op").

Lemma ascii_utf8 s : bool_decide (ascii_text s) = true -> utf8 s.
Proof. intros H%bool_decide_eq_true. exact H. Qed.

Lemma device_command_roundtrip_witness :
  exists s, encodeDeviceCommand batch1 = Ok s /\ decodeDeviceCommand s = Ok batch1.
Proof.
  apply (device_command_roundtrip batch1).
  - discriminate.
  - cbn [batch_commands batch1]. rewrite !Forall_cons, Forall_nil.
    split; [|split; [|exact I]];
      (split; [unfold command_wf, in_width; simpl; lia|split; [apply ascii_utf8; reflexivity|intros H; try discriminate H; simpl; lia]]).
  - split; [unfold is_i64; simpl; lia|apply ascii_utf8; reflexivity].
  - reflexivity.
Defined.

Definition text1 : string :=
  match encodeDeviceCommand batch1 with Ok s => s | Throw _ => "" end.

Lemma decoded_batch_is_valid_witness :
  decodeDeviceCommand text1 = Ok batch1 /\ Forall decoded_wf (batch_commands batch1).
Proof.
  split; [vm_compute; reflexivity|].
  apply (decoded_batch_is_valid text1 batch1). vm_compute. reflexivity.
Defined.

(** ** Messages and the server *)
Lemma uds_messages_roundtrip_witness :
  carries (encodePortState (mkPort 3 PortDirection.kOutput true PortOperStatus.kUp minus_three))
    decodePortState (mkPort 3 PortDirection.kOutput true PortOperStatus.kUp minus_three).
Proof.
  apply uds_messages_roundtrip. split; [unfold in_width; simpl; lia|apply minus_three_finite].
Defined.

Lemma dev0_text : device_text dev0.
Proof.
  constructor.
  - split; [apply info4_wf|]. split_and!; apply ascii_utf8; reflexivity.
  - intros k c Hk. simpl in Hk. by apply lookup_empty_Some in Hk.
  - intros k c Hk. simpl in Hk. by apply lookup_empty_Some in Hk.
  - apply port_range_text. reflexivity.
  - apply port_range_text. reflexivity.
Qed.

Lemma dev1_text : device_text dev1.
Proof.
  destruct (apply_text first_batch (with_id "op-1") dev0 dev0_wf dev0_text)
    as (r & d' & Hrun & _ & Hd' & _).
  - split; [|split; [unfold is_i64; simpl; lia|apply ascii_utf8; reflexivity]].
    unfold first_batch. rewrite !Forall_cons, Forall_nil.
    split; [|split; [|exact I]];
      (split; [unfold command_wf, in_width; simpl; lia|apply ascii_utf8; reflexivity]).
  - unfold dev1, run_apply. rewrite Hrun. exact Hd'.
Qed.

Definition encoded (r : result string) : string := match r with Ok s => s | Throw _ => "" end.

Definition apply_frame : Frame :=
  mkFrame 1 MessageType.kApplyConnections 0 5 7
    (encoded (encodeApplyRequest [upsert "c" 3 4 1] (with_id "op-2"))).

Lemma apply_value cs o p r :
  decode_value (CApply cs o) p = Ok (VApply r) -> decodeApplyResult p = Ok r.
Proof. simpl. destruct (decodeApplyResult p); [|done]. by intros [= ->]. Qed.

(** Two outcomes of the same call are the same. *)
Lemma call_value (x : option (result device_value * SimDevice)) v v' d :
  forall d', x = Some (Ok v, d) -> x = Some (Ok v', d') -> v = v'.
Proof. intros d' -> [= -> _]. reflexivity. Qed.
Lemma call_state (x : option (result device_value * SimDevice)) v v' d :
  forall d', x = Some (Ok v, d) -> x = Some (Ok v', d') -> d = d'.
Proof. intros d' -> [= _ ->]. reflexivity. Qed.

Lemma server_refines_device_witness :
  exists v d' p, run_call (CApply [upsert "c" 3 4 1] (with_id "op-2")) dev1 = Some (Ok v, d') /\
    dispatch apply_frame dev1 = Some (Ok (response apply_frame MessageType.kApplyResult 7 p), d') /\
    decodeApplyResult p
    = Ok (the_result (run_apply [upsert "c" 3 4 1] "op-2" dev1).1).
Proof.
  pose proof (server_refines_device apply_frame dev1 dev1_wf dev1_text) as H.
  assert (decode_request apply_frame
    = Ok (Some (CApply [upsert "c" 3 4 1] (with_id "op-2")))) as Hreq by (vm_compute; reflexivity).
  rewrite Hreq in H. destruct H as (v & d' & p & Hrun & Hdis & Hdec).
  exists v, d', p. split; [exact Hrun|].
  assert (v = VApply (the_result (run_apply [upsert "c" 3 4 1] "op-2" dev1).1)) as ->.
  { assert ((run_call (CApply [upsert "c" 3 4 1] (with_id "op-2")) dev1)
      = Some (Ok (VApply (the_result (run_apply [upsert "c" 3 4 1] "op-2" dev1).1)),
              (run_apply [upsert "c" 3 4 1] "op-2" dev1).2)) as Hrun' by (vm_compute; reflexivity).
    exact (call_value _ _ _ _ _ Hrun Hrun'). }
  split; [exact Hdis|]. exact (apply_value _ _ _ _ Hdec).
Defined.

Definition server1 : UdsServer := mkServer dev1 false.

Lemma serve_packet_survives_witness :
  exists out s', serve_packet [79; 67; 83; 49]%Z server1 = Some (out, s') /\ server_ok s'.
Proof.
  destruct (serve_packet_survives [79; 67; 83; 49]%Z server1) as (out & s' & H & Hs & _).
  - apply byte_list_wf. reflexivity.
  - split; [exact dev1_wf|exact dev1_text].
  - by exists out, s'.
Defined.

(** A request whose payload is the single byte 255. *)
Definition bad_frame : Frame :=
  mkFrame 1 MessageType.kApplyConnections 0 6 7 (String (ascii_of_N 255) "").
Definition bad_error : exn :=
  match decode_request bad_frame with Throw e => e | Ok _ => JsonError "" end.

Lemma ill_formed_error_text_terminates_witness :
  exists e', serve_packet (bytes (encode bad_frame)) server1 = Some (Terminated e', server1).
Proof.
  apply (ill_formed_error_text_terminates (bytes (encode bad_frame)) bad_frame bad_error).
  - vm_compute. reflexivity.
  - vm_compute. discriminate.
  - vm_compute. reflexivity.
  - change (~ ascii_text (what bad_error)). apply (bool_decide_unpack _). vm_compute. exact I.
Defined.

(** ** The backend *)
Definition backend1 : UdsDeviceBackend := mkBackend "/run/ocs.sock" 1000 (-1) 1 0.
Definition link1 : Link := mkLink server1 false [].
Definition apply_call : device_call := CApply [upsert "c" 3 4 1] (with_id "op-2").

Definition logged_run := run_call apply_call (backend1, (link1, [] : list (list Z))).
Definition last_log : list (list Z) := match logged_run with Some (_, (_, (_, l))) => l | None => [] end.

Lemma mutations_are_never_resent_witness :
  count_type MessageType.kApplyConnections last_log = 1%nat
  /\ (count_type MessageType.kApplyConnections last_log
      <= count_type MessageType.kApplyConnections [] + 1)%nat.
Proof.
  split; [vm_compute; reflexivity|].
  destruct logged_run as [[r [b' [w' l]]]|] eqn:Hrun; [|vm_compute in Hrun; discriminate].
  assert (last_log = l) as -> by (unfold last_log; by rewrite Hrun).
  apply (mutations_are_never_resent apply_call backend1 link1 [] r b' w' l). exact Hrun.
Defined.

Lemma link1_linked : linked backend1 link1.
Proof.
  constructor.
  - split; [exact dev1_wf|exact dev1_text].
  - reflexivity.
  - unfold in_width. simpl. lia.
  - simpl. lia.
Qed.

Lemma uds_backend_refines_device_witness :
  exists b' w', run_call apply_call (backend1, link1)
    = Some (Ok (VApply (the_result (run_apply [upsert "c" 3 4 1] "op-2" dev1).1)), (b', w'))
  /\ after_call (run_apply [upsert "c" 3 4 1] "op-2" dev1).2 b' w'.
Proof.
  destruct (uds_backend_refines_device apply_call backend1 link1
    (encoded (encode_call apply_call))) as (v & d' & Hrun & Hc).
  - exact link1_linked.
  - intros _. vm_compute. discriminate.
  - split; [|split; [unfold is_i64; simpl; lia|apply ascii_utf8; reflexivity]].
    rewrite Forall_cons, Forall_nil. split; [|exact I].
    split; [unfold command_wf, in_width; simpl; lia|apply ascii_utf8; reflexivity].
  - vm_compute. reflexivity.
  - vm_compute. discriminate.
  - assert ((run_call apply_call (link_device link1))
      = Some (Ok (VApply (the_result (run_apply [upsert "c" 3 4 1] "op-2" dev1).1)),
              (run_apply [upsert "c" 3 4 1] "op-2" dev1).2)) as Hrun' by (vm_compute; reflexivity).
    pose proof (call_value _ _ _ _ _ Hrun Hrun') as Hv.
    pose proof (call_state _ _ _ _ _ Hrun Hrun') as Hd.
    rewrite Hv, Hd in Hc. apply Hc. vm_compute. discriminate.
Defined.

Definition exchanged :=
  exchangeLocked MessageType.kGetConnections MessageType.kConnectionsReply "{}" (backend1, link1).

Lemma exchange_is_matched_or_closed_witness :
  exists f, frame (match exchanged.1 with Ok r => r | Throw _ => failed success end) = Some f
    /\ message_type f = MessageType.kConnectionsReply
    /\ next_request_id_ exchanged.2.1 = u64 (request_id f + 1).
Proof.
  destruct exchanged as [[r|e] [b' w']] eqn:Hx; [|vm_compute in Hx; discriminate].
  pose proof (exchange_is_matched_or_closed MessageType.kGetConnections
    MessageType.kConnectionsReply "{}" backend1 link1 r b' w' Hx) as H.
  assert (decode_ok r = true) as Hok.
  { assert (decode_ok (match exchanged.1 with Ok r => r | Throw _ => failed success end) = true) as E
      by (vm_compute; reflexivity). by rewrite Hx in E. }
  rewrite Hok in H. destruct H as (f & ? & ? & ? & _). exists f. by split_and!.
Defined.
