(* ===== verification/RedisKeys.v ===== *)
(** * redis_keys.hpp: the names of Redis keys and streams.

    A [std::uint64_t] argument is a [Z] and is printed in decimal. *)
From S2P Require Import Prelude.
From stdpp Require Import options.

Module LogicalDb.
Inductive t := kAppl | kDevice | kCounters | kConfig | kState | kAlarm.
#[global] Instance eq_dec : EqDecision t.
Proof. solve_decision. Defined.

(** [static_cast<int>(database)] *)
Definition value (db : t) : Z :=
  match db with
  | kAppl => 0
  | kDevice => 1
  | kCounters => 2
  | kConfig => 4
  | kState => 6
  | kAlarm => 8
  end.
End LogicalDb.

Definition kConfigEvents : string := "OCS_CONFIG_EVENTS".
Definition kDeviceCommands : string := "OCS_DEVICE_COMMANDS".
Definition kDeviceResults : string := "OCS_DEVICE_RESULTS".
Definition kDeviceRetries : string := "OCS_DEVICE_RETRIES".
Definition kStateEvents : string := "OCS_STATE_EVENTS".
Definition kAlarmEvents : string := "OCS_ALARM_EVENTS".
Definition kFaultCommands : string := "OCS_FAULT_COMMANDS".

Definition faultResultKey (command_id : string) : string := "OCS_FAULT_RESULT|" +:+ command_id.
Definition deviceConfigKey (device : string) : string := "OCS_DEVICE|" +:+ device.
Definition inputPortConfigKey (device port_id : string) : string :=
  "OCS_INPUT_PORT|" +:+ device +:+ "|" +:+ port_id.
Definition outputPortConfigKey (device port_id : string) : string :=
  "OCS_OUTPUT_PORT|" +:+ device +:+ "|" +:+ port_id.
Definition connectionConfigKey (device connection_id : string) : string :=
  "OCS_CONNECTION|" +:+ device +:+ "|" +:+ connection_id.
Definition connectionConfigPattern (device : string) : string :=
  "OCS_CONNECTION|" +:+ device +:+ "|*".
Definition connectionAppKey (device connection_id : string) : string :=
  "OCS_CONNECTION_APP|" +:+ device +:+ "|" +:+ connection_id.
Definition connectionDeviceKey (device connection_id : string) : string :=
  "OCS_CONNECTION_DEVICE|" +:+ device +:+ "|" +:+ connection_id.
Definition syncdConnectionVersionKey (device connection_id : string) : string :=
  "OCS_SYNCD_CONNECTION_VERSION|" +:+ device +:+ "|" +:+ connection_id.
Definition connectionDevicePattern (device : string) : string :=
  "OCS_CONNECTION_DEVICE|" +:+ device +:+ "|*".
Definition syncdGenerationRecoveryKey (device : string) (generation : Z) : string :=
  "OCS_SYNCD_GENERATION_RECOVERY|" +:+ device +:+ "|" +:+ to_string generation.
Definition syncdGenerationStatePublicationKey (device : string) (generation : Z) (connection_id : string) : string :=
  "OCS_SYNCD_GENERATION_STATE_PUBLISHED|" +:+ device +:+ "|" +:+ to_string generation +:+ "|" +:+ connection_id.
Definition syncdGenerationCountersPublicationKey (device : string) (generation : Z) : string :=
  "OCS_SYNCD_GENERATION_COUNTERS_PUBLISHED|" +:+ device +:+ "|" +:+ to_string generation.
Definition syncdReconciliationKey (device : string) : string :=
  "OCS_SYNCD_RECONCILIATION|" +:+ device.
Definition syncdReconciliationCommandPublicationKey (command_id : string) : string :=
  "OCS_SYNCD_RECONCILIATION_COMMAND_PUBLISHED|" +:+ command_id.
Definition syncdReconciliationStatePublicationKey (command_id connection_id phase : string) : string :=
  "OCS_SYNCD_RECONCILIATION_STATE_PUBLISHED|" +:+ command_id +:+ "|" +:+ connection_id +:+ "|" +:+ phase.
Definition syncdReconciliationCountersPublicationKey (command_id : string) : string :=
  "OCS_SYNCD_RECONCILIATION_COUNTERS_PUBLISHED|" +:+ command_id.
Definition syncdReconciliationSuccessCountersPublicationKey (command_id : string) : string :=
  "OCS_SYNCD_RECONCILIATION_SUCCESS_COUNTERS_PUBLISHED|" +:+ command_id.
Definition desiredActualDriftAlarmId : string := "desired-actual-drift".
Definition syncdDriftAlarmPublicationKey (command_id : string) : string :=
  "OCS_SYNCD_DRIFT_ALARM_PUBLISHED|" +:+ command_id.
Definition syncdDriftAlarmClearPublicationKey (command_id : string) : string :=
  "OCS_SYNCD_DRIFT_ALARM_CLEARED|" +:+ command_id.
Definition syncdDriftAlarmCounterPublicationKey (device activation_id : string) (clear : bool) : string :=
  "OCS_SYNCD_DRIFT_ALARM_COUNTER_" +:+ (if clear then "CLEARED|" else "RAISED|") +:+ device +:+ "|" +:+ activation_id.
Definition syncdPortFaultKey (device direction port_id : string) : string :=
  "OCS_SYNCD_PORT_FAULT|" +:+ device +:+ "|" +:+ direction +:+ "|" +:+ port_id.
Definition syncdPortFaultPattern (device : string) : string :=
  "OCS_SYNCD_PORT_FAULT|" +:+ device +:+ "|*".
Definition portDownAlarmId (direction port_id : string) : string :=
  "port-down-" +:+ direction +:+ "-" +:+ port_id.
Definition syncdPortAlarmPublicationKey (activation_id : string) : string :=
  "OCS_SYNCD_PORT_ALARM_PUBLISHED|" +:+ activation_id.
Definition syncdPortAlarmClearPublicationKey (activation_id : string) : string :=
  "OCS_SYNCD_PORT_ALARM_CLEARED|" +:+ activation_id.
Definition syncdPortAlarmCounterPublicationKey (activation_id : string) (clear : bool) : string :=
  "OCS_SYNCD_PORT_ALARM_COUNTER_" +:+ (if clear then "CLEARED|" else "RAISED|") +:+ activation_id.
Definition processedDeviceCommandKey (command_id : string) : string :=
  "OCS_PROCESSED_DEVICE_COMMAND|" +:+ command_id.
Definition orchConfigBatchKey (event_id : string) : string :=
  "OCS_ORCH_CONFIG_BATCH|" +:+ event_id.
Definition orchApplicationPublicationKey (event_id : string) : string :=
  "OCS_ORCH_APPLICATION_PUBLISHED|" +:+ event_id.
Definition orchDeviceStatePublicationKey (event_id : string) : string :=
  "OCS_ORCH_DEVICE_STATE_PUBLISHED|" +:+ event_id.
Definition orchDeviceCommandPublicationKey (event_id : string) : string :=
  "OCS_ORCH_DEVICE_COMMAND_PUBLISHED|" +:+ event_id.
Definition orchResultApplicationPublicationKey (result_event_id : string) : string :=
  "OCS_ORCH_RESULT_APPLICATION_PUBLISHED|" +:+ result_event_id.
Definition orchResultDevicePublicationKey (result_event_id : string) : string :=
  "OCS_ORCH_RESULT_DEVICE_PUBLISHED|" +:+ result_event_id.
Definition orchTimeoutApplicationPublicationKey (command_id : string) : string :=
  "OCS_ORCH_TIMEOUT_APPLICATION_PUBLISHED|" +:+ command_id.
Definition orchTimeoutDevicePublicationKey (command_id : string) : string :=
  "OCS_ORCH_TIMEOUT_DEVICE_PUBLISHED|" +:+ command_id.
Definition orchRetryPublicationKey (command_id : string) : string :=
  "OCS_ORCH_RETRY_PUBLISHED|" +:+ command_id.
Definition orchRetryApplicationPublicationKey (retry_event_id : string) : string :=
  "OCS_ORCH_RETRY_APPLICATION_PUBLISHED|" +:+ retry_event_id.
Definition orchRetryDevicePublicationKey (retry_event_id : string) : string :=
  "OCS_ORCH_RETRY_DEVICE_PUBLISHED|" +:+ retry_event_id.
Definition orchRetryCommandPublicationKey (retry_event_id : string) : string :=
  "OCS_ORCH_RETRY_COMMAND_PUBLISHED|" +:+ retry_event_id.
Definition deviceApplyAttemptKey (command_id : string) : string :=
  "OCS_DEVICE_APPLY_ATTEMPT|" +:+ command_id.
Definition deviceApplyResultKey (command_id : string) : string :=
  "OCS_DEVICE_APPLY_RESULT|" +:+ command_id.
Definition syncdStatePublicationKey (command_id connection_id : string) : string :=
  "OCS_SYNCD_STATE_PUBLISHED|" +:+ command_id +:+ "|" +:+ connection_id.
Definition syncdCountersPublicationKey (command_id : string) : string :=
  "OCS_SYNCD_COUNTERS_PUBLISHED|" +:+ command_id.
Definition syncdResultPublicationKey (command_id connection_id : string) : string :=
  "OCS_SYNCD_RESULT_PUBLISHED|" +:+ command_id +:+ "|" +:+ connection_id.
Definition connectionStateKey (device connection_id : string) : string :=
  "OCS_CONNECTION_STATE|" +:+ device +:+ "|" +:+ connection_id.
Definition configRevisionKey (device : string) : string := "OCS_CONFIG_REVISION|" +:+ device.
Definition deviceStateKey (device : string) : string := "OCS_DEVICE_STATE|" +:+ device.
Definition serviceStateKey (service : string) : string := "OCS_SERVICE_STATE|" +:+ service.
Definition inputPortStateKey (device port_id : string) : string :=
  "OCS_INPUT_PORT_STATE|" +:+ device +:+ "|" +:+ port_id.
Definition outputPortStateKey (device port_id : string) : string :=
  "OCS_OUTPUT_PORT_STATE|" +:+ device +:+ "|" +:+ port_id.
Definition deviceCountersKey (device : string) : string := "OCS_DEVICE_COUNTERS|" +:+ device.
Definition connectionCountersKey (device connection_id : string) : string :=
  "OCS_CONNECTION_COUNTERS|" +:+ device +:+ "|" +:+ connection_id.
Definition activeAlarmKey (device alarm_id : string) : string :=
  "OCS_ACTIVE_ALARM|" +:+ device +:+ "|" +:+ alarm_id.
Definition applyTimeoutAlarmId (connection_id : string) : string :=
  "apply-timeout-" +:+ connection_id.
Definition orchAlarmPublicationKey (result_event_id : string) : string :=
  "OCS_ORCH_ALARM_PUBLISHED|" +:+ result_event_id.
Definition orchAlarmClearPublicationKey (result_event_id : string) : string :=
  "OCS_ORCH_ALARM_CLEAR_PUBLISHED|" +:+ result_event_id.
Definition orchAlarmCounterPublicationKey (device alarm_id activation_id : string) (clear : bool) : string :=
  "OCS_ORCH_ALARM_COUNTER_" +:+ (if clear then "CLEARED|" else "RAISED|") +:+ device +:+ "|" +:+ alarm_id +:+ "|" +:+ activation_id.
