(* ===== verification/RedisKeysProps.v ===== *)
(** * Redis keys: no two keys collide. *)
From S2P Require Import Prelude.
From S2P Require Import RedisKeys.
From stdpp Require Import options.

(** ** Joining with bars *)
Fixpoint join (l : list string) : string :=
  match l with
  | [] => ""
  | [s] => s
  | s :: rest => s +:+ "|" +:+ join rest
  end.

Fixpoint bar_free (s : string) : bool :=
  match s with
  | EmptyString => true
  | String c r => negb (bool_decide (c = "|"%char)) && bar_free r
  end.

Lemma bar_split s1 s2 r1 r2 :
  bar_free s1 = true -> bar_free s2 = true ->
  s1 +:+ "|" +:+ r1 = s2 +:+ "|" +:+ r2 -> s1 = s2 /\ r1 = r2.
Proof.
  revert s2. induction s1 as [|c s1 IH]; intros [|d s2]; simpl.
  - intros _ _ [= H]. exact (conj eq_refl H).
  - rewrite andb_true_iff, negb_true_iff, bool_decide_eq_false. intros _ [Hd _] [= <- _]. done.
  - rewrite andb_true_iff, negb_true_iff, bool_decide_eq_false. intros [Hd _] _ [= -> _]. done.
  - rewrite !andb_true_iff. intros [_ H1] [_ H2] [= -> H].
    destruct (IH s2 H1 H2 H) as [-> ->]. done.
Qed.

(** Every component but the last is free of bars. *)
Fixpoint splittable (l : list string) : bool :=
  match l with
  | [] | [_] => true
  | s :: rest => bar_free s && splittable rest
  end.

Lemma join_inj l1 l2 :
  length l1 = length l2 -> splittable l1 = true -> splittable l2 = true ->
  join l1 = join l2 -> l1 = l2.
Proof.
  revert l2. induction l1 as [|a l1 IH]; intros [|b l2]; try done. intros [= Hlen].
  destruct l1 as [|a' l1], l2 as [|b' l2]; try done; [by intros _ _ [= ->]|].
  change (join (a :: a' :: l1)) with (a +:+ "|" +:+ join (a' :: l1)).
  change (join (b :: b' :: l2)) with (b +:+ "|" +:+ join (b' :: l2)).
  change (splittable (a :: a' :: l1)) with (bar_free a && splittable (a' :: l1)).
  change (splittable (b :: b' :: l2)) with (bar_free b && splittable (b' :: l2)).
  rewrite !andb_true_iff. intros [Ha H1] [Hb H2] Hj.
  destruct (bar_split _ _ _ _ Ha Hb Hj) as [-> Hr]. f_equal. by apply IH.
Qed.

(** ** The keys as data *)
Inductive RedisKey :=
  | K_faultResultKey (command_id : string)
  | K_deviceConfigKey (device : string)
  | K_inputPortConfigKey (device port_id : string)
  | K_outputPortConfigKey (device port_id : string)
  | K_connectionConfigKey (device connection_id : string)
  | K_connectionAppKey (device connection_id : string)
  | K_connectionDeviceKey (device connection_id : string)
  | K_syncdConnectionVersionKey (device connection_id : string)
  | K_syncdGenerationRecoveryKey (device : string) (generation : Z)
  | K_syncdGenerationStatePublicationKey (device : string) (generation : Z) (connection_id : string)
  | K_syncdGenerationCountersPublicationKey (device : string) (generation : Z)
  | K_syncdReconciliationKey (device : string)
  | K_syncdReconciliationCommandPublicationKey (command_id : string)
  | K_syncdReconciliationStatePublicationKey (command_id connection_id phase : string)
  | K_syncdReconciliationCountersPublicationKey (command_id : string)
  | K_syncdReconciliationSuccessCountersPublicationKey (command_id : string)
  | K_syncdDriftAlarmPublicationKey (command_id : string)
  | K_syncdDriftAlarmClearPublicationKey (command_id : string)
  | K_syncdDriftAlarmCounterPublicationKey (device activation_id : string) (clear : bool)
  | K_syncdPortFaultKey (device direction port_id : string)
  | K_syncdPortAlarmPublicationKey (activation_id : string)
  | K_syncdPortAlarmClearPublicationKey (activation_id : string)
  | K_syncdPortAlarmCounterPublicationKey (activation_id : string) (clear : bool)
  | K_processedDeviceCommandKey (command_id : string)
  | K_orchConfigBatchKey (event_id : string)
  | K_orchApplicationPublicationKey (event_id : string)
  | K_orchDeviceStatePublicationKey (event_id : string)
  | K_orchDeviceCommandPublicationKey (event_id : string)
  | K_orchResultApplicationPublicationKey (result_event_id : string)
  | K_orchResultDevicePublicationKey (result_event_id : string)
  | K_orchTimeoutApplicationPublicationKey (command_id : string)
  | K_orchTimeoutDevicePublicationKey (command_id : string)
  | K_orchRetryPublicationKey (command_id : string)
  | K_orchRetryApplicationPublicationKey (retry_event_id : string)
  | K_orchRetryDevicePublicationKey (retry_event_id : string)
  | K_orchRetryCommandPublicationKey (retry_event_id : string)
  | K_deviceApplyAttemptKey (command_id : string)
  | K_deviceApplyResultKey (command_id : string)
  | K_syncdStatePublicationKey (command_id connection_id : string)
  | K_syncdCountersPublicationKey (command_id : string)
  | K_syncdResultPublicationKey (command_id connection_id : string)
  | K_connectionStateKey (device connection_id : string)
  | K_configRevisionKey (device : string)
  | K_deviceStateKey (device : string)
  | K_serviceStateKey (service : string)
  | K_inputPortStateKey (device port_id : string)
  | K_outputPortStateKey (device port_id : string)
  | K_deviceCountersKey (device : string)
  | K_connectionCountersKey (device connection_id : string)
  | K_activeAlarmKey (device alarm_id : string)
  | K_orchAlarmPublicationKey (result_event_id : string)
  | K_orchAlarmClearPublicationKey (result_event_id : string)
  | K_orchAlarmCounterPublicationKey (device alarm_id activation_id : string) (clear : bool).

Definition render (k : RedisKey) : string :=
  match k with
  | K_faultResultKey command_id => faultResultKey command_id
  | K_deviceConfigKey device => deviceConfigKey device
  | K_inputPortConfigKey device port_id => inputPortConfigKey device port_id
  | K_outputPortConfigKey device port_id => outputPortConfigKey device port_id
  | K_connectionConfigKey device connection_id => connectionConfigKey device connection_id
  | K_connectionAppKey device connection_id => connectionAppKey device connection_id
  | K_connectionDeviceKey device connection_id => connectionDeviceKey device connection_id
  | K_syncdConnectionVersionKey device connection_id => syncdConnectionVersionKey device connection_id
  | K_syncdGenerationRecoveryKey device generation => syncdGenerationRecoveryKey device generation
  | K_syncdGenerationStatePublicationKey device generation connection_id => syncdGenerationStatePublicationKey device generation connection_id
  | K_syncdGenerationCountersPublicationKey device generation => syncdGenerationCountersPublicationKey device generation
  | K_syncdReconciliationKey device => syncdReconciliationKey device
  | K_syncdReconciliationCommandPublicationKey command_id => syncdReconciliationCommandPublicationKey command_id
  | K_syncdReconciliationStatePublicationKey command_id connection_id phase => syncdReconciliationStatePublicationKey command_id connection_id phase
  | K_syncdReconciliationCountersPublicationKey command_id => syncdReconciliationCountersPublicationKey command_id
  | K_syncdReconciliationSuccessCountersPublicationKey command_id => syncdReconciliationSuccessCountersPublicationKey command_id
  | K_syncdDriftAlarmPublicationKey command_id => syncdDriftAlarmPublicationKey command_id
  | K_syncdDriftAlarmClearPublicationKey command_id => syncdDriftAlarmClearPublicationKey command_id
  | K_syncdDriftAlarmCounterPublicationKey device activation_id clear => syncdDriftAlarmCounterPublicationKey device activation_id clear
  | K_syncdPortFaultKey device direction port_id => syncdPortFaultKey device direction port_id
  | K_syncdPortAlarmPublicationKey activation_id => syncdPortAlarmPublicationKey activation_id
  | K_syncdPortAlarmClearPublicationKey activation_id => syncdPortAlarmClearPublicationKey activation_id
  | K_syncdPortAlarmCounterPublicationKey activation_id clear => syncdPortAlarmCounterPublicationKey activation_id clear
  | K_processedDeviceCommandKey command_id => processedDeviceCommandKey command_id
  | K_orchConfigBatchKey event_id => orchConfigBatchKey event_id
  | K_orchApplicationPublicationKey event_id => orchApplicationPublicationKey event_id
  | K_orchDeviceStatePublicationKey event_id => orchDeviceStatePublicationKey event_id
  | K_orchDeviceCommandPublicationKey event_id => orchDeviceCommandPublicationKey event_id
  | K_orchResultApplicationPublicationKey result_event_id => orchResultApplicationPublicationKey result_event_id
  | K_orchResultDevicePublicationKey result_event_id => orchResultDevicePublicationKey result_event_id
  | K_orchTimeoutApplicationPublicationKey command_id => orchTimeoutApplicationPublicationKey command_id
  | K_orchTimeoutDevicePublicationKey command_id => orchTimeoutDevicePublicationKey command_id
  | K_orchRetryPublicationKey command_id => orchRetryPublicationKey command_id
  | K_orchRetryApplicationPublicationKey retry_event_id => orchRetryApplicationPublicationKey retry_event_id
  | K_orchRetryDevicePublicationKey retry_event_id => orchRetryDevicePublicationKey retry_event_id
  | K_orchRetryCommandPublicationKey retry_event_id => orchRetryCommandPublicationKey retry_event_id
  | K_deviceApplyAttemptKey command_id => deviceApplyAttemptKey command_id
  | K_deviceApplyResultKey command_id => deviceApplyResultKey command_id
  | K_syncdStatePublicationKey command_id connection_id => syncdStatePublicationKey command_id connection_id
  | K_syncdCountersPublicationKey command_id => syncdCountersPublicationKey command_id
  | K_syncdResultPublicationKey command_id connection_id => syncdResultPublicationKey command_id connection_id
  | K_connectionStateKey device connection_id => connectionStateKey device connection_id
  | K_configRevisionKey device => configRevisionKey device
  | K_deviceStateKey device => deviceStateKey device
  | K_serviceStateKey service => serviceStateKey service
  | K_inputPortStateKey device port_id => inputPortStateKey device port_id
  | K_outputPortStateKey device port_id => outputPortStateKey device port_id
  | K_deviceCountersKey device => deviceCountersKey device
  | K_connectionCountersKey device connection_id => connectionCountersKey device connection_id
  | K_activeAlarmKey device alarm_id => activeAlarmKey device alarm_id
  | K_orchAlarmPublicationKey result_event_id => orchAlarmPublicationKey result_event_id
  | K_orchAlarmClearPublicationKey result_event_id => orchAlarmClearPublicationKey result_event_id
  | K_orchAlarmCounterPublicationKey device alarm_id activation_id clear => orchAlarmCounterPublicationKey device alarm_id activation_id clear
  end.

(** The name of a key family and its components. *)
Definition parts (k : RedisKey) : string * list string :=
  match k with
  | K_faultResultKey command_id => ("OCS_FAULT_RESULT", [command_id])
  | K_deviceConfigKey device => ("OCS_DEVICE", [device])
  | K_inputPortConfigKey device port_id => ("OCS_INPUT_PORT", [device; port_id])
  | K_outputPortConfigKey device port_id => ("OCS_OUTPUT_PORT", [device; port_id])
  | K_connectionConfigKey device connection_id => ("OCS_CONNECTION", [device; connection_id])
  | K_connectionAppKey device connection_id => ("OCS_CONNECTION_APP", [device; connection_id])
  | K_connectionDeviceKey device connection_id => ("OCS_CONNECTION_DEVICE", [device; connection_id])
  | K_syncdConnectionVersionKey device connection_id => ("OCS_SYNCD_CONNECTION_VERSION", [device; connection_id])
  | K_syncdGenerationRecoveryKey device generation => ("OCS_SYNCD_GENERATION_RECOVERY", [device; to_string generation])
  | K_syncdGenerationStatePublicationKey device generation connection_id => ("OCS_SYNCD_GENERATION_STATE_PUBLISHED", [device; to_string generation; connection_id])
  | K_syncdGenerationCountersPublicationKey device generation => ("OCS_SYNCD_GENERATION_COUNTERS_PUBLISHED", [device; to_string generation])
  | K_syncdReconciliationKey device => ("OCS_SYNCD_RECONCILIATION", [device])
  | K_syncdReconciliationCommandPublicationKey command_id => ("OCS_SYNCD_RECONCILIATION_COMMAND_PUBLISHED", [command_id])
  | K_syncdReconciliationStatePublicationKey command_id connection_id phase => ("OCS_SYNCD_RECONCILIATION_STATE_PUBLISHED", [command_id; connection_id; phase])
  | K_syncdReconciliationCountersPublicationKey command_id => ("OCS_SYNCD_RECONCILIATION_COUNTERS_PUBLISHED", [command_id])
  | K_syncdReconciliationSuccessCountersPublicationKey command_id => ("OCS_SYNCD_RECONCILIATION_SUCCESS_COUNTERS_PUBLISHED", [command_id])
  | K_syncdDriftAlarmPublicationKey command_id => ("OCS_SYNCD_DRIFT_ALARM_PUBLISHED", [command_id])
  | K_syncdDriftAlarmClearPublicationKey command_id => ("OCS_SYNCD_DRIFT_ALARM_CLEARED", [command_id])
  | K_syncdDriftAlarmCounterPublicationKey device activation_id clear =>
      (if clear then "OCS_SYNCD_DRIFT_ALARM_COUNTER_CLEARED" else "OCS_SYNCD_DRIFT_ALARM_COUNTER_RAISED", [device; activation_id])
  | K_syncdPortFaultKey device direction port_id => ("OCS_SYNCD_PORT_FAULT", [device; direction; port_id])
  | K_syncdPortAlarmPublicationKey activation_id => ("OCS_SYNCD_PORT_ALARM_PUBLISHED", [activation_id])
  | K_syncdPortAlarmClearPublicationKey activation_id => ("OCS_SYNCD_PORT_ALARM_CLEARED", [activation_id])
  | K_syncdPortAlarmCounterPublicationKey activation_id clear =>
      (if clear then "OCS_SYNCD_PORT_ALARM_COUNTER_CLEARED" else "OCS_SYNCD_PORT_ALARM_COUNTER_RAISED", [activation_id])
  | K_processedDeviceCommandKey command_id => ("OCS_PROCESSED_DEVICE_COMMAND", [command_id])
  | K_orchConfigBatchKey event_id => ("OCS_ORCH_CONFIG_BATCH", [event_id])
  | K_orchApplicationPublicationKey event_id => ("OCS_ORCH_APPLICATION_PUBLISHED", [event_id])
  | K_orchDeviceStatePublicationKey event_id => ("OCS_ORCH_DEVICE_STATE_PUBLISHED", [event_id])
  | K_orchDeviceCommandPublicationKey event_id => ("OCS_ORCH_DEVICE_COMMAND_PUBLISHED", [event_id])
  | K_orchResultApplicationPublicationKey result_event_id => ("OCS_ORCH_RESULT_APPLICATION_PUBLISHED", [result_event_id])
  | K_orchResultDevicePublicationKey result_event_id => ("OCS_ORCH_RESULT_DEVICE_PUBLISHED", [result_event_id])
  | K_orchTimeoutApplicationPublicationKey command_id => ("OCS_ORCH_TIMEOUT_APPLICATION_PUBLISHED", [command_id])
  | K_orchTimeoutDevicePublicationKey command_id => ("OCS_ORCH_TIMEOUT_DEVICE_PUBLISHED", [command_id])
  | K_orchRetryPublicationKey command_id => ("OCS_ORCH_RETRY_PUBLISHED", [command_id])
  | K_orchRetryApplicationPublicationKey retry_event_id => ("OCS_ORCH_RETRY_APPLICATION_PUBLISHED", [retry_event_id])
  | K_orchRetryDevicePublicationKey retry_event_id => ("OCS_ORCH_RETRY_DEVICE_PUBLISHED", [retry_event_id])
  | K_orchRetryCommandPublicationKey retry_event_id => ("OCS_ORCH_RETRY_COMMAND_PUBLISHED", [retry_event_id])
  | K_deviceApplyAttemptKey command_id => ("OCS_DEVICE_APPLY_ATTEMPT", [command_id])
  | K_deviceApplyResultKey command_id => ("OCS_DEVICE_APPLY_RESULT", [command_id])
  | K_syncdStatePublicationKey command_id connection_id => ("OCS_SYNCD_STATE_PUBLISHED", [command_id; connection_id])
  | K_syncdCountersPublicationKey command_id => ("OCS_SYNCD_COUNTERS_PUBLISHED", [command_id])
  | K_syncdResultPublicationKey command_id connection_id => ("OCS_SYNCD_RESULT_PUBLISHED", [command_id; connection_id])
  | K_connectionStateKey device connection_id => ("OCS_CONNECTION_STATE", [device; connection_id])
  | K_configRevisionKey device => ("OCS_CONFIG_REVISION", [device])
  | K_deviceStateKey device => ("OCS_DEVICE_STATE", [device])
  | K_serviceStateKey service => ("OCS_SERVICE_STATE", [service])
  | K_inputPortStateKey device port_id => ("OCS_INPUT_PORT_STATE", [device; port_id])
  | K_outputPortStateKey device port_id => ("OCS_OUTPUT_PORT_STATE", [device; port_id])
  | K_deviceCountersKey device => ("OCS_DEVICE_COUNTERS", [device])
  | K_connectionCountersKey device connection_id => ("OCS_CONNECTION_COUNTERS", [device; connection_id])
  | K_activeAlarmKey device alarm_id => ("OCS_ACTIVE_ALARM", [device; alarm_id])
  | K_orchAlarmPublicationKey result_event_id => ("OCS_ORCH_ALARM_PUBLISHED", [result_event_id])
  | K_orchAlarmClearPublicationKey result_event_id => ("OCS_ORCH_ALARM_CLEAR_PUBLISHED", [result_event_id])
  | K_orchAlarmCounterPublicationKey device alarm_id activation_id clear =>
      (if clear then "OCS_ORCH_ALARM_COUNTER_CLEARED" else "OCS_ORCH_ALARM_COUNTER_RAISED", [device; alarm_id; activation_id])
  end.

Definition generation_of (k : RedisKey) : Z :=
  match k with
  | K_syncdGenerationRecoveryKey _ generation => generation
  | K_syncdGenerationStatePublicationKey _ generation _ => generation
  | K_syncdGenerationCountersPublicationKey _ generation => generation
  | _ => 0
  end.

(** Components other than the last have no bar (device names, command IDs), and
    generations fit 64 bits. *)
Definition key_wf (k : RedisKey) : Prop :=
  splittable (parts k).2 = true /\ is_u64 (generation_of k).

(** Reading a key back from its parts. *)
Definition of_parts (tag : string) (comps : list string) : option RedisKey :=
  if decide (tag = "OCS_FAULT_RESULT") then
    match comps with [command_id] => Some (K_faultResultKey command_id) | _ => None end
  else if decide (tag = "OCS_DEVICE") then
    match comps with [device] => Some (K_deviceConfigKey device) | _ => None end
  else if decide (tag = "OCS_INPUT_PORT") then
    match comps with [device; port_id] => Some (K_inputPortConfigKey device port_id) | _ => None end
  else if decide (tag = "OCS_OUTPUT_PORT") then
    match comps with [device; port_id] => Some (K_outputPortConfigKey device port_id) | _ => None end
  else if decide (tag = "OCS_CONNECTION") then
    match comps with [device; connection_id] => Some (K_connectionConfigKey device connection_id) | _ => None end
  else if decide (tag = "OCS_CONNECTION_APP") then
    match comps with [device; connection_id] => Some (K_connectionAppKey device connection_id) | _ => None end
  else if decide (tag = "OCS_CONNECTION_DEVICE") then
    match comps with [device; connection_id] => Some (K_connectionDeviceKey device connection_id) | _ => None end
  else if decide (tag = "OCS_SYNCD_CONNECTION_VERSION") then
    match comps with [device; connection_id] => Some (K_syncdConnectionVersionKey device connection_id) | _ => None end
  else if decide (tag = "OCS_SYNCD_GENERATION_RECOVERY") then
    match comps with
    | [device; generation_text] =>
        match stoull generation_text with
        | Ok generation => Some (K_syncdGenerationRecoveryKey device generation)
        | Throw _ => None
        end
    | _ => None
    end
  else if decide (tag = "OCS_SYNCD_GENERATION_STATE_PUBLISHED") then
    match comps with
    | [device; generation_text; connection_id] =>
        match stoull generation_text with
        | Ok generation => Some (K_syncdGenerationStatePublicationKey device generation connection_id)
        | Throw _ => None
        end
    | _ => None
    end
  else if decide (tag = "OCS_SYNCD_GENERATION_COUNTERS_PUBLISHED") then
    match comps with
    | [device; generation_text] =>
        match stoull generation_text with
        | Ok generation => Some (K_syncdGenerationCountersPublicationKey device generation)
        | Throw _ => None
        end
    | _ => None
    end
  else if decide (tag = "OCS_SYNCD_RECONCILIATION") then
    match comps with [device] => Some (K_syncdReconciliationKey device) | _ => None end
  else if decide (tag = "OCS_SYNCD_RECONCILIATION_COMMAND_PUBLISHED") then
    match comps with [command_id] => Some (K_syncdReconciliationCommandPublicationKey command_id) | _ => None end
  else if decide (tag = "OCS_SYNCD_RECONCILIATION_STATE_PUBLISHED") then
    match comps with [command_id; connection_id; phase] => Some (K_syncdReconciliationStatePublicationKey command_id connection_id phase) | _ => None end
  else if decide (tag = "OCS_SYNCD_RECONCILIATION_COUNTERS_PUBLISHED") then
    match comps with [command_id] => Some (K_syncdReconciliationCountersPublicationKey command_id) | _ => None end
  else if decide (tag = "OCS_SYNCD_RECONCILIATION_SUCCESS_COUNTERS_PUBLISHED") then
    match comps with [command_id] => Some (K_syncdReconciliationSuccessCountersPublicationKey command_id) | _ => None end
  else if decide (tag = "OCS_SYNCD_DRIFT_ALARM_PUBLISHED") then
    match comps with [command_id] => Some (K_syncdDriftAlarmPublicationKey command_id) | _ => None end
  else if decide (tag = "OCS_SYNCD_DRIFT_ALARM_CLEARED") then
    match comps with [command_id] => Some (K_syncdDriftAlarmClearPublicationKey command_id) | _ => None end
  else if decide (tag = "OCS_SYNCD_DRIFT_ALARM_COUNTER_CLEARED") then
    match comps with [device; activation_id] => Some (K_syncdDriftAlarmCounterPublicationKey device activation_id true) | _ => None end
  else if decide (tag = "OCS_SYNCD_DRIFT_ALARM_COUNTER_RAISED") then
    match comps with [device; activation_id] => Some (K_syncdDriftAlarmCounterPublicationKey device activation_id false) | _ => None end
  else if decide (tag = "OCS_SYNCD_PORT_FAULT") then
    match comps with [device; direction; port_id] => Some (K_syncdPortFaultKey device direction port_id) | _ => None end
  else if decide (tag = "OCS_SYNCD_PORT_ALARM_PUBLISHED") then
    match comps with [activation_id] => Some (K_syncdPortAlarmPublicationKey activation_id) | _ => None end
  else if decide (tag = "OCS_SYNCD_PORT_ALARM_CLEARED") then
    match comps with [activation_id] => Some (K_syncdPortAlarmClearPublicationKey activation_id) | _ => None end
  else if decide (tag = "OCS_SYNCD_PORT_ALARM_COUNTER_CLEARED") then
    match comps with [activation_id] => Some (K_syncdPortAlarmCounterPublicationKey activation_id true) | _ => None end
  else if decide (tag = "OCS_SYNCD_PORT_ALARM_COUNTER_RAISED") then
    match comps with [activation_id] => Some (K_syncdPortAlarmCounterPublicationKey activation_id false) | _ => None end
  else if decide (tag = "OCS_PROCESSED_DEVICE_COMMAND") then
    match comps with [command_id] => Some (K_processedDeviceCommandKey command_id) | _ => None end
  else if decide (tag = "OCS_ORCH_CONFIG_BATCH") then
    match comps with [event_id] => Some (K_orchConfigBatchKey event_id) | _ => None end
  else if decide (tag = "OCS_ORCH_APPLICATION_PUBLISHED") then
    match comps with [event_id] => Some (K_orchApplicationPublicationKey event_id) | _ => None end
  else if decide (tag = "OCS_ORCH_DEVICE_STATE_PUBLISHED") then
    match comps with [event_id] => Some (K_orchDeviceStatePublicationKey event_id) | _ => None end
  else if decide (tag = "OCS_ORCH_DEVICE_COMMAND_PUBLISHED") then
    match comps with [event_id] => Some (K_orchDeviceCommandPublicationKey event_id) | _ => None end
  else if decide (tag = "OCS_ORCH_RESULT_APPLICATION_PUBLISHED") then
    match comps with [result_event_id] => Some (K_orchResultApplicationPublicationKey result_event_id) | _ => None end
  else if decide (tag = "OCS_ORCH_RESULT_DEVICE_PUBLISHED") then
    match comps with [result_event_id] => Some (K_orchResultDevicePublicationKey result_event_id) | _ => None end
  else if decide (tag = "OCS_ORCH_TIMEOUT_APPLICATION_PUBLISHED") then
    match comps with [command_id] => Some (K_orchTimeoutApplicationPublicationKey command_id) | _ => None end
  else if decide (tag = "OCS_ORCH_TIMEOUT_DEVICE_PUBLISHED") then
    match comps with [command_id] => Some (K_orchTimeoutDevicePublicationKey command_id) | _ => None end
  else if decide (tag = "OCS_ORCH_RETRY_PUBLISHED") then
    match comps with [command_id] => Some (K_orchRetryPublicationKey command_id) | _ => None end
  else if decide (tag = "OCS_ORCH_RETRY_APPLICATION_PUBLISHED") then
    match comps with [retry_event_id] => Some (K_orchRetryApplicationPublicationKey retry_event_id) | _ => None end
  else if decide (tag = "OCS_ORCH_RETRY_DEVICE_PUBLISHED") then
    match comps with [retry_event_id] => Some (K_orchRetryDevicePublicationKey retry_event_id) | _ => None end
  else if decide (tag = "OCS_ORCH_RETRY_COMMAND_PUBLISHED") then
    match comps with [retry_event_id] => Some (K_orchRetryCommandPublicationKey retry_event_id) | _ => None end
  else if decide (tag = "OCS_DEVICE_APPLY_ATTEMPT") then
    match comps with [command_id] => Some (K_deviceApplyAttemptKey command_id) | _ => None end
  else if decide (tag = "OCS_DEVICE_APPLY_RESULT") then
    match comps with [command_id] => Some (K_deviceApplyResultKey command_id) | _ => None end
  else if decide (tag = "OCS_SYNCD_STATE_PUBLISHED") then
    match comps with [command_id; connection_id] => Some (K_syncdStatePublicationKey command_id connection_id) | _ => None end
  else if decide (tag = "OCS_SYNCD_COUNTERS_PUBLISHED") then
    match comps with [command_id] => Some (K_syncdCountersPublicationKey command_id) | _ => None end
  else if decide (tag = "OCS_SYNCD_RESULT_PUBLISHED") then
    match comps with [command_id; connection_id] => Some (K_syncdResultPublicationKey command_id connection_id) | _ => None end
  else if decide (tag = "OCS_CONNECTION_STATE") then
    match comps with [device; connection_id] => Some (K_connectionStateKey device connection_id) | _ => None end
  else if decide (tag = "OCS_CONFIG_REVISION") then
    match comps with [device] => Some (K_configRevisionKey device) | _ => None end
  else if decide (tag = "OCS_DEVICE_STATE") then
    match comps with [device] => Some (K_deviceStateKey device) | _ => None end
  else if decide (tag = "OCS_SERVICE_STATE") then
    match comps with [service] => Some (K_serviceStateKey service) | _ => None end
  else if decide (tag = "OCS_INPUT_PORT_STATE") then
    match comps with [device; port_id] => Some (K_inputPortStateKey device port_id) | _ => None end
  else if decide (tag = "OCS_OUTPUT_PORT_STATE") then
    match comps with [device; port_id] => Some (K_outputPortStateKey device port_id) | _ => None end
  else if decide (tag = "OCS_DEVICE_COUNTERS") then
    match comps with [device] => Some (K_deviceCountersKey device) | _ => None end
  else if decide (tag = "OCS_CONNECTION_COUNTERS") then
    match comps with [device; connection_id] => Some (K_connectionCountersKey device connection_id) | _ => None end
  else if decide (tag = "OCS_ACTIVE_ALARM") then
    match comps with [device; alarm_id] => Some (K_activeAlarmKey device alarm_id) | _ => None end
  else if decide (tag = "OCS_ORCH_ALARM_PUBLISHED") then
    match comps with [result_event_id] => Some (K_orchAlarmPublicationKey result_event_id) | _ => None end
  else if decide (tag = "OCS_ORCH_ALARM_CLEAR_PUBLISHED") then
    match comps with [result_event_id] => Some (K_orchAlarmClearPublicationKey result_event_id) | _ => None end
  else if decide (tag = "OCS_ORCH_ALARM_COUNTER_CLEARED") then
    match comps with [device; alarm_id; activation_id] => Some (K_orchAlarmCounterPublicationKey device alarm_id activation_id true) | _ => None end
  else if decide (tag = "OCS_ORCH_ALARM_COUNTER_RAISED") then
    match comps with [device; alarm_id; activation_id] => Some (K_orchAlarmCounterPublicationKey device alarm_id activation_id false) | _ => None end
  else None.

Lemma render_parts k : render k = (parts k).1 +:+ "|" +:+ join (parts k).2.
Proof. by destruct k; try match goal with clear : bool |- _ => destruct clear end. Qed.

Lemma tag_bar_free k : bar_free (parts k).1 = true.
Proof. by destruct k; try match goal with clear : bool |- _ => destruct clear end. Qed.

Lemma of_parts_parts k : key_wf k -> of_parts (parts k).1 (parts k).2 = Some k.
Proof.
  intros [_ Hg].
  destruct k; try match goal with clear : bool |- _ => destruct clear end; try reflexivity;
    cbn [parts fst snd of_parts generation_of] in *; unfold of_parts; simpl;
    by rewrite stoull_to_string.
Qed.

(** Keys of one family have the same number of components. *)
Definition arity (tag : string) : nat :=
  if decide (tag = "OCS_INPUT_PORT") then 2
  else if decide (tag = "OCS_OUTPUT_PORT") then 2
  else if decide (tag = "OCS_CONNECTION") then 2
  else if decide (tag = "OCS_CONNECTION_APP") then 2
  else if decide (tag = "OCS_CONNECTION_DEVICE") then 2
  else if decide (tag = "OCS_SYNCD_CONNECTION_VERSION") then 2
  else if decide (tag = "OCS_SYNCD_GENERATION_RECOVERY") then 2
  else if decide (tag = "OCS_SYNCD_GENERATION_COUNTERS_PUBLISHED") then 2
  else if decide (tag = "OCS_SYNCD_DRIFT_ALARM_COUNTER_CLEARED") then 2
  else if decide (tag = "OCS_SYNCD_DRIFT_ALARM_COUNTER_RAISED") then 2
  else if decide (tag = "OCS_SYNCD_STATE_PUBLISHED") then 2
  else if decide (tag = "OCS_SYNCD_RESULT_PUBLISHED") then 2
  else if decide (tag = "OCS_CONNECTION_STATE") then 2
  else if decide (tag = "OCS_INPUT_PORT_STATE") then 2
  else if decide (tag = "OCS_OUTPUT_PORT_STATE") then 2
  else if decide (tag = "OCS_CONNECTION_COUNTERS") then 2
  else if decide (tag = "OCS_ACTIVE_ALARM") then 2
  else if decide (tag = "OCS_SYNCD_GENERATION_STATE_PUBLISHED") then 3
  else if decide (tag = "OCS_SYNCD_RECONCILIATION_STATE_PUBLISHED") then 3
  else if decide (tag = "OCS_SYNCD_PORT_FAULT") then 3
  else if decide (tag = "OCS_ORCH_ALARM_COUNTER_CLEARED") then 3
  else if decide (tag = "OCS_ORCH_ALARM_COUNTER_RAISED") then 3
  else 1.

Lemma parts_arity k : length (parts k).2 = arity (parts k).1.
Proof. by destruct k; try match goal with clear : bool |- _ => destruct clear end. Qed.

(** No two Redis keys collide: as long as every component but the last has no bar,
    keys of different families differ and keys of one family determine their device,
    connection, command, generation and the other components. *)
Theorem keys_never_collide k1 k2 :
  key_wf k1 -> key_wf k2 -> render k1 = render k2 -> k1 = k2.
Proof.
  intros H1 H2 Hr. rewrite !render_parts in Hr.
  destruct (bar_split _ _ _ _ (tag_bar_free k1) (tag_bar_free k2) Hr) as [Ht Hj].
  pose proof (of_parts_parts k1 H1) as E1. pose proof (of_parts_parts k2 H2) as E2.
  destruct H1 as [Hs1 _], H2 as [Hs2 _].
  assert ((parts k1).2 = (parts k2).2) as Hc.
  { apply join_inj; try done. by rewrite !parts_arity, Ht. }
  rewrite Ht, Hc, E2 in E1. by injection E1.
Qed.

Lemma keys_never_collide_witness :
  connectionStateKey "ocs0" "a|b" <> connectionDeviceKey "ocs0" "a|b"
  /\ forall c, connectionStateKey "ocs0" "a|b" = connectionStateKey "ocs0" c -> c = "a|b".
Proof.
  split.
  - intros H. discriminate (keys_never_collide (K_connectionStateKey "ocs0" "a|b")
      (K_connectionDeviceKey "ocs0" "a|b") ltac:(by split) ltac:(by split) H).
  - intros c H. pose proof (keys_never_collide (K_connectionStateKey "ocs0" "a|b")
      (K_connectionStateKey "ocs0" c) ltac:(by split) ltac:(by split) H) as E. by injection E.
Defined.
