(* ===== verification/Redis.v ===== *)
(** * The Redis server the repository talks to, as an interface.

    The server and the redis++ client are not code of the repository.  [Redis] has the
    commands the code sends and [RedisLaws] their documented effect, key by key.  Other
    clients are modelled by [interference]: the write commands they run while a
    transaction of this process is being prepared. *)
From S2P Require Import Prelude.
From stdpp Require Import options.

Abbreviation fields := (gmap string string) (only parsing).

(** The commands queued in transactions. *)
Inductive redis_cmd :=
  | DEL (key : string)
  | HMSET (key : string) (fs : list (string * string))
  | HSETNX (key field value : string)
  | HINCRBY (key field : string) (increment : Z)
  | XADD (stream : string) (fs : list (string * string)).

Definition target (c : redis_cmd) : string :=
  match c with
  | DEL k | HMSET k _ | HSETNX k _ _ | HINCRBY k _ _ | XADD k _ => k
  end.

Inductive key_type := KNone | KHash | KStream.
#[export] Instance key_type_eq_dec : EqDecision key_type.
Proof. solve_decision. Defined.

Class Redis (DB : Type) := {
  type_of : string -> DB -> key_type;                        (* TYPE *)
  hgetall : string -> DB -> gmap string string;              (* HGETALL *)
  xrange : string -> DB -> list (string * list (string * string));  (* XRANGE - + *)
  execute : redis_cmd -> DB -> DB;
  hincrby_reply : string -> string -> Z -> DB -> result Z;   (* the reply to HINCRBY *)
  xadd_reply : string -> list (string * string) -> DB -> result string;  (* to XADD *)
  flushdb : DB -> DB;                                        (* FLUSHDB *)
}.

(** Consumer groups.  The commands that read also move the cursor of the group and its
    pending list, so they return a new database. *)
Class RedisGroups (DB : Type) := {
  xgroup_create : string -> string -> string -> DB -> result unit * DB;
  xreadgroup : string -> string -> string -> Z -> DB ->
    gmap string (list (string * gmap string string)) * DB;
  xpending_count : string -> string -> DB -> Z;
  xpending_range : string -> string -> Z -> DB -> list (string * string * Z * Z);
  xclaim : string -> string -> string -> Z -> list string -> DB ->
    list (string * gmap string string) * DB;
  xack : string -> string -> string -> DB -> Z * DB;
}.

(** [HMSET] assigns the fields in order. *)
Definition assign_fields (fs : list (string * string)) (m : gmap string string)
    : gmap string string := fold_left (fun m kv => <[kv.1 := kv.2]> m) fs m.

(** The integer a hash field holds: a missing field counts as 0. *)
Definition field_integer (m : gmap string string) (f : string) (z : Z) : Prop :=
  match m !! f with Some s => s = to_string z | None => z = 0%Z end.

Definition is_int64 (z : Z) : Prop := (- 2 ^ 63 <= z < 2 ^ 63)%Z.

Class RedisLaws (DB : Type) {R : Redis DB} := {
  type_hash k db : type_of k db = KHash <-> hgetall k db <> ∅;
  type_not_stream k db : type_of k db <> KStream -> xrange k db = [];
  execute_frame c k db : k <> target c ->
    type_of k (execute c db) = type_of k db /\ hgetall k (execute c db) = hgetall k db
    /\ xrange k (execute c db) = xrange k db;
  execute_del k db : type_of k (execute (DEL k) db) = KNone;
  execute_hmset k fs db : fs <> [] -> type_of k db <> KStream ->
    hgetall k (execute (HMSET k fs) db) = assign_fields fs (hgetall k db);
  execute_hsetnx k f v db : type_of k db <> KStream ->
    hgetall k (execute (HSETNX k f v) db)
    = match hgetall k db !! f with Some _ => hgetall k db | None => <[f := v]> (hgetall k db) end;
  execute_hincrby k f n z db : type_of k db <> KStream ->
    field_integer (hgetall k db) f z -> is_int64 z -> is_int64 (z + n) ->
    hgetall k (execute (HINCRBY k f n) db) = <[f := to_string (z + n)]> (hgetall k db);
  execute_hincrby_other k f n f' db : f' <> f ->
    hgetall k (execute (HINCRBY k f n) db) !! f' = hgetall k db !! f';
  execute_xadd s fs db : type_of s db <> KHash ->
    type_of s (execute (XADD s fs) db) = KStream /\
    exists id, xadd_reply s fs db = Ok id /\
      xrange s (execute (XADD s fs) db) = xrange s db ++ [(id, fs)];
  execute_hincrby_reply k f n z db : type_of k db <> KStream ->
    field_integer (hgetall k db) f z -> is_int64 z -> is_int64 (z + n) -> hincrby_reply k f n db = Ok (z + n)%Z;
  flushdb_empty k db : type_of k (flushdb db) = KNone;
  execute_keeps c k db : c <> DEL k -> type_of k db <> KNone ->
    type_of k (execute c db) = type_of k db;
}.

(** Reading, claiming and acknowledging move the cursor and the pending list of a group,
    but no hash and no stream entry. *)
Definition same_data {DB} `{Redis DB} (db db' : DB) : Prop :=
  forall k, type_of k db' = type_of k db /\ hgetall k db' = hgetall k db
            /\ xrange k db' = xrange k db.

Class RedisGroupLaws (DB : Type) {R : Redis DB} {G : RedisGroups DB} := {
  xreadgroup_data g c s n db : same_data db (xreadgroup g c s n db).2;
  xclaim_data s g c t ids db : same_data db (xclaim s g c t ids db).2;
  xack_data s g m db : same_data db (xack s g m db).2;
  (* XGROUP CREATE MKSTREAM may create the stream, empty *)
  xgroup_create_data s g i db k :
    (type_of k (xgroup_create s g i db).2 = type_of k db \/
     k = s /\ type_of k (xgroup_create s g i db).2 = KStream /\ type_of k db = KNone) /\
    hgetall k (xgroup_create s g i db).2 = hgetall k db /\
    xrange k (xgroup_create s g i db).2 = xrange k db;
}.

(** A committed transaction runs its commands in order, without interruption. *)
Definition run_cmds {DB} `{Redis DB} (cs : list redis_cmd) (db : DB) : DB :=
  fold_left (fun db c => execute c db) cs db.

(** EXISTS *)
Definition exists_key {DB} `{Redis DB} (k : string) (db : DB) : bool :=
  negb (bool_decide (type_of k db = KNone)).

(** How EXEC ends when no watched key has changed: the reply arrives, the connection
    breaks before the server ran the transaction, or after it ran it. *)
Inductive exec_outcome := Replied | NotSent | ReplyLost.
#[export] Instance exec_outcome_eq_dec : EqDecision exec_outcome.
Proof. solve_decision. Defined.

(** What happens around one attempt of an optimistic transaction: the commands other
    clients run before WATCH, between WATCH and the reads, and between the reads and
    EXEC, and how EXEC ends. *)
Record interference := mkInterference {
  before_watch : list redis_cmd;
  before_reads : list redis_cmd;
  before_exec : list redis_cmd;
  exec_ends : exec_outcome;
}.
Definition quiet : interference := mkInterference [] [] [] Replied.

(** EXEC fails (sw::redis::WatchError) when a watched key was written since WATCH. *)
Definition watch_conflict (watched : list string) (others : list redis_cmd) : bool :=
  existsb (fun c => bool_decide (target c ∈ watched)) others.

(** Everything the other clients run during an attempt. *)
Definition others_of (i : interference) : list redis_cmd :=
  before_watch i ++ before_reads i ++ before_exec i.

Lemma run_cmds_app {DB} `{Redis DB} cs1 cs2 (db : DB) :
  run_cmds (cs1 ++ cs2) db = run_cmds cs2 (run_cmds cs1 db).
Proof. apply fold_left_app. Qed.

(** ** Derived laws *)
Section Derived.
Context {DB : Type} {R : Redis DB} {RL : RedisLaws DB}.
#[local] Set Default Proof Using "Type*".

Lemma type_none_hgetall k db : type_of k db = KNone -> hgetall k db = ∅.
Proof.
  intros Ht. destruct (decide (hgetall k db = ∅)) as [|Hne]; [done|].
  apply type_hash in Hne. congruence.
Qed.

Lemma del_empty k db :
  hgetall k (execute (DEL k) db) = ∅ /\ xrange k (execute (DEL k) db) = [].
Proof.
  pose proof (execute_del k db) as Hd. split; [by apply type_none_hgetall|].
  apply type_not_stream. by rewrite Hd.
Qed.

Lemma assign_fields_ne fs m : fs <> [] -> assign_fields fs m <> ∅.
Proof using.
  unfold assign_fields. revert m. induction fs as [|[k v] fs IH]; intros m Hne; [done|].
  simpl. destruct fs as [|kv fs]; [apply insert_non_empty|]. by apply IH.
Qed.

Lemma hmset_type k fs db :
  fs <> [] -> type_of k db <> KStream -> type_of k (execute (HMSET k fs) db) = KHash.
Proof.
  intros Hne Ht. apply type_hash. rewrite execute_hmset by done. by apply assign_fields_ne.
Qed.

Lemma run_cmds_frame cs k db :
  k ∉ (target <$> cs) ->
  type_of k (run_cmds cs db) = type_of k db /\ hgetall k (run_cmds cs db) = hgetall k db
  /\ xrange k (run_cmds cs db) = xrange k db.
Proof.
  revert db. induction cs as [|c cs IH]; intros db; [done|].
  rewrite fmap_cons, not_elem_of_cons. intros [Hc Hk].
  change (run_cmds (c :: cs) db) with (run_cmds cs (execute c db)).
  destruct (IH (execute c db) Hk) as (-> & -> & ->). by apply execute_frame.
Qed.

(** Assigning the fields of a map. *)
Lemma assign_sorted_items (m m0 : gmap string string) :
  assign_fields (sorted_items m) m0 = m ∪ m0.
Proof using.
  assert (forall l m0, NoDup l.*1 ->
    assign_fields l m0 = list_to_map l ∪ m0) as H.
  { unfold assign_fields. induction l as [|[k v] l IH]; intros m1 Hnd; simpl.
    - by rewrite (left_id_L ∅ (∪)).
    - rewrite fmap_cons, NoDup_cons in Hnd. destruct Hnd as [Hk Hnd]. simpl in Hk.
      rewrite IH by done. rewrite <-insert_union_l, insert_union_r; [done|].
      by apply not_elem_of_list_to_map. }
  rewrite H by apply sorted_items_keys_NoDup. f_equal.
  rewrite (list_to_map_proper (sorted_items m) (map_to_list m)).
  - apply list_to_map_to_list.
  - apply sorted_items_keys_NoDup.
  - apply sorted_items_perm.
Qed.
End Derived.
