(* ===== verification/RedisRepository.v ===== *)
(** * The Redis repository (src/redis_repository.cpp, include/ocs/redis_repository.hpp).

    The store is a parameter with the interface of Redis.v.  An operation that runs a
    transaction takes, beside the store, how its EXEC ends; an optimistic one takes
    what happens around each of its attempts. *)
From S2P Require Import Prelude Redis RedisKeys.
From stdpp Require Import options.

(** ** Events *)
Record EventEnvelope := mkEventEnvelope {
  event_schema_version : Z;    (* uint32 *)
  event_id : string;
  request_id : string;
  timestamp_ns : Z;            (* uint64 *)
  ev_device : string;
  resource_type : string;
  resource_id : string;
  ev_operation : string;
  ev_desired_version : Z;         (* uint64 *)
  ev_payload : string;
}.

Record StreamMessage := mkStreamMessage { message_id : string; event : EventEnvelope }.

#[export] Instance EventEnvelope_eq_dec : EqDecision EventEnvelope.
Proof. solve_decision. Defined.

Definition eventFields (e : EventEnvelope) : list (string * string) :=
  [("event_schema_version", to_string (event_schema_version e));
   ("event_id", event_id e);
   ("request_id", request_id e);
   ("timestamp_ns", to_string (timestamp_ns e));
   ("device", ev_device e);
   ("resource_type", resource_type e);
   ("resource_id", resource_id e);
   ("operation", ev_operation e);
   ("desired_version", to_string (ev_desired_version e));
   ("payload", ev_payload e)].

Definition required_field (fs : gmap string string) (name : string) : result string :=
  match fs !! name with
  | Some v => Ok v
  | None => Throw (RuntimeError ("Redis stream event is missing field: " +:+ name))
  end.

Definition parseEvent (fs : gmap string string) : result EventEnvelope :=
  schema ← required_field fs "event_schema_version" ≫= stoul;
  event_id ← required_field fs "event_id";
  request_id ← required_field fs "request_id";
  timestamp ← required_field fs "timestamp_ns" ≫= stoull;
  device ← required_field fs "device";
  resource_type ← required_field fs "resource_type";
  resource_id ← required_field fs "resource_id";
  operation ← required_field fs "operation";
  version ← required_field fs "desired_version" ≫= stoull;
  payload ← required_field fs "payload";
  Ok (mkEventEnvelope (u32 schema) event_id request_id timestamp device resource_type
        resource_id operation version payload).

Definition validateEvent (e : EventEnvelope) : result unit :=
  if decide (event_schema_version e <> 1%Z) then
    Throw (InvalidArgument "unsupported Redis event schema version")
  else if decide (event_id e = "" \/ request_id e = "" \/ ev_device e = ""
                  \/ resource_type e = "" \/ resource_id e = "" \/ ev_operation e = "") then
    Throw (InvalidArgument "Redis event is missing a required envelope field")
  else Ok tt.

(** ** Endpoints *)
Record RedisEndpoint := mkRedisEndpoint {
  host : string;
  port : Z;
  unix_socket : string;
  connect_timeout : Z;
  socket_timeout : Z;
}.

(** [s.starts_with(p)], with the text after the prefix *)
Fixpoint strip_prefix (p s : string) : option string :=
  match p, s with
  | EmptyString, _ => Some s
  | String a p', String b s' => if decide (a = b) then strip_prefix p' s' else None
  | _, EmptyString => None
  end.

(** [s.starts_with(p)] *)
Definition starts_with (p s : string) : bool := bool_decide (is_Some (strip_prefix p s)).

(** The text before and after the last [c], as [rfind] and [substr] give it. *)
Fixpoint split_last (c : ascii) (s : string) : option (string * string) :=
  match s with
  | EmptyString => None
  | String a s' =>
      match split_last c s' with
      | Some (l, r) => Some (String a l, r)
      | None => if decide (a = c) then Some ("", s') else None
      end
  end.

(** Whether the whole text is digits. *)
Fixpoint all_digits (s : string) : bool :=
  match s with
  | EmptyString => true
  | String c s' => match digit_of c with Some _ => all_digits s' | None => false end
  end.

(** [std::from_chars] for an [int], when it takes the whole text. *)
Definition from_chars_int (s : string) : option Z :=
  let '(neg, body) := match s with String "-"%char s' => (true, s') | _ => (false, s) end in
  if all_digits body then
    v ← scan_digits body None;
    let z := if neg : bool then (- v)%Z else v in
    if decide (- 2 ^ 31 <= z < 2 ^ 31)%Z then Some z else None
  else None.

Definition parseRedisEndpoint (target : string) : result RedisEndpoint :=
  match strip_prefix "tcp://" target with
  | Some address =>
      match split_last ":"%char address with
      | None => Throw (InvalidArgument "Redis TCP endpoint must use tcp://HOST:PORT")
      | Some (host, port_text) =>
          if decide (host = "" \/ port_text = "") then
            Throw (InvalidArgument "Redis TCP endpoint must use tcp://HOST:PORT")
          else match from_chars_int port_text with
          | Some port =>
              if decide (port < 1 \/ 65535 < port)%Z then
                Throw (InvalidArgument "Redis TCP endpoint port is outside 1..65535")
              else Ok (mkRedisEndpoint host port "" 1000 1000)
          | None => Throw (InvalidArgument "Redis TCP endpoint port is outside 1..65535")
          end
      end
  | None =>
      let path := default target (strip_prefix "unix://" target) in
      match path with
      | String "/"%char _ => Ok (mkRedisEndpoint "127.0.0.1" 6379 path 1000 1000)
      | _ => Throw (InvalidArgument
          "Redis endpoint must be an absolute path, unix:///PATH, or tcp://HOST:PORT")
      end
  end.

(** The connection a repository opens: the options of redis++ that [Impl] sets. *)
Inductive ConnectionType := TCP | UNIX.
Record ConnectionOptions := mkConnectionOptions {
  options_host : string;
  options_port : Z;
  options_type : ConnectionType;
  options_path : string;
  options_db : Z;
  options_connect_timeout : Z;
  options_socket_timeout : Z;
}.
Definition Impl (endpoint : RedisEndpoint) (database : LogicalDb.t) : ConnectionOptions :=
  let '(type, path) := if decide (unix_socket endpoint <> "") then (UNIX, unix_socket endpoint)
                       else (TCP, "") in
  mkConnectionOptions (host endpoint) (port endpoint) type path (LogicalDb.value database)
    (connect_timeout endpoint) (socket_timeout endpoint).

(** ** Transactions *)
Definition connection_lost : exn := IoError "Connection lost".
Definition kMaxWatchRetries : nat := 8.

Section Transactions.
Context {DB : Type} `{Redis DB}.

(** [transaction.exec()] when no key is watched *)
Definition exec (cs : list redis_cmd) (o : exec_outcome) : prog DB unit := fun db =>
  match o with
  | Replied => (Ok tt, run_cmds cs db)
  | NotSent => (Throw connection_lost, db)
  | ReplyLost => (Throw connection_lost, run_cmds cs db)
  end.

(** The retry loop of the optimistic transactions.  [body] is what an attempt does with
    the watched values it reads: throw, return false ([None]) or queue commands. *)
Fixpoint watch_loop (attempts : nat) (watched : list string) (exhausted : string)
    (body : DB -> result (option (list redis_cmd))) (env : nat -> interference)
    : prog DB bool := fun db =>
  match attempts with
  | O => (Throw (RuntimeError exhausted), db)
  | S attempts' =>
      let i := env O in
      let db1 := run_cmds (before_reads i) (run_cmds (before_watch i) db) in
      match body db1 with
      | Throw e => (Throw e, db1)
      | Ok None => (Ok false, db1)
      | Ok (Some cs) =>
          let db2 := run_cmds (before_exec i) db1 in
          match exec_ends i with
          | NotSent => (Throw connection_lost, db2)
          | ends =>
              if watch_conflict watched (before_reads i ++ before_exec i) then
                match ends with
                | ReplyLost => (Throw connection_lost, db2)
                | _ => watch_loop attempts' watched exhausted body (fun k => env (S k)) db2
                end
              else (if decide (ends = ReplyLost) then Throw connection_lost else Ok true,
                    run_cmds cs db2)
          end
      end
  end.

(** ** Hashes *)

(** [del(key)], then [hmset(key, fields)] unless there are no fields *)
Definition replace_hash (key : string) (fs : gmap string string) : list redis_cmd :=
  DEL key :: (if decide (fs = ∅) then [] else [HMSET key (sorted_items fs)]).

Definition putHash (key : string) (fs : gmap string string) : exec_outcome -> prog DB unit :=
  exec (replace_hash key fs).

Definition putHashIfAbsent (key : string) (fs : gmap string string)
    (env : nat -> interference) : prog DB bool :=
  if decide (fs = ∅) then
    throw (InvalidArgument "conditional Redis hash fields must not be empty")
  else watch_loop kMaxWatchRetries [key] "Redis conditional hash write exceeded retry limit"
    (fun db => if exists_key key db then Ok None else Ok (Some [HMSET key (sorted_items fs)]))
    env.

Definition ensureHashFields (key : string) (fs : gmap string string) (o : exec_outcome)
    : prog DB unit :=
  if decide (fs = ∅) then mret tt
  else exec ((fun '(f, v) => HSETNX key f v) <$> sorted_items fs) o.

Definition getHash (key : string) : prog DB (gmap string string) := gets (hgetall key).

Definition incrementHashField (key field : string) (increment : Z) : prog DB Z := fun db =>
  (hincrby_reply key field increment db, execute (HINCRBY key field increment) db).

Definition deleteKey (key : string) : prog DB bool := fun db =>
  (Ok (exists_key key db), execute (DEL key) db).

Definition flushForTest : prog DB unit := modify flushdb.

Definition putHashesAtomically (hashes : list (string * gmap string string))
    : exec_outcome -> prog DB unit :=
  exec (concat ((fun '(key, fs) => replace_hash key fs) <$> hashes)).

(** ** State and events together *)
Definition xadd (stream : string) (fs : list (string * string)) : prog DB string := fun db =>
  (xadd_reply stream fs db, execute (XADD stream fs) db).

Definition appendEvent (stream : string) (e : EventEnvelope) : prog DB string :=
  lift (validateEvent e) ;; xadd stream (eventFields e).

Definition replaceHashAndAppendEvent (key : string) (fs : gmap string string)
    (stream : string) (e : EventEnvelope) (o : exec_outcome) : prog DB unit :=
  lift (validateEvent e) ;; exec (replace_hash key fs ++ [XADD stream (eventFields e)]) o.

(** An attempt guarded by a marker: nothing is queued once the marker exists, and the
    marker is written with the effects. *)
Definition unless_marked (marker : string) (marker_fields : gmap string string)
    (effects : DB -> result (list redis_cmd)) (db : DB) : result (option (list redis_cmd)) :=
  if exists_key marker db then Ok None
  else cs ← effects db; Ok (Some (cs ++ [HMSET marker (sorted_items marker_fields)])).

Definition replaceHashAndAppendEventOnce (marker : string) (marker_fields : gmap string string)
    (key : string) (fs : gmap string string) (stream : string) (e : EventEnvelope)
    (env : nat -> interference) : prog DB bool :=
  lift (validateEvent e) ;;
  watch_loop kMaxWatchRetries [marker] "Redis state publication exceeded retry limit"
    (unless_marked marker marker_fields
       (fun _ => Ok (replace_hash key fs ++ [XADD stream (eventFields e)]))) env.

Definition appendEventOnce (marker : string) (marker_fields : gmap string string)
    (stream : string) (e : EventEnvelope) (env : nat -> interference) : prog DB bool :=
  lift (validateEvent e) ;;
  watch_loop kMaxWatchRetries [marker] "Redis event publication exceeded retry limit"
    (unless_marked marker marker_fields (fun _ => Ok [XADD stream (eventFields e)])) env.

(** ** Counters *)
Definition increment_cmds (key : string) (increments : gmap string Z) : list redis_cmd :=
  omap (fun '(f, n) => if decide (n <> 0%Z) then Some (HINCRBY key f n) else None)
    (sorted_items increments).

Definition incrementHashFieldsOnce (marker : string) (marker_fields : gmap string string)
    (key : string) (increments : gmap string Z) (env : nat -> interference) : prog DB bool :=
  watch_loop kMaxWatchRetries [marker] "Redis counter publication exceeded retry limit"
    (unless_marked marker marker_fields (fun _ => Ok (increment_cmds key increments))) env.

Definition apply_counter_cmds (key : string) (increments : gmap string Z) (latency_ms : Z)
    (db : DB) : result (list redis_cmd) :=
  maximum ← match hgetall key db !! "max_apply_latency_ms" with
            | Some existing_max => m ← stoll existing_max; Ok (Z.max latency_ms m)
            | None => Ok latency_ms
            end;
  Ok (increment_cmds key increments
      ++ [HMSET key (sorted_items {["last_apply_latency_ms" := to_string latency_ms;
                                    "max_apply_latency_ms" := to_string maximum]})]).

Definition recordApplyCountersOnce (marker : string) (marker_fields : gmap string string)
    (key : string) (increments : gmap string Z) (latency_ms : Z)
    (env : nat -> interference) : prog DB bool :=
  if decide (latency_ms < 0)%Z then
    throw (InvalidArgument "device apply latency must not be negative")
  else watch_loop kMaxWatchRetries [marker; key]
    "Redis apply counter publication exceeded retry limit"
    (unless_marked marker marker_fields (apply_counter_cmds key increments latency_ms)) env.

(** ** Versioned hashes *)

(** The commands for one hash: none when the stored version is newer. *)
Definition versioned_cmds (version : Z) (db : DB) (kfs : string * gmap string string)
    : result (list redis_cmd) :=
  let '(key, fs) := kfs in
  match fs !! "desired_version" with
  | Some v =>
      z ← stoull v;
      if decide (z <> version) then
        Throw (InvalidArgument "versioned Redis hash does not match marker desired_version")
      else Ok tt
  | None => Ok tt
  end ;;
  publish ← match hgetall key db !! "desired_version" with
            | None => Ok true
            | Some v => z ← stoull v; Ok (bool_decide (z <= version)%Z)
            end;
  Ok (if publish : bool then replace_hash key fs else []).

Definition putVersionedHashesAtomicallyIfMarkerAbsent (marker : string)
    (marker_fields : gmap string string) (hashes : list (string * gmap string string))
    (env : nat -> interference) : prog DB bool :=
  match marker_fields !! "desired_version" with
  | None => throw (InvalidArgument "versioned Redis hash marker is missing desired_version")
  | Some text =>
      version ← lift (stoull text);
      watch_loop kMaxWatchRetries (marker :: hashes.*1)
        "Redis versioned hash publication exceeded retry limit"
        (unless_marked marker marker_fields
           (fun db => @concat _ <$> mapM (versioned_cmds version db) hashes)) env
  end.
End Transactions.

(** ** Key scans

    [scan n cursor] is the reply to the n-th SCAN call, sent with that cursor. *)
Section Scan.
Variable scan : nat -> Z -> Z * list string.

Fixpoint collect_page (max_results : nat) (page : list string) (seen : gset string)
    (keys : list string) : result (gset string * list string) :=
  match page with
  | [] => Ok (seen, keys)
  | key :: page' =>
      if decide (key ∈ seen) then collect_page max_results page' seen keys
      else if decide (length keys = max_results) then
        Throw (RuntimeError "Redis key scan exceeded result bound")
      else collect_page max_results page' ({[key]} ∪ seen) (keys ++ [key])
  end.

(** [pages] is how many pages may still be read: the code counts up to 4096. *)
Fixpoint scan_loop (pages call : nat) (max_results : nat) (cursor : Z) (seen : gset string)
    (keys : list string) : result (list string) :=
  match pages with
  | O => Throw (RuntimeError "Redis key scan exceeded page bound")
  | S pages' =>
      let '(cursor', page) := scan call cursor in
      '(seen', keys') ← collect_page max_results page seen keys;
      if decide (cursor' = 0%Z) then Ok keys'
      else scan_loop pages' (S call) max_results cursor' seen' keys'
  end.

Definition kMaxScanPages : nat := Z.to_nat 4096.

Definition scanKeys (pattern : string) (max_results : nat) : result (list string) :=
  if decide (pattern = "" \/ max_results = 0) then
    Throw (InvalidArgument "Redis key scan requires a pattern and positive bound")
  else merge_sort String.le <$> scan_loop kMaxScanPages 0 max_results 0 ∅ [].
End Scan.

(** ** Consumer groups *)
Section Groups.
Context {DB : Type} `{RedisGroups DB}.

(** Whether the text holds [p]: [s.find(p) != npos]. *)
Fixpoint contains (p s : string) : bool :=
  match strip_prefix p s with
  | Some _ => true
  | None => match s with EmptyString => false | String _ s' => contains p s' end
  end.

Definition createConsumerGroup (stream group start_id : string) : prog DB unit := fun db =>
  match xgroup_create stream group start_id db with
  | (Throw (ReplyError text), db') =>
      if contains "BUSYGROUP" text then (Ok tt, db') else (Throw (ReplyError text), db')
  | r => r
  end.

Definition parse_messages (items : list (string * gmap string string))
    : result (list StreamMessage) :=
  mapM (fun '(m, fs) => e ← parseEvent fs; Ok (mkStreamMessage m e)) items.

(** [static_cast<long long>] of a [size_t] *)
Definition long_of_size (n : Z) : Z := if decide (n < 2 ^ 63)%Z then n else (n - 2 ^ 64)%Z.

Definition readGroup (stream group consumer : string) (count : Z)
    : prog DB (list StreamMessage) := fun db =>
  let '(raw, db') := xreadgroup group consumer stream (long_of_size count) db in
  (match raw !! stream with None => Ok [] | Some items => parse_messages items end, db').

(** The script reads only while nothing is pending. *)
Definition read_group_if_no_pending_script (stream group consumer : string) (count : Z)
    (db : DB) : gmap string (list (string * gmap string string)) * DB :=
  if decide (xpending_count stream group db <> 0%Z) then (∅, db)
  else xreadgroup group consumer stream count db.

Definition readGroupIfNoPending (stream group consumer : string) (count : Z)
    : prog DB (list StreamMessage) := fun db =>
  if decide (count = 0%Z) then
    (Throw (InvalidArgument "serialized stream read count must be positive"), db)
  else
    let '(raw, db') := read_group_if_no_pending_script stream group consumer count db in
    (match raw !! stream with None => Ok [] | Some items => parse_messages items end, db').

(** The entries idle for long enough, up to [count] of them. *)
Fixpoint idle_ids (min_idle : Z) (count : nat) (pending : list (string * string * Z * Z))
    : list string :=
  match pending with
  | [] => []
  | (m, owner, idle_ms, deliveries) :: pending' =>
      if decide (min_idle <= idle_ms)%Z then
        match count with
        | O => []
        | S O => [m]
        | S count' => m :: idle_ids min_idle count' pending'
        end
      else idle_ids min_idle count pending'
  end.

Definition claimPending (stream group consumer : string) (min_idle : Z) (count : Z)
    : prog DB (list StreamMessage) := fun db =>
  if decide (count = 0 \/ min_idle < 0)%Z then
    (Throw (InvalidArgument
       "pending claim count must be positive and idle non-negative"), db)
  else
    let scan_count := Z.min 100 (u64 (count * 10)) in
    let pending := xpending_range stream group scan_count db in
    match idle_ids min_idle (Z.to_nat count) pending with
    | [] => (Ok [], db)
    | ids =>
        let '(claimed, db') := xclaim stream group consumer min_idle ids db in
        (parse_messages claimed, db')
    end.

Definition acknowledge (stream group message : string) : prog DB Z := fun db =>
  let '(n, db') := xack stream group message db in (Ok n, db').

Definition pendingCount (stream group : string) : prog DB Z :=
  gets (xpending_count stream group).
End Groups.
