(* ===== verification/RedisRepositoryProps.v ===== *)
(** * Properties of the Redis repository: optimistic transactions commit once, versions
    never go back, counters count exactly. *)
From S2P Require Import Prelude Redis RedisRepository.
From stdpp Require Import options.

(** Commands other clients may run in an environment. *)
Definition env_cmd (env : nat -> interference) (c : redis_cmd) : Prop :=
  exists k, c ∈ others_of (env k).

Section Watch.
Context {DB : Type} {R : Redis DB}.

Lemma watch_conflict_false watched others :
  watch_conflict watched others = false ->
  forall c, c ∈ others -> (target c ∉ watched).
Proof.
  unfold watch_conflict. rewrite <-not_true_iff_false, existsb_exists.
  intros Hn c Hc Ht. apply Hn. exists c. split; [by apply list_elem_of_In|].
  by apply bool_decide_eq_true.
Qed.

(** [body] depends on the watched keys only. *)
Definition reads_only (watched : list string) {A} (body : DB -> A) : Prop :=
  forall c db, (target c ∉ watched) -> body (execute c db) = body db.

Lemma reads_only_run {A} watched (body : DB -> A) cs db :
  reads_only watched body -> (forall c, c ∈ cs -> (target c ∉ watched)) ->
  body (run_cmds cs db) = body db.
Proof.
  intros Hb. revert db. induction cs as [|c cs IH]; intros db Hcs; [done|].
  change (run_cmds (c :: cs) db) with (run_cmds cs (execute c db)).
  rewrite IH by set_solver. apply Hb. set_solver.
Qed.

(** What a call of the loop can have done once the others' commands gave [db]: nothing,
    or one commit of the commands [body] chose there. *)
Inductive loop_outcome (body : DB -> result (option (list redis_cmd))) (db : DB)
    : result bool -> DB -> Prop :=
  | LoopCommitted cs : body db = Ok (Some cs) -> loop_outcome body db (Ok true) (run_cmds cs db)
  | LoopDeclined : body db = Ok None -> loop_outcome body db (Ok false) db
  | LoopFailed e : loop_outcome body db (Throw e) db
  | LoopReplyLost cs :
      body db = Ok (Some cs) -> loop_outcome body db (Throw connection_lost) (run_cmds cs db).

Lemma watch_loop_outcome n watched msg body env db r db' :
  reads_only watched body ->
  watch_loop n watched msg body env db = (r, db') ->
  exists others, Forall (env_cmd env) others /\
    loop_outcome body (run_cmds others db) r db'.
Proof.
  intros Hbody. revert env db. induction n as [|n IH]; intros env db; simpl.
  { intros [= <- <-]. exists []. split; [constructor|]. apply LoopFailed. }
  set (i := env 0). rewrite <-run_cmds_app. set (o1 := before_watch i ++ before_reads i).
  assert (forall o, o ⊆ others_of i -> Forall (env_cmd env) o) as Hown.
  { intros o Ho. apply Forall_forall. intros c Hc. exists 0. by apply Ho. }
  assert (Forall (env_cmd env) o1) as Ho1 by (apply Hown; set_solver).
  assert (Forall (env_cmd env) (o1 ++ before_exec i)) as Ho2 by (apply Hown; set_solver).
  destruct (body (run_cmds o1 db)) as [[cs|]|e] eqn:Hb.
  2: { intros [= <- <-]. exists o1. split; [done|]. by constructor. }
  2: { intros [= <- <-]. exists o1. split; [done|]. constructor. }
  assert (watch_conflict watched (before_reads i ++ before_exec i) = false ->
          body (run_cmds (o1 ++ before_exec i) db) = Ok (Some cs)) as Hstable.
  { intros Hw. rewrite run_cmds_app, <-Hb. eapply reads_only_run; [done|].
    intros c Hc. eapply watch_conflict_false; [done|]. set_solver. }
  assert (watch_loop n watched msg body (fun k => env (S k))
            (run_cmds (before_exec i) (run_cmds o1 db)) = (r, db') ->
          exists others, Forall (env_cmd env) others /\
    loop_outcome body (run_cmds others db) r db') as Hnext.
  { rewrite <-run_cmds_app. intros (o & Ho & Hout)%IH.
    exists ((o1 ++ before_exec i) ++ o). split.
    - apply Forall_app. split; [done|]. eapply Forall_impl; [exact Ho|].
      intros c [k Hk]. by exists (S k).
    - by rewrite run_cmds_app. }
  rewrite <-run_cmds_app in *.
  destruct (exec_ends i) eqn:He, (watch_conflict _ _) eqn:Hw;
    intros Hrun; try (by apply Hnext); simpl in Hrun; injection Hrun as <- <-;
    exists (o1 ++ before_exec i); (split; [done|]);
    first [by constructor; apply Hstable | by apply LoopReplyLost; apply Hstable
          | apply LoopFailed].
Qed.

(** The loop gives up only when every attempt met a conflict. *)
Lemma watch_loop_progress n watched msg body env db k :
  k < n -> exec_ends (env k) = Replied ->
  watch_conflict watched (before_reads (env k) ++ before_exec (env k)) = false ->
  (forall j, j < k -> exec_ends (env j) = Replied) ->
  (forall db, is_ok (body db) = true) ->
  is_ok (watch_loop n watched msg body env db).1 = true.
Proof.
  intros Hk He Hw Hbefore Hbody. revert env db k Hk He Hw Hbefore.
  induction n as [|n IH]; intros env db k Hk He Hw Hbefore; [lia|]. simpl.
  pose proof (Hbody (run_cmds (before_reads (env 0)) (run_cmds (before_watch (env 0)) db))) as Hb.
  destruct (body _) as [[cs|]|e]; [|done|done].
  destruct k as [|k].
  - by rewrite He, Hw.
  - rewrite (Hbefore 0) by lia.
    destruct (watch_conflict _ (before_reads (env 0) ++ _)); [|done].
    apply (IH (fun j => env (S j)) _ k); [lia|done|done|]. intros j Hj. apply Hbefore. lia.
Qed.
End Watch.

(** ** Marked transactions, called again and again

    A consumer repeats a call until it returns, after restarts too.  [run_calls] is that
    sequence of calls: an environment per call, the result of each and the database. *)
Fixpoint run_calls {DB} (op : (nat -> interference) -> prog DB bool)
    (envs : list (nat -> interference)) (db : DB) : list (result bool) * DB :=
  match envs with
  | [] => ([], db)
  | env :: envs' =>
      let '(r, db1) := op env db in
      let '(rs, db2) := run_calls op envs' db1 in (r :: rs, db2)
  end.

Section Marked.
Context {DB : Type} {R : Redis DB} {RL : RedisLaws DB}.
Variable marker : string.
Variable marker_fields : gmap string string.
Variable effects : DB -> result (list redis_cmd).
Hypothesis Hfields : marker_fields <> ∅.
Hypothesis Heffects : forall db cs, effects db = Ok cs -> (marker ∉ (target <$> cs)).
(** What the other clients do: anything, but they never delete the marker. *)
Variable allowed : redis_cmd -> Prop.
Hypothesis Hallowed : forall c, allowed c -> c <> DEL marker.
#[local] Set Default Proof Using "Type*".

Let mark : redis_cmd := HMSET marker (sorted_items marker_fields).
Let body := unless_marked marker marker_fields effects.

Lemma sorted_items_ne {A} (m : gmap string A) : m <> ∅ -> sorted_items m <> [].
Proof using.
  intros Hm Hs. apply Hm. apply map_to_list_empty_iff.
  apply Permutation_nil. rewrite <-sorted_items_perm. by rewrite Hs.
Qed.

Lemma exists_key_keeps k cs (db : DB) :
  Forall (fun c => c <> DEL k) cs -> exists_key k db = true ->
  exists_key k (run_cmds cs db) = true.
Proof using RL.
  revert db. induction cs as [|c cs IH]; intros db Hcs Hk; [done|].
  apply Forall_cons in Hcs as [Hc Hcs]. apply IH; [done|]. unfold exists_key in *.
  rewrite negb_true_iff, bool_decide_eq_false in *. by rewrite execute_keeps.
Qed.

Lemma body_inv db ocs :
  body db = Ok ocs ->
  match ocs with
  | None => exists_key marker db = true
  | Some cs => exists_key marker db = false /\ exists es, effects db = Ok es /\ cs = es ++ [mark]
  end.
Proof using.
  unfold body, unless_marked. destruct (exists_key marker db); [by intros [= <-]|].
  destruct (effects db) as [es|e]; simpl; [|done]. intros [= <-]. eauto.
Qed.

Lemma commit_marks db es :
  exists_key marker db = false -> effects db = Ok es ->
  exists_key marker (run_cmds (es ++ [mark]) db) = true.
Proof using RL Hfields Heffects.
  intros Hm Hes. rewrite run_cmds_app. unfold exists_key in *.
  rewrite negb_true_iff, negb_false_iff, bool_decide_eq_true, bool_decide_eq_false in *.
  destruct (run_cmds_frame es marker db (Heffects _ _ Hes)) as (Ht & _ & _).
  change (run_cmds [mark] (run_cmds es db)) with (execute mark (run_cmds es db)).
  unfold mark. rewrite hmset_type; [done|by apply sorted_items_ne|]. by rewrite Ht, Hm.
Qed.

Lemma marker_keeps others db :
  Forall allowed others -> exists_key marker db = true ->
  exists_key marker (run_cmds others db) = true.
Proof using RL Hallowed.
  intros Ho. apply exists_key_keeps. eapply Forall_impl; [exact Ho|exact Hallowed].
Qed.

(** What repeated calls have done: until the commit they failed, after it they say false. *)
Inductive calls_outcome (db : DB) (rs : list (result bool)) (db' : DB) : Prop :=
  | NeverCommitted others :
      Forall allowed others ->
      db' = run_cmds others db -> (Ok true ∉ rs) ->
      (Ok false ∈ rs -> exists_key marker db' = true) ->
      calls_outcome db rs db'
  | CommittedOnce o1 es o2 rs1 r rs2 :
      Forall allowed (o1 ++ o2) ->
      exists_key marker (run_cmds o1 db) = false ->
      effects (run_cmds o1 db) = Ok es ->
      db' = run_cmds o2 (run_cmds (es ++ [mark]) (run_cmds o1 db)) ->
      rs = rs1 ++ r :: rs2 -> Forall (fun r => is_ok r = false) rs1 ->
      r = Ok true \/ r = Throw connection_lost -> Forall (eq (Ok false)) rs2 ->
      calls_outcome db rs db'.

Lemma calls_outcome_failed db o e rs db' :
  Forall allowed o ->
  calls_outcome (run_cmds o db) rs db' -> calls_outcome db (Throw e :: rs) db'.
Proof.
  intros Ho [o2 Ho2 -> Hrs Hf|o1 es o2 rs1 r rs2 Ho12 Hm Hes -> -> Hrs1 Hr Hrs2].
  - apply (NeverCommitted _ _ _ (o ++ o2)); [by apply Forall_app|by rewrite run_cmds_app| |].
    + by rewrite not_elem_of_cons.
    + by intros [?|Hin]%elem_of_cons; [|apply Hf].
  - apply (CommittedOnce _ _ _ (o ++ o1) es o2 (Throw e :: rs1) r rs2);
      rewrite ?run_cmds_app; try done.
    + rewrite <-app_assoc. by apply Forall_app.
    + by constructor.
Qed.

Variable op : (nat -> interference) -> prog DB bool.
Hypothesis Hop : forall env db r db', op env db = (r, db') ->
  exists others, Forall (env_cmd env) others /\ loop_outcome body (run_cmds others db) r db'.

Definition well_behaved (env : nat -> interference) : Prop :=
  forall c, env_cmd env c -> allowed c.
Hypothesis Hop_marked : forall env db, well_behaved env -> exists_key marker db = true ->
  exists others, Forall (env_cmd env) others /\ op env db = (Ok false, run_cmds others db).

Lemma own_well_behaved env others :
  well_behaved env -> Forall (env_cmd env) others -> Forall allowed others.
Proof using. intros He Ho. eapply Forall_impl; [exact Ho|exact He]. Qed.

Lemma calls_after_marked envs db rs db' :
  Forall well_behaved envs -> exists_key marker db = true ->
  run_calls op envs db = (rs, db') ->
  Forall (eq (Ok false)) rs /\ exists others,
    Forall allowed others /\ db' = run_cmds others db.
Proof.
  revert db rs. induction envs as [|env envs IH]; intros db rs Henvs Hm; simpl.
  { intros [= <- <-]. split; [constructor|]. by exists []. }
  apply Forall_cons in Henvs as [Henv Henvs].
  destruct (Hop_marked env db Henv Hm) as (o & Ho%(own_well_behaved _ _ Henv) & ->).
  destruct (run_calls op envs (run_cmds o db)) as [rs1 db2] eqn:Hrs. intros [= <- <-].
  destruct (IH _ _ Henvs (marker_keeps _ _ Ho Hm) Hrs) as (Hf & o2 & Ho2 & ->).
  split; [by constructor|].
  exists (o ++ o2). split; [by apply Forall_app|]. by rewrite run_cmds_app.
Qed.

Lemma calls_outcome_spec envs db rs db' :
  Forall well_behaved envs -> run_calls op envs db = (rs, db') -> calls_outcome db rs db'.
Proof.
  revert db rs. induction envs as [|env envs IH]; intros db rs Henvs; simpl.
  { intros [= <- <-]. apply (NeverCommitted _ _ _ []); [done|done|set_solver|set_solver]. }
  apply Forall_cons in Henvs as [Henv Henvs].
  destruct (op env db) as [r db1] eqn:Hr. apply Hop in Hr as (o & Ho & Hout).
  apply (own_well_behaved _ _ Henv) in Ho.
  destruct (run_calls op envs db1) as [rs1 db2] eqn:Hrs. intros [= <- <-].
  assert (forall cs, body (run_cmds o db) = Ok (Some cs) -> db1 = run_cmds cs (run_cmds o db) ->
    (r = Ok true \/ r = Throw connection_lost) -> calls_outcome db (r :: rs1) db2) as Hcommit.
  { intros cs (Hm & es & Hes & ->)%body_inv Hdb1 Hr.
    rewrite Hdb1 in Hrs. pose proof (commit_marks _ _ Hm Hes) as Hm1.
    destruct (calls_after_marked _ _ _ _ Henvs Hm1 Hrs) as (Hf & o2 & Ho2 & ->).
    apply (CommittedOnce _ _ _ o es o2 [] r rs1); try done. by apply Forall_app. }
  inversion Hout as [cs Hb|Hb|e|cs Hb]; subst r db1; eauto.
  - apply body_inv in Hb.
    destruct (calls_after_marked _ _ _ _ Henvs Hb Hrs) as (Hf & o2 & Ho2 & ->).
    apply (NeverCommitted _ _ _ (o ++ o2));
      [by apply Forall_app|by rewrite run_cmds_app| |].
    + rewrite not_elem_of_cons. split; [done|]. rewrite Forall_forall in Hf.
      intros Hin. by specialize (Hf _ Hin).
    + intros _. by apply marker_keeps.
  - eapply calls_outcome_failed; [done|]. by apply IH.
Qed.
End Marked.

(** A watched loop over a marked body is such an operation. *)
Lemma watch_loop_marked {DB} `{RedisLaws DB} n watched msg marker mf eff allowed env (db : DB) :
  0 < n -> (forall c, allowed c -> c <> DEL marker) -> well_behaved allowed env ->
  exists_key marker db = true ->
  exists others, Forall (env_cmd env) others /\
    watch_loop n watched msg (unless_marked marker mf eff) env db = (Ok false, run_cmds others db).
Proof.
  intros Hn Ha He Hm. destruct n as [|n]; [lia|]. simpl. rewrite <-run_cmds_app.
  assert (Forall (env_cmd env) (before_watch (env 0) ++ before_reads (env 0))) as Ho.
  { apply Forall_forall. intros c Hc. exists 0. unfold others_of. set_solver. }
  eexists. split; [exact Ho|]. unfold unless_marked at 1.
  rewrite exists_key_keeps; [done| |done]. eapply Forall_impl; [exact Ho|].
  intros c Hc. by apply Ha, He.
Qed.
