(* ===== verification/RedisOnce.v ===== *)
(** * Publications with a marker, and versioned hashes, happen at most once and never go
    back, whatever replies are lost. *)
From S2P Require Import Prelude Redis RedisRepository RedisRepositoryProps.
From stdpp Require Import options.

Lemma replace_hash_targets key fs c : c ∈ replace_hash key fs -> target c = key.
Proof. unfold replace_hash. case_decide; set_solver. Qed.

(** The results of repeated calls, when [n] of them can have committed. *)
Lemma count_true_zero rs : (Ok true ∉ rs) -> filter (eq (Ok true)) rs = [].
Proof.
  induction rs as [|r rs IH]; [done|]. rewrite not_elem_of_cons. intros [Hr Hrs].
  rewrite filter_cons_False by done. by apply IH.
Qed.

Lemma count_true_le_one rs1 r rs2 :
  Forall (fun r => is_ok r = false) rs1 -> Forall (eq (Ok false)) rs2 ->
  length (filter (eq (Ok true)) (rs1 ++ r :: rs2)) <= 1.
Proof.
  rewrite !Forall_forall. intros H1 H2.
  rewrite filter_app, filter_cons, (count_true_zero rs1), (count_true_zero rs2).
  - case_decide; simpl; lia.
  - intros Hin. by specialize (H2 _ Hin).
  - intros Hin. by specialize (H1 _ Hin).
Qed.

(** A command that does not delete the key. *)
Definition spares (key : string) (c : redis_cmd) : Prop := c <> DEL key.

Section Once.
Context {DB : Type} {R : Redis DB} {RL : RedisLaws DB}.
#[local] Set Default Proof Using "Type*".

(** ** Auxiliary facts *)
Lemma reads_only_marked watched marker mf eff :
  marker ∈ watched -> reads_only watched eff ->
  reads_only watched (unless_marked marker mf eff).
Proof.
  intros Hm Heff c db Hc. unfold unless_marked, exists_key.
  destruct (execute_frame c marker db) as (-> & _ & _); [set_solver|]. by rewrite Heff.
Qed.

Lemma once_calls watched msg marker mf eff allowed envs db rs db' :
  mf <> ∅ -> (forall db cs, eff db = Ok cs -> (marker ∉ (target <$> cs))) ->
  marker ∈ watched -> reads_only watched eff ->
  (forall c, allowed c -> c <> DEL marker) -> Forall (well_behaved allowed) envs ->
  run_calls (watch_loop kMaxWatchRetries watched msg (unless_marked marker mf eff)) envs db
    = (rs, db') ->
  calls_outcome marker mf eff allowed db rs db'.
Proof.
  intros Hmf Heff Hm Hro Hall Henvs Hrun. eapply calls_outcome_spec; try done.
  - intros env db0 r db0' H. eapply watch_loop_outcome; [|exact H].
    by apply reads_only_marked.
  - intros env db0 He Hex. eapply watch_loop_marked; [unfold kMaxWatchRetries; lia|done..].
Qed.

Lemma replace_hash_run key fs db :
  hgetall key (run_cmds (replace_hash key fs) db) = fs.
Proof.
  unfold replace_hash. destruct (decide (fs = ∅)) as [->|Hfs].
  - apply del_empty.
  - change (run_cmds _ db) with (execute (HMSET key (sorted_items fs)) (execute (DEL key) db)).
    rewrite execute_hmset; [|by apply sorted_items_ne|by rewrite execute_del].
    destruct (del_empty key db) as [-> _]. by rewrite assign_sorted_items, (right_id_L ∅ (∪)).
Qed.

(** ** One publication *)

(** C23: a caller may repeat [replaceHashAndAppendEventOnce] as often as it likes, through
    lost replies and conflicting clients, as long as nobody deletes the marker: the final
    database is that of the other clients' commands with the whole transaction (the new
    hash, the event, the marker) run at one point at most, where the marker did not exist.
    At most one call answers true, and once a call has answered the transaction has run or
    the marker was there. *)
Theorem publication_happens_once marker mf key fs stream e envs db rs db' :
  mf <> ∅ -> marker <> key -> marker <> stream -> validateEvent e = Ok tt ->
  Forall (well_behaved (spares marker)) envs ->
  run_calls (replaceHashAndAppendEventOnce marker mf key fs stream e) envs db = (rs, db') ->
  exists before after (committed : bool),
    let transaction := replace_hash key fs ++ [XADD stream (eventFields e);
                                               HMSET marker (sorted_items mf)] in
    db' = run_cmds after (run_cmds (if committed then transaction else [])
                            (run_cmds before db)) /\
    Forall (spares marker) (before ++ after) /\
    (committed = true -> exists_key marker (run_cmds before db) = false) /\
    (Ok true ∈ rs -> committed = true) /\
    (Exists (fun r => is_ok r = true) rs -> exists_key marker db' = true) /\
    length (filter (eq (Ok true)) rs) <= 1.
Proof.
  intros Hmf Hk Hs He Henvs Hrun. unfold replaceHashAndAppendEventOnce in Hrun.
  rewrite He in Hrun.
  assert (forall cs, (Ok (replace_hash key fs ++ [XADD stream (eventFields e)]) : result _) = Ok cs ->
    (marker ∉ (target <$> cs))) as Heff.
  { set (queued := replace_hash key fs ++ _). intros cs [= <-]. unfold queued.
    rewrite list_elem_of_fmap. intros (c & Hc & Hin).
    apply elem_of_app in Hin as [Hin%replace_hash_targets|Hin]; [by subst|].
    apply list_elem_of_singleton in Hin. by subst. }
  eapply (once_calls _ _ _ _ _ (spares marker)) in Hrun; try done; [|set_solver].
  destruct Hrun as [o Ho -> Hnt Hf|o1 es o2 rs1 r rs2 Ho Hm Hes -> -> Hrs1 Hr Hrs2].
  - exists o, [], false. split_and!; try done.
    + by rewrite app_nil_r.
    + intros (r & Hr & Hok)%Exists_exists. destruct r as [[]|]; [done|by apply Hf|done].
    + rewrite count_true_zero by done. simpl. lia.
  - pose proof (commit_marks _ _ _ Hmf (fun _ => Heff) (run_cmds o1 db) es Hm Hes) as Hmarked.
    apply Ok_inj in Hes as <-.
    exists o1, o2, true. rewrite <-app_assoc in Hmarked |- *. split_and!; try done.
    + intros _. apply exists_key_keeps; [by apply Forall_app in Ho as [_ Ho]|done].
    + by apply count_true_le_one.
Qed.

(** ** Counters *)
Definition counter_cmd (fn : string * Z) (key : string) : option redis_cmd :=
  if decide (fn.2 <> 0%Z) then Some (HINCRBY key fn.1 fn.2) else None.

Lemma increment_cmds_alt key increments :
  increment_cmds key increments = omap (fun fn => counter_cmd fn key) (sorted_items increments).
Proof. unfold increment_cmds. apply omap_congr. by intros [f n] _. Qed.

(** The fields of [m] hold the integers [before] and have room for [l]. *)
Definition countable (before : string -> Z) (m : gmap string string)
    (l : list (string * Z)) : Prop :=
  forall f n, (f, n) ∈ l -> field_integer m f (before f) /\ is_int64 (before f) /\ is_int64 (before f + n).

Lemma run_increments key before l db :
  NoDup l.*1 -> type_of key db <> KStream -> countable before (hgetall key db) l ->
  let db' := run_cmds (omap (fun fn => counter_cmd fn key) l) db in
  type_of key db' <> KStream /\
  (forall f n, (f, n) ∈ l -> field_integer (hgetall key db') f (before f + n)) /\
  (forall f, (f ∉ l.*1) -> hgetall key db' !! f = hgetall key db !! f).
Proof.
  revert db. induction l as [|[f n] l IH]; intros db; simpl.
  { intros _ Ht _. split; [done|]. split; [|done]. intros f n H. by apply elem_of_nil in H. }
  rewrite NoDup_cons. intros [Hf Hnd] Ht Hc.
  destruct (Hc f n) as (Hfi & Hint & Hrange); [by left|].
  assert (countable before (hgetall key db) l) as Hcl by (intros ???; apply Hc; by right).
  unfold counter_cmd at 1 4 7. simpl. case_decide as Hn; cbn [run_cmds fold_left].
  - assert (hgetall key (execute (HINCRBY key f n) db)
            = <[f := to_string (before f + n)]> (hgetall key db)) as Hh
      by by apply execute_hincrby.
    assert (type_of key (execute (HINCRBY key f n) db) <> KStream) as Ht1.
    { assert (type_of key (execute (HINCRBY key f n) db) = KHash) as ->; [|done].
      apply type_hash. rewrite Hh. apply insert_non_empty. }
    destruct (IH (execute (HINCRBY key f n) db)) as (Ht2 & Hin & Hout); [done|done| |].
    { intros f' n' Hl. destruct (Hcl f' n' Hl) as (Hfi' & ? & ?). split; [|done].
      unfold field_integer. rewrite Hh, lookup_insert_ne; [exact Hfi'|].
      intros ->. apply Hf, list_elem_of_fmap. by exists (f', n'). }
    split; [done|]. split.
    + intros f' n' [[= -> ->]|Hl]%elem_of_cons; [|by apply Hin].
      unfold field_integer, run_cmds in *. by rewrite Hout, Hh, lookup_insert_eq.
    + intros f' [Hne Hl]%not_elem_of_cons. unfold run_cmds in *.
      by rewrite Hout, Hh, lookup_insert_ne.
  - destruct (IH db) as (Ht2 & Hin & Hout); [done..|]. split; [done|]. split.
    + intros f' n' [[= -> ->]|Hl]%elem_of_cons; [|by apply Hin].
      assert (n = 0)%Z as -> by lia. rewrite Z.add_0_r.
      unfold field_integer, run_cmds in *. by rewrite Hout.
    + intros f' [_ Hl]%not_elem_of_cons. by apply Hout.
Qed.

Lemma increment_cmds_targets key increments c :
  c ∈ increment_cmds key increments -> target c = key.
Proof.
  rewrite increment_cmds_alt, list_elem_of_omap. intros (fn & _ & Hc).
  unfold counter_cmd in Hc. case_decide; by simplify_eq.
Qed.

Lemma apply_counter_cmds_targets key increments latency db cs c :
  apply_counter_cmds key increments latency db = Ok cs -> c ∈ cs -> target c = key.
Proof.
  unfold apply_counter_cmds. rewrite result_bind_Ok. intros (m & _ & <-%Ok_inj).
  intros [Hc|Hc]%elem_of_app; [by eapply increment_cmds_targets|].
  apply list_elem_of_singleton in Hc. by subst.
Qed.

Lemma apply_counter_cmds_reads marker key increments latency :
  reads_only [marker; key] (apply_counter_cmds key increments latency).
Proof.
  intros c db Hc. unfold apply_counter_cmds.
  destruct (execute_frame c key db) as (_ & -> & _); [set_solver|done].
Qed.

Definition latency_fields : list string := ["last_apply_latency_ms"; "max_apply_latency_ms"].

(** One run of the transaction: exact increments, and the maximum of the latencies. *)
Lemma apply_counters_effect key increments latency before db cs :
  type_of key db <> KStream -> countable before (hgetall key db) (sorted_items increments) ->
  (forall f, f ∈ latency_fields -> increments !! f = None) ->
  (0 <= before "max_apply_latency_ms")%Z -> (0 <= latency)%Z ->
  (before "max_apply_latency_ms" < 2 ^ 63)%Z ->
  field_integer (hgetall key db) "max_apply_latency_ms" (before "max_apply_latency_ms") ->
  apply_counter_cmds key increments latency db = Ok cs ->
  let m := hgetall key (run_cmds cs db) in
  (forall f n, increments !! f = Some n -> field_integer m f (before f + n)) /\
  m !! "last_apply_latency_ms" = Some (to_string latency) /\
  field_integer m "max_apply_latency_ms" (Z.max latency (before "max_apply_latency_ms")) /\
  (forall f, increments !! f = None -> (f ∉ latency_fields) -> m !! f = hgetall key db !! f).
Proof.
  intros Ht Hc Hdisj Hmax0 Hlat Hmax63 Hmax Hcs.
  assert (cs = increment_cmds key increments ++ [HMSET key (sorted_items
    {["last_apply_latency_ms" := to_string latency;
      "max_apply_latency_ms" := to_string (Z.max latency (before "max_apply_latency_ms"))]})]) as ->.
  { unfold apply_counter_cmds in Hcs. apply result_bind_Ok in Hcs as (m & Hm & <-%Ok_inj).
    unfold field_integer in Hmax. destruct (hgetall key db !! "max_apply_latency_ms") as [t|].
    - subst t. rewrite stoll_to_string in Hm by lia. by injection Hm as <-.
    - injection Hm as <-. by replace (Z.max _ _) with latency by lia. }
  rewrite increment_cmds_alt, run_cmds_app.
  destruct (run_increments key before (sorted_items increments) db) as (Ht1 & Hin & Hout);
    [apply sorted_items_keys_NoDup|done|done|].
  set (db1 := run_cmds (omap _ _) db) in *.
  assert (forall f, increments !! f = None -> (f ∉ (sorted_items increments).*1)) as Hnot.
  { intros f Hf ([f' n] & -> & Hin')%list_elem_of_fmap.
    apply elem_of_sorted_items in Hin'. simpl in Hf. congruence. }
  cbn [run_cmds fold_left]. unfold run_cmds. cbn [fold_left].
  rewrite execute_hmset; [|apply sorted_items_ne, insert_non_empty|done].
  rewrite assign_sorted_items. split_and!.
  - intros f n Hf. unfold field_integer. rewrite lookup_union_r.
    + apply Hin. by apply elem_of_sorted_items.
    + rewrite lookup_insert_None, lookup_singleton_None. split; intros <-;
        (rewrite Hdisj in Hf; [done|set_solver]).
  - by apply lookup_union_Some_l.
  - unfold field_integer. by erewrite lookup_union_Some_l.
  - intros f Hf Hl. rewrite lookup_union_r.
    + apply Hout. by apply Hnot.
    + rewrite lookup_insert_None, lookup_singleton_None. set_solver.
Qed.

(** A command that touches none of the keys. *)
Definition apart (keys : list string) (c : redis_cmd) : Prop := (target c ∉ keys).

Lemma apart_run keys others k db :
  Forall (apart keys) others -> k ∈ keys ->
  type_of k (run_cmds others db) = type_of k db /\
  hgetall k (run_cmds others db) = hgetall k db.
Proof.
  intros Ho Hk. destruct (run_cmds_frame others k db) as (? & ? & _); [|done].
  intros (c & -> & Hc)%list_elem_of_fmap. rewrite Forall_forall in Ho. by apply (Ho c).
Qed.

(** C30: repeated calls of [recordApplyCountersOnce], whatever replies are lost, add every
    increment exactly once or not at all, and once a call has answered they have been
    added.  With them, the last latency is recorded and the recorded maximum becomes the
    larger of the two; every other field of the hash is left alone. *)
Theorem counters_count_once marker mf key increments latency envs before db rs db' :
  mf <> ∅ -> marker <> key -> (0 <= latency)%Z ->
  exists_key marker db = false -> type_of key db <> KStream ->
  countable before (hgetall key db) (sorted_items increments) ->
  (forall f, f ∈ latency_fields -> increments !! f = None) ->
  (0 <= before "max_apply_latency_ms" < 2 ^ 63)%Z ->
  field_integer (hgetall key db) "max_apply_latency_ms" (before "max_apply_latency_ms") ->
  Forall (well_behaved (apart [marker; key])) envs ->
  run_calls (recordApplyCountersOnce marker mf key increments latency) envs db = (rs, db') ->
  exists committed : bool,
    (Exists (fun r => is_ok r = true) rs -> committed = true) /\
    if committed then
      (forall f n, increments !! f = Some n ->
         field_integer (hgetall key db') f (before f + n)) /\
      hgetall key db' !! "last_apply_latency_ms" = Some (to_string latency) /\
      field_integer (hgetall key db') "max_apply_latency_ms"
        (Z.max latency (before "max_apply_latency_ms")) /\
      (forall f, increments !! f = None -> (f ∉ latency_fields) ->
         hgetall key db' !! f = hgetall key db !! f)
    else hgetall key db' = hgetall key db.
Proof.
  intros Hmf Hk Hlat Hm Ht Hc Hdisj [Hmax0 Hmax63] Hmax Henvs Hrun.
  unfold recordApplyCountersOnce in Hrun. destruct (decide (latency < 0)%Z); [lia|].
  eapply (once_calls _ _ _ _ _ (apart [marker; key])) in Hrun; try done.
  - destruct Hrun as [o Ho -> Hnt Hf|o1 es o2 rs1 r rs2 [Ho1 Ho2]%Forall_app Hm1 Hes -> -> Hrs1 Hr Hrs2].
    + exists false. split; [|apply (apart_run _ _ _ _ Ho); set_solver].
      intros (r & Hr & Hok)%Exists_exists.
      destruct r as [[]|]; [done| |done]. specialize (Hf Hr). unfold exists_key in *.
      destruct (apart_run _ _ marker db Ho) as [Hty _]; [set_solver|].
      rewrite Hty in Hf. congruence.
    + exists true. split; [done|].
      destruct (apart_run _ _ key db Ho1) as [Ht1 Hh1]; [set_solver|].
      destruct (apart_run _ _ key (run_cmds (es ++ [HMSET marker (sorted_items mf)])
        (run_cmds o1 db)) Ho2) as [_ ->]; [set_solver|].
      rewrite run_cmds_app.
      destruct (run_cmds_frame [HMSET marker (sorted_items mf)] key
        (run_cmds es (run_cmds o1 db))) as (_ & -> & _); [set_solver|].
      rewrite <-Hh1. rewrite <-Hh1 in Hc, Hmax. rewrite <-Ht1 in Ht.
      by eapply apply_counters_effect.
  - intros db0 cs Hcs (c & -> & Hin)%list_elem_of_fmap.
    apply Hk. by eapply apply_counter_cmds_targets.
  - set_solver.
  - apply apply_counter_cmds_reads.
  - intros c Hapart ->. apply Hapart. set_solver.
Qed.
End Once.

(** The version a stored hash carries. *)
Definition stored_version (m : gmap string string) (z : Z) : Prop :=
  exists t, m !! "desired_version" = Some t /\ stoull t = Ok z.

Section Versions.
Context {DB : Type} {R : Redis DB} {RL : RedisLaws DB}.
#[local] Set Default Proof Using "Type*".

Lemma stored_version_fun m z1 z2 : stored_version m z1 -> stored_version m z2 -> z1 = z2.
Proof using. intros (t1 & H1 & E1) (t2 & H2 & E2). congruence. Qed.

(** What the commands for one hash do, given that they were computed. *)
Lemma versioned_cmds_cases v (db0 : DB) key fs cs :
  versioned_cmds v db0 (key, fs) = Ok cs ->
  (forall z, stored_version fs z -> z = v) /\
  (fs !! "desired_version" <> None -> stored_version fs v) /\
  ((cs = [] /\ exists z, stored_version (hgetall key db0) z /\ (v < z)%Z) \/
   (cs = replace_hash key fs /\ forall z, stored_version (hgetall key db0) z -> (z <= v)%Z)).
Proof using.
  unfold versioned_cmds. rewrite result_bind_Ok. intros ([] & Hfs & Hcs).
  assert ((forall z, stored_version fs z -> z = v)
    /\ (fs !! "desired_version" <> None -> stored_version fs v)) as [H1 H2].
  { unfold stored_version. destruct (fs !! "desired_version") as [t|].
    - apply result_bind_Ok in Hfs as (z & Hz & Hd). case_decide as Hv; [done|].
      assert (z = v) as -> by lia. split; [|eauto]. intros z (t' & [= <-] & Ht'). congruence.
    - split; [by intros z (t & ? & _)|done]. }
  split; [done|]. split; [done|].
  apply result_bind_Ok in Hcs as (publish & Hp & <-%Ok_inj). unfold stored_version.
  destruct (hgetall key db0 !! "desired_version") as [t|].
  - apply result_bind_Ok in Hp as (z & Hz & <-%Ok_inj). case_bool_decide as Hle.
    + right. split; [done|]. intros z' (t' & [= <-] & Ht'). congruence.
    + left. split; [done|]. exists z. split; [eauto|lia].
  - apply Ok_inj in Hp as <-. right. split; [done|]. by intros z (t & ? & _).
Qed.

Lemma versioned_cmds_targets v (db0 : DB) kfs cs c :
  versioned_cmds v db0 kfs = Ok cs -> c ∈ cs -> target c = kfs.1.
Proof using.
  destruct kfs as [key fs]. intros Hcs%versioned_cmds_cases Hc.
  destruct Hcs as (_ & _ & [[-> _]|[-> _]]); [by apply elem_of_nil in Hc|].
  by eapply replace_hash_targets.
Qed.

Lemma versioned_targets v (db0 : DB) hashes css :
  mapM (versioned_cmds v db0) hashes = Ok css ->
  forall c, c ∈ concat css -> target c ∈ hashes.*1.
Proof using.
  revert css. induction hashes as [|h hashes IH]; intros css; simpl.
  { intros [= <-] c Hc. by apply elem_of_nil in Hc. }
  rewrite result_bind_Ok. intros (cs & Hcs & (css' & Hcss & <-%Ok_inj)%result_bind_Ok) c.
  simpl. rewrite elem_of_cons. intros [Hc|Hc]%elem_of_app.
  - left. by eapply versioned_cmds_targets.
  - right. by eapply IH.
Qed.

Lemma versioned_frame v (db0 : DB) hashes css k db :
  mapM (versioned_cmds v db0) hashes = Ok css -> (k ∉ hashes.*1) ->
  type_of k (run_cmds (concat css) db) = type_of k db /\
  hgetall k (run_cmds (concat css) db) = hgetall k db.
Proof.
  intros Hcss Hk. destruct (run_cmds_frame (concat css) k db) as (? & ? & _); [|done].
  intros (c & -> & Hc)%list_elem_of_fmap. by eapply Hk, versioned_targets.
Qed.

(** The outcome for one key of a publication. *)
Definition published (v : Z) (old fs new : gmap string string) : Prop :=
  (forall z, stored_version old z -> (v < z)%Z -> new = old) /\
  ((forall z, stored_version old z -> (z <= v)%Z) -> new = fs) /\
  (forall z, stored_version fs z -> z = v) /\
  (fs !! "desired_version" <> None ->
   exists z', stored_version new z' /\ (v <= z')%Z /\
     forall z, stored_version old z -> (z <= z')%Z).

Lemma versioned_run v db0 hashes css db :
  mapM (versioned_cmds v db0) hashes = Ok css -> NoDup hashes.*1 ->
  (forall k, k ∈ hashes.*1 -> hgetall k db = hgetall k db0) ->
  forall key fs, (key, fs) ∈ hashes ->
  published v (hgetall key db0) fs (hgetall key (run_cmds (concat css) db)).
Proof.
  revert css db. induction hashes as [|h hashes IH]; intros css db; simpl.
  { intros _ _ _ key fs H. by apply elem_of_nil in H. }
  rewrite result_bind_Ok. intros (cs & Hcs & (css' & Hcss & <-%Ok_inj)%result_bind_Ok).
  rewrite NoDup_cons. intros [Hk1 Hnd] Hsame key fs Hin. simpl. rewrite run_cmds_app.
  apply elem_of_cons in Hin as [<-|Hin].
  - simpl in Hk1. destruct (versioned_frame _ _ _ _ key (run_cmds cs db) Hcss Hk1) as [_ ->].
    destruct (versioned_cmds_cases _ _ _ _ _ Hcs) as (Hv & Hfs & Hc). unfold published.
    destruct Hc as [(-> & z & Hz & Hlt)|[-> Hle]].
    + change (run_cmds [] db) with db. rewrite Hsame by (rewrite elem_of_cons; by left). split_and!; try done.
      * intros Hle. specialize (Hle _ Hz). lia.
      * intros _. exists z. split; [done|]. split; [lia|].
        intros z' Hz'. by rewrite (stored_version_fun _ _ _ Hz Hz').
    + rewrite replace_hash_run. split_and!; try done.
      * intros z Hz Hlt. specialize (Hle _ Hz). lia.
      * intros Hne. exists v. split; [by apply Hfs|]. split; [lia|done].
  - apply IH; try done. intros k Hk. rewrite <-Hsame by (rewrite elem_of_cons; by right).
    destruct (run_cmds_frame cs k db) as (_ & -> & _); [|done].
    intros (c & -> & Hc)%list_elem_of_fmap. apply Hk1.
    by rewrite <-(versioned_cmds_targets _ _ _ _ _ Hcs Hc).
Qed.

Lemma versioned_reads marker v hashes :
  reads_only (marker :: hashes.*1)
    (fun db => @concat _ <$> mapM (versioned_cmds v db) hashes).
Proof.
  intros c db Hc. f_equal. apply mapM_congr. intros [k fs] Hin. unfold versioned_cmds.
  destruct (execute_frame c k db) as (_ & -> & _); [|done].
  intros ->. apply Hc. right. apply list_elem_of_fmap. by exists (target c, fs).
Qed.

(** C22: [putVersionedHashesAtomicallyIfMarkerAbsent] either leaves the database as the
    other clients made it or, where the marker does not exist, publishes every hash in one
    step and writes the marker: a hash whose stored version is newer keeps its fields, every
    other key gets exactly the new ones, so no stored version ever decreases and no hash is
    published under a version other than the marker's; no other key changes. *)
Theorem versions_never_go_back marker mf v hashes env db r db' :
  mf !! "desired_version" = Some (to_string v) -> is_u64 v ->
  (marker ∉ hashes.*1) -> NoDup hashes.*1 ->
  putVersionedHashesAtomicallyIfMarkerAbsent marker mf hashes env db = (r, db') ->
  exists others, Forall (env_cmd env) others /\
    let db0 := run_cmds others db in
    (r = Ok false /\ exists_key marker db0 = true /\ db' = db0) \/
    ((exists e, r = Throw e) /\ db' = db0) \/
    ((r = Ok true \/ r = Throw connection_lost) /\
     exists_key marker db0 = false /\ exists_key marker db' = true /\
     (forall key fs, (key, fs) ∈ hashes ->
        published v (hgetall key db0) fs (hgetall key db')) /\
     (forall k, k <> marker -> (k ∉ hashes.*1) -> hgetall k db' = hgetall k db0)).
Proof.
  intros Hmf Hv Hm Hnd Hrun. unfold putVersionedHashesAtomicallyIfMarkerAbsent in Hrun.
  rewrite Hmf, stoull_to_string in Hrun by done.
  assert (mf <> ∅) as Hne by (intros ->; done).
  apply watch_loop_outcome in Hrun as (others & Ho & Hout).
  2: { apply reads_only_marked; [set_solver|]. apply versioned_reads. }
  exists others. split; [done|]. set (db0 := run_cmds others db) in *. cbn zeta.
  set (eff := fun db => @concat _ <$> mapM (versioned_cmds v db) hashes) in *.
  assert (forall cs, unless_marked marker mf eff db0 = Ok (Some cs) ->
    exists_key marker db0 = false /\ exists_key marker (run_cmds cs db0) = true /\
    (forall key fs, (key, fs) ∈ hashes ->
       published v (hgetall key db0) fs (hgetall key (run_cmds cs db0))) /\
    (forall k, k <> marker -> (k ∉ hashes.*1) ->
       hgetall k (run_cmds cs db0) = hgetall k db0)) as Hcommit.
  { intros cs (Hex & es & Hes & ->)%body_inv.
    split; [done|]. split.
    { eapply commit_marks; [done| |done|exact Hes].
      intros db1 cs1 (css & Hcss & ->)%result_fmap_Ok (c & -> & Hc)%list_elem_of_fmap.
      by eapply Hm, versioned_targets. }
    apply result_fmap_Ok in Hes as (css & Hcss & ->). rewrite run_cmds_app.
    assert (forall k, k <> marker ->
      hgetall k (run_cmds [HMSET marker (sorted_items mf)] (run_cmds (concat css) db0))
      = hgetall k (run_cmds (concat css) db0)) as Hmark.
    { intros k Hk. by apply run_cmds_frame; set_solver. }
    split.
    - intros key fs Hin. rewrite Hmark; [by eapply versioned_run|].
      intros ->. apply Hm, list_elem_of_fmap. by exists (marker, fs).
    - intros k Hk Hnk. rewrite Hmark by done. by eapply versioned_frame. }
  inversion Hout as [cs Hb|Hb|e|cs Hb]; subst r db'; eauto 8.
  left. by apply body_inv in Hb.
Qed.
End Versions.
