(* ===== verification/RedisEvents.v ===== *)
(** * Events, endpoints, key scans and claims of the Redis repository. *)
From S2P Require Import Prelude Redis RedisRepository.
From stdpp Require Import options.

(** ** Events *)
Lemma required_field_Ok fs n v : fs !! n = Some v -> required_field fs n = Ok v.
Proof. unfold required_field. by intros ->. Qed.

(** An event read back from a stream is the event that was appended, whatever other
    fields the entry carries, and an entry without one of the ten fields is refused. *)
Theorem event_roundtrip e fs :
  is_u32 (event_schema_version e) -> is_u64 (timestamp_ns e) -> is_u64 (ev_desired_version e) ->
  ((list_to_map (eventFields e) : gmap string string) ⊆ fs -> parseEvent fs = Ok e) /\
  (forall n, n ∈ (eventFields e).*1 -> fs !! n = None -> is_ok (parseEvent fs) = false).
Proof.
  intros H1 H2 H3. split.
  - intros Hsub.
    assert (forall n v, (n, v) ∈ eventFields e -> required_field fs n = Ok v) as Hreq.
    { intros n v Hin. apply required_field_Ok. eapply lookup_weaken; [|exact Hsub].
      apply elem_of_list_to_map; [|done]. unfold eventFields. simpl.
      apply (bool_decide_unpack _). by vm_compute. }
    unfold parseEvent.
    repeat (erewrite Hreq by (unfold eventFields; rewrite !elem_of_cons; naive_solver); simpl).
    rewrite stoul_to_string by (unfold in_width in *; lia). simpl.
    rewrite !stoull_to_string by done. simpl. rewrite wrap_small by done. by destruct e.
  - intros n Hn Hnone. destruct (parseEvent fs) as [e'|] eqn:Hp; [exfalso|done].
    unfold parseEvent in Hp. repeat setoid_rewrite result_bind_Ok in Hp. destruct_and?.
    assert (forall m v, required_field fs m = Ok v -> m <> n) as Hne.
    { intros m v Hm ->. unfold required_field in Hm. by rewrite Hnone in Hm. }
    unfold eventFields in Hn. simpl in Hn. set_solver.
Qed.

(** ** Endpoints *)
Lemma strip_prefix_Some p s r : strip_prefix p s = Some r <-> s = p +:+ r.
Proof.
  revert s. induction p as [|a p IH]; intros s; simpl.
  { split; [by intros [= <-]|by intros ->]. }
  destruct s as [|b s]; [done|]. case_decide as Hab.
  - rewrite IH, Hab. split; [by intros ->|by intros [= ->]].
  - split; [done|]. by intros [= -> _].
Qed.

Fixpoint char_free (c : ascii) (s : string) : Prop :=
  match s with EmptyString => True | String a s' => a <> c /\ char_free c s' end.

Lemma split_last_None c s : char_free c s -> split_last c s = None.
Proof.
  induction s as [|a s IH]; [done|]. simpl. intros [Ha Hs]. rewrite IH by done.
  by rewrite decide_False.
Qed.

Lemma split_last_app c l r : char_free c r -> split_last c (l +:+ String c r) = Some (l, r).
Proof.
  intros Hr. induction l as [|a l IH]; simpl.
  - rewrite split_last_None by done. by rewrite decide_True.
  - by rewrite IH.
Qed.

Lemma split_last_Some c s l r : split_last c s = Some (l, r) -> s = l +:+ String c r.
Proof.
  revert l. induction s as [|a s IH]; intros l; simpl; [done|].
  destruct (split_last c s) as [[l' r']|].
  - intros [= <- <-]. by rewrite (IH l').
  - case_decide; [|done]. by intros [= <- <-]; subst.
Qed.

Lemma all_digits_pretty_go x s : all_digits s = true -> all_digits (pretty_N_go x s) = true.
Proof.
  revert s. induction (N.lt_wf_0 x) as [x _ IH]; intros s Hs.
  destruct (decide (0 < x)%N) as [Hp|Hp].
  - rewrite pretty_N_go_step by done. apply IH; [by apply N.div_lt|]. simpl.
    by rewrite digit_of_pretty by (by apply N.mod_lt).
  - by replace x with 0%N by lia; rewrite pretty_N_go_0.
Qed.

Lemma all_digits_to_string z : (0 <= z)%Z -> all_digits (to_string z) = true.
Proof.
  intros Hz. unfold to_string. rewrite <-(Z2N.id z) by done. generalize (Z.to_N z). intros n.
  assert (pretty (Z.of_N n) = pretty n) as -> by (by destruct n).
  unfold pretty, pretty_N. case_decide; [by subst|]. by apply all_digits_pretty_go.
Qed.

Lemma all_digits_free s : all_digits s = true -> char_free ":" s.
Proof.
  induction s as [|c s IH]; [done|]. simpl. destruct (digit_of c) eqn:Hc; [|done].
  intros Hs. split; [|by apply IH]. intros ->. done.
Qed.

Lemma from_chars_to_string z : (0 <= z < 2 ^ 31)%Z -> from_chars_int (to_string z) = Some z.
Proof.
  intros [Hz1 Hz2]. destruct (to_string_digits z Hz1) as [Hs Hh].
  pose proof (all_digits_to_string z Hz1) as Hall. unfold from_chars_int.
  destruct (to_string z) as [|c s]; [done|].
  assert (match String c s with
          | String "-"%char s' => (true, s') | _ => (false, String c s) end
          = (false, String c s)) as ->.
  { destruct Hh as [d Hd]. by destruct c as [[] [] [] [] [] [] [] []]. }
  rewrite Hall, Hs. simpl. by rewrite decide_True by lia.
Qed.

(** The endpoint a text denotes. *)
Inductive denotes : string -> RedisEndpoint -> Prop :=
  | DenotesTcp h p text :
      h <> "" -> (1 <= p <= 65535)%Z -> from_chars_int text = Some p ->
      denotes ("tcp://" +:+ h +:+ ":" +:+ text) (mkRedisEndpoint h p "" 1000 1000)
  | DenotesUnix path :
      denotes ("unix:///" +:+ path) (mkRedisEndpoint "127.0.0.1" 6379 ("/" +:+ path) 1000 1000)
  | DenotesPath path :
      denotes ("/" +:+ path) (mkRedisEndpoint "127.0.0.1" 6379 ("/" +:+ path) 1000 1000).

(** Every endpoint [parseRedisEndpoint] accepts is one the text denotes, a TCP one with
    a host and a port in 1..65535 or a socket with an absolute path; and it accepts every
    host, brackets and colons included, with every port of the range, and every path. *)
Theorem endpoint_parse_exact :
  (forall target ep, parseRedisEndpoint target = Ok ep -> denotes target ep) /\
  (forall h p, h <> "" -> (1 <= p <= 65535)%Z ->
     parseRedisEndpoint ("tcp://" +:+ h +:+ ":" +:+ to_string p)
     = Ok (mkRedisEndpoint h p "" 1000 1000)) /\
  (forall path, parseRedisEndpoint ("unix:///" +:+ path)
     = Ok (mkRedisEndpoint "127.0.0.1" 6379 ("/" +:+ path) 1000 1000)) /\
  (forall path, parseRedisEndpoint ("/" +:+ path)
     = Ok (mkRedisEndpoint "127.0.0.1" 6379 ("/" +:+ path) 1000 1000)).
Proof.
  split_and!.
  - intros target ep. unfold parseRedisEndpoint.
    destruct (strip_prefix "tcp://" target) as [address|] eqn:Ht.
    + apply strip_prefix_Some in Ht as ->.
      destruct (split_last ":" address) as [[h text]|] eqn:Hs; [|done].
      apply split_last_Some in Hs as ->. case_decide as He; [done|].
      destruct (from_chars_int text) as [p|] eqn:Hp; [|done]. case_decide; [done|].
      intros [= <-]. apply (DenotesTcp h p text); [tauto|lia|done].
    + destruct (strip_prefix "unix://" target) as [path|] eqn:Hu; simpl.
      * apply strip_prefix_Some in Hu as ->.
        destruct path as [|[[] [] [] [] [] [] [] []] path]; try done. intros [= <-].
        apply (DenotesUnix path).
      * destruct target as [|[[] [] [] [] [] [] [] []] path]; try done. intros [= <-].
        apply (DenotesPath path).
  - intros h p Hh Hp. unfold parseRedisEndpoint.
    assert (strip_prefix "tcp://" ("tcp://" +:+ h +:+ ":" +:+ to_string p)
            = Some (h +:+ String ":" (to_string p))) as -> by by apply strip_prefix_Some.
    rewrite split_last_app by (apply all_digits_free, all_digits_to_string; lia).
    rewrite from_chars_to_string by lia. rewrite !decide_False; [done|lia|].
    intros [?|He]; [done|].
    destruct (to_string_digits p) as [_ Hd]; [lia|]. by rewrite He in Hd.
  - done.
  - done.
Qed.

(** The six databases are six databases of one server: whatever the endpoint, their
    connections differ in the number of the database only, and always in it. *)
Lemma databases_are_apart endpoint l l' :
  Impl endpoint l = Impl endpoint l' <-> l = l'.
Proof.
  split; [|by intros ->]. unfold Impl. destruct (if decide _ then _ else _) as [type path].
  intros [= Hdb]. by destruct l, l'.
Qed.

(** ** Key scans *)
Definition scan_invariant (max_results : nat) (seen : gset string) (keys : list string) : Prop :=
  seen = list_to_set keys /\ NoDup keys /\ length keys <= max_results.

Lemma collect_page_spec max_results page seen keys :
  scan_invariant max_results seen keys ->
  match collect_page max_results page seen keys with
  | Ok (seen', keys') =>
      scan_invariant max_results seen' keys' /\ seen' = seen ∪ list_to_set page
  | Throw e => max_results < size (seen ∪ list_to_set page)
  end.
Proof.
  revert seen keys. induction page as [|k page IH]; intros seen keys Hinv; simpl.
  { split; [done|set_solver]. }
  destruct Hinv as (Hseen & Hnd & Hlen).
  case_decide as Hk.
  - specialize (IH seen keys ltac:(done)).
    replace (seen ∪ ({[k]} ∪ list_to_set page)) with (seen ∪ list_to_set page : gset string)
      by set_solver. done.
  - case_decide as Hmax.
    + rewrite <-Hmax. assert (length keys = size seen) as ->
        by (subst seen; by rewrite size_list_to_set).
      eapply Nat.lt_le_trans; [|apply subseteq_size; instantiate (1 := {[k]} ∪ seen); set_solver].
      rewrite size_union by set_solver. rewrite size_singleton. lia.
    + specialize (IH ({[k]} ∪ seen) (keys ++ [k])).
      replace (seen ∪ ({[k]} ∪ list_to_set page))
        with ({[k]} ∪ seen ∪ list_to_set page : gset string) by set_solver.
      apply IH. split_and!.
      * subst seen. rewrite list_to_set_app_L. set_solver.
      * apply NoDup_app. split; [done|]. split; [|apply NoDup_singleton].
        intros x Hx ->%list_elem_of_singleton. subst seen. by rewrite elem_of_list_to_set in Hk.
      * rewrite length_app. simpl. lia.
Qed.

Section Scan.
Variable scan : nat -> Z -> Z * list string.

(** The cursor the n-th call is sent with. *)
Fixpoint cursor_at (n : nat) : Z :=
  match n with O => 0%Z | S n' => (scan n' (cursor_at n')).1 end.

Definition page_at (n : nat) : list string := (scan n (cursor_at n)).2.

(** Every key of the first [n] pages. *)
Definition pages_upto (n : nat) : gset string :=
  ⋃ ((fun i => list_to_set (page_at i)) <$> seq 0 n).

Lemma pages_upto_S n : pages_upto (S n) = pages_upto n ∪ list_to_set (page_at n).
Proof.
  unfold pages_upto. rewrite seq_S, fmap_app, union_list_app_L. simpl. set_solver.
Qed.

Lemma scan_loop_spec pages call max_results seen keys :
  scan_invariant max_results seen keys -> seen = pages_upto call ->
  match scan_loop scan pages call max_results (cursor_at call) seen keys with
  | Ok keys' =>
      exists last, call <= last < call + pages /\ cursor_at (S last) = 0%Z /\
        (forall n, call < n <= last -> cursor_at n <> 0%Z) /\
        scan_invariant max_results (pages_upto (S last)) keys'
  | Throw e =>
      (forall n, call < n <= call + pages -> cursor_at n <> 0%Z) \/
      (exists n, call < n <= call + pages /\ max_results < size (pages_upto n) /\
         forall m, call < m < n -> cursor_at m <> 0%Z)
  end.
Proof.
  revert call seen keys. induction pages as [|pages IH]; intros call seen keys Hinv Hseen; cbn [scan_loop].
  { left. lia. }
  destruct (scan call (cursor_at call)) as [cursor' page] eqn:Hscan.
  assert (cursor_at (S call) = cursor') as Hc by (simpl; by rewrite Hscan).
  assert (page_at call = page) as Hp by (unfold page_at; by rewrite Hscan).
  pose proof (collect_page_spec max_results page seen keys Hinv) as Hcollect.
  destruct (collect_page _ _ _ _) as [[seen' keys']|e]; cbn [mbind result_bind].
  - destruct Hcollect as [Hinv' Hseen'].
    assert (seen' = pages_upto (S call)) as -> by (by rewrite pages_upto_S, Hp, <-Hseen, Hseen').
    case_decide as H0.
    + exists call. split; [lia|]. rewrite Hc. split; [done|]. split; [lia|done].
    + rewrite <-Hc. specialize (IH (S call) _ _ Hinv' eq_refl).
      assert (forall n, n = S call -> cursor_at n <> 0%Z) as Hfirst by (intros n ->; by rewrite Hc).
      destruct (scan_loop _ _ _ _ _ _) as [keys2|e].
      * destruct IH as (last & ? & ? & Hbefore & ?). exists last. split; [lia|].
        split; [done|]. split; [|done]. intros n Hn.
        destruct (decide (n = S call)); [by apply Hfirst|]. apply Hbefore. lia.
      * destruct IH as [Hno|(n & Hn & Hsize & Hbefore)]; [left|right].
        -- intros n Hn. destruct (decide (n = S call)); [by apply Hfirst|]. apply Hno. lia.
        -- exists n. split; [lia|]. split; [done|]. intros m Hm.
           destruct (decide (m = S call)); [by apply Hfirst|]. apply Hbefore. lia.
  - right. exists (S call). split; [lia|]. split; [|lia]. by rewrite pages_upto_S, Hp, <-Hseen.
Qed.
End Scan.

(** Whatever the server replies, [scanKeys] returns after at most 4096 calls. It gives
    exactly the distinct keys of the pages up to the first zero cursor, in order and at most
    [max_results] of them; it throws only when the 4096 pages have no zero cursor or when
    the pages read hold more distinct keys than the bound. *)
Theorem scan_is_bounded_and_exact scan pattern max_results :
  pattern <> "" -> 0 < max_results ->
  match scanKeys scan pattern max_results with
  | Ok keys =>
      exists last, last < kMaxScanPages /\ cursor_at scan (S last) = 0%Z /\
        (forall n, 0 < n <= last -> cursor_at scan n <> 0%Z) /\
        (forall k, k ∈ keys <-> k ∈ pages_upto scan (S last)) /\
        StronglySorted String.le keys /\ NoDup keys /\ length keys <= max_results
  | Throw e =>
      (forall n, 0 < n <= kMaxScanPages -> cursor_at scan n <> 0%Z) \/
      (exists n, 0 < n <= kMaxScanPages /\ max_results < size (pages_upto scan n) /\
         forall m, 0 < m < n -> cursor_at scan m <> 0%Z)
  end.
Proof.
  intros Hp Hmax. unfold scanKeys. rewrite decide_False by (intros [?|?]; [done|lia]).
  pose proof (scan_loop_spec scan kMaxScanPages 0 max_results ∅ []) as H.
  specialize (H ltac:(split_and!; [done|constructor|simpl; lia]) ltac:(done)).
  change (cursor_at scan 0) with 0%Z in H.
  destruct (scan_loop _ _ _ _ _ _ _) as [keys|e]; cbn [fmap result_fmap]; [|exact H].
  destruct H as (last & Hlast & Hc & Hfirst & Hseen & Hnd & Hlen).
  exists last. split; [lia|]. split; [done|]. split; [done|].
  split_and!.
  - intros k. rewrite merge_sort_Permutation, Hseen. by rewrite elem_of_list_to_set.
  - apply (StronglySorted_merge_sort String.le).
  - by rewrite merge_sort_Permutation.
  - by rewrite merge_sort_Permutation.
Qed.

(** ** Claims *)
Definition idle_enough (min_idle : Z) (p : string * string * Z * Z) : Prop :=
  (min_idle <= p.1.2)%Z.
#[export] Instance idle_enough_dec min_idle p : Decision (idle_enough min_idle p).
Proof. unfold idle_enough. apply _. Defined.

Lemma idle_ids_spec min_idle count pending :
  0 < count ->
  idle_ids min_idle count pending
  = take count ((fun p => p.1.1.1) <$> filter (idle_enough min_idle) pending).
Proof.
  revert count. induction pending as [|[[[m owner] idle] deliveries] pending IH];
    intros count Hcount; simpl; [by rewrite take_nil|].
  case_decide; [|by rewrite filter_cons_False by done; apply IH].
  rewrite filter_cons_True by done.
  destruct count as [|[|count]]; [lia|done|]. simpl. f_equal. apply IH. lia.
Qed.

(** [claimPending] claims, out of at most 100 pending entries in the order of the
    stream, the first [count] that have been idle for [min_idle], and none that has not;
    with no such entry it leaves the group as it is. *)
Theorem claim_takes_idle_in_order {DB} `{RedisGroups DB} stream group consumer min_idle count db :
  (0 < count < 2 ^ 60)%Z -> (0 <= min_idle)%Z ->
  let pending := xpending_range stream group (Z.min 100 (count * 10)) db in
  let idle := filter (idle_enough min_idle) pending in
  let ids := take (Z.to_nat count) ((fun p => p.1.1.1) <$> idle) in
  claimPending stream group consumer min_idle count db =
  if decide (idle = []) then (Ok [], db)
  else let '(claimed, db') := xclaim stream group consumer min_idle ids db in
       (parse_messages claimed, db').
Proof.
  intros Hcount Hidle pending idle ids. unfold claimPending.
  rewrite decide_False by lia. rewrite (wrap_small 64) by (unfold in_width; lia).
  cbn zeta. rewrite idle_ids_spec by lia. fold pending. fold idle. fold ids.
  unfold ids. destruct idle as [|p idle'] eqn:Hi; simpl.
  - by rewrite take_nil.
  - destruct (Z.to_nat count) eqn:Hn; [lia|]. done.
Qed.
