(* ===== verification/RedisRef.v ===== *)
(** * A Redis store as a finite map, which meets the interfaces of Redis.v.

    It shows that the laws can hold and gives the examples a store to run on.  [store] has
    the keys only; [server] adds consumer groups: a group has a cursor into its stream and
    a pending list with the owner and the number of deliveries of each entry.  There is no
    clock: every pending entry counts as idle for an hour, as after a long pause. *)
From S2P Require Import Prelude Redis.
From stdpp Require Import options.

Inductive value :=
  | VHash (m : gmap string string)
  | VStream (entries : list (string * list (string * string))).

Abbreviation store := (gmap string value).

Definition ref_type_of (k : string) (db : store) : key_type :=
  match db !! k with
  | Some (VHash m) => if decide (m = ∅) then KNone else KHash
  | Some (VStream _) => KStream
  | None => KNone
  end.

Definition ref_hgetall (k : string) (db : store) : gmap string string :=
  match db !! k with Some (VHash m) => m | _ => ∅ end.

Definition ref_xrange (k : string) (db : store) : list (string * list (string * string)) :=
  match db !! k with Some (VStream l) => l | _ => [] end.

Definition parse_int (s : string) : option Z :=
  match stoll s with
  | Ok z => if decide (to_string z = s) then Some z else None
  | Throw _ => None
  end.

(** The new value of a counter, when the field holds an integer and there is room. *)
Definition incremented (m : gmap string string) (f : string) (n : Z) : option Z :=
  z ← match m !! f with Some s => parse_int s | None => Some 0%Z end;
  if decide (- 2 ^ 63 <= z + n < 2 ^ 63)%Z then Some (z + n)%Z else None.

Definition next_id (l : list (string * list (string * string))) : string :=
  to_string (Z.of_nat (length l)) +:+ "-0".

Definition ref_execute (c : redis_cmd) (db : store) : store :=
  match c with
  | DEL k => delete k db
  | HMSET k fs =>
      match ref_type_of k db with
      | KStream => db
      | _ => <[k := VHash (assign_fields fs (ref_hgetall k db))]> db
      end
  | HSETNX k f v =>
      match ref_type_of k db, ref_hgetall k db !! f with
      | KStream, _ | _, Some _ => db
      | _, None => <[k := VHash (<[f := v]> (ref_hgetall k db))]> db
      end
  | HINCRBY k f n =>
      match ref_type_of k db, incremented (ref_hgetall k db) f n with
      | KStream, _ | _, None => db
      | _, Some z => <[k := VHash (<[f := to_string z]> (ref_hgetall k db))]> db
      end
  | XADD k fs =>
      match ref_type_of k db with
      | KHash => db
      | _ => <[k := VStream (ref_xrange k db ++ [(next_id (ref_xrange k db), fs)])]> db
      end
  end.

Definition wrong_type : exn :=
  ReplyError "WRONGTYPE Operation against a key holding the wrong kind of value".

#[export] Instance ref_redis : Redis store := {|
  type_of := ref_type_of;
  hgetall := ref_hgetall;
  xrange := ref_xrange;
  execute := ref_execute;
  hincrby_reply k f n db :=
    match ref_type_of k db, incremented (ref_hgetall k db) f n with
    | KStream, _ => Throw wrong_type
    | _, Some z => Ok z
    | _, None => Throw (ReplyError "ERR hash value is not an integer")
    end;
  xadd_reply k fs db :=
    match ref_type_of k db with
    | KHash => Throw wrong_type
    | _ => Ok (next_id (ref_xrange k db))
    end;
  flushdb _ := ∅;
|}.

Lemma parse_int_to_string z : is_int64 z -> parse_int (to_string z) = Some z.
Proof.
  intros Hz. unfold parse_int, is_int64 in *.
  assert (stoll (to_string z) = Ok z) as ->; [|by rewrite decide_True].
  destruct (decide (0 <= z)%Z) as [Hp|Hn]; [apply stoll_to_string; lia|].
  assert (to_string z = String "-" (to_string (- z))) as ->.
  { destruct z; [lia|lia|]. done. }
  destruct (to_string_digits (- z)) as [Hs _]; [lia|].
  unfold stoll. simpl skip_space. simpl split_sign. cbn iota. rewrite Hs.
  rewrite decide_True by lia. f_equal. lia.
Qed.

Lemma incremented_Some m f z n :
  field_integer m f z -> is_int64 z -> is_int64 (z + n) ->
  incremented m f n = Some (z + n)%Z.
Proof.
  unfold incremented, field_integer. intros Hf Hz Hn.
  destruct (m !! f); subst.
  - rewrite parse_int_to_string by done. simpl. by rewrite decide_True.
  - simpl. by rewrite decide_True.
Qed.

Lemma ref_type_hash k (db : store) : ref_type_of k db = KHash <-> ref_hgetall k db <> ∅.
Proof.
  unfold ref_type_of, ref_hgetall. destruct (db !! k) as [[m|l]|]; [|done|done].
  case_decide; done.
Qed.

Lemma ref_frame c k (db : store) :
  k <> target c -> ref_execute c db !! k = db !! k.
Proof.
  destruct c; simpl; intros Hk; repeat case_match; try done;
    rewrite ?lookup_delete_ne, ?lookup_insert_ne by congruence; done.
Qed.

(** A key that exists keeps its type under any command but its deletion. *)
Lemma ref_keeps c k (db : store) :
  c <> DEL k -> ref_type_of k db <> KNone -> ref_type_of k (ref_execute c db) = ref_type_of k db.
Proof.
  intros Hc Hk. destruct (decide (k = target c)) as [->|Hne].
  2: { unfold ref_type_of. by rewrite ref_frame. }
  assert (forall (m : gmap string string), m <> ∅ -> ref_type_of (target c) db <> KStream ->
    ref_type_of (target c) (<[target c := VHash m]> db) = ref_type_of (target c) db) as Hhash.
  { intros m Hm Ht. unfold ref_type_of at 1. rewrite lookup_insert_eq, decide_False by done.
    destruct (ref_type_of (target c) db); done. }
  destruct c as [k|k fs|k f v|k f n|k fs]; simpl in *; [done| | | |].
  - destruct (ref_type_of k db) eqn:Ht; try done. apply Hhash; [|done].
    apply ref_type_hash in Ht. destruct fs as [|f fs]; [done|].
    apply assign_fields_ne. done.
  - destruct (ref_type_of k db) eqn:Ht; try done. destruct (_ !! f); [done|].
    apply Hhash; [|done]. apply insert_non_empty.
  - destruct (ref_type_of k db) eqn:Ht; try done. destruct (incremented _ _ _); [|done].
    apply Hhash; [|done]. apply insert_non_empty.
  - destruct (ref_type_of k db) eqn:Ht; try done. unfold ref_type_of at 1.
    by rewrite lookup_insert_eq.
Qed.

#[export] Instance ref_laws : RedisLaws store.
Proof.
  split; simpl.
  - apply ref_type_hash.
  - intros k db. unfold ref_type_of, ref_xrange. by destruct (db !! k) as [[]|].
  - intros c k db Hk. unfold ref_type_of, ref_hgetall, ref_xrange. by rewrite ref_frame.
  - intros k db. unfold ref_type_of. by rewrite lookup_delete_eq.
  - intros k fs db _ Ht. unfold ref_hgetall at 1.
    destruct (ref_type_of k db); by rewrite ?lookup_insert_eq.
  - intros k f v db Ht.
    destruct (ref_type_of k db); try done; (destruct (ref_hgetall k db !! f); [done|]);
      unfold ref_hgetall at 1; by rewrite lookup_insert_eq.
  - intros k f n z db Ht Hf Hz Hn. rewrite (incremented_Some (ref_hgetall k db) f z n) by done.
    destruct (ref_type_of k db); try done; unfold ref_hgetall at 1; by rewrite lookup_insert_eq.
  - intros k f n f' db Hf. destruct (ref_type_of k db); try done;
      (destruct (incremented _ f n); [|done]); unfold ref_hgetall at 1; rewrite lookup_insert_eq;
      by rewrite lookup_insert_ne.
  - intros k fs db Ht.
    destruct (ref_type_of k db); try done;
      (split; [|exists (next_id (ref_xrange k db)); split; [done|]]);
      unfold ref_type_of, ref_xrange; by rewrite ?lookup_insert_eq.
  - intros k f n z db Ht Hf Hz Hn. rewrite (incremented_Some (ref_hgetall k db) f z n) by done.
    by destruct (ref_type_of k db).
  - done.
  - apply ref_keeps.
Qed.

(** Consumer groups that remember nothing: a read returns the oldest entries of the stream,
    no entry is ever pending, and an acknowledgement removes nothing. *)
#[export] Instance ref_groups : RedisGroups store := {|
  xgroup_create s _ _ db :=
    match ref_type_of s db with
    | KHash => (Throw wrong_type, db)
    | _ => (Ok tt, db)
    end;
  xreadgroup _ _ s n db :=
    ({[s := (fun e => (e.1, list_to_map e.2)) <$> take (Z.to_nat n) (ref_xrange s db)]}, db);
  xpending_count _ _ _ := 0%Z;
  xpending_range _ _ _ _ := [];
  xclaim _ _ _ _ _ db := ([], db);
  xack _ _ _ db := (1%Z, db);
|}.

#[export] Instance ref_group_laws : RedisGroupLaws store.
Proof.
  split; simpl; [by intros..|]. intros s g i db k.
  by destruct (ref_type_of s db); simpl; auto.
Qed.

(** ** With consumer groups *)
Module Groups.

Record group := mkGroup {
  delivered : nat;                                  (* entries already given out *)
  pending : list (string * (string * Z));           (* ID, owner, deliveries *)
}.

Record server := mkRefServer {
  data : store;
  groups : gmap (string * string) group;            (* by stream and name *)
}.

Definition with_data (f : store -> store) (db : server) : server := mkRefServer (f (data db)) (groups db).

#[export] Instance server_redis : Redis server := {|
  type_of k db := type_of k (data db);
  hgetall k db := hgetall k (data db);
  xrange k db := xrange k (data db);
  execute c := with_data (execute c);
  hincrby_reply k f n db := hincrby_reply k f n (data db);
  xadd_reply k fs db := xadd_reply k fs (data db);
  flushdb db := mkRefServer (flushdb (data db)) ∅;
|}.

#[export] Instance server_laws : RedisLaws server.
Proof.
  split; intros; cbn in *.
  - exact (type_hash (DB:=store) (R:=ref_redis) _ _).
  - by apply (type_not_stream (DB:=store) (R:=ref_redis)).
  - by apply (execute_frame (DB:=store) (R:=ref_redis)).
  - apply (execute_del (DB:=store) (R:=ref_redis)).
  - by apply (execute_hmset (DB:=store) (R:=ref_redis)).
  - by apply (execute_hsetnx (DB:=store) (R:=ref_redis)).
  - by apply (execute_hincrby (DB:=store) (R:=ref_redis)).
  - by apply (execute_hincrby_other (DB:=store) (R:=ref_redis)).
  - by apply (execute_xadd (DB:=store) (R:=ref_redis)).
  - by apply (execute_hincrby_reply (DB:=store) (R:=ref_redis)).
  - done.
  - by apply (execute_keeps (DB:=store) (R:=ref_redis)).
Qed.

Definition idle_hour : Z := 3600000.

Definition group_of (s g : string) (db : server) : group :=
  default (mkGroup 0 []) (groups db !! (s, g)).
Definition set_group (s g : string) (gr : group) (db : server) : server :=
  mkRefServer (data db) (<[(s, g) := gr]> (groups db)).

Definition entry_reply (e : string * list (string * string)) : string * gmap string string :=
  (e.1, list_to_map e.2).

Definition create_group (s g start : string) (db : server) : result unit * server :=
  if decide (type_of s (data db) = KHash) then (Throw wrong_type, db)
  else if decide (is_Some (groups db !! (s, g))) then
    (Throw (ReplyError "BUSYGROUP Consumer Group name already exists"), db)
  else
    let made := if decide (type_of s (data db) = KNone) then with_data <[s := VStream []]> db
                else db in
    let first := if decide (start = "0-0") then 0 else length (xrange s (data db)) in
    (Ok tt, set_group s g (mkGroup first []) made).

Definition read_group (g consumer s : string) (n : Z) (db : server)
    : gmap string (list (string * gmap string string)) * server :=
  let gr := group_of s g db in
  let new := take (Z.to_nat n) (drop (delivered gr) (xrange s (data db))) in
  if decide (new = []) then (∅, db)
  else ({[s := entry_reply <$> new]},
        set_group s g (mkGroup (delivered gr + length new)
                         (pending gr ++ ((fun e => (e.1, (consumer, 1%Z))) <$> new))) db).

Definition claim (s g consumer : string) (ids : list string) (db : server)
    : list (string * gmap string string) * server :=
  let gr := group_of s g db in
  let taken e := bool_decide (e.1 ∈ ids) in
  (entry_reply <$> filter (fun e => e.1 ∈ ids /\ e.1 ∈ (pending gr).*1) (xrange s (data db)),
   set_group s g (mkGroup (delivered gr)
     ((fun e => if taken e then (e.1, (consumer, (e.2.2 + 1)%Z)) else e) <$> pending gr)) db).

#[export] Instance server_groups : RedisGroups server := {|
  xgroup_create := create_group;
  xreadgroup := read_group;
  xpending_count s g db := Z.of_nat (length (pending (group_of s g db)));
  xpending_range s g n db :=
    (fun e => (e.1, e.2.1, idle_hour, e.2.2)) <$> take (Z.to_nat n) (pending (group_of s g db));
  xclaim s g consumer _ ids db := claim s g consumer ids db;
  xack s g m db :=
    let gr := group_of s g db in
    let kept := filter (fun e => e.1 <> m) (pending gr) in
    (Z.of_nat (length (pending gr) - length kept), set_group s g (mkGroup (delivered gr) kept) db);
|}.

#[export] Instance server_group_laws : RedisGroupLaws server.
Proof.
  split; simpl.
  - intros g c s n db k. unfold read_group. by case_decide.
  - by intros.
  - by intros.
  - intros s g i db k. unfold create_group. case_decide as Hh; [by auto|].
    case_decide; [by auto|]. simpl. case_decide as Ht; [|by auto]. simpl.
    unfold ref_type_of, ref_hgetall, ref_xrange in *.
    destruct (decide (k = s)) as [->|Hne]; [rewrite lookup_insert_eq|rewrite lookup_insert_ne by done; by auto].
    destruct (data db !! s) as [[m|l]|]; [|done|by auto].
    case_decide as Hm; [|done]. by auto.
Qed.

(** Reading, then acknowledging: one entry at a time, in order. *)
Definition two_entries : server :=
  mkRefServer {["s" := VStream [("1-0", [("k", "a")]); ("2-0", [("k", "b")])]]} ∅.
Definition first_read := read_group "g" "w" "s" 1 (create_group "s" "g" "0-0" two_entries).2.
Definition claimed := claim "s" "g" "v" ["1-0"] first_read.2.
Definition acknowledged := xack "s" "g" "1-0" claimed.2.
Definition second_read := read_group "g" "w" "s" 1 acknowledged.2.

Definition read_ids (r : gmap string (list (string * gmap string string))) : list string :=
  (default [] (r !! "s")).*1.

Lemma group_example :
  (read_ids first_read.1, claimed.1.*1, acknowledged.1, read_ids second_read.1)
  = (["1-0"], ["1-0"], 1%Z, ["2-0"]) /\
  is_ok (create_group "s" "g" "0-0" claimed.2).1 = false.
Proof. by vm_compute. Qed.
End Groups.
