(* ===== verification/RedisExamples.v ===== *)
(** * Concrete runs of the Redis repository, on the reference store. *)
From S2P Require Import Prelude Redis RedisRef RedisRepository RedisRepositoryProps.
From S2P Require Import RedisOnce RedisEvents.
From stdpp Require Import options.

Definition sample_event : EventEnvelope :=
  mkEventEnvelope 1 "event-1" "request-1" 1700000000000000000 "ocs0" "CONNECTION" "c1" "APPLY"
    7 "{}".

Definition marker_fields : gmap string string := {["event_id" := "event-1"]}.

(** The first call commits but its reply is lost; the second finds the marker. *)
Definition lost_reply : nat -> interference := fun _ => mkInterference [] [] [] ReplyLost.
(** Another client writes the marker's neighbour in the first attempt. *)
Definition busy (k : string) : nat -> interference := fun n =>
  match n with
  | O => mkInterference [] [] [HMSET k [("f", "v")]] Replied
  | _ => quiet
  end.

Lemma quiet_env_cmd env c :
  (forall n, others_of (env n) = []) -> env_cmd env c -> False.
Proof. intros Hq [k Hc]. rewrite Hq in Hc. by apply elem_of_nil in Hc. Qed.

Lemma lost_reply_behaves P : well_behaved P lost_reply.
Proof. intros c Hc. exfalso. by eapply quiet_env_cmd in Hc. Qed.
Lemma quiet_behaves P : well_behaved P (fun _ => quiet).
Proof. intros c Hc. exfalso. by eapply quiet_env_cmd in Hc. Qed.

Definition publish_twice : list (result bool) * store :=
  run_calls (replaceHashAndAppendEventOnce "M" marker_fields "K" {["status" := "ACTIVE"]}
    "S" sample_event) [lost_reply; fun _ => quiet] ∅.

Lemma publish_twice_results :
  publish_twice.1 = [Throw connection_lost; Ok false] /\
  length (xrange "S" publish_twice.2) = 1.
Proof. by vm_compute. Qed.

Lemma publication_happens_once_witness :
  exists before after (committed : bool),
    let transaction := replace_hash "K" {["status" := "ACTIVE"]} ++
      [XADD "S" (eventFields sample_event); HMSET "M" (sorted_items marker_fields)] in
    publish_twice.2 = run_cmds after (run_cmds (if committed then transaction else [])
                            (run_cmds before (∅ : store))) /\
    Forall (spares "M") (before ++ after) /\
    (committed = true -> exists_key "M" (run_cmds before (∅ : store)) = false) /\
    (Ok true ∈ publish_twice.1 -> committed = true) /\
    (Exists (fun r => is_ok r = true) publish_twice.1 ->
     exists_key "M" publish_twice.2 = true) /\
    length (filter (eq (Ok true)) publish_twice.1) <= 1.
Proof.
  apply (publication_happens_once "M" marker_fields "K" {["status" := "ACTIVE"]} "S"
    sample_event [lost_reply; fun _ => quiet] ∅ publish_twice.1 publish_twice.2).
  - done.
  - done.
  - done.
  - reflexivity.
  - repeat constructor; [apply lost_reply_behaves|apply quiet_behaves].
  - unfold publish_twice. by destruct (run_calls _ _ _).
Defined.

(** Two counters, one of them new, counted by two calls of which the first loses its reply. *)
Definition counters_store : store :=
  {["C" := VHash {["applies" := "41"; "max_apply_latency_ms" := "90"]}]}.
Definition sample_increments : gmap string Z := {["applies" := 1%Z; "errors" := 2%Z]}.
Definition counters_before (f : string) : Z :=
  if decide (f = "applies") then 41
  else if decide (f = "max_apply_latency_ms") then 90 else 0.
Definition count_twice : list (result bool) * store :=
  run_calls (recordApplyCountersOnce "M" marker_fields "C" sample_increments 12)
    [lost_reply; fun _ => quiet] counters_store.

Lemma count_twice_results :
  count_twice.1 = [Throw connection_lost; Ok false] /\
  hgetall "C" count_twice.2 !! "applies" = Some "42" /\
  hgetall "C" count_twice.2 !! "max_apply_latency_ms" = Some "90".
Proof. by vm_compute. Qed.

Lemma sample_countable :
  countable counters_before (hgetall "C" counters_store) (sorted_items sample_increments).
Proof.
  intros f n Hin%elem_of_sorted_items.
  unfold sample_increments in Hin. rewrite lookup_insert_Some in Hin.
  destruct Hin as [[<- <-]|[_ [<- <-]%lookup_singleton_Some]];
    (split; [by vm_compute|split; by vm_compute]).
Qed.

Lemma counters_count_once_witness :
  exists committed : bool,
    (Exists (fun r => is_ok r = true) count_twice.1 -> committed = true) /\
    if committed then
      (forall f n, sample_increments !! f = Some n ->
         field_integer (hgetall "C" count_twice.2) f (counters_before f + n)) /\
      hgetall "C" count_twice.2 !! "last_apply_latency_ms" = Some (to_string 12) /\
      field_integer (hgetall "C" count_twice.2) "max_apply_latency_ms"
        (Z.max 12 (counters_before "max_apply_latency_ms")) /\
      (forall f, sample_increments !! f = None -> (f ∉ latency_fields) ->
         hgetall "C" count_twice.2 !! f = hgetall "C" counters_store !! f)
    else hgetall "C" count_twice.2 = hgetall "C" counters_store.
Proof.
  apply (counters_count_once "M" marker_fields "C" sample_increments 12
    [lost_reply; fun _ => quiet] counters_before counters_store count_twice.1 count_twice.2).
  - done.
  - done.
  - lia.
  - by vm_compute.
  - by vm_compute.
  - apply sample_countable.
  - intros f Hf. unfold latency_fields in Hf.
    rewrite !elem_of_cons in Hf. destruct Hf as [->|[->|Hf]]; [by vm_compute|by vm_compute|].
    by apply elem_of_nil in Hf.
  - vm_compute. split; [discriminate|reflexivity].
  - by vm_compute.
  - repeat constructor; [apply lost_reply_behaves|apply quiet_behaves].
  - unfold count_twice. by destruct (run_calls _ _ _).
Defined.

(** Two hashes under one marker: the first is stored under a newer version. *)
Definition versions_store : store :=
  {["A" := VHash {["desired_version" := "9"]}; "B" := VHash {["desired_version" := "3"]}]}.
Definition version_hashes : list (string * gmap string string) :=
  [("A", {["desired_version" := "7"]}); ("B", {["desired_version" := "7"]})].
Definition version_marker : gmap string string := {["desired_version" := "7"]}.
Definition put_versions : result bool * store :=
  putVersionedHashesAtomicallyIfMarkerAbsent "M" version_marker version_hashes (busy "M2")
    versions_store.

Lemma put_versions_results :
  put_versions.1 = Ok true /\
  hgetall "A" put_versions.2 !! "desired_version" = Some "9" /\
  hgetall "B" put_versions.2 !! "desired_version" = Some "7".
Proof. by vm_compute. Qed.

Lemma versions_never_go_back_witness :
  exists others, Forall (env_cmd (busy "M2")) others /\
    let db0 := run_cmds others versions_store in
    (put_versions.1 = Ok false /\ exists_key "M" db0 = true /\ put_versions.2 = db0) \/
    ((exists e, put_versions.1 = Throw e) /\ put_versions.2 = db0) \/
    ((put_versions.1 = Ok true \/ put_versions.1 = Throw connection_lost) /\
     exists_key "M" db0 = false /\ exists_key "M" put_versions.2 = true /\
     (forall key fs, (key, fs) ∈ version_hashes ->
        published 7 (hgetall key db0) fs (hgetall key put_versions.2)) /\
     (forall k, k <> "M" -> (k ∉ version_hashes.*1) ->
        hgetall k put_versions.2 = hgetall k db0)).
Proof.
  apply (versions_never_go_back "M" version_marker 7 version_hashes (busy "M2") versions_store
    put_versions.1 put_versions.2).
  - by vm_compute.
  - vm_compute. split; [discriminate|reflexivity].
  - apply (bool_decide_unpack _). by vm_compute.
  - apply (bool_decide_unpack _). by vm_compute.
  - unfold put_versions. by destruct (putVersionedHashesAtomicallyIfMarkerAbsent _ _ _ _ _).
Defined.

Definition entry_fields : gmap string string := list_to_map (eventFields sample_event).

Lemma event_roundtrip_witness :
  ((list_to_map (eventFields sample_event) : gmap string string) ⊆ entry_fields ->
   parseEvent entry_fields = Ok sample_event) /\
  (forall n, n ∈ (eventFields sample_event).*1 -> entry_fields !! n = None ->
   is_ok (parseEvent entry_fields) = false).
Proof.
  apply (event_roundtrip sample_event entry_fields);
    vm_compute; (split; [discriminate|reflexivity]).
Defined.

(** Three pages, the last two overlapping. *)
Definition sample_scan (call : nat) (cursor : Z) : Z * list string :=
  match call with
  | O => (17%Z, ["b"; "a"])
  | S O => (5%Z, ["c"; "a"])
  | _ => (0%Z, ["c"])
  end.

Lemma scan_is_bounded_and_exact_witness :
  scanKeys sample_scan "K*" 10 = Ok ["a"; "b"; "c"] /\
  match scanKeys sample_scan "K*" 10 with
  | Ok keys =>
      exists last, last < kMaxScanPages /\ cursor_at sample_scan (S last) = 0%Z /\
        (forall n, 0 < n <= last -> cursor_at sample_scan n <> 0%Z) /\
        (forall k, k ∈ keys <-> k ∈ pages_upto sample_scan (S last)) /\
        StronglySorted String.le keys /\ NoDup keys /\ length keys <= 10
  | Throw e =>
      (forall n, 0 < n <= kMaxScanPages -> cursor_at sample_scan n <> 0%Z) \/
      (exists n, 0 < n <= kMaxScanPages /\ 10 < size (pages_upto sample_scan n) /\
         forall m, 0 < m < n -> cursor_at sample_scan m <> 0%Z)
  end.
Proof.
  split; [by vm_compute|].
  apply (scan_is_bounded_and_exact sample_scan "K*" 10); [done|lia].
Defined.

(** A group whose pending list is fixed; claiming returns the entries claimed. *)
Definition group_db : Type := list (string * string * Z * Z).
#[local] Instance sample_groups : RedisGroups group_db := {|
  xgroup_create _ _ _ db := (Ok tt, db);
  xreadgroup _ _ _ _ db := (∅, db);
  xpending_count _ _ db := Z.of_nat (length db);
  xpending_range _ _ n db := take (Z.to_nat n) db;
  xclaim _ _ _ _ ids db := ((fun i => (i, entry_fields)) <$> ids, db);
  xack _ _ _ db := (1%Z, db);
|}.
Definition sample_pending : group_db :=
  [("1-0", "a", 900%Z, 1%Z); ("2-0", "a", 20%Z, 1%Z); ("3-0", "b", 700%Z, 3%Z);
   ("4-0", "b", 800%Z, 1%Z)].

Definition claimed_ids (r : result (list StreamMessage)) : list string :=
  match r with Ok l => message_id <$> l | Throw _ => [] end.

Lemma claim_takes_idle_in_order_witness :
  claimed_ids (claimPending "S" "g" "c" 500 2 sample_pending).1 = ["1-0"; "3-0"] /\
  let pending := xpending_range "S" "g" (Z.min 100 (2 * 10))
    sample_pending in
  let idle := filter (idle_enough 500) pending in
  let ids := take (Z.to_nat 2) ((fun p : string * string * Z * Z => p.1.1.1) <$> idle) in
  claimPending "S" "g" "c" 500 2 sample_pending =
  if decide (idle = []) then (Ok [], sample_pending)
  else let '(claimed, db') := xclaim "S" "g" "c" 500 ids
         sample_pending in
       (parse_messages claimed, db').
Proof.
  split; [by vm_compute|].
  apply (claim_takes_idle_in_order (DB := group_db) "S" "g" "c" 500 2 sample_pending); lia.
Defined.
