(* ===== verification/Services.v ===== *)
(** * What the two Redis services share: their world and their calls.

    The services keep (almost) nothing between calls: their state is the six logical
    databases.  [World] has them and the number of calls made so far.  Every call to the
    store takes the next [interference] of an oracle, so other clients may run commands
    before any of them and any of them may lose its connection; the oracle also gives the
    clock and what the test hook [after_phase] does, which may throw (a crash between two
    phases). *)
From S2P Require Import Prelude Redis RedisKeys RedisRepository.
From stdpp Require Import options.

(** ** The databases *)
Record World (DB : Type) := mkWorld {
  config_db_ : DB;
  appl_db_ : DB;
  device_db_ : DB;
  alarm_db_ : DB;
  counters_db_ : DB;
  state_db_ : DB;
  calls : nat;
}.
Arguments mkWorld {DB}.
Arguments config_db_ {DB}. Arguments appl_db_ {DB}. Arguments device_db_ {DB}.
Arguments alarm_db_ {DB}. Arguments counters_db_ {DB}. Arguments state_db_ {DB}.
Arguments calls {DB}.

Definition database {DB} (l : LogicalDb.t) (w : World DB) : DB :=
  match l with
  | LogicalDb.kConfig => config_db_ w
  | LogicalDb.kAppl => appl_db_ w
  | LogicalDb.kDevice => device_db_ w
  | LogicalDb.kAlarm => alarm_db_ w
  | LogicalDb.kCounters => counters_db_ w
  | LogicalDb.kState => state_db_ w
  end.

(** One call has been made, and left [db] in its database. *)
Definition after_call {DB} (l : LogicalDb.t) (db : DB) (w : World DB) : World DB :=
  let 'mkWorld c a d al co st n := w in
  match l with
  | LogicalDb.kConfig => mkWorld db a d al co st (S n)
  | LogicalDb.kAppl => mkWorld c db d al co st (S n)
  | LogicalDb.kDevice => mkWorld c a db al co st (S n)
  | LogicalDb.kAlarm => mkWorld c a d db co st (S n)
  | LogicalDb.kCounters => mkWorld c a d al db st (S n)
  | LogicalDb.kState => mkWorld c a d al co db (S n)
  end.

(** Reading the clock counts as a call, so two readings may differ. *)
Definition tick {DB} (w : World DB) : World DB :=
  let 'mkWorld c a d al co st n := w in mkWorld c a d al co st (S n).

(** What surrounds the calls: the other clients and the connections, the clock, and the
    test hook, each by the number of calls made so far. *)
Record Oracle := mkOracle {
  around : nat -> nat -> interference;
  clock : nat -> Z;
  hook : nat -> string -> result unit;
}.

(** [std::ranges::all_of] with a predicate that reads the store *)
Fixpoint all_of {S A} (p : A -> prog S bool) (l : list A) : prog S bool :=
  match l with
  | [] => mret true
  | a :: l' => b ← p a; if b : bool then all_of p l' else mret false
  end.

Section Calls.
Context {DB : Type} `{Redis DB} `{RedisGroups DB}.
Variable oracle : Oracle.

(** A call of an optimistic operation of the repository. *)
Definition call {A} (l : LogicalDb.t) (op : (nat -> interference) -> prog DB A)
    : prog (World DB) A := fun w =>
  let '(r, db) := op (around oracle (calls w)) (database l w) in (r, after_call l db w).

(** Any other call: others may run first, and its request or its reply may be lost. *)
Definition plain {A} (m : prog DB A) (env : nat -> interference) : prog DB A := fun db =>
  let db1 := run_cmds (others_of (env O)) db in
  match exec_ends (env O) with
  | NotSent => (Throw connection_lost, db1)
  | Replied => m db1
  | ReplyLost => (Throw connection_lost, (m db1).2)
  end.

Definition timestampNowNs : prog (World DB) Z := fun w =>
  (Ok (clock oracle (calls w)), tick w).

Definition after_phase (phase : string) : prog (World DB) unit := fun w =>
  (hook oracle (calls w) phase, w).

Definition get_hash (l : LogicalDb.t) (key : string) : prog (World DB) (gmap string string) :=
  call l (plain (getHash key)).

Definition put_versioned (l : LogicalDb.t) (marker : string) (fs : gmap string string)
    (hashes : list (string * gmap string string)) : prog (World DB) bool :=
  call l (putVersionedHashesAtomicallyIfMarkerAbsent marker fs hashes).

Definition append_once (marker : string) (fs : gmap string string) (stream : string)
    (event : EventEnvelope) : prog (World DB) bool :=
  call LogicalDb.kDevice (appendEventOnce marker fs stream event).

Definition ack (l : LogicalDb.t) (stream group : string) (message : StreamMessage)
    : prog (World DB) unit :=
  acknowledged ← call l (plain (acknowledge stream group (message_id message))); mret tt.

(** [claimPending], then [readGroupIfNoPending] when nothing was claimed *)
Definition next_message (l : LogicalDb.t) (stream group consumer : string) (min_idle : Z)
    : prog (World DB) (option StreamMessage) :=
  claimed ← call l (plain (claimPending stream group consumer min_idle 1));
  match claimed with
  | message :: _ => mret (Some message)
  | [] => messages ← call l (plain (readGroupIfNoPending stream group consumer 1));
          mret (head messages)
  end.
End Calls.
