(* ===== verification/CallLogic.v ===== *)
(** * Invariants of one logical database under the services' calls.

    [stable]: the commands the other clients may run preserve the invariant.  Each lemma
    says when a call of the repository preserves it; the calls on another database always
    do.  The last section counts the entries of a stream that are accounted for by
    publication markers: each may only be appended together with a marker that did not
    exist, so there are at most as many of them as there are markers. *)
From S2P Require Import Prelude ProgLogic RedisKeys Redis RedisRepository.
From S2P Require Import RedisRepositoryProps RedisOnce Services.
From stdpp Require Import options.

(** The other clients run allowed commands only. *)
Definition oracle_within (allowed : redis_cmd -> Prop) (oracle : Oracle) : Prop :=
  forall n i c, c ∈ others_of (around oracle n i) -> allowed c.

Section Calls.
Context {DB : Type} {R : Redis DB} {RL : RedisLaws DB}.
Context {G : RedisGroups DB} {GL : RedisGroupLaws DB}.
Variable l0 : LogicalDb.t.
Variable Q : DB -> Prop.
Variable allowed : redis_cmd -> Prop.
Hypothesis Hstable : forall c db, allowed c -> Q db -> Q (execute c db).
Variable oracle : Oracle.
Hypothesis Hothers : forall n i c, c ∈ others_of (around oracle n i) -> allowed c.
#[local] Set Default Proof Using "Type*".

Definition holds (w : World DB) : Prop := Q (database l0 w).

Lemma database_after_call l db (w : World DB) :
  database l (after_call l db w) = db.
Proof using. by destruct w, l. Qed.

Lemma database_after_other l l' db (w : World DB) :
  l <> l' -> database l' (after_call l db w) = database l' w.
Proof using. destruct w, l, l'; done. Qed.

Lemma stable_run cs db : Forall allowed cs -> Q db -> Q (run_cmds cs db).
Proof using Hstable.
  revert db. induction cs as [|c cs IH]; intros db Hcs Hdb; [done|].
  apply Forall_cons in Hcs as [Hc Hcs]. apply IH; [done|]. by apply Hstable.
Qed.

Lemma env_allowed n others : Forall (env_cmd (around oracle n)) others -> Forall allowed others.
Proof. intros Ho. eapply Forall_impl; [exact Ho|]. intros c [i Hc]. by eapply Hothers. Qed.

Lemma keeps_call_other {A} l (op : (nat -> interference) -> prog DB A) :
  l <> l0 -> keeps holds (call oracle l op) (fun _ => True).
Proof using.
  intros Hl w r w' Hw. unfold call. destruct (op _ _) as [r' db]. intros [= <- <-].
  split; [|done]. unfold holds. by rewrite database_after_other.
Qed.

(** A call on the database of the invariant. *)
Lemma keeps_call {A} (op : (nat -> interference) -> prog DB A) (P : A -> Prop) :
  (forall n db r db', Q db -> op (around oracle n) db = (r, db') ->
     Q db' /\ forall a, r = Ok a -> P a) ->
  keeps holds (call oracle l0 op) P.
Proof using.
  intros Hop w r w' Hw. unfold call. destruct (op _ _) as [r' db] eqn:Hr. intros [= <- <-].
  destruct (Hop _ _ _ _ Hw Hr). split; [|done]. unfold holds. by rewrite database_after_call.
Qed.

Lemma keeps_plain {A} (m : prog DB A) (P : A -> Prop) :
  (forall db, Q db -> Q (m db).2 /\ forall a, (m db).1 = Ok a -> P a) ->
  keeps holds (call oracle l0 (plain m)) P.
Proof.
  intros Hm. apply keeps_call. intros n db r db' Hdb. unfold plain.
  assert (Q (run_cmds (others_of (around oracle n 0)) db)) as Hdb1.
  { apply stable_run; [|done]. apply Forall_forall. intros c. apply Hothers. }
  destruct (Hm _ Hdb1) as [Hm1 Hm2].
  destruct (exec_ends (around oracle n 0)); [|by intros [= <- <-]..].
  intros Hr. by rewrite Hr in Hm1, Hm2.
Qed.

Lemma keeps_get_hash key :
  keeps holds (get_hash oracle l0 key) (fun m => exists db, Q db /\ m = hgetall key db).
Proof.
  apply keeps_plain. intros db Hdb. simpl. split; [done|]. intros a [= <-]. eauto.
Qed.

Lemma keeps_watch_loop n watched msg body :
  reads_only watched body ->
  (forall db cs, Q db -> body db = Ok (Some cs) -> Q (run_cmds cs db)) ->
  keeps holds (call oracle l0 (watch_loop n watched msg body)) (fun _ => True).
Proof.
  intros Hro Hbody. apply keeps_call. intros k db r db' Hdb.
  intros (others & Ho & Hout)%watch_loop_outcome; [|done]. split; [|done].
  assert (Q (run_cmds others db)) as Hdb1 by (eapply stable_run, Hdb; by eapply env_allowed).
  inversion Hout; subst; eauto.
Qed.

Lemma keeps_call_lift {A B} (r : result B) (f : B -> (nat -> interference) -> prog DB A) P :
  (forall b, r = Ok b -> keeps holds (call oracle l0 (f b)) P) ->
  keeps holds (call oracle l0 (fun env => lift r ≫= fun b => f b env)) P.
Proof using.
  intros Hf w r' w' Hw. destruct r as [b|e]; [by apply Hf|]. unfold call. simpl.
  intros [= <- <-]. split; [|done]. unfold holds. by rewrite database_after_call.
Qed.

Lemma keeps_append_once marker mf stream e :
  (forall db, Q db -> exists_key marker db = false -> validateEvent e = Ok tt ->
     Q (run_cmds [XADD stream (eventFields e); HMSET marker (sorted_items mf)] db)) ->
  keeps holds (call oracle l0 (appendEventOnce marker mf stream e)) (fun _ => True).
Proof.
  intros Hq. unfold appendEventOnce.
  apply (keeps_call_lift _ (fun _ => watch_loop _ _ _ _)). intros [] He.
  apply keeps_watch_loop; [by apply reads_only_marked; [left|]|].
  intros db cs Hdb (Hm & es & Hes & ->)%body_inv. apply Ok_inj in Hes as <-. by apply Hq.
Qed.

Lemma keeps_replace_once marker mf key fs stream e :
  (forall db, Q db -> exists_key marker db = false -> validateEvent e = Ok tt ->
     Q (run_cmds ((replace_hash key fs ++ [XADD stream (eventFields e)])
                  ++ [HMSET marker (sorted_items mf)]) db)) ->
  keeps holds (call oracle l0 (replaceHashAndAppendEventOnce marker mf key fs stream e))
    (fun _ => True).
Proof.
  intros Hq. unfold replaceHashAndAppendEventOnce.
  apply (keeps_call_lift _ (fun _ => watch_loop _ _ _ _)). intros [] He.
  apply keeps_watch_loop; [by apply reads_only_marked; [left|]|].
  intros db cs Hdb (Hm & es & Hes & ->)%body_inv. apply Ok_inj in Hes as <-. by apply Hq.
Qed.

Lemma keeps_increment_once marker mf key increments :
  (forall db, Q db -> exists_key marker db = false ->
     Q (run_cmds (increment_cmds key increments ++ [HMSET marker (sorted_items mf)]) db)) ->
  keeps holds (call oracle l0 (incrementHashFieldsOnce marker mf key increments)) (fun _ => True).
Proof.
  intros Hq. apply keeps_watch_loop; [by apply reads_only_marked; [left|]|].
  intros db cs Hdb (Hm & es & Hes & ->)%body_inv. apply Ok_inj in Hes as <-. by apply Hq.
Qed.

Lemma keeps_record_apply marker mf key increments latency :
  (forall db cs, Q db -> exists_key marker db = false -> (0 <= latency)%Z ->
     apply_counter_cmds key increments latency db = Ok cs ->
     Q (run_cmds (cs ++ [HMSET marker (sorted_items mf)]) db)) ->
  keeps holds (call oracle l0 (recordApplyCountersOnce marker mf key increments latency))
    (fun _ => True).
Proof.
  intros Hq. unfold recordApplyCountersOnce. destruct (decide (latency < 0)%Z).
  { apply keeps_call. intros n db r db' Hdb [= <- <-]. done. }
  apply keeps_watch_loop; [apply reads_only_marked; [by left|apply apply_counter_cmds_reads]|].
  intros db cs Hdb (Hm & es & Hes & ->)%body_inv. apply Hq; [done..|lia|done].
Qed.

Lemma keeps_put_if_absent key fs :
  (forall db, Q db -> exists_key key db = false -> fs <> ∅ ->
     Q (execute (HMSET key (sorted_items fs)) db)) ->
  keeps holds (call oracle l0 (putHashIfAbsent key fs)) (fun _ => True).
Proof.
  intros Hq. unfold putHashIfAbsent. destruct (decide (fs = ∅)) as [He|He].
  { apply keeps_call. intros n db r db' Hdb [= <- <-]. done. }
  apply keeps_watch_loop.
  - intros c db Hc. unfold exists_key.
    destruct (execute_frame c key db) as (-> & _ & _); [set_solver|done].
  - intros db cs Hdb Hcs. destruct (exists_key key db) eqn:Hk; [done|].
    injection Hcs as <-. by apply Hq.
Qed.

Lemma keeps_put_versioned marker mf hashes :
  (forall db version t css, Q db -> exists_key marker db = false ->
     mf !! "desired_version" = Some t -> stoull t = Ok version ->
     mapM (versioned_cmds version db) hashes = Ok css ->
     Q (run_cmds (concat css ++ [HMSET marker (sorted_items mf)]) db)) ->
  keeps holds (put_versioned oracle l0 marker mf hashes) (fun _ => True).
Proof.
  intros Hq. unfold put_versioned, putVersionedHashesAtomicallyIfMarkerAbsent.
  destruct (mf !! "desired_version") as [t|] eqn:Ht.
  2: { apply keeps_call. intros n db r db' Hdb [= <- <-]. done. }
  apply (keeps_call_lift _ (fun version => watch_loop _ _ _ _)). intros version Hv.
  apply keeps_watch_loop.
  - apply reads_only_marked; [by left|]. apply versioned_reads.
  - intros db cs Hdb (Hm & es & (css & Hcss & ->)%result_fmap_Ok & ->)%body_inv. by eapply Hq.
Qed.

(** Group commands, when the invariant reads hashes and streams only. *)
Definition reads_data : Prop := forall db db', Q db -> same_data db db' -> Q db'.

Lemma same_data_refl db : same_data db db.
Proof using. by intros k. Qed.

Lemma keeps_ack stream group message :
  reads_data -> keeps holds (ack oracle l0 stream group message) (fun _ => True).
Proof.
  intros Hd. unfold ack. eapply keeps_bind; [|intros; by apply keeps_ret].
  apply (keeps_plain _ (fun _ => True)). intros db Hdb. split; [|done].
  unfold acknowledge. pose proof (xack_data stream group (message_id message) db) as Hx.
  destruct (xack _ _ _ _) as [n db']. by eapply Hd.
Qed.

Lemma keeps_next_message stream group consumer min_idle :
  reads_data -> keeps holds (next_message oracle l0 stream group consumer min_idle)
                  (fun _ => True).
Proof.
  intros Hd. unfold next_message. eapply keeps_bind.
  { apply (keeps_plain _ (fun _ => True)). intros db Hdb. split; [|done]. unfold claimPending.
    case_decide; [done|]. destruct (idle_ids _ _ _) as [|m ids] eqn:Hids; [done|].
    pose proof (xclaim_data stream group consumer min_idle (m :: ids) db) as Hx.
    destruct (xclaim _ _ _ _ _ _) as [claimed db']. by eapply Hd. }
  intros [|message rest] _; [|by apply keeps_ret].
  eapply keeps_bind; [|intros; by apply keeps_ret].
  apply (keeps_plain _ (fun _ => True)). intros db Hdb. split; [|done].
  unfold readGroupIfNoPending, read_group_if_no_pending_script.
  destruct (decide (1 = 0)%Z); [done|]. case_decide; [done|].
  pose proof (xreadgroup_data group consumer stream 1 db) as Hx.
  destruct (xreadgroup _ _ _ _ _) as [raw db']. by eapply Hd.
Qed.
End Calls.

Section Runs.
Context {DB : Type} {R : Redis DB} {RL : RedisLaws DB}.
Context {G : RedisGroups DB} {GL : RedisGroupLaws DB}.
#[local] Set Default Proof Using "Type*".

(** The other clients keep an invariant of one database. *)
Lemma others_hold allowed l0 (Q : DB -> Prop) l cs w :
  (forall c db, allowed c -> Q db -> Q (execute c db)) -> Forall allowed cs ->
  holds l0 Q w -> holds l0 Q (after_call l (run_cmds cs (database l w)) w).
Proof using.
  intros Hstable Hcs Hw. unfold holds in *. destruct (decide (l = l0)) as [->|Hne].
  - rewrite database_after_call. by eapply stable_run.
  - by rewrite database_after_other.
Qed.

Variable oracle : Oracle.

(** ** What the calls leave behind *)
Lemma call_run {A} l (op : (nat -> interference) -> prog DB A) w r w' :
  call oracle l op w = (r, w') ->
  exists db', op (around oracle (calls w)) (database l w) = (r, db') /\ w' = after_call l db' w.
Proof.
  unfold call. destruct (op _ _) as [r1 db'] eqn:Hop. intros [= <- <-]. eauto.
Qed.

Lemma get_hash_run l key w m w' :
  get_hash oracle l key w = (Ok m, w') ->
  m = hgetall key (database l w') /\ w' = after_call l
    (run_cmds (others_of (around oracle (calls w) 0)) (database l w)) w.
Proof.
  intros (db' & Hop & ->)%call_run. rewrite database_after_call. unfold plain in Hop.
  destruct (exec_ends _); try done. simpl in Hop. by injection Hop as <- <-.
Qed.

Lemma hash_exists k (db : DB) : hgetall k db <> ∅ -> exists_key k db = true.
Proof.
  intros Hk. unfold exists_key. apply type_hash in Hk. by rewrite Hk.
Qed.

(** After a publication that returned, whatever it returned, the marker is there. *)
Lemma append_once_marks marker mf stream e w b w' :
  mf <> ∅ -> marker <> stream -> append_once oracle marker mf stream e w = (Ok b, w') ->
  exists_key marker (device_db_ w') = true.
Proof.
  intros Hmf Hms (db' & Hop & ->)%call_run.
  change (device_db_ (after_call LogicalDb.kDevice db' w))
    with (database LogicalDb.kDevice (after_call LogicalDb.kDevice db' w)).
  rewrite database_after_call. unfold appendEventOnce in Hop.
  destruct (validateEvent e) as [[]|]; [|done].
  change ((lift (Ok tt) ;; ?m) ?s) with (m s) in Hop.
  apply watch_loop_outcome in Hop as (others & _ & Hout);
    [|by apply reads_only_marked; [left|]].
  inversion Hout as [cs Hb| Hb| |]; subst.
  - apply body_inv in Hb as (Hm & es & Hes & ->).
    eapply (commit_marks marker mf (fun _ => Ok [XADD stream (eventFields e)])); try done.
    intros db0 cs [= <-]. simpl. set_solver.
  - by apply body_inv in Hb.
Qed.

Lemma after_phase_world p (w : World DB) r w' : after_phase oracle p w = (r, w') -> w' = w.
Proof. by intros [= _ <-]. Qed.

End Runs.

(** No other client, no lost connection, no exception from the hook. *)
Definition undisturbed (oracle : Oracle) : Prop :=
  (forall n i, around oracle n i = quiet) /\ (forall n p, hook oracle n p = Ok tt).

Lemma calm_watch_loop {DB} {R : Redis DB} oracle n watched msg body k (db : DB) :
  undisturbed oracle ->
  watch_loop (S n) watched msg body (around oracle k) db =
  match body db with
  | Throw x => (Throw x, db)
  | Ok None => (Ok false, db)
  | Ok (Some cs) => (Ok true, run_cmds cs db)
  end.
Proof.
  intros [Hq _]. cbn [watch_loop]. rewrite Hq. unfold run_cmds. simpl.
  by destruct (body db) as [[cs|]|x].
Qed.

(** ** Runs that write nothing

    [only_others w w']: between the two worlds only the other clients' commands ran, on any
    database; no command of the service, and no group command, so no acknowledgement. *)
Definition by_others (oracle : Oracle) (c : redis_cmd) : Prop :=
  exists n i, c ∈ others_of (around oracle n i).

Section Quiet.
Context {DB : Type} {R : Redis DB} {RL : RedisLaws DB} {G : RedisGroups DB}.
Variable oracle : Oracle.

Definition only_others (w w' : World DB) : Prop := forall l,
  exists cs, Forall (by_others oracle) cs /\ database l w' = run_cmds cs (database l w).

Lemma only_others_refl w : only_others w w.
Proof using Type. intros l. by exists []. Qed.

Lemma only_others_call w0 w l cs :
  Forall (by_others oracle) cs -> only_others w0 w ->
  only_others w0 (after_call l (run_cmds cs (database l w)) w).
Proof using Type.
  intros Hcs Hw l'. destruct (Hw l') as (cs' & Hcs' & Hdb).
  destruct (decide (l = l')) as [->|Hl].
  - exists (cs' ++ cs). rewrite database_after_call, Hdb, <-run_cmds_app.
    split; [by apply Forall_app|done].
  - exists cs'. by rewrite database_after_other.
Qed.

(** A call that, whatever it returns, ran nothing but the other clients' commands. *)
Lemma quiet_call {A} w0 l (op : (nat -> interference) -> prog DB A) :
  (forall n db r db', op (around oracle n) db = (r, db') ->
     exists cs, Forall (env_cmd (around oracle n)) cs /\ db' = run_cmds cs db) ->
  keeps (only_others w0) (call oracle l op) (fun _ => True).
Proof using Type.
  intros Hop w r w' Hw. unfold call. destruct (op _ _) as [r' db] eqn:Hr. intros [= <- <-].
  apply Hop in Hr as (cs & Hcs & ->). split; [|done]. apply only_others_call; [|done].
  eapply Forall_impl; [exact Hcs|]. intros c [i Hc]. by exists (calls w), i.
Qed.

Lemma quiet_get_hash w0 l key :
  keeps (only_others w0) (get_hash oracle l key) (fun _ => True).
Proof using Type.
  apply quiet_call. intros n db r db' Hrun.
  exists (others_of (around oracle n 0)). split.
  - apply Forall_forall. intros c Hc. by exists 0.
  - unfold plain, getHash in Hrun. by destruct (exec_ends _); injection Hrun as <- <-.
Qed.
End Quiet.

Section Count.
Context {DB : Type} {R : Redis DB} {RL : RedisLaws DB}.
Variable stream : string.
Variable keys : list string.
Variable counted : list (string * string) -> Prop.
Context {Hdec : forall fs, Decision (counted fs)}.

Definition stream_count (db : DB) : nat :=
  length (filter (fun entry => counted entry.2) (xrange stream db)).

(** 1 when the key exists *)
Definition marks (k : string) (db : DB) : nat := if exists_key k db then 1 else 0.

Definition all_marks (db : DB) : nat := foldr (fun k n => marks k db + n) 0 keys.

Definition accounted (db : DB) : Prop :=
  type_of stream db <> KHash /\ stream_count db <= all_marks db.

(** The other clients delete no marker and append no counted entry. *)
Definition honest (c : redis_cmd) : Prop :=
  (forall k, k ∈ keys -> c <> DEL k) /\
  (target c = stream -> exists fs, c = XADD stream fs /\ ~ counted fs).

Lemma marks_mono k c (db : DB) : c <> DEL k -> marks k db <= marks k (execute c db).
Proof using RL.
  intros Hc. unfold marks. destruct (exists_key k db) eqn:Hk; [|lia].
  pose proof (exists_key_keeps k [c] db) as Hkeep.
  change (run_cmds [c] db) with (execute c db) in Hkeep.
  rewrite Hkeep; [done| |done]. by repeat constructor.
Qed.

Lemma foldr_marks_mono ks (db db' : DB) :
  (forall k, k ∈ ks -> marks k db <= marks k db') ->
  foldr (fun k n => marks k db + n) 0 ks <= foldr (fun k n => marks k db' + n) 0 ks.
Proof using Type.
  induction ks as [|k ks IH]; intros Hk; simpl; [lia|].
  specialize (Hk k (list_elem_of_here _ _)) as Hk1.
  assert (forall k, k ∈ ks -> marks k db <= marks k db') as Hk2 by (intros; apply Hk; by right).
  specialize (IH Hk2). lia.
Qed.

Lemma all_marks_mono c (db : DB) :
  (forall k, k ∈ keys -> c <> DEL k) -> all_marks db <= all_marks (execute c db).
Proof using RL. intros Hc. apply foldr_marks_mono. intros k Hk. by apply marks_mono, Hc. Qed.

Lemma append_count fs (db : DB) :
  type_of stream db <> KHash ->
  type_of stream (execute (XADD stream fs) db) <> KHash /\
  stream_count (execute (XADD stream fs) db)
  = (stream_count db + if decide (counted fs) then 1 else 0)%nat.
Proof using RL.
  intros Ht. destruct (execute_xadd stream fs db Ht) as (Ht' & id & _ & Hx).
  split; [by rewrite Ht'|]. unfold stream_count. rewrite Hx, filter_app, length_app. f_equal.
  rewrite filter_cons, filter_nil. cbn [snd]. by destruct (decide (counted fs)).
Qed.

Lemma accounted_stable c db : honest c -> accounted db -> accounted (execute c db).
Proof using RL.
  intros [Hdel Hc] [Ht Hcount]. pose proof (all_marks_mono c db Hdel).
  destruct (decide (target c = stream)) as [Htc|Htc].
  - destruct (Hc Htc) as (fs & -> & Hfs).
    destruct (append_count fs db Ht) as [Ht' Hn].
    split; [done|]. rewrite decide_False in Hn by done. lia.
  - unfold accounted, stream_count in *.
    destruct (execute_frame c stream db) as (-> & _ & ->); [by apply not_eq_sym|].
    split; [done|lia].
Qed.

Lemma accounted_run cs db : Forall honest cs -> accounted db -> accounted (run_cmds cs db).
Proof using RL. intros Hcs. eapply stable_run; [apply accounted_stable|done]. Qed.

Lemma accounted_reads_data : reads_data accounted.
Proof using Type.
  intros db db' [Ht Hc] Hd. unfold accounted, stream_count in *.
  destruct (Hd stream) as (-> & _ & ->). split; [done|].
  etrans; [exact Hc|]. apply foldr_marks_mono. intros k _. unfold marks, exists_key.
  by destruct (Hd k) as (-> & _).
Qed.

Lemma honest_write c : target c <> stream -> (target c ∉ keys) -> honest c.
Proof using Type. intros Hs Hk. split; [|done]. by intros k Hin ->. Qed.

Lemma honest_hmset key fs : key <> stream -> honest (HMSET key fs).
Proof using Type. intros Hk. by split. Qed.

(** A hash that is not the stream may be replaced, even if it is a marker. *)
Lemma accounted_replace key fs db :
  key <> stream -> fs <> ∅ -> accounted db -> accounted (run_cmds (replace_hash key fs) db).
Proof using RL.
  intros Hk Hfs [Ht Hcount]. unfold accounted, stream_count in *.
  assert (stream ∉ (target <$> replace_hash key fs)) as Hs.
  { rewrite list_elem_of_fmap. intros (c & Hc & Hin%replace_hash_targets). by rewrite Hin in Hc. }
  destruct (run_cmds_frame _ _ db Hs) as (-> & _ & ->). split; [done|].
  etrans; [exact Hcount|]. apply foldr_marks_mono. intros k _. unfold marks.
  destruct (decide (k = key)) as [->|Hne].
  - assert (exists_key key (run_cmds (replace_hash key fs) db) = true) as ->;
      [|destruct (exists_key key db); lia].
    unfold exists_key. assert (type_of key (run_cmds (replace_hash key fs) db) = KHash) as ->; [|done].
    apply type_hash. by rewrite replace_hash_run.
  - assert (k ∉ (target <$> replace_hash key fs)) as Hk'.
    { rewrite list_elem_of_fmap. intros (c & -> & Hin%replace_hash_targets). done. }
    unfold exists_key. by destruct (run_cmds_frame _ _ db Hk') as (-> & _).
Qed.

(** XGROUP CREATE makes no entry and deletes no key. *)
Lemma accounted_group {G : RedisGroups DB} {GL : RedisGroupLaws DB} s g i db :
  accounted db -> accounted (createConsumerGroup s g i db).2.
Proof using Type.
  intros [Ht Hc]. unfold createConsumerGroup.
  pose proof (xgroup_create_data s g i db) as Hx.
  destruct (xgroup_create _ _ _ _) as [r db']. simpl in Hx.
  assert (accounted db') as Hacc.
  { unfold accounted, stream_count in *. destruct (Hx stream) as (Hst & _ & ->).
    split; [by destruct Hst as [->|(_ & -> & _)]|]. etrans; [exact Hc|].
    apply foldr_marks_mono. intros k _. unfold marks, exists_key.
    destruct (Hx k) as (Hk & _ & _). destruct Hk as [->|(_ & -> & ->)]; [lia|]. vm_compute. lia. }
  destruct r as [u|[]]; try done. by destruct (contains _ _).
Qed.

(** A publication under its own marker. *)
Lemma accounted_publish marker mf fs db :
  (counted fs -> marker ∈ keys) -> marker <> stream -> (stream ∉ keys) ->
  mf <> ∅ -> exists_key marker db = false -> accounted db ->
  accounted (run_cmds [XADD stream fs; HMSET marker (sorted_items mf)] db).
Proof using RL.
  intros Hin Hm Hs Hmf Hex Hacc.
  assert (honest (HMSET marker (sorted_items mf))) as Hmark by by apply honest_hmset.
  destruct (decide (counted fs)) as [Hc|Hc].
  2: { apply accounted_run; [|done]. constructor; [|by constructor].
       split; [done|]. by exists fs. }
  destruct Hacc as [Ht Hcount]. destruct (append_count fs db Ht) as [Ht1 Hn].
  rewrite decide_True in Hn by done.
  set (db1 := execute (XADD stream fs) db) in *.
  change (run_cmds _ db) with (execute (HMSET marker (sorted_items mf)) db1).
  unfold accounted, stream_count.
  destruct (execute_frame (HMSET marker (sorted_items mf)) stream db1)
    as (-> & _ & ->); [exact (not_eq_sym Hm)|]. fold (stream_count db1). split; [done|].
  assert (forall k, k ∈ keys -> marks k db1 = marks k db) as Hsame.
  { intros k Hk. unfold marks, exists_key, db1.
    rewrite (proj1 (execute_frame (XADD stream fs) k db ltac:(simpl; intros ->; by apply Hs))).
    done. }
  assert (marks marker db = 0) as H0 by (unfold marks; by rewrite Hex).
  assert (marks marker (execute (HMSET marker (sorted_items mf)) db1) = 1) as H1.
  { specialize (Hsame marker (Hin Hc)). unfold marks, exists_key in *.
    rewrite hmset_type; [done|by apply sorted_items_ne|]. rewrite H0 in Hsame.
    by destruct (type_of marker db1). }
  assert (all_marks db + 1 <= all_marks (execute (HMSET marker (sorted_items mf)) db1)) as Hmarks;
    [|lia].
  specialize (Hin Hc). unfold all_marks. clear Hn Hcount Hs.
  assert (forall k, k ∈ keys -> marks k db <= marks k (execute (HMSET marker (sorted_items mf)) db1))
    as Hmono by (intros k Hk; rewrite <-Hsame by done; by apply marks_mono).
  clear Hsame Hmark. induction keys as [|k ks IH]; [by apply elem_of_nil in Hin|]. simpl.
  specialize (Hmono k (list_elem_of_here _ _)) as Hk.
  assert (forall j, j ∈ ks -> marks j db <= marks j (execute (HMSET marker (sorted_items mf)) db1))
    as Hks by (intros; apply Hmono; by right).
  apply elem_of_cons in Hin as [->|Hin].
  - pose proof (foldr_marks_mono ks db _ Hks). lia.
  - specialize (IH Hin Hks). lia.
Qed.
End Count.

(** ** Markers backed by an entry

    [backed]: when the publication marker exists, its entry is in the stream, and carries
    what [carried] says, which may read the hashes of the database.  The marker and the
    entry are written in one transaction, so every call keeps it. *)
Section Backed.
Context {DB : Type} {R : Redis DB} {RL : RedisLaws DB}.
Context {G : RedisGroups DB} {GL : RedisGroupLaws DB}.
Variables (marker stream : string).
Variable carried : DB -> list (string * string) -> Prop.
Variable harmless : redis_cmd -> Prop.
Hypothesis Hcarried : forall c db fs, harmless c -> carried db fs -> carried (execute c db) fs.
Hypothesis Hhashes : forall db db' fs,
  (forall k, hgetall k db' = hgetall k db) -> carried db fs -> carried db' fs.

Definition in_stream (db : DB) : Prop :=
  exists id fs, (id, fs) ∈ xrange stream db /\ carried db fs.

Definition backed (db : DB) : Prop :=
  type_of stream db <> KHash /\ (exists_key marker db = true -> in_stream db).

(** The other clients do not write the marker, and only append to the stream. *)
Definition faithful (c : redis_cmd) : Prop :=
  harmless c /\ target c <> marker /\ (target c = stream -> exists fs, c = XADD stream fs).

Lemma in_stream_stable c db :
  faithful c -> type_of stream db <> KHash -> in_stream db -> in_stream (execute c db).
Proof using Hcarried RL.
  intros (Hh & _ & Hc) Ht (id & fs & Hin & Hfs). exists id, fs. split; [|by apply Hcarried].
  destruct (decide (target c = stream)) as [Htc|Htc].
  - destruct (Hc Htc) as (fs' & ->). destruct (execute_xadd stream fs' db Ht) as (_ & i & _ & ->).
    apply elem_of_app. by left.
  - by destruct (execute_frame c stream db (not_eq_sym Htc)) as (_ & _ & ->).
Qed.

Lemma backed_type c db :
  faithful c -> type_of stream db <> KHash -> type_of stream (execute c db) <> KHash.
Proof using RL.
  intros (_ & _ & Hc) Ht. destruct (decide (target c = stream)) as [Htc|Htc].
  - destruct (Hc Htc) as (fs' & ->). by destruct (execute_xadd stream fs' db Ht) as (-> & _).
  - by destruct (execute_frame c stream db (not_eq_sym Htc)) as (-> & _).
Qed.

Lemma backed_stable c db : faithful c -> backed db -> backed (execute c db).
Proof using Hcarried RL.
  intros Hc [Ht Hm]. split; [by apply backed_type|]. intros Hex.
  apply in_stream_stable; [done..|]. apply Hm. revert Hex. unfold exists_key.
  by destruct (execute_frame c marker db (not_eq_sym (proj1 (proj2 Hc)))) as (-> & _).
Qed.

Lemma backed_data : reads_data backed.
Proof using Hhashes.
  intros db db' [Ht Hm] Hd. destruct (Hd stream) as (Ht' & _ & Hx). split; [by rewrite Ht'|].
  unfold exists_key. rewrite (proj1 (Hd marker)). intros (id & fs & Hin & Hfs)%Hm.
  exists id, fs. rewrite Hx. split; [done|]. eapply Hhashes; [|exact Hfs].
  intros k. apply Hd.
Qed.

Lemma backed_group s g i db :
  marker <> s -> backed db -> backed (createConsumerGroup s g i db).2.
Proof using Hhashes GL.
  intros Hs [Ht Hm]. unfold createConsumerGroup.
  pose proof (xgroup_create_data s g i db) as Hx.
  destruct (xgroup_create _ _ _ _) as [r db']. simpl in Hx.
  assert (backed db') as Hb.
  { split.
    - destruct (Hx stream) as ([->|(_ & -> & _)] & _); done.
    - unfold exists_key. destruct (Hx marker) as ([->|(-> & _)] & _); [|done].
      intros (id & fs & Hin & Hfs)%Hm. exists id, fs.
      destruct (Hx stream) as (_ & _ & ->). split; [done|]. eapply Hhashes; [|exact Hfs].
      intros k. apply Hx. }
  destruct r as [u|[]]; try done. by destruct (contains _ _).
Qed.

Lemma backed_publish mf fs db :
  marker <> stream -> harmless (XADD stream fs) -> harmless (HMSET marker (sorted_items mf)) ->
  carried db fs -> backed db ->
  backed (run_cmds [XADD stream fs; HMSET marker (sorted_items mf)] db).
Proof using Hcarried RL.
  intros Hms Hx Hh Hfs [Ht _].
  destruct (execute_xadd stream fs db Ht) as (Ht1 & id & _ & Hr).
  set (db1 := execute (XADD stream fs) db) in *.
  change (run_cmds _ db) with (execute (HMSET marker (sorted_items mf)) db1).
  destruct (execute_frame (HMSET marker (sorted_items mf)) stream db1 (not_eq_sym Hms))
    as (Ht2 & _ & Hr2).
  split; [by rewrite Ht2, Ht1|]. intros _. exists id, fs. rewrite Hr2, Hr. split.
  - apply elem_of_app. right. by left.
  - apply Hcarried; [done|]. by apply Hcarried.
Qed.
End Backed.

(** A key is none of the keys of a list, by their prefixes. *)
Ltac not_in_keys :=
  let H := fresh in
  intros H; repeat (apply elem_of_cons in H as [H|H]; [done|]); by apply elem_of_nil in H.
