(* ===== verification/OrchRules.v ===== *)
(** * The rules of the orchestrator: the free functions of orchestrator_service.cpp.

    They decode configuration events, choose the status a command starts from and
    compute retry times; Orchestrator.v has the service that uses them. *)
From S2P Require Import Prelude.
From S2P Require Import RedisRepository.
From S2P Require Import Types ConnStateMachine Json DeviceCommand.
From stdpp Require Import options.
Import ConnectionApplyStatus.

(** [struct ApplyRetryPolicy]: milliseconds are signed 64-bit counts. *)
Record ApplyRetryPolicy := mkRetryPolicy {
  max_retries : Z;
  base_backoff : Z;
  max_backoff : Z;
}.
Definition default_retry_policy : ApplyRetryPolicy := mkRetryPolicy 3 100 5000.

Definition currentStatus (application : gmap string string) : result ConnectionApplyStatus.t :=
  match application !! "apply_status" with
  | None => Ok kAbsent
  | Some status => connectionApplyStatusFromString status
  end.

Definition currentVersion (application : gmap string string) : result Z :=
  match application !! "desired_version" with
  | None => Ok 0%Z
  | Some version => stoull version
  end.

(** ** Desired state *)
Definition snapshotPort (snapshot : gmap string string) (field : string) : result PortId :=
  match snapshot !! field with
  | None => Throw (InvalidArgument ("connection snapshot is missing field: " +:+ field))
  | Some value =>
      parsed ← stoull value;
      if decide (parsed = 0 \/ 2 ^ 16 - 1 < parsed)%Z then
        Throw (InvalidArgument ("connection snapshot has invalid port: " +:+ field))
      else Ok (u16 parsed)
  end.

(** [loadDesiredSnapshot], given the hash it reads from CONFIG_DB *)
Definition snapshot_command (snapshot : gmap string string) (event : EventEnvelope)
    : result ConnectionCommand :=
  if decide (snapshot = ∅) then
    if decide (ev_operation event = "REMOVE") then
      Ok (mkCommand ConnectionOperation.kRemove (resource_id event) 0 0
            (ev_desired_version event))
    else Throw (RuntimeError "version gap cannot reload missing desired snapshot")
  else
    match snapshot !! "desired_version" with
    | None => Throw (InvalidArgument "connection snapshot is missing desired_version")
    | Some version =>
        desired ← stoull version;
        if decide (desired < ev_desired_version event)%Z then
          Throw (InvalidArgument "connection snapshot is older than configuration event")
        else
          input ← snapshotPort snapshot "input_port";
          output ← snapshotPort snapshot "output_port";
          Ok (mkCommand ConnectionOperation.kUpsert (resource_id event) input output desired)
    end.

(** ** The status a command starts executing in *)
Definition executing_status (operation : ConnectionOperation.t) : ConnectionApplyStatus.t :=
  match operation with
  | ConnectionOperation.kRemove => kRemoving
  | ConnectionOperation.kUpsert => kApplying
  end.

Definition startApplyTransition (current : ConnectionApplyStatus.t)
    (operation : ConnectionOperation.t) : result ConnectionApplyStatus.t :=
  let executing := executing_status operation in
  if decide (current = kApplying \/ current = kRemoving) then Ok executing
  else if decide (current = kFailed) then
    requireTransition current kRetryWait ;; requireTransition kRetryWait executing ;;
    Ok executing
  else if decide (current = kRetryWait) then
    requireTransition current executing ;; Ok executing
  else
    let pending := match operation with
                   | ConnectionOperation.kRemove => kPendingDelete
                   | ConnectionOperation.kUpsert =>
                       if decide (current = kAbsent) then kPendingCreate else kPendingUpdate
                   end in
    requireTransition current pending ;; requireTransition pending executing ;; Ok executing.

Definition operationName (operation : ConnectionOperation.t) : string :=
  match operation with ConnectionOperation.kRemove => "REMOVE" | _ => "UPSERT" end.

(** ** Command IDs *)

(** The text before the first occurrence of [p]: [s.substr(0, s.find(p))]. *)
Fixpoint before_first (p s : string) : option string :=
  match strip_prefix p s with
  | Some _ => Some ""
  | None =>
      match s with
      | EmptyString => None
      | String c s' => before ← before_first p s'; Some (String c before)
      end
  end.

Definition isGenerationRecovery (command_id : string) : bool :=
  starts_with "hwsim-recovery:" command_id.
Definition isReconciliation (command_id : string) : bool := starts_with "reconcile:" command_id.

(** ** Retry times *)

(** The loop of [retryAtNs]; [rounds] is how many rounds [exponent < retry_attempt] allows. *)
Fixpoint backoff_loop (rounds : nat) (delay max_backoff : Z) : Z :=
  match rounds with
  | O => delay
  | S rounds' =>
      if decide (delay = 0)%Z then delay
      else if decide (Z.quot max_backoff 2 <= delay)%Z then max_backoff
      else backoff_loop rounds' (delay * 2) max_backoff
  end.

Definition retry_delay (retry_attempt : Z) (policy : ApplyRetryPolicy) : Z :=
  Z.min (backoff_loop (Z.to_nat (retry_attempt - 1)) (base_backoff policy) (max_backoff policy))
    (max_backoff policy).

Definition retryAtNs (now_ns retry_attempt : Z) (policy : ApplyRetryPolicy) : Z :=
  u64 (now_ns + u64 (u64 (retry_delay retry_attempt policy) * 1000000)).

(** ** Payloads *)
Section Payloads.
Context {J : JsonLib}.

Definition decodePort (payload : Json) (field : string) : result PortId :=
  value ← json_at payload field;
  parsed ← (if is_number_unsigned value then get_u64 value
            else if is_number_integer value then
              signed_value ← get_i64 value;
              if decide (signed_value <= 0)%Z then
                Throw (InvalidArgument (field +:+ " must be positive"))
              else Ok (u64 signed_value)
            else Throw (InvalidArgument (field +:+ " must be an integer")));
  if decide (parsed = 0 \/ 2 ^ 16 - 1 < parsed)%Z then
    Throw (InvalidArgument (field +:+ " is outside the supported port range"))
  else Ok (u16 parsed).

Definition decodeConfigEvent (event : EventEnvelope) : result ConnectionCommand :=
  if decide (resource_type event <> "connection") then
    Throw (InvalidArgument "orch only supports connection configuration events")
  else if decide (ev_desired_version event = 0)%Z then
    Throw (InvalidArgument "connection desired version must be positive")
  else if decide (ev_operation event = "REMOVE") then
    Ok (mkCommand ConnectionOperation.kRemove (resource_id event) 0 0 (ev_desired_version event))
  else if decide (ev_operation event <> "UPSERT") then
    Throw (InvalidArgument "unsupported connection configuration operation")
  else
    payload ← parse (ev_payload event);
    input ← decodePort payload "input_port";
    output ← decodePort payload "output_port";
    Ok (mkCommand ConnectionOperation.kUpsert (resource_id event) input output
          (ev_desired_version event)).

Definition decodeConfigBatchEvent (event : EventEnvelope) : result DeviceCommandBatch :=
  if decide (resource_type event = "connection") then
    command ← decodeConfigEvent event; Ok (mkBatch [command] default_options)
  else if decide (resource_type event <> "connection-batch" \/ ev_operation event <> "APPLY_BATCH")
  then Throw (InvalidArgument "orch only supports connection configuration events")
  else if decide (ev_desired_version event = 0)%Z then
    Throw (InvalidArgument "connection batch desired version must be positive")
  else
    batch ← decodeDeviceCommand (ev_payload event);
    if existsb (fun c => negb (bool_decide (desired_version c = ev_desired_version event)))
         (batch_commands batch)
    then Throw (InvalidArgument "connection batch has inconsistent desired versions")
    else Ok batch.

Definition resultCommandId (event : EventEnvelope) (res : Json) : result string :=
  command_id ← json_value res "command_id" "";
  if decide (command_id <> "") then Ok command_id
  else match before_first ":result" (event_id event) with
       | None => Throw (InvalidArgument "device result is missing command_id")
       | Some id => Ok id
       end.

(** The object [retryPayload] dumps, around the parsed text of the batch. *)
Definition retry_json (batch : Json) (failed_command_id : string)
    (retry_attempt not_before_ns : Z) : Json :=
  json_object
    [("batch", batch);
     ("failed_command_id", json_string failed_command_id);
     ("retry_attempt", json_uint retry_attempt);
     ("not_before_ns", json_uint not_before_ns)].

Definition retryPayload (batch : DeviceCommandBatch) (failed_command_id : string)
    (retry_attempt not_before_ns : Z) : result string :=
  text ← encodeDeviceCommand batch;
  value ← parse text;
  dump (retry_json value failed_command_id retry_attempt not_before_ns).

Definition retryBatch (payload : Json) : result DeviceCommandBatch :=
  batch ← json_at payload "batch";
  text ← dump batch;
  decodeDeviceCommand text.

Definition alarmPayload (fs : gmap string string) : result string :=
  dump (json_object ((fun kv => (kv.1, json_string kv.2)) <$> sorted_items fs)).
End Payloads.
