(* ===== verification/Process.v ===== *)
(** * What the processes share: their environment, their loop and their exit status.

    A [main] runs its service until a signal clears [running], an exception ends it, or the
    fuel, a number of iterations of its loop, is spent; a process that is still running has
    no exit status. *)
From S2P Require Import Prelude.
From stdpp Require Import options.

(** [std::getenv]; [running.load()], by the number of calls made so far, which the signal
    handler clears; and whether the repositories can be opened (redis++ does it). *)
Record Process (Endpoint : Type) := mkProcess {
  getenv : string -> option string;
  running : nat -> bool;
  open_repositories : Endpoint -> result unit;
}.
Arguments mkProcess {Endpoint}. Arguments getenv {Endpoint}. Arguments running {Endpoint}.
Arguments open_repositories {Endpoint}.

Inductive status := StillRunning | Exited (code : Z).

(** A setting read with [std::stoll] and checked against its bounds. *)
Definition read_setting (getenv : string -> option string) (name : string)
    (fallback minimum maximum : Z) (refusal : string) : result Z :=
  match getenv name with
  | None => Ok fallback
  | Some configured =>
      value ← stoll configured;
      if decide (value < minimum \/ maximum < value)%Z then Throw (InvalidArgument refusal)
      else Ok value
  end.

(** [while (running.load()) { a = body(a); }]: true when it was told to stop. *)
Fixpoint while_running {S A} (is_running : S -> bool) (body : A -> prog S A) (fuel : nat) (a : A)
    : prog S bool := fun s =>
  match fuel with
  | O => (Ok false, s)
  | Datatypes.S fuel =>
      if is_running s then (a' ← body a; while_running is_running body fuel a') s
      else (Ok true, s)
  end.

(** The body of [main]'s [try], with the [catch] that reports the error. *)
Definition exit_status {S} (m : prog S bool) : prog S status :=
  try_catch (stopped ← m; mret (if stopped : bool then Exited 0 else StillRunning))
    (fun _ => mret (Exited 1)).

(** ** What a program can do to its state, whether it returns or throws *)
Definition moves {S A} (T : relation S) (m : prog S A) : Prop :=
  forall s r s', m s = (r, s') -> rtc T s s'.

Section Moves.
Context {S : Type} (T : relation S).

Lemma moves_still {A} (r : result A) : moves T (lift r).
Proof. intros s r' s' [= <- <-]. constructor. Qed.

Lemma moves_ret {A} (a : A) : moves T (mret a).
Proof. intros s r s' [= <- <-]. constructor. Qed.

Lemma moves_bind {A B} (m : prog S A) (f : A -> prog S B) :
  moves T m -> (forall a, moves T (f a)) -> moves T (m ≫= f).
Proof.
  intros Hm Hf s r s'. unfold mbind, prog_bind. destruct (m s) as [[a|x] s1] eqn:Hr.
  - intros Hr'. etrans; [by eapply Hm|by eapply Hf].
  - intros [= <- <-]. by eapply Hm.
Qed.

Lemma moves_try {A} (m : prog S A) (h : exn -> prog S A) :
  moves T m -> (forall x, moves T (h x)) -> moves T (try_catch m h).
Proof.
  intros Hm Hh s r s'. unfold try_catch. destruct (m s) as [[a|x] s1] eqn:Hr.
  - intros [= <- <-]. by eapply Hm.
  - intros Hr'. etrans; [by eapply Hm|by eapply Hh].
Qed.

Lemma moves_while {A} is_running (body : A -> prog S A) fuel a :
  (forall a, moves T (body a)) -> moves T (while_running is_running body fuel a).
Proof.
  intros Hbody. revert a. induction fuel as [|fuel IH]; intros a s r s'; simpl.
  { intros [= <- <-]. constructor. }
  destruct (is_running s); [|intros [= <- <-]; constructor].
  apply moves_bind; [done|]. apply IH.
Qed.

Lemma moves_once {A} (m : prog S A) :
  (forall s r s', m s = (r, s') -> T s s') -> moves T m.
Proof. intros Hm s r s' Hr. by eapply rtc_once, Hm. Qed.

Lemma moves_exit (m : prog S bool) : moves T m -> moves T (exit_status m).
Proof.
  intros Hm. apply moves_try; [|intros; apply moves_ret].
  apply moves_bind; [done|intros; apply moves_ret].
Qed.
End Moves.

(** A setting that is accepted is in its range, or the fallback. *)
Lemma read_setting_inv getenv name fallback minimum maximum refusal v :
  read_setting getenv name fallback minimum maximum refusal = Ok v <->
  match getenv name with
  | None => v = fallback
  | Some configured => stoll configured = Ok v /\ (minimum <= v <= maximum)%Z
  end.
Proof.
  unfold read_setting. destruct (getenv name) as [configured|].
  2: { split; [by intros [= <-]|by intros ->]. }
  destruct (stoll configured) as [z|]; simpl; [|split; [done|by intros []]].
  case_decide.
  - split; [done|]. intros [[= ->] ?]. lia.
  - split; [intros [= <-]; split; [done|lia]|by intros [[= ->] _]].
Qed.

(** How a body with its [catch] ends. *)
Lemma exit_status_cases {S} (m : prog S bool) s :
  exit_status m s =
  match m s with
  | (Ok stopped, s') => (Ok (if stopped then Exited 0 else StillRunning), s')
  | (Throw _, s') => (Ok (Exited 1), s')
  end.
Proof.
  unfold exit_status, try_catch, mbind, prog_bind. by destruct (m s) as [[[]|] ?].
Qed.
