(* ===== verification/Orchestrator.v ===== *)
(** * The orchestrator service (src/orchestrator_service.cpp,
    include/ocs/orchestrator_service.hpp).

    The service keeps nothing between calls: its state is the world of Services.v. *)
From S2P Require Import Prelude Redis RedisKeys RedisRepository Services.
From S2P Require Import Errors Types ConnStateMachine Json DeviceCommand OrchRules.
From stdpp Require Import options.
Import ConnectionApplyStatus.

Definition kConsumerGroup : string := "ocs-orch".
Definition kRetryConsumerGroup : string := "ocs-orch-retry".

(** The members set by the constructor. *)
Record OrchConfig := mkOrchConfig {
  pending_min_idle_ : Z;     (* milliseconds *)
  retry_policy_ : ApplyRetryPolicy;
}.

Definition OrchestratorService_make (pending_min_idle : Z) (policy : ApplyRetryPolicy)
    : result OrchConfig :=
  if decide (pending_min_idle < 0 \/ 3600000 < pending_min_idle)%Z then
    Throw (InvalidArgument "orch pending minimum idle time is outside 0..3600000ms")
  else if decide (100 < max_retries policy \/ base_backoff policy < 0
                  \/ max_backoff policy < base_backoff policy
                  \/ 3600000 < max_backoff policy)%Z then
    Throw (InvalidArgument "orch apply retry policy is outside supported bounds")
  else Ok (mkOrchConfig pending_min_idle policy).

Section Service.
Context {J : JsonLib} {DB : Type} `{Redis DB} `{RedisGroups DB}.
Variable orch : OrchConfig.
Variable oracle : Oracle.
#[local] Abbreviation call := (call oracle).
#[local] Abbreviation timestampNowNs := (timestampNowNs oracle).
#[local] Abbreviation after_phase := (after_phase oracle).
#[local] Abbreviation get_hash := (get_hash oracle).
#[local] Abbreviation put_versioned := (put_versioned oracle).
#[local] Abbreviation append_once := (append_once oracle).
#[local] Abbreviation ack := (ack oracle).
#[local] Abbreviation next_message := (next_message oracle).

Definition loadDesiredSnapshot (event : EventEnvelope) : prog (World DB) ConnectionCommand :=
  snapshot ← get_hash LogicalDb.kConfig
    (connectionConfigKey (ev_device event) (resource_id event));
  lift (snapshot_command snapshot event).

(** ** initialize and publishHeartbeat *)
Definition publishHeartbeat : prog (World DB) unit :=
  now ← timestampNowNs;
  call LogicalDb.kState (plain (putHash (serviceStateKey "ocs-orch")
    {["service" := "ocs-orch"; "status" := "ONLINE"; "last_seen_ns" := to_string now]} Replied)).

Definition initialize : prog (World DB) unit :=
  call LogicalDb.kConfig (plain (createConsumerGroup kConfigEvents kConsumerGroup "0-0")) ;;
  call LogicalDb.kDevice (plain (createConsumerGroup kDeviceResults kConsumerGroup "0-0")) ;;
  call LogicalDb.kDevice (plain (createConsumerGroup kDeviceRetries kRetryConsumerGroup "0-0")) ;;
  publishHeartbeat.

(** ** processConfigOne *)

(** The loop over a new batch: [None] for a stale one, else the commands to prepare. *)
Fixpoint select_commands (event : EventEnvelope) (commands : list ConnectionCommand)
    : prog (World DB) (option (list ConnectionCommand)) :=
  match commands with
  | [] => mret (Some [])
  | command :: rest =>
      existing ← get_hash LogicalDb.kAppl
        (connectionAppKey (ev_device event) (cmd_id command));
      previous ← lift (currentVersion existing);
      if decide (desired_version command <= previous)%Z then mret None
      else if decide (operation command = ConnectionOperation.kRemove /\ existing = ∅) then
        select_commands event rest
      else
        command' ← (if decide (resource_type event = "connection"
                               /\ 1 < desired_version command - previous)%Z
                    then loadDesiredSnapshot event else mret command);
        selected ← select_commands event rest;
        mret (cons command' <$> selected)
  end.

Definition batch_fields (event : EventEnvelope) (payload : string) : gmap string string :=
  {["event_id" := event_id event; "request_id" := request_id event;
    "device" := ev_device event; "payload" := payload]}.

(** The batch an earlier attempt stored, or a new one; [None] when there is nothing to do. *)
Definition prepare_batch (event : EventEnvelope) : prog (World DB) (option DeviceCommandBatch) :=
  let prepared_key := orchConfigBatchKey (event_id event) in
  prepared ← get_hash LogicalDb.kDevice prepared_key;
  if decide (prepared <> ∅) then
    batch ← lift (map_at prepared "payload" ≫= decodeDeviceCommand); mret (Some batch)
  else
    batch ← lift (decodeConfigBatchEvent event);
    selected ← select_commands event (batch_commands batch);
    match selected with
    | None | Some [] => mret None
    | Some commands =>
        payload ← lift (encodeDeviceCommand (mkBatch commands (batch_options batch)));
        call LogicalDb.kDevice (putHashIfAbsent prepared_key (batch_fields event payload)) ;;
        prepared ← get_hash LogicalDb.kDevice prepared_key;
        batch ← lift (map_at prepared "payload" ≫= decodeDeviceCommand); mret (Some batch)
    end.

Definition application_fields (event : EventEnvelope) (command_id : string)
    (command : ConnectionCommand) (status : ConnectionApplyStatus.t) : gmap string string :=
  {["device" := ev_device event;
    "id" := cmd_id command;
    "input_port" := to_string (cmd_input_port command);
    "output_port" := to_string (cmd_output_port command);
    "desired_version" := to_string (desired_version command);
    "apply_status" := toString status;
    "operation" := operationName (operation command);
    "request_id" := request_id event;
    "event_id" := event_id event;
    "command_id" := command_id;
    "retry_attempt" := "0";
    "next_retry_at_ns" := "";
    "failed_command_id" := ""]} ∪
  {["last_error_code" := ""; "last_error_message" := ""]}.

(** The hash of one command, for both databases: APPL_DB's entry. *)
Definition start_application (event : EventEnvelope) (command_id : string)
    (command : ConnectionCommand) : prog (World DB) (string * gmap string string) :=
  existing ← get_hash LogicalDb.kAppl (connectionAppKey (ev_device event) (cmd_id command));
  status ← lift (current ← currentStatus existing;
                 startApplyTransition current (operation command));
  mret (cmd_id command, application_fields event command_id command status).

Definition keyed (key : string -> string -> string) (event : EventEnvelope)
    (hashes : list (string * gmap string string)) : list (string * gmap string string) :=
  (fun '(id, fs) => (key (ev_device event) id, fs)) <$> hashes.

Definition single {A} (batch : DeviceCommandBatch) (one : ConnectionCommand -> A) (many : A) : A :=
  match batch_commands batch with [c] => one c | _ => many end.

Definition publication_marker (event : EventEnvelope) (command_id : string)
    : gmap string string :=
  {["event_id" := event_id event; "command_id" := command_id;
    "desired_version" := to_string (ev_desired_version event)]}.

(** From "prepared" to "command": everything after the batch is known. *)
Definition publish_batch (event : EventEnvelope) (batch : DeviceCommandBatch)
    : prog (World DB) unit :=
  let command_id := event_id event +:+ ":command" in
  after_phase "prepared" ;;
  hashes ← mapM (start_application event command_id) (batch_commands batch);
  put_versioned LogicalDb.kAppl (orchApplicationPublicationKey (event_id event))
    (publication_marker event command_id) (keyed connectionAppKey event hashes) ;;
  after_phase "application" ;;
  put_versioned LogicalDb.kDevice (orchDeviceStatePublicationKey (event_id event))
    (publication_marker event command_id) (keyed connectionDeviceKey event hashes) ;;
  after_phase "device-state" ;;
  now ← timestampNowNs;
  payload ← lift (encodeDeviceCommand batch);
  append_once (orchDeviceCommandPublicationKey (event_id event))
    {["event_id" := event_id event; "command_id" := command_id]} kDeviceCommands
    (mkEventEnvelope 1 command_id (request_id event) now (ev_device event)
       (single batch (fun _ => "connection") "connection-batch")
       (single batch cmd_id (request_id event))
       (single batch (fun c => operationName (operation c)) "APPLY_BATCH")
       (ev_desired_version event) payload) ;;
  after_phase "command".

(** Everything before the acknowledgement. *)
Definition publish_config (e : EventEnvelope) : prog (World DB) unit :=
  published ← get_hash LogicalDb.kDevice (orchDeviceCommandPublicationKey (event_id e));
  if decide (published <> ∅) then mret tt
  else
    batch ← prepare_batch e;
    match batch with
    | None => mret tt
    | Some batch => publish_batch e batch
    end.

Definition process_config (message : StreamMessage) : prog (World DB) unit :=
  publish_config (event message) ;;
  ack LogicalDb.kConfig kConfigEvents kConsumerGroup message.

Definition processConfigOne (consumer : string) : prog (World DB) bool :=
  message ← next_message LogicalDb.kConfig kConfigEvents kConsumerGroup consumer
    (pending_min_idle_ orch);
  match message with
  | None => mret false
  | Some message => process_config message ;; mret true
  end.
End Service.
