(* ===== verification/OrchResults.v ===== *)
(** * The orchestrator service, continued: device results, timeouts, retries and alarms
    (src/orchestrator_service.cpp, from processResultOne on). *)
From S2P Require Import Prelude Redis RedisKeys RedisRepository.
From S2P Require Import Errors Types ConnStateMachine Json DeviceCommand OrchRules Services Orchestrator.
From stdpp Require Import options.
Import ConnectionApplyStatus.

Section Results.
Context {J : JsonLib} {DB : Type} `{Redis DB} `{RedisGroups DB}.
Variable orch : OrchConfig.
Variable oracle : Oracle.
#[local] Abbreviation get_hash := (get_hash oracle).
#[local] Abbreviation put_versioned := (put_versioned oracle).
#[local] Abbreviation call := (call oracle).
#[local] Abbreviation after_phase := (after_phase oracle).
#[local] Abbreviation timestampNowNs := (timestampNowNs oracle).

(** ** Alarms *)
Definition alarm_fields (e : EventEnvelope) (alarm_id error_message activation_id first_raised : string)
    (now : Z) : gmap string string :=
  {["id" := alarm_id; "active" := "true"; "severity" := "MAJOR";
    "resource_type" := "connection"; "resource_id" := resource_id e;
    "desired_version" := to_string (ev_desired_version e);
    "error_code" := ErrorCode.toString ErrorCode.kApplyTimeout;
    "error_message" := error_message; "activation_id" := activation_id;
    "first_raised_ns" := first_raised; "last_change_ns" := to_string now]}.

Definition alarm_event (e : EventEnvelope) (event_id : string) (now : Z)
    (alarm_id operation : string) (version : Z) (payload : string) : EventEnvelope :=
  mkEventEnvelope 1 event_id (request_id e) now (ev_device e) "alarm" alarm_id operation
    version payload.

(** The body of [if (marker.empty())]: raise the alarm, and read the marker again. *)
Definition raise_alarm (e : EventEnvelope) (error_message : string)
    (active : gmap string string) : prog (World DB) (gmap string string) :=
  let alarm_id := applyTimeoutAlarmId (resource_id e) in
  let key := activeAlarmKey (ev_device e) alarm_id in
  let marker_key := orchAlarmPublicationKey (event_id e) in
  now ← timestampNowNs;
  let activation_id := default (event_id e) (active !! "activation_id") in
  let first_raised := default (to_string now) (active !! "first_raised_ns") in
  let fs := alarm_fields e alarm_id error_message activation_id first_raised now in
  let marker := {["alarm_id" := alarm_id;
                  "desired_version" := to_string (ev_desired_version e);
                  "activation_id" := activation_id;
                  "activated" := if decide (active = ∅) then "true" else "false"]} in
  payload ← lift (alarmPayload fs);
  call LogicalDb.kAlarm (replaceHashAndAppendEventOnce marker_key marker key fs kAlarmEvents
    (alarm_event e (event_id e) now alarm_id "UPSERT" (ev_desired_version e) payload)) ;;
  get_hash LogicalDb.kAlarm marker_key.

(** [counters_db_.incrementHashFieldsOnce] of "active_alarms", once per activation *)
Definition count_alarm (e : EventEnvelope) (alarm_id activation_id : string) (clear : bool)
    (version : Z) (increment : Z) : prog (World DB) unit :=
  call LogicalDb.kCounters (incrementHashFieldsOnce
    (orchAlarmCounterPublicationKey (ev_device e) alarm_id activation_id clear)
    {["alarm_id" := alarm_id; "desired_version" := to_string version]}
    (deviceCountersKey (ev_device e)) {["active_alarms" := increment]}) ;;
  mret tt.

Definition publishTimeoutAlarm (e : EventEnvelope) (error_message : string)
    : prog (World DB) unit :=
  let alarm_id := applyTimeoutAlarmId (resource_id e) in
  marker ← get_hash LogicalDb.kAlarm (orchAlarmPublicationKey (event_id e));
  active ← get_hash LogicalDb.kAlarm (activeAlarmKey (ev_device e) alarm_id);
  marker ← (if decide (marker = ∅) then raise_alarm e error_message active else mret marker);
  activated ← lift (map_at marker "activated");
  if decide (activated = "true") then
    activation_id ← lift (map_at marker "activation_id");
    count_alarm e alarm_id activation_id false (ev_desired_version e) 1
  else mret tt.

(** The body of the second [if (marker.empty())]: clear the alarm. *)
Definition lower_alarm (e : EventEnvelope) (active : gmap string string)
    : prog (World DB) (gmap string string) :=
  let alarm_id := applyTimeoutAlarmId (resource_id e) in
  let marker_key := orchAlarmClearPublicationKey (event_id e) in
  version ← lift (map_at active "desired_version" ≫= stoull);
  now ← timestampNowNs;
  let active := <["last_change_ns" := to_string now]> (<["active" := "false"]> active) in
  activation_id ← lift (map_at active "activation_id");
  let marker := {["alarm_id" := alarm_id; "desired_version" := to_string version;
                  "activation_id" := activation_id; "cleared" := "true"]} in
  payload ← lift (alarmPayload active);
  call LogicalDb.kAlarm (replaceHashAndAppendEventOnce marker_key marker
    (activeAlarmKey (ev_device e) alarm_id) ∅ kAlarmEvents
    (alarm_event e (event_id e +:+ ":alarm-clear") now alarm_id "REMOVE" version payload)) ;;
  get_hash LogicalDb.kAlarm marker_key.

Definition clearTimeoutAlarm (e : EventEnvelope) : prog (World DB) unit :=
  let alarm_id := applyTimeoutAlarmId (resource_id e) in
  marker ← get_hash LogicalDb.kAlarm (orchAlarmClearPublicationKey (event_id e));
  active ← get_hash LogicalDb.kAlarm (activeAlarmKey (ev_device e) alarm_id);
  if decide (marker = ∅ /\ active = ∅) then mret tt
  else
    marker ← (if decide (marker = ∅) then lower_alarm e active else mret marker);
    version ← lift (map_at marker "desired_version" ≫= stoull);
    activation_id ← lift (map_at marker "activation_id");
    count_alarm e alarm_id activation_id true version (-1).

(** ** Timeouts *)

(** What the first timeout of a command decides; [None] when the command is not the one
    the connection is executing. *)
Definition timeout_metadata (e : EventEnvelope) (command_id : string)
    (first_command : ConnectionCommand) : prog (World DB) (option (gmap string string)) :=
  first ← get_hash LogicalDb.kAppl (connectionAppKey (ev_device e) (cmd_id first_command));
  if decide (first = ∅) then mret None else
  version ← lift (currentVersion first);
  if decide (version <> ev_desired_version e \/ first !! "command_id" <> Some command_id)
  then mret None else
  current ← lift (currentStatus first);
  if decide (current <> kApplying /\ current <> kRemoving) then mret None else
  lift (requireTransition current kFailed) ;;
  completed ← lift (match first !! "retry_attempt" with
                    | None => Ok 0%Z
                    | Some text => stoull text
                    end);
  let schedule_retry := bool_decide (completed < max_retries (retry_policy_ orch))%Z in
  let next_attempt := if schedule_retry then (completed + 1)%Z else completed in
  let next_status := if schedule_retry then kRetryWait else kFailed in
  (if schedule_retry then lift (requireTransition kFailed next_status) else mret tt) ;;
  next_retry_at ← (if schedule_retry then
                     now ← timestampNowNs; mret (retryAtNs now next_attempt (retry_policy_ orch))
                   else mret 0%Z);
  mret (Some {["command_id" := command_id;
               "desired_version" := to_string (ev_desired_version e);
               "retry_attempt" := to_string next_attempt;
               "next_retry_at_ns" := to_string next_retry_at;
               "apply_status" := toString next_status;
               "retry_scheduled" := if schedule_retry then "true" else "false"]}).

(** The failed entry of one connection; [None] when another command has taken it over. *)
Definition timeout_application (e : EventEnvelope) (command_id error_message : string)
    (metadata : gmap string string) (command : ConnectionCommand)
    : prog (World DB) (option (string * gmap string string)) :=
  application ← get_hash LogicalDb.kAppl (connectionAppKey (ev_device e) (cmd_id command));
  if decide (application = ∅) then mret None else
  version ← lift (currentVersion application);
  if decide (version <> desired_version command
             \/ application !! "command_id" <> Some command_id) then mret None else
  status ← lift (map_at metadata "apply_status");
  attempt ← lift (map_at metadata "retry_attempt");
  retry_at ← lift (map_at metadata "next_retry_at_ns");
  mret (Some (cmd_id command,
    <["last_error_message" := error_message]>
    (<["last_error_code" := ErrorCode.toString ErrorCode.kApplyTimeout]>
    (<["failed_command_id" := command_id]>
    (<["next_retry_at_ns" := retry_at]>
    (<["retry_attempt" := attempt]>
    (<["apply_status" := status]> application))))))).

Definition with_resource (e : EventEnvelope) (event_id resource_id : string) : EventEnvelope :=
  mkEventEnvelope (event_schema_version e) event_id (request_id e) (timestamp_ns e)
    (ev_device e) (resource_type e) resource_id (ev_operation e) (ev_desired_version e)
    (ev_payload e).

Definition schedule_retry (e : EventEnvelope) (command_id : string) (batch : DeviceCommandBatch)
    (metadata : gmap string string) : prog (World DB) unit :=
  scheduled ← lift (map_at metadata "retry_scheduled");
  if decide (scheduled <> "true") then mret tt else
  attempt ← lift (map_at metadata "retry_attempt" ≫= stoull);
  not_before ← lift (map_at metadata "next_retry_at_ns" ≫= stoull);
  now ← timestampNowNs;
  payload ← lift (retryPayload batch command_id attempt not_before);
  let retry_event_id := command_id +:+ ":retry:" +:+ to_string attempt in
  append_once oracle (orchRetryPublicationKey command_id)
    {["command_id" := command_id; "retry_event_id" := retry_event_id;
      "desired_version" := to_string (ev_desired_version e)]} kDeviceRetries
    (mkEventEnvelope 1 retry_event_id (request_id e) now (ev_device e)
       (single batch (fun _ => "connection") "connection-batch")
       (single batch cmd_id (request_id e)) "RETRY" (ev_desired_version e) payload) ;;
  after_phase "timeout-retry".

(** Everything after the decision: states, alarms and the retry. *)
Definition publish_timeout (e : EventEnvelope) (command_id error_message : string)
    (batch : DeviceCommandBatch) (metadata : gmap string string) : prog (World DB) unit :=
  hashes ← collect_all (timeout_application e command_id error_message metadata)
             (batch_commands batch);
  match hashes with
  | None => mret tt
  | Some hashes =>
      put_versioned LogicalDb.kDevice (orchTimeoutDevicePublicationKey command_id) metadata
        (keyed connectionDeviceKey e hashes) ;;
      after_phase "timeout-device" ;;
      put_versioned LogicalDb.kAppl (orchTimeoutApplicationPublicationKey command_id) metadata
        (keyed connectionAppKey e hashes) ;;
      after_phase "timeout-application" ;;
      for_each (fun command => publishTimeoutAlarm
          (with_resource e (command_id +:+ ":timeout-alarm:" +:+ cmd_id command)
             (cmd_id command)) error_message)
        (batch_commands batch) ;;
      after_phase "timeout-alarm" ;;
      schedule_retry e command_id batch metadata
  end.

Definition handleTimeoutResult (message : StreamMessage) (command_id error_message : string)
    : prog (World DB) unit :=
  let e := event message in
  attempt ← get_hash LogicalDb.kDevice (deviceApplyAttemptKey command_id);
  match attempt !! "payload" with
  | None => mret tt
  | Some payload =>
      match decodeDeviceCommand payload with
      | Throw _ => mret tt
      | Ok batch =>
          match batch_commands batch with
          | [] => mret tt
          | first_command :: _ =>
              stored ← get_hash LogicalDb.kAppl (orchTimeoutApplicationPublicationKey command_id);
              stored ← (if decide (stored = ∅)
                        then get_hash LogicalDb.kDevice (orchTimeoutDevicePublicationKey command_id)
                        else mret stored);
              metadata ← (if decide (stored = ∅) then timeout_metadata e command_id first_command
                          else mret (Some stored));
              match metadata with
              | None => mret tt
              | Some metadata => publish_timeout e command_id error_message batch metadata
              end
          end
      end
  end.

(** ** processResultOne *)

(** What the service does with a result that is not a timeout. *)
Inductive result_action :=
  | Ignore                                      (* acknowledge and forget *)
  | Reject (error : exn)                        (* throw: the result stays pending *)
  | Publish (next : ConnectionApplyStatus.t).   (* write the new status *)

Definition operation_removes (application : gmap string string) : bool :=
  bool_decide (application !! "operation" = Some "REMOVE").

(** The checks of processResultOne from the stale test to the transition test. *)
Definition classify_result (version application_version : Z) (current : ConnectionApplyStatus.t)
    (success recovery_result removes : bool) : result_action :=
  let recovering_failed_application :=
    recovery_result && success && bool_decide (current = kFailed \/ current = kRetryWait) in
  if bool_decide (version <= application_version)%Z &&
     (bool_decide (version < application_version)%Z || bool_decide (current = kActive)
      || bool_decide (current = kAbsent)
      || (bool_decide (current = kFailed) && negb recovering_failed_application))
  then Ignore
  else if decide (application_version < version)%Z then
    Reject (RuntimeError "device result is newer than application state")
  else
    let next := if success then
                  if bool_decide (current = kRemoving) || (recovery_result && removes)
                  then kAbsent else kActive
                else kFailed in
    let checked :=
      if recovering_failed_application then
        let executing := if decide (next = kAbsent) then kRemoving else kApplying in
        (if decide (current = kFailed) then requireTransition current kRetryWait else Ok tt) ;;
        requireTransition kRetryWait executing ;;
        requireTransition executing next
      else requireTransition current next in
    match checked with Throw error => Reject error | Ok _ => Publish next end.

Definition result_application (application : gmap string string) (next : ConnectionApplyStatus.t)
    (success : bool) (error_code error_message : string) : gmap string string :=
  let absent := bool_decide (next = kAbsent) in
  let updated :=
    <["last_error_message" := if absent then "" else error_message]>
    (<["last_error_code" := if absent then "" else error_code]>
    (<["apply_status" := toString next]> application)) in
  if success then
    <["failed_command_id" := ""]> (<["next_retry_at_ns" := ""]> (<["retry_attempt" := "0"]> updated))
  else updated.

Definition result_marker (e : EventEnvelope) : gmap string string :=
  {["result_event_id" := event_id e; "desired_version" := to_string (ev_desired_version e)]}.

Definition publish_result (e : EventEnvelope) (application : gmap string string)
    (next : ConnectionApplyStatus.t) (success : bool) : prog (World DB) unit :=
  put_versioned LogicalDb.kDevice (orchResultDevicePublicationKey (event_id e)) (result_marker e)
    [(connectionDeviceKey (ev_device e) (resource_id e),
      if decide (next = kAbsent) then ∅ else application)] ;;
  after_phase "device-result" ;;
  put_versioned LogicalDb.kAppl (orchResultApplicationPublicationKey (event_id e))
    (result_marker e) [(connectionAppKey (ev_device e) (resource_id e), application)] ;;
  after_phase "application-result" ;;
  if success then clearTimeoutAlarm e ;; after_phase "alarm-clear" else mret tt.

(** [!getHash(...).empty() && !getHash(...).empty()] *)
Definition already_published (e : EventEnvelope) : prog (World DB) bool :=
  application ← get_hash LogicalDb.kAppl (orchResultApplicationPublicationKey (event_id e));
  if decide (application = ∅) then mret false
  else
    device ← get_hash LogicalDb.kDevice (orchResultDevicePublicationKey (event_id e));
    mret (bool_decide (device <> ∅)).

Definition handle_result (e : EventEnvelope) (res : Json) (success : bool) : prog (World DB) unit :=
  published ← already_published e;
  if published : bool then (if success then clearTimeoutAlarm e else mret tt) else
  application ← get_hash LogicalDb.kAppl (connectionAppKey (ev_device e) (resource_id e));
  if decide (application = ∅) then mret tt else
  application_version ← lift (currentVersion application);
  current ← lift (currentStatus application);
  result_command_id ← lift (json_value res "command_id" "");
  let recovery_result :=
    isGenerationRecovery result_command_id || isGenerationRecovery (event_id e)
    || isReconciliation result_command_id || isReconciliation (event_id e) in
  match classify_result (ev_desired_version e) application_version current success
          recovery_result (operation_removes application) with
  | Ignore => mret tt
  | Reject error => throw error
  | Publish next =>
      error_code ← (if decide (next = kAbsent) then mret ""
                    else lift (json_at res "error_code" ≫= get_string));
      error_message ← (if decide (next = kAbsent) then mret ""
                       else lift (json_at res "error_message" ≫= get_string));
      publish_result e (result_application application next success error_code error_message)
        next success
  end.

Definition process_result (message : StreamMessage) : prog (World DB) unit :=
  let e := event message in
  res ← lift (parse (ev_payload e));
  success ← lift (json_at res "success" ≫= get_bool);
  error_code ← lift (json_at res "error_code" ≫= get_string);
  (if decide (success = false /\ error_code = ErrorCode.toString ErrorCode.kApplyTimeout) then
     command_id ← lift (resultCommandId e res);
     error_message ← lift (json_at res "error_message" ≫= get_string);
     handleTimeoutResult message command_id error_message
   else handle_result e res success) ;;
  ack oracle LogicalDb.kDevice kDeviceResults kConsumerGroup message.

Definition processResultOne (consumer : string) : prog (World DB) bool :=
  message ← next_message oracle LogicalDb.kDevice kDeviceResults kConsumerGroup consumer
    (pending_min_idle_ orch);
  match message with
  | None => mret false
  | Some message => process_result message ;; mret true
  end.

(** ** processRetryOne *)

(** The entry of one connection when its retry starts, or goes on after a restart; [None]
    when the retry no longer concerns it. *)
Definition retry_application (e : EventEnvelope) (failed_command_id : string) (attempt : Z)
    (started : bool) (command : ConnectionCommand)
    : prog (World DB) (option (string * gmap string string)) :=
  let command_id := event_id e +:+ ":command" in
  application ← get_hash LogicalDb.kAppl (connectionAppKey (ev_device e) (cmd_id command));
  if decide (application = ∅) then mret None else
  version ← lift (currentVersion application);
  if decide (version <> desired_version command) then mret None else
  if negb (bool_decide (application !! "command_id" = Some failed_command_id)
           || (started && bool_decide (application !! "command_id" = Some command_id)))
  then mret None else
  waiting ← (if started : bool then mret true
             else status ← lift (currentStatus application); mret (bool_decide (status = kRetryWait)));
  if negb waiting then mret None else
  application ← (if started : bool then mret application
                 else
                   let executing := executing_status (operation command) in
                   lift (requireTransition kRetryWait executing) ;;
                   mret (<["apply_status" := toString executing]> application));
  mret (Some (cmd_id command,
    <["failed_command_id" := failed_command_id]>
    (<["next_retry_at_ns" := ""]>
    (<["retry_attempt" := to_string attempt]>
    (<["command_id" := command_id]> application))))).

Definition retry_marker (e : EventEnvelope) (attempt : Z) : gmap string string :=
  {["retry_event_id" := event_id e; "command_id" := event_id e +:+ ":command";
    "desired_version" := to_string (ev_desired_version e);
    "retry_attempt" := to_string attempt]}.

Definition publish_retry (e : EventEnvelope) (batch : DeviceCommandBatch) (attempt : Z)
    (hashes : list (string * gmap string string)) : prog (World DB) unit :=
  let marker := retry_marker e attempt in
  put_versioned LogicalDb.kAppl (orchRetryApplicationPublicationKey (event_id e)) marker
    (keyed connectionAppKey e hashes) ;;
  after_phase "retry-application" ;;
  put_versioned LogicalDb.kDevice (orchRetryDevicePublicationKey (event_id e)) marker
    (keyed connectionDeviceKey e hashes) ;;
  after_phase "retry-device" ;;
  payload ← lift (encodeDeviceCommand batch);
  call LogicalDb.kDevice (putHashIfAbsent (orchConfigBatchKey (event_id e))
    (batch_fields e payload)) ;;
  now ← timestampNowNs;
  payload ← lift (encodeDeviceCommand batch);
  append_once oracle (orchRetryCommandPublicationKey (event_id e)) marker kDeviceCommands
    (mkEventEnvelope 1 (event_id e +:+ ":command") (request_id e) now (ev_device e)
       (resource_type e) (resource_id e)
       (single batch (fun c => operationName (operation c)) "APPLY_BATCH")
       (ev_desired_version e) payload) ;;
  after_phase "retry-command".

Definition handle_retry (e : EventEnvelope) (batch : DeviceCommandBatch)
    (failed_command_id : string) (attempt : Z) : prog (World DB) unit :=
  published ← get_hash LogicalDb.kDevice (orchRetryCommandPublicationKey (event_id e));
  if decide (published <> ∅) then mret tt else
  application ← get_hash LogicalDb.kAppl (orchRetryApplicationPublicationKey (event_id e));
  started ← (if decide (application <> ∅) then mret true
             else device ← get_hash LogicalDb.kDevice (orchRetryDevicePublicationKey (event_id e));
                  mret (bool_decide (device <> ∅)));
  hashes ← collect_all (retry_application e failed_command_id attempt started)
             (batch_commands batch);
  match hashes with
  | None => mret tt
  | Some hashes => publish_retry e batch attempt hashes
  end.

Definition process_retry (message : StreamMessage) : prog (World DB) bool :=
  let e := event message in
  payload ← lift (parse (ev_payload e));
  now ← timestampNowNs;
  not_before ← lift (json_at payload "not_before_ns" ≫= get_u64);
  if decide (now < not_before)%Z then mret false
  else
    batch ← lift (retryBatch payload);
    failed_command_id ← lift (json_at payload "failed_command_id" ≫= get_string);
    attempt ← lift (json_at payload "retry_attempt" ≫= get_u64);
    handle_retry e batch failed_command_id attempt ;;
    ack oracle LogicalDb.kDevice kDeviceRetries kRetryConsumerGroup message ;;
    mret true.

Definition processRetryOne (consumer : string) : prog (World DB) bool :=
  message ← next_message oracle LogicalDb.kDevice kDeviceRetries kRetryConsumerGroup consumer 0;
  match message with
  | None => mret false
  | Some message => process_retry message
  end.
End Results.
