(* ===== verification/OrchSteps.v ===== *)
(** * The orchestrator as a transition system, in which the version of a connection in
    APPL_DB never decreases.

    A step is one call of the service, with any oracle, or some commands of other clients
    (syncd, the management plane, another orchestrator) on one database. *)
From S2P Require Import Prelude ProgLogic Errors Types ConnStateMachine Json DeviceCommand.
From S2P Require Import RedisKeys Redis RedisRepository RedisRepositoryProps RedisOnce.
From S2P Require Import RedisOnce Services CallLogic OrchRules Orchestrator OrchResults.
From stdpp Require Import options.

(** A key after the commands of a versioned publication: as before, or one of the hashes,
    whose version is the marker's and not older than the stored one. *)
Lemma versioned_last {DB} {R : Redis DB} {RL : RedisLaws DB} v (db0 : DB) hashes css k db :
  mapM (versioned_cmds v db0) hashes = Ok css ->
  hgetall k (run_cmds (concat css) db) = hgetall k db \/
  exists fs, (k, fs) ∈ hashes /\ hgetall k (run_cmds (concat css) db) = fs /\
    (forall z, stored_version (hgetall k db0) z -> (z <= v)%Z) /\
    (fs !! "desired_version" <> None -> stored_version fs v).
Proof.
  revert css db. induction hashes as [|h hashes IH]; intros css db; simpl.
  { intros [= <-]. by left. }
  rewrite result_bind_Ok. intros (cs & Hcs & (css' & Hcss & <-%Ok_inj)%result_bind_Ok).
  destruct h as [k1 fs1]. simpl. rewrite run_cmds_app.
  destruct (IH css' (run_cmds cs db) Hcss) as [->|(fs & Hin & Hfs)].
  2: { right. exists fs. split; [by right|done]. }
  destruct (decide (k = k1)) as [<-|Hne].
  - destruct (versioned_cmds_cases _ _ _ _ _ Hcs) as (_ & Hv & [[-> _]|[-> Hle]]); [by left|].
    right. exists fs1. rewrite replace_hash_run. split; [by left|done].
  - left. apply run_cmds_frame. intros (c & Hc & Hin)%list_elem_of_fmap.
    apply Hne. rewrite Hc. by apply (versioned_cmds_targets _ _ _ _ _ Hcs).
Qed.

Section Versions.
Context {J : JsonLib} {DB : Type} {R : Redis DB} {RL : RedisLaws DB}.
Context {G : RedisGroups DB} {GL : RedisGroupLaws DB}.
Variable orch : OrchConfig.
Variable oracle : Oracle.
Variables (dev conn : string) (v : Z).
#[local] Abbreviation k := (connectionAppKey dev conn).
Hypothesis Hothers : forall n i c, c ∈ others_of (around oracle n i) -> apart [k] c.
#[local] Set Default Proof Using "Type*".

(** The connection's entry is there, at version [v] or later. *)
Definition at_least (db : DB) : Prop :=
  exists z, stored_version (hgetall k db) z /\ (v <= z)%Z.

Lemma at_least_stable c db : apart [k] c -> at_least db -> at_least (execute c db).
Proof using RL.
  unfold at_least. intros Hc. destruct (execute_frame c k db) as (_ & -> & _); [|done].
  intros He. apply Hc. rewrite He. by left.
Qed.

#[local] Abbreviation inv := (holds LogicalDb.kAppl at_least).

(** A hash that would be published under the connection's key carries a version. *)
Definition versioned_entry (e : EventEnvelope) (h : string * gmap string string) : Prop :=
  connectionAppKey (ev_device e) h.1 = k -> h.2 !! "desired_version" <> None.

Lemma keeps_put_application e marker mf hashes :
  marker <> k -> Forall (versioned_entry e) hashes ->
  keeps inv (put_versioned oracle LogicalDb.kAppl marker mf (keyed connectionAppKey e hashes))
    (fun _ => True).
Proof.
  intros Hm Hh. apply (keeps_put_versioned _ _ _ at_least_stable _ Hothers).
  intros db version t css (z & Hz & Hvz) _ _ _ Hcss. unfold at_least. rewrite run_cmds_app.
  destruct (run_cmds_frame [HMSET marker (sorted_items mf)] k (run_cmds (concat css) db))
    as (_ & -> & _).
  { intros ?%list_elem_of_singleton. by apply Hm. }
  destruct (versioned_last _ _ _ _ k db Hcss) as [->|(fs & Hin & -> & Hle & Hfs)]; [eauto|].
  exists version. split; [|specialize (Hle _ Hz); lia]. apply Hfs.
  unfold keyed in Hin. apply list_elem_of_fmap in Hin as ([id fs'] & Heq & Hin).
  apply pair_eq in Heq as [Hk ->]. rewrite Forall_forall in Hh. by apply (Hh (id, fs')).
Qed.

Lemma keeps_read_application key :
  keeps inv (get_hash oracle LogicalDb.kAppl key)
    (fun m => key = k -> m !! "desired_version" <> None).
Proof.
  eapply keeps_weaken; [apply (keeps_get_hash _ _ _ at_least_stable _ Hothers)|].
  intros m (db & (z & (t & Ht & _) & _) & ->) ->. by rewrite Ht.
Qed.

Ltac version_leaf :=
  match goal with
  | |- keeps _ (get_hash _ LogicalDb.kAppl _) _ =>
      eapply keeps_weaken; [apply keeps_read_application|exact (fun _ _ => I)]
  | |- keeps _ (next_message _ _ _ _ _ _) _ => unfold next_message
  | |- keeps _ (ack _ _ _ _ _) _ => unfold ack
  | |- keeps _ (get_hash _ _ _) _ => unfold get_hash
  | |- keeps _ (append_once _ _ _ _ _) _ => unfold append_once
  | |- keeps _ (put_versioned _ LogicalDb.kDevice _ _ _) _ => unfold put_versioned
  | |- keeps _ (call _ _ _) _ => apply keeps_call_other; done
  | |- keeps _ (after_phase _ _) _ => apply (keeps_state _ _ (fun _ => True)); done
  | |- keeps _ (timestampNowNs _) _ => apply (keeps_state _ _ (fun _ => True)); [by intros []|done]
  end.

Lemma keeps_select e commands :
  keeps inv (select_commands oracle e commands) (fun _ => True).
Proof.
  induction commands as [|c commands IH]; cbn [select_commands]; [by apply keeps_ret|].
  keeps_walk ltac:(first [exact IH | version_leaf | progress unfold loadDesiredSnapshot]).
Qed.

Ltac version_walk := keeps_walk ltac:(idtac; version_leaf).

Lemma keeps_prepare e : keeps inv (prepare_batch oracle e) (fun _ => True).
Proof. unfold prepare_batch. keeps_walk ltac:(first [apply keeps_select | version_leaf]). Qed.

Lemma keeps_start e command_id c :
  keeps inv (start_application oracle e command_id c) (versioned_entry e).
Proof.
  unfold start_application. version_walk. by intros _.
Qed.

Lemma keeps_publish_batch e batch : keeps inv (publish_batch oracle e batch) (fun _ => True).
Proof.
  unfold publish_batch. cbv zeta.
  eapply keeps_bind; [version_leaf|]. intros _ _.
  eapply keeps_bind; [apply keeps_mapM; intros; apply keeps_start|]. intros hashes Hh.
  eapply keeps_bind; [by apply keeps_put_application|]. version_walk.
Qed.

Lemma keeps_process_config message :
  keeps inv (process_config oracle message) (fun _ => True).
Proof.
  unfold process_config, publish_config.
  keeps_walk ltac:(first [apply keeps_prepare | apply keeps_publish_batch | version_leaf]).
Qed.

Lemma keeps_config consumer : keeps inv (processConfigOne orch oracle consumer) (fun _ => True).
Proof.
  unfold processConfigOne. keeps_walk ltac:(first [apply keeps_process_config | version_leaf]).
Qed.

(** Alarms live in other databases. *)
Lemma keeps_count_alarm e alarm_id activation_id clear version n :
  keeps inv (count_alarm oracle e alarm_id activation_id clear version n) (fun _ => True).
Proof. unfold count_alarm. version_walk. Qed.

Lemma keeps_publish_alarm e error_message :
  keeps inv (publishTimeoutAlarm oracle e error_message) (fun _ => True).
Proof.
  unfold publishTimeoutAlarm, raise_alarm.
  keeps_walk ltac:(first [apply keeps_count_alarm | version_leaf]).
Qed.

Lemma keeps_clear_alarm e : keeps inv (clearTimeoutAlarm oracle e) (fun _ => True).
Proof.
  unfold clearTimeoutAlarm, lower_alarm.
  keeps_walk ltac:(first [apply keeps_count_alarm | version_leaf]).
Qed.

(** An entry derived from the one read keeps its version. *)
Lemma updated_version (m : gmap string string) f x :
  f <> "desired_version" -> (<[f := x]> m) !! "desired_version" = m !! "desired_version".
Proof using. intros Hf. by rewrite lookup_insert_ne. Qed.

Definition maybe_versioned (e : EventEnvelope) (h : option (string * gmap string string)) : Prop :=
  forall b, h = Some b -> versioned_entry e b.

Lemma keeps_timeout_application e command_id error_message metadata c :
  keeps inv (timeout_application oracle e command_id error_message metadata c)
    (maybe_versioned e).
Proof.
  unfold timeout_application. eapply keeps_bind; [apply keeps_read_application|].
  intros application Ha. version_walk; try done.
  intros b [= <-] Hk. simpl. rewrite !updated_version by done. by apply Ha.
Qed.

Lemma keeps_publish_timeout e command_id error_message batch metadata :
  keeps inv (publish_timeout oracle e command_id error_message batch metadata) (fun _ => True).
Proof.
  unfold publish_timeout, schedule_retry. eapply keeps_bind.
  { apply (keeps_collect_all _ _ (versioned_entry e)). intros. apply keeps_timeout_application. }
  intros [hashes|] Hh; [|by apply keeps_ret]. specialize (Hh hashes eq_refl).
  keeps_walk ltac:(idtac; lazymatch goal with
    | |- keeps _ (put_versioned _ LogicalDb.kAppl _ _ _) _ => by apply keeps_put_application
    | |- keeps _ (publishTimeoutAlarm _ _ _) _ => apply keeps_publish_alarm
    | _ => version_leaf
    end).
Qed.

Lemma keeps_timeout message command_id error_message :
  keeps inv (handleTimeoutResult orch oracle message command_id error_message) (fun _ => True).
Proof.
  unfold handleTimeoutResult, timeout_metadata.
  keeps_walk ltac:(first [apply keeps_publish_timeout | version_leaf]).
Qed.

Lemma keeps_publish_result e application next success :
  versioned_entry e (resource_id e, application) ->
  keeps inv (publish_result oracle e application next success) (fun _ => True).
Proof.
  intros Hv. unfold publish_result.
  assert (keeps inv (put_versioned oracle LogicalDb.kAppl
    (orchResultApplicationPublicationKey (event_id e)) (result_marker e)
    [(connectionAppKey (ev_device e) (resource_id e), application)]) (fun _ => True)) as Hput.
  { apply (keeps_put_application e _ _ [(resource_id e, application)]); [done|].
    by constructor. }
  keeps_walk ltac:(first [exact Hput | apply keeps_clear_alarm | version_leaf]).
Qed.

Lemma result_entry e id application next success error_code error_message :
  versioned_entry e (id, application) ->
  versioned_entry e (id, result_application application next success error_code error_message).
Proof using.
  intros Ha Hk. simpl. unfold result_application.
  destruct success; rewrite !updated_version by done; by apply Ha.
Qed.

Lemma keeps_handle_result e res success :
  keeps inv (handle_result oracle e res success) (fun _ => True).
Proof.
  unfold handle_result, already_published. apply keeps_seq; [version_walk|].
  intros published. destruct published.
  { keeps_walk ltac:(first [apply keeps_clear_alarm | version_leaf]). }
  eapply keeps_bind; [apply keeps_read_application|]. intros application Ha.
  keeps_walk ltac:(first [by apply keeps_publish_result, result_entry | version_leaf]).
Qed.

Lemma keeps_process_result message :
  keeps inv (process_result orch oracle message) (fun _ => True).
Proof.
  unfold process_result.
  keeps_walk ltac:(first [apply keeps_timeout | apply keeps_handle_result | version_leaf]).
Qed.

Lemma keeps_result consumer : keeps inv (processResultOne orch oracle consumer) (fun _ => True).
Proof.
  unfold processResultOne. keeps_walk ltac:(first [apply keeps_process_result | version_leaf]).
Qed.

Lemma keeps_retry_application e failed attempt started c :
  keeps inv (retry_application oracle e failed attempt started c) (maybe_versioned e).
Proof.
  unfold retry_application. cbv zeta. eapply keeps_bind; [apply keeps_read_application|].
  intros application Ha. destruct (decide _); [by apply keeps_ret|].
  apply keeps_seq; [version_walk|]. intros version. destruct (decide _); [by apply keeps_ret|].
  destruct (negb _); [by apply keeps_ret|].
  apply keeps_seq; [version_walk|]. intros waiting. destruct (negb _); [by apply keeps_ret|].
  eapply (keeps_bind _ _ _ (fun m => connectionAppKey (ev_device e) (cmd_id c) = k ->
                                     m !! "desired_version" <> None)).
  { version_walk; rewrite ?updated_version by done; auto. }
  intros m Hm. apply keeps_ret. intros b [= <-] Hk. simpl. rewrite !updated_version by done.
  by apply Hm.
Qed.

Lemma keeps_handle_retry e batch failed attempt :
  keeps inv (handle_retry oracle e batch failed attempt) (fun _ => True).
Proof.
  unfold handle_retry. apply keeps_seq; [version_walk|]. intros published.
  destruct (decide _); [by apply keeps_ret|].
  apply keeps_seq; [version_walk|]. intros application.
  apply keeps_seq; [version_walk|]. intros started. eapply keeps_bind.
  { apply (keeps_collect_all _ _ (versioned_entry e)). intros. apply keeps_retry_application. }
  intros [hashes|] Hh; [|by apply keeps_ret]. specialize (Hh hashes eq_refl).
  unfold publish_retry.
  keeps_walk ltac:(idtac; lazymatch goal with
    | |- keeps _ (put_versioned _ LogicalDb.kAppl _ _ _) _ => by apply keeps_put_application
    | _ => version_leaf
    end).
Qed.

Lemma keeps_retry consumer : keeps inv (processRetryOne oracle consumer) (fun _ => True).
Proof.
  unfold processRetryOne, process_retry.
  keeps_walk ltac:(first [apply keeps_handle_retry | version_leaf]).
Qed.
End Versions.

(** The public operations of the service. *)
Inductive service_call :=
  | Initialize
  | Heartbeat
  | ProcessConfig (consumer : string)
  | ProcessResult (consumer : string)
  | ProcessRetry (consumer : string).

Section Steps.
Context {J : JsonLib} {DB : Type} {R : Redis DB} {RL : RedisLaws DB}.
Context {G : RedisGroups DB} {GL : RedisGroupLaws DB}.
Variable orch : OrchConfig.

Definition run_service (oracle : Oracle) (c : service_call) : prog (World DB) bool :=
  match c with
  | Initialize => initialize oracle ;; mret true
  | Heartbeat => publishHeartbeat oracle ;; mret true
  | ProcessConfig consumer => processConfigOne orch oracle consumer
  | ProcessResult consumer => processResultOne orch oracle consumer
  | ProcessRetry consumer => processRetryOne oracle consumer
  end.

Inductive orch_step (calls : service_call -> Prop) (allowed : redis_cmd -> Prop)
    : relation (World DB) :=
  | ServiceStep oracle c w r w' :
      calls c -> oracle_within allowed oracle -> run_service oracle c w = (r, w') ->
      orch_step calls allowed w w'
  | OthersStep l cs w :
      Forall allowed cs -> orch_step calls allowed w (after_call l (run_cmds cs (database l w)) w).

(** What the other clients and every call keep holds in every reachable state. *)
Lemma orch_invariant_world calls allowed (I : World DB -> Prop) w w' :
  (forall l cs w, Forall allowed cs -> I w -> I (after_call l (run_cmds cs (database l w)) w)) ->
  (forall oracle c, calls c -> oracle_within allowed oracle ->
     keeps I (run_service oracle c) (fun _ => True)) ->
  rtc (orch_step calls allowed) w w' -> I w -> I w'.
Proof using Type.
  intros Hothers Hkeeps. induction 1 as [|w1 w2 w3 Hstep _ IH]; [done|]. intros Hw. apply IH.
  destruct Hstep as [oracle c w1 r w2 Hc Ho Hr|l cs w1 Hcs]; [|by apply Hothers].
  by destruct (Hkeeps oracle c Hc Ho w1 r w2 Hw Hr).
Qed.

(** The same for an invariant of one database. *)
Lemma orch_invariant calls allowed l0 (Q : DB -> Prop) w w' :
  (forall c db, allowed c -> Q db -> Q (execute c db)) ->
  (forall oracle c, calls c -> oracle_within allowed oracle ->
     keeps (holds l0 Q) (run_service oracle c) (fun _ => True)) ->
  rtc (orch_step calls allowed) w w' -> holds l0 Q w -> holds l0 Q w'.
Proof using Type.
  intros Hstable Hkeeps. apply orch_invariant_world; [|done]. intros l cs w1. by apply others_hold.
Qed.

(** C7: whatever the orchestrator does and wherever it crashes or loses its connection,
    and whatever the other clients write elsewhere, the desired version of a connection in
    APPL_DB never decreases: configuration events, results, timeouts and retries that
    arrive late or twice cannot bring an older version back. *)
Theorem application_version_never_decreases dev conn w w' z :
  rtc (orch_step (fun _ => True) (apart [connectionAppKey dev conn])) w w' ->
  stored_version (hgetall (connectionAppKey dev conn) (appl_db_ w)) z ->
  exists z', stored_version (hgetall (connectionAppKey dev conn) (appl_db_ w')) z' /\ (z <= z')%Z.
Proof using RL GL.
  intros Hsteps Hz.
  apply (orch_invariant _ _ LogicalDb.kAppl (at_least dev conn z) w w') in Hsteps.
  - exact Hsteps.
  - apply at_least_stable.
  - intros oracle c _ Ho. destruct c; simpl.
    + unfold initialize, publishHeartbeat.
      keeps_walk ltac:(first [apply keeps_call_other; done
        | apply (keeps_state _ _ (fun _ => True)); [by intros []|done]]).
    + unfold publishHeartbeat.
      keeps_walk ltac:(first [apply keeps_call_other; done
        | apply (keeps_state _ _ (fun _ => True)); [by intros []|done]]).
    + by apply keeps_config.
    + by apply keeps_result.
    + by apply keeps_retry.
  - exists z. split; [exact Hz|lia].
Qed.
End Steps.
