(* ===== verification/OrchFrame.v ===== *)
(** * What the orchestrator writes: whatever it is told and wherever it stops, its commands
    are on keys of its own, apart from the alarms it counts.

    The walk through its operations is made once here, for any invariant of one database.
    The commands that prepare and publish a device command ([command_write]) are set apart:
    an invariant may hold only because such a marker and its entry are written together, and
    then it is shown for the publications as a whole. *)
From S2P Require Import Prelude ProgLogic Errors Types ConnStateMachine Json DeviceCommand.
From S2P Require Import RedisKeys Redis RedisRepository RedisRepositoryProps RedisOnce.
From S2P Require Import Services CallLogic OrchRules Orchestrator OrchResults OrchSteps.
From stdpp Require Import options.

Inductive orch_key : string -> Prop :=
  | KeyService : orch_key (serviceStateKey "ocs-orch")
  | KeyApplication dev id : orch_key (connectionAppKey dev id)
  | KeyDevice dev id : orch_key (connectionDeviceKey dev id)
  | KeyAlarm dev id : orch_key (activeAlarmKey dev (applyTimeoutAlarmId id))
  | KeyApplicationMarker id : orch_key (orchApplicationPublicationKey id)
  | KeyDeviceMarker id : orch_key (orchDeviceStatePublicationKey id)
  | KeyResultApplication id : orch_key (orchResultApplicationPublicationKey id)
  | KeyResultDevice id : orch_key (orchResultDevicePublicationKey id)
  | KeyTimeoutApplication id : orch_key (orchTimeoutApplicationPublicationKey id)
  | KeyTimeoutDevice id : orch_key (orchTimeoutDevicePublicationKey id)
  | KeyRetry id : orch_key (orchRetryPublicationKey id)
  | KeyRetryApplication id : orch_key (orchRetryApplicationPublicationKey id)
  | KeyRetryDevice id : orch_key (orchRetryDevicePublicationKey id)
  | KeyAlarmMarker id : orch_key (orchAlarmPublicationKey id)
  | KeyClearMarker id : orch_key (orchAlarmClearPublicationKey id)
  | KeyCounterMarker dev alarm activation clear :
      orch_key (orchAlarmCounterPublicationKey dev alarm activation clear)
  | KeyRetries : orch_key kDeviceRetries
  | KeyAlarms : orch_key kAlarmEvents.

Definition orch_writes (c : redis_cmd) : Prop :=
  orch_key (target c) \/ exists dev n, c = HINCRBY (deviceCountersKey dev) "active_alarms" n.

(** What prepares and publishes a command. *)
Inductive command_write : redis_cmd -> Prop :=
  | WriteBatch id fs : command_write (HMSET (orchConfigBatchKey id) fs)
  | WriteCommandMarker id fs : command_write (HMSET (orchDeviceCommandPublicationKey id) fs)
  | WriteRetryMarker id fs : command_write (HMSET (orchRetryCommandPublicationKey id) fs)
  | WriteCommand fs : command_write (XADD kDeviceCommands fs).

(** The entry that publishes the batch of a configuration event, and its marker. *)
Definition command_event (e : EventEnvelope) (batch : DeviceCommandBatch) (now : Z)
    (payload : string) : EventEnvelope :=
  mkEventEnvelope 1 (event_id e +:+ ":command") (request_id e) now (ev_device e)
    (single batch (fun _ => "connection") "connection-batch")
    (single batch cmd_id (request_id e))
    (single batch (fun c => operationName (operation c)) "APPLY_BATCH")
    (ev_desired_version e) payload.
Definition command_marker (e : EventEnvelope) : gmap string string :=
  {["event_id" := event_id e; "command_id" := event_id e +:+ ":command"]}.

Section Frame.
Context {J : JsonLib} {DB : Type} {R : Redis DB} {RL : RedisLaws DB}.
Context {G : RedisGroups DB} {GL : RedisGroupLaws DB}.
Variable orch : OrchConfig.
Variable oracle : Oracle.
Variable l0 : LogicalDb.t.
Variable Q : DB -> Prop.
Variable allowed : redis_cmd -> Prop.
Hypothesis Hstable : forall c db, allowed c -> Q db -> Q (execute c db).
Hypothesis Hothers : oracle_within allowed oracle.
Hypothesis Hown : forall c, orch_writes c -> allowed c.
Hypothesis Hreads : reads_data Q.
Hypothesis Hgroup : l0 = LogicalDb.kConfig \/ l0 = LogicalDb.kDevice ->
  forall stream group start db, stream ∈ [kConfigEvents; kDeviceResults; kDeviceRetries] ->
    Q db -> Q (createConsumerGroup stream group start db).2.
#[local] Abbreviation inv := (holds l0 Q).
#[local] Set Default Proof Using "Type*".

Lemma frame_run cs db : Forall (fun c => orch_key (target c)) cs -> Q db -> Q (run_cmds cs db).
Proof.
  intros Hcs. apply (stable_run Q allowed Hstable). eapply Forall_impl; [exact Hcs|].
  intros c Hc. apply Hown. by left.
Qed.

Lemma frame_call {A} l (op : (nat -> interference) -> prog DB A) :
  (l = l0 -> keeps (holds l Q) (call oracle l op) (fun _ => True)) ->
  keeps inv (call oracle l op) (fun _ => True).
Proof using Type.
  intros Hop. destruct (decide (l = l0)) as [Hl|Hl]; [rewrite <-Hl; by apply Hop|].
  by apply keeps_call_other.
Qed.

Lemma frame_get l key : keeps inv (get_hash oracle l key) (fun _ => True).
Proof.
  apply frame_call. intros _. eapply keeps_weaken; [by apply (keeps_get_hash l Q _ Hstable _ Hothers)|done].
Qed.

Lemma frame_append marker mf stream e :
  orch_key marker -> orch_key stream ->
  keeps inv (append_once oracle marker mf stream e) (fun _ => True).
Proof.
  intros Hm Hs. apply frame_call. intros _.
  apply (keeps_append_once _ Q _ Hstable _ Hothers). intros db Hdb _ _.
  apply frame_run; [by repeat constructor|done].
Qed.

Lemma frame_versioned l marker mf hashes :
  orch_key marker -> Forall (fun kf => orch_key kf.1) hashes ->
  keeps inv (put_versioned oracle l marker mf hashes) (fun _ => True).
Proof.
  intros Hm Hh. apply frame_call. intros _.
  apply (keeps_put_versioned _ Q _ Hstable _ Hothers).
  intros db version t css Hdb _ _ _ Hcss. apply frame_run; [|done]. apply Forall_app.
  split; [|by repeat constructor]. revert css Hcss. induction Hh as [|h hashes Hk _ IH]; intros css.
  { by intros [= <-]. }
  simpl. rewrite result_bind_Ok. intros (cs & Hcs & (css' & Hcss & <-%Ok_inj)%result_bind_Ok).
  apply Forall_app. split; [|by apply IH]. apply Forall_forall. intros c Hc.
  by rewrite (versioned_cmds_targets _ _ _ _ _ Hcs Hc).
Qed.

Lemma frame_keyed key e hashes :
  (forall dev id, orch_key (key dev id)) -> Forall (fun kf => orch_key kf.1) (keyed key e hashes).
Proof using Type. intros Hk. apply Forall_fmap, Forall_forall. intros [id fs] _. apply Hk. Qed.

Lemma frame_absent l key fs :
  orch_key key -> keeps inv (call oracle l (putHashIfAbsent key fs)) (fun _ => True).
Proof.
  intros Hk. apply frame_call. intros _.
  apply (keeps_put_if_absent _ Q _ Hstable _ Hothers). intros db Hdb _ _.
  apply (frame_run [_]); [by repeat constructor|done].
Qed.

Lemma frame_put l key fs :
  orch_key key -> keeps inv (call oracle l (plain (putHash key fs Replied))) (fun _ => True).
Proof.
  intros Hk. apply frame_call. intros _. apply (keeps_plain _ Q _ Hstable _ Hothers).
  intros db Hdb. split; [|done]. apply frame_run; [|done]. apply Forall_forall.
  intros c Hc%replace_hash_targets. by rewrite Hc.
Qed.

Lemma frame_replace l marker mf key fs stream e :
  orch_key marker -> orch_key key -> orch_key stream ->
  keeps inv (call oracle l (replaceHashAndAppendEventOnce marker mf key fs stream e)) (fun _ => True).
Proof.
  intros Hm Hk Hs. apply frame_call. intros _.
  apply (keeps_replace_once _ Q _ Hstable _ Hothers). intros db Hdb _ _.
  apply frame_run; [|done]. rewrite !Forall_app. split_and!; [|by repeat constructor..].
  apply Forall_forall. intros c Hc%replace_hash_targets. by rewrite Hc.
Qed.

Lemma frame_count e alarm_id activation_id clear version n :
  keeps inv (count_alarm oracle e alarm_id activation_id clear version n) (fun _ => True).
Proof.
  unfold count_alarm. apply keeps_seq; [|intros; by apply keeps_ret]. apply frame_call. intros _.
  apply (keeps_increment_once _ Q _ Hstable _ Hothers). intros db Hdb _.
  apply (stable_run Q allowed Hstable); [|done]. apply Forall_app. split.
  - apply Forall_forall. intros c. rewrite increment_cmds_alt, list_elem_of_omap.
    intros ([f z] & Hin & Hc). apply elem_of_sorted_items, lookup_singleton_Some in Hin as [<- <-].
    unfold counter_cmd in Hc. case_decide; [|done]. injection Hc as <-. apply Hown. right. eauto.
  - apply Forall_singleton, Hown. left. constructor.
Qed.

Lemma frame_next l stream group consumer idle :
  keeps inv (next_message oracle l stream group consumer idle) (fun _ => True).
Proof.
  destruct (decide (l = l0)) as [<-|Hl].
  - by apply (keeps_next_message l Q _ Hstable _ Hothers).
  - unfold next_message. keeps_walk ltac:(first [by apply keeps_call_other]).
Qed.

Lemma frame_ack l stream group message :
  keeps inv (ack oracle l stream group message) (fun _ => True).
Proof.
  destruct (decide (l = l0)) as [<-|Hl].
  - by apply (keeps_ack l Q _ Hstable _ Hothers).
  - unfold ack. keeps_walk ltac:(first [by apply keeps_call_other]).
Qed.

Lemma frame_group l stream group start :
  l = LogicalDb.kConfig \/ l = LogicalDb.kDevice ->
  stream ∈ [kConfigEvents; kDeviceResults; kDeviceRetries] ->
  keeps inv (call oracle l (plain (createConsumerGroup stream group start))) (fun _ => True).
Proof.
  intros Hl Hs. apply frame_call. intros ->. apply (keeps_plain _ Q _ Hstable _ Hothers).
  intros db Hdb. split; [by apply Hgroup|done].
Qed.


(** ** The operations *)
Ltac frame_leaf :=
  first
    [ apply frame_get | apply frame_next | apply frame_ack | apply frame_count
    | apply frame_append; constructor
    | apply frame_versioned; [constructor|first [apply frame_keyed; constructor|by repeat constructor]]
    | apply frame_absent; constructor | apply frame_put; constructor
    | apply frame_replace; constructor | apply frame_group; [by auto|set_solver]
    | apply (keeps_state _ _ (fun _ => True)); [by intros []|done]
    | apply (keeps_state _ _ (fun _ => True)); done ].
Ltac frame_walk leaf := keeps_walk ltac:(first [frame_leaf | leaf]).

Lemma keeps_collect {A B} (f : A -> prog (World DB) B) xs :
  (forall x, keeps inv (f x) (fun _ => True)) -> keeps inv (mapM f xs) (fun _ => True).
Proof using Type. intros Hf. eapply keeps_weaken; [by apply (keeps_mapM _ f (fun _ => True))|done]. Qed.

Lemma keeps_collect_some {A B} (f : A -> prog (World DB) (option B)) xs :
  (forall x, keeps inv (f x) (fun _ => True)) -> keeps inv (collect_all f xs) (fun _ => True).
Proof using Type.
  intros Hf. eapply keeps_weaken; [apply (keeps_collect_all _ f (fun _ => True))|done].
  intros x _. by eapply keeps_weaken; [apply Hf|].
Qed.

Lemma frame_select e commands : keeps inv (select_commands oracle e commands) (fun _ => True).
Proof.
  induction commands as [|c commands IH]; cbn [select_commands]; [by apply keeps_ret|].
  frame_walk ltac:(first [exact IH | progress unfold loadDesiredSnapshot]).
Qed.

(** ** The publications of commands *)
Definition keeps_batches : Prop := forall id fs,
  keeps inv (call oracle LogicalDb.kDevice (putHashIfAbsent (orchConfigBatchKey id) fs))
    (fun _ => True).
Definition keeps_commands (e : EventEnvelope) : Prop := forall batch now payload,
  encodeDeviceCommand batch = Ok payload ->
  keeps inv (append_once oracle (orchDeviceCommandPublicationKey (event_id e))
    (command_marker e) kDeviceCommands (command_event e batch now payload)) (fun _ => True).
Definition keeps_retries : Prop := forall id mf ev,
  event_id ev = id +:+ ":command" -> mf <> ∅ ->
  keeps inv (append_once oracle (orchRetryCommandPublicationKey id) mf kDeviceCommands ev)
    (fun _ => True).

Lemma frame_prepare e : keeps_batches -> keeps inv (prepare_batch oracle e) (fun _ => True).
Proof.
  intros Hbatch. unfold prepare_batch. cbv zeta.
  frame_walk ltac:(first [apply frame_select | apply Hbatch]).
Qed.

Lemma frame_publish_batch e batch :
  (forall now payload, encodeDeviceCommand batch = Ok payload ->
     keeps inv (append_once oracle (orchDeviceCommandPublicationKey (event_id e))
       (command_marker e) kDeviceCommands (command_event e batch now payload)) (fun _ => True)) ->
  keeps inv (publish_batch oracle e batch) (fun _ => True).
Proof.
  intros Hcommand. unfold publish_batch, start_application. cbv zeta.
  apply keeps_seq; [frame_leaf|]. intros _.
  apply keeps_seq; [apply keeps_collect; intros c; frame_walk fail|]. intros hashes.
  apply keeps_seq; [frame_leaf|]. intros _. apply keeps_seq; [frame_leaf|]. intros _.
  apply keeps_seq; [frame_leaf|]. intros _. apply keeps_seq; [frame_leaf|]. intros _.
  apply keeps_seq; [frame_leaf|]. intros now.
  eapply keeps_bind; [apply keeps_lift; intros ? Hp; exact Hp|]. intros payload Hp.
  apply keeps_seq; [by apply Hcommand|]. intros _. frame_leaf.
Qed.

Lemma frame_publish_config e :
  keeps_batches -> keeps_commands e -> keeps inv (publish_config oracle e) (fun _ => True).
Proof.
  intros Hbatch Hcommand. unfold publish_config.
  frame_walk ltac:(first [by apply frame_prepare | apply frame_publish_batch; by auto]).
Qed.

Lemma frame_config consumer :
  (forall e, keeps inv (publish_config oracle e) (fun _ => True)) ->
  keeps inv (processConfigOne orch oracle consumer) (fun _ => True).
Proof.
  intros Hconfig. unfold processConfigOne, process_config.
  frame_walk ltac:(first [apply Hconfig]).
Qed.

Lemma frame_raise_alarm e text : keeps inv (publishTimeoutAlarm oracle e text) (fun _ => True).
Proof. unfold publishTimeoutAlarm, raise_alarm. cbv zeta. frame_walk fail. Qed.

Lemma frame_clear_alarm e : keeps inv (clearTimeoutAlarm oracle e) (fun _ => True).
Proof. unfold clearTimeoutAlarm, lower_alarm. cbv zeta. frame_walk fail. Qed.

Lemma frame_result consumer : keeps inv (processResultOne orch oracle consumer) (fun _ => True).
Proof.
  unfold processResultOne, process_result, handleTimeoutResult, timeout_metadata, publish_timeout,
    timeout_application, schedule_retry, handle_result, already_published, publish_result. cbv zeta.
  frame_walk ltac:(first
    [ apply frame_raise_alarm | apply frame_clear_alarm | apply keeps_collect
    | apply keeps_collect_some ]).
Qed.

Lemma frame_publish_retry e batch attempt hashes :
  keeps_batches -> keeps_retries ->
  keeps inv (publish_retry oracle e batch attempt hashes) (fun _ => True).
Proof.
  intros Hbatch Hretry. unfold publish_retry. cbv zeta.
  frame_walk ltac:(first [apply Hbatch | apply Hretry; [done|by apply insert_non_empty]]).
Qed.

Lemma frame_retry consumer :
  keeps_batches -> keeps_retries ->
  keeps inv (processRetryOne oracle consumer) (fun _ => True).
Proof.
  intros Hbatch Hretry. unfold processRetryOne, process_retry, handle_retry, retry_application. cbv zeta.
  frame_walk ltac:(first [by apply frame_publish_retry | apply keeps_collect | apply keeps_collect_some]).
Qed.

(** An invariant that the commands of the class and the publications keep is one of the
    whole service. *)
Lemma orchestrator_frame c :
  (forall e, keeps inv (publish_config oracle e) (fun _ => True)) ->
  keeps_batches -> keeps_retries ->
  keeps inv (run_service orch oracle c) (fun _ => True).
Proof.
  intros Hconfig Hbatch Hretry.
  destruct c; simpl; [unfold initialize, publishHeartbeat|unfold publishHeartbeat|..];
    frame_walk ltac:(first [by apply frame_config | apply frame_result | by apply frame_retry]).
Qed.

(** In particular one that every single command keeps. *)
Lemma orchestrator_writes_frame c :
  (forall c, command_write c -> allowed c) -> keeps inv (run_service orch oracle c) (fun _ => True).
Proof.
  intros Hcommands.
  assert (forall cs db, Forall command_write cs -> Q db -> Q (run_cmds cs db)) as Hrun.
  { intros cs db Hcs. apply (stable_run Q allowed Hstable). eapply Forall_impl; [exact Hcs|done]. }
  assert (forall marker mf ev, command_write (HMSET marker (sorted_items mf)) ->
    keeps inv (append_once oracle marker mf kDeviceCommands ev) (fun _ => True)) as Happend.
  { intros marker mf ev Hm. apply frame_call. intros _.
    apply (keeps_append_once _ Q _ Hstable _ Hothers). intros db Hdb _ _.
    apply Hrun; [by repeat constructor|done]. }
  assert keeps_batches as Hbatch.
  { intros id fs. apply frame_call. intros _.
    apply (keeps_put_if_absent _ Q _ Hstable _ Hothers). intros db Hdb _ _.
    apply (Hrun [_]); [by repeat constructor|done]. }
  apply orchestrator_frame; [|done|].
  - intros e. apply frame_publish_config; [done|]. intros batch now payload _.
    apply Happend. constructor.
  - intros id mf ev _ _. apply Happend. constructor.
Qed.
End Frame.
