(* ===== verification/OrchMain.v ===== *)
(** * The ocs-orch process (ocs-orch/main.cpp).

    [main] reads its settings, makes the service and calls it in a loop; every call is a
    step of OrchSteps.v, so what holds after every step of the service holds in the
    process, whenever it is stopped, crashes or is started again. *)
From S2P Require Import Prelude Process Redis RedisKeys RedisRepository.
From S2P Require Import Json OrchRules Services Orchestrator OrchResults CallLogic OrchSteps.
From stdpp Require Import options.

Definition environmentInteger (getenv : string -> option string) (name : string)
    (fallback maximum : Z) : result Z :=
  read_setting getenv name fallback 0 maximum (name +:+ " is outside the supported range").

Definition retryPolicy (getenv : string -> option string) : result ApplyRetryPolicy :=
  retries ← environmentInteger getenv "OCS_ORCH_APPLY_MAX_RETRIES" 3 100;
  base ← environmentInteger getenv "OCS_ORCH_APPLY_RETRY_BASE_MS" 100 3600000;
  maximum ← environmentInteger getenv "OCS_ORCH_APPLY_RETRY_MAX_MS" 5000 3600000;
  Ok (mkRetryPolicy retries base maximum).

(** 250 ms of the steady clock, in nanoseconds *)
Definition heartbeat_period : Z := 250000000.

Section Main.
Context {J : JsonLib} {DB : Type} {R : Redis DB} {G : RedisGroups DB}.
Variable process : Process RedisEndpoint.
(** The steady clock, by the number of calls made so far *)
Variable steady : nat -> Z.
Variable oracle : Oracle.

Definition steady_now : prog (World DB) Z := fun w => (Ok (steady (calls w)), tick w).

(** One iteration of the loop, from the time of the next heartbeat; the pause of an idle
    iteration changes nothing. *)
Definition main_iteration (orch : OrchConfig) (next_heartbeat : Z) : prog (World DB) Z :=
  now ← steady_now;
  next ← (if decide (next_heartbeat <= now)%Z then
            publishHeartbeat oracle ;; mret (now + heartbeat_period)%Z
          else mret next_heartbeat);
  processed_config ← processConfigOne orch oracle "orch-main-config";
  processed_result ← processResultOne orch oracle "orch-main-result";
  processed_retry ← processRetryOne oracle "orch-main-retry";
  mret next.

Definition serve (orch : OrchConfig) (fuel : nat) : prog (World DB) bool :=
  initialize oracle ;;
  now ← steady_now;
  while_running (fun w => running process (calls w)) (main_iteration orch) fuel
    (now + heartbeat_period)%Z.

Definition main (argv : list string) (fuel : nat) : prog (World DB) status :=
  match argv with
  | [_; target] =>
      exit_status (
        endpoint ← lift (parseRedisEndpoint target);
        policy ← lift (retryPolicy (getenv process));
        lift (open_repositories process endpoint) ;;
        orch ← lift (OrchestratorService_make 5000 policy);
        serve orch fuel)
  | _ => mret (Exited 2)
  end.
End Main.

(** ** The settings *)

(** What the environment says of a setting: its fallback when it is not set. *)
Definition setting (getenv : string -> option string) (name : string) (fallback maximum v : Z)
    : Prop :=
  match getenv name with
  | None => v = fallback
  | Some configured => stoll configured = Ok v /\ (0 <= v <= maximum)%Z
  end.

Lemma environmentInteger_inv getenv name fallback maximum v :
  environmentInteger getenv name fallback maximum = Ok v <->
  setting getenv name fallback maximum v.
Proof. apply read_setting_inv. Qed.

Lemma retryPolicy_inv getenv policy :
  retryPolicy getenv = Ok policy <->
  setting getenv "OCS_ORCH_APPLY_MAX_RETRIES" 3 100 (max_retries policy) /\
  setting getenv "OCS_ORCH_APPLY_RETRY_BASE_MS" 100 3600000 (base_backoff policy) /\
  setting getenv "OCS_ORCH_APPLY_RETRY_MAX_MS" 5000 3600000 (max_backoff policy).
Proof.
  unfold retryPolicy. rewrite <-!environmentInteger_inv. split.
  - intros (n & Hn & Hrest)%result_bind_Ok. apply result_bind_Ok in Hrest as (b & Hb & Hrest).
    by apply result_bind_Ok in Hrest as (m & Hm & [= <-]).
  - intros (Hn & Hb & Hm). rewrite Hn. simpl. rewrite Hb. simpl. rewrite Hm. by destruct policy.
Qed.

Lemma setting_bounds getenv name fallback maximum v :
  (0 <= fallback <= maximum)%Z -> setting getenv name fallback maximum v -> (0 <= v <= maximum)%Z.
Proof. unfold setting. destruct (getenv name); [by intros _ []|by intros ? ->]. Qed.

(** The settings under which the service is made. *)
Definition settings (process : Process RedisEndpoint) (target : string) (policy : ApplyRetryPolicy)
    : Prop :=
  (exists endpoint, parseRedisEndpoint target = Ok endpoint /\
     is_ok (open_repositories process endpoint) = true) /\
     retryPolicy (getenv process) = Ok policy /\ (base_backoff policy <= max_backoff policy)%Z.

(** Within the bounds of the settings only their order can be refused. *)
Lemma policy_accepted getenv policy :
  retryPolicy getenv = Ok policy ->
  OrchestratorService_make 5000 policy
  = if decide (base_backoff policy <= max_backoff policy)%Z then Ok (mkOrchConfig 5000 policy)
    else Throw (InvalidArgument "orch apply retry policy is outside supported bounds").
Proof.
  intros (Hn & Hb & Hm)%retryPolicy_inv.
  apply setting_bounds in Hn, Hb, Hm; [|lia..]. unfold OrchestratorService_make.
  rewrite decide_False by lia. repeat case_decide; [lia|done|done|lia].
Qed.

Section MainProps.
Context {J : JsonLib} {DB : Type} {R : Redis DB} {G : RedisGroups DB}.
Variable process : Process RedisEndpoint.
Variable steady : nat -> Z.
Variable oracle : Oracle.

(** The calls [main] makes, each with its own consumer name. *)
Definition main_call (c : service_call) : Prop :=
  c ∈ [Initialize; Heartbeat; ProcessConfig "orch-main-config"; ProcessResult "orch-main-result";
       ProcessRetry "orch-main-retry"].

(** Before the service exists nothing is called: bad settings leave the databases alone. *)
Lemma main_cases argv fuel (w : World DB) :
  main process steady oracle argv fuel w =
    (Ok (Exited (if decide (length argv = 2) then 1 else 2)), w) \/
  exists program target policy, argv = [program; target] /\ settings process target policy /\
     main process steady oracle argv fuel w
    = exit_status (serve process steady oracle (mkOrchConfig 5000 policy) fuel) w.
Proof using Type.
  destruct argv as [|program [|target [|]]]; [by left|by left| |by left].
  unfold main. rewrite exit_status_cases, decide_True by done.
  unfold mbind, prog_bind, lift.
  destruct (parseRedisEndpoint target) as [endpoint|] eqn:He; [|by left].
  destruct (retryPolicy (getenv process)) as [policy|] eqn:Hp; [|by left].
  destruct (open_repositories process endpoint) as [[]|] eqn:Ho; [|by left].
  rewrite (policy_accepted _ _ Hp). case_decide as Hord; [|by left]. right.
  exists program, target, policy. split; [done|]. split; [|by rewrite exit_status_cases].
  split; [|done]. exists endpoint. by rewrite Ho.
Qed.
Section Steps.
Variable orch : OrchConfig.
Variable allowed : redis_cmd -> Prop.
Hypothesis Hothers : oracle_within allowed oracle.
#[local] Abbreviation step := (orch_step orch main_call allowed).

(** Reading the clock is a step of the others that runs no command. *)
Lemma tick_step w : step w (tick w).
Proof using Type.
  assert (tick w = after_call LogicalDb.kConfig (run_cmds [] (database LogicalDb.kConfig w)) w) as ->
    by by destruct w.
  by apply OthersStep.
Qed.

Lemma steady_moves : moves step (steady_now steady).
Proof using Type. apply moves_once. intros w r w' [= <- <-]. apply tick_step. Qed.

Lemma call_moves c : main_call c -> moves step (run_service orch oracle c).
Proof using Hothers. intros Hc. apply moves_once. intros w r w' Hr. by eapply ServiceStep. Qed.

(** A call whose result [run_service] drops. *)
Lemma unit_moves (m : prog (World DB) unit) c :
  main_call c -> run_service orch oracle c = (m ;; mret true) -> moves step m.
Proof using Hothers.
  intros Hc Hrun w r w' Hr. destruct (call_moves c Hc w (r ≫= fun _ => Ok true) w'); [|constructor|].
  - rewrite Hrun. unfold mbind at 1, prog_bind. rewrite Hr. by destruct r.
  - by econstructor.
Qed.

Lemma iteration_moves next : moves step (main_iteration steady oracle orch next).
Proof using Hothers.
  unfold main_iteration. apply moves_bind; [apply steady_moves|]. intros now.
  apply moves_bind.
  - case_decide; [|apply moves_ret]. apply moves_bind; [|intros; apply moves_ret].
    by apply (unit_moves _ Heartbeat); [set_solver|].
  - intros next'.
    apply moves_bind; [apply (call_moves (ProcessConfig "orch-main-config")); set_solver|]. intros _.
    apply moves_bind; [apply (call_moves (ProcessResult "orch-main-result")); set_solver|]. intros _.
    apply moves_bind; [apply (call_moves (ProcessRetry "orch-main-retry")); set_solver|]. intros _.
    apply moves_ret.
Qed.

Lemma serve_moves fuel : moves step (serve process steady oracle orch fuel).
Proof using Hothers.
  unfold serve. apply moves_bind; [by apply (unit_moves _ Initialize); [set_solver|]|]. intros _.
  apply moves_bind; [apply steady_moves|]. intros now. apply moves_while, iteration_moves.
Qed.
End Steps.

(** C27: whatever the arguments, the environment, the clock, the signals and the failures, a run
    of ocs-orch of any length returns an exit status or is still running, and takes its
    databases through steps of the service: none at all when it is started wrongly (status 2)
    or its endpoint or settings are refused (status 1), and otherwise the five calls under
    their consumer names, with a retry policy that is in bounds.  What holds after every
    step of OrchSteps.v holds whenever the process is stopped, dies or is started again. *)
Theorem orch_process_takes_service_steps allowed argv fuel (w : World DB) r w' :
  oracle_within allowed oracle -> main process steady oracle argv fuel w = (r, w') ->
  (exists s, r = Ok s) /\
  (w' = w /\ r = Ok (Exited (if decide (length argv = 2) then 1 else 2)) \/
   exists program target policy, argv = [program; target] /\ settings process target policy /\
     (0 <= max_retries policy <= 100 /\
      0 <= base_backoff policy <= max_backoff policy /\ max_backoff policy <= 3600000)%Z /\
     rtc (orch_step (mkOrchConfig 5000 policy) main_call allowed) w w').
Proof using Type.
  intros Ho Hrun. destruct (main_cases argv fuel w) as [Hstop|Hserve].
  { rewrite Hstop in Hrun. injection Hrun as <- <-. split; [by eexists|by left]. }
  destruct Hserve as (program & target & policy & -> & Hset & Hserve). rewrite Hserve in Hrun.
  split.
  { rewrite exit_status_cases in Hrun.
    destruct (serve _ _ _ _ _ _) as [[]]; injection Hrun as <- _; by eexists. }
  right. exists program, target, policy. split; [done|]. split; [done|]. split.
  { destruct Hset as (_ & (Hn & Hb & Hm)%retryPolicy_inv & Hord).
    apply setting_bounds in Hn, Hb, Hm; lia. }
  exact (moves_exit _ _ (serve_moves _ allowed Ho fuel) _ _ _ Hrun).
Qed.
End MainProps.
