(* ===== verification/OrchCommands.v ===== *)
(** * Every command in the device stream is accounted for by a publication marker. *)
From S2P Require Import Prelude ProgLogic Redis RedisKeys RedisRepository RedisRepositoryProps.
From S2P Require Import RedisOnce.
From S2P Require Import Errors Types ConnStateMachine Json DeviceCommand OrchRules Services Orchestrator.
From S2P Require Import CallLogic OrchResults OrchSteps OrchFrame.
From stdpp Require Import options.

Lemma app_cancel_r s1 s2 t : s1 +:+ t = s2 +:+ t -> s1 = s2.
Proof.
  assert (forall c s t, t <> String c (s +:+ t)) as Hlen.
  { intros c s u Hu. apply (f_equal String.length) in Hu. simpl in Hu.
    assert (String.length (s +:+ u) = String.length s + String.length u) as Ha.
    { clear. induction s; simpl; [done|]. by f_equal. }
    lia. }
  revert s2. induction s1 as [|c s1 IH]; intros [|d s2]; simpl; [done| | |].
  - intros Hu. by apply Hlen in Hu.
  - intros Hu. symmetry in Hu. by apply Hlen in Hu.
  - intros [= <- Hu]. f_equal. by apply IH.
Qed.

Section Commands.
Context {J : JsonLib} {DB : Type} {R : Redis DB} {RL : RedisLaws DB}.
Context {G : RedisGroups DB} {GL : RedisGroupLaws DB}.
Variable orch : OrchConfig.
Variable E : string.
#[local] Abbreviation command_id := (E +:+ ":command").
#[local] Abbreviation config_marker := (orchDeviceCommandPublicationKey E).
#[local] Abbreviation retry_marker_key := (orchRetryCommandPublicationKey E).

Definition is_command (fs : list (string * string)) : Prop := ("event_id", command_id) ∈ fs.
#[export] Instance is_command_dec fs : Decision (is_command fs).
Proof. unfold is_command. apply _. Defined.

(** How often the command is in the stream. *)
Definition command_count (db : DB) : nat := stream_count kDeviceCommands is_command db.

(** The other clients delete no marker and append no such command. *)
#[local] Abbreviation markers := [config_marker; retry_marker_key].
Definition command_honest : redis_cmd -> Prop := honest kDeviceCommands markers is_command.
#[local] Abbreviation accounted := (accounted kDeviceCommands markers is_command).
#[local] Abbreviation stable := (accounted_stable (DB:=DB) kDeviceCommands markers is_command).

Lemma is_command_event e : is_command (eventFields e) -> event_id e = command_id.
Proof using Type.
  unfold is_command, eventFields. rewrite !elem_of_cons, elem_of_nil. naive_solver.
Qed.

Variable oracle : Oracle.
Hypothesis Hothers : oracle_within command_honest oracle.
#[local] Abbreviation inv := (holds LogicalDb.kDevice accounted).
#[local] Set Default Proof Using "Type*".

(** What the service writes elsewhere is honest. *)
Lemma orch_honest c : orch_writes c -> command_honest c.
Proof using Type.
  intros [Hk|(dev & n & ->)]; [|by split].
  assert (target c <> kDeviceCommands) as Hs by (intros Ht; rewrite Ht in Hk; inversion Hk).
  apply honest_write; [done|].
  intros [Ht|[Ht|?%elem_of_nil]%elem_of_cons]%elem_of_cons; [..|done];
    rewrite Ht in Hk; inversion Hk.
Qed.

Lemma command_batches : keeps_batches oracle LogicalDb.kDevice accounted.
Proof.
  intros id fs. apply (keeps_put_if_absent _ _ _ stable _ Hothers).
  intros db Hdb _ _. apply stable; [by apply honest_hmset|done].
Qed.

Lemma keeps_append_command marker mf e :
  (event_id e = command_id -> marker = config_marker \/ marker = retry_marker_key) ->
  marker <> kDeviceCommands -> mf <> ∅ ->
  keeps inv (append_once oracle marker mf kDeviceCommands e) (fun _ => True).
Proof.
  intros Hid Hm Hmf. apply (keeps_append_once _ _ _ stable _ Hothers).
  intros db Hdb Hex _. apply accounted_publish; try done.
  - intros [->| ->]%is_command_event%Hid; [by left|right; by left].
  - not_in_keys.
Qed.

Lemma command_publications e : keeps_commands oracle LogicalDb.kDevice accounted e.
Proof.
  intros batch now payload _. apply keeps_append_command; [|done|by apply insert_non_empty].
  simpl. intros He%app_cancel_r. left. by rewrite He.
Qed.

Lemma command_retries : keeps_retries oracle LogicalDb.kDevice accounted.
Proof.
  intros id mf ev Hev Hmf. apply keeps_append_command; [|done|done].
  rewrite Hev. intros He%app_cancel_r. right. by rewrite He.
Qed.

Lemma command_call c : keeps inv (run_service orch oracle c) (fun _ => True).
Proof.
  assert (forall stream group start db, stream ∈ [kConfigEvents; kDeviceResults; kDeviceRetries] ->
    accounted db -> accounted (createConsumerGroup stream group start db).2) as Hgroup
    by (intros; by apply accounted_group).
  apply (orchestrator_frame orch oracle LogicalDb.kDevice _ _ stable Hothers orch_honest
    (accounted_reads_data _ _ _) (fun _ => Hgroup)).
  - intros e. apply (frame_publish_config oracle LogicalDb.kDevice _ _ stable Hothers orch_honest
      (accounted_reads_data _ _ _) (fun _ => Hgroup)).
    + apply command_batches.
    + apply command_publications.
  - apply command_batches.
  - apply command_retries.
Qed.
End Commands.

(** C6: however often the service crashes, restarts and runs again, a device command is
    appended once per publication marker and never without one: the entries of the command
    stream that carry the command of event [E] are at most one when the configuration
    marker of [E] exists (a retry event with the same ID has its own), and none while
    neither marker does.  Other clients may write anything but these markers' deletion and
    such entries. *)
Theorem commands_appended_once {J : JsonLib} {DB} {R : Redis DB} {RL : RedisLaws DB}
    {G : RedisGroups DB} {GL : RedisGroupLaws DB} orch E (w w' : World DB) :
  rtc (orch_step orch (fun _ => True) (command_honest E)) w w' ->
  type_of kDeviceCommands (device_db_ w) <> KHash -> command_count E (device_db_ w) = 0 ->
  command_count E (device_db_ w')
  <= marks (orchDeviceCommandPublicationKey E) (device_db_ w')
     + marks (orchRetryCommandPublicationKey E) (device_db_ w').
Proof.
  intros Hsteps Ht Hc.
  set (markers := [orchDeviceCommandPublicationKey E; orchRetryCommandPublicationKey E]).
  apply (orch_invariant _ _ _ LogicalDb.kDevice (accounted kDeviceCommands markers (is_command E))
           w w') in Hsteps.
  - destruct Hsteps as [_ Hn]. unfold all_marks in Hn. simpl in Hn.
    rewrite Nat.add_0_r in Hn. exact Hn.
  - apply accounted_stable.
  - intros oracle c _ Ho. by apply command_call.
  - split; [done|]. unfold command_count in Hc. simpl. lia.
Qed.
