(* ===== verification/OrchDelivery.v ===== *)
(** * No configuration event is lost: it is acknowledged only when its command is in the
    device stream or when there is nothing to send.

    One kind of event never gets so far: the recovery of a version gap from a newer
    snapshot prepares a batch with the snapshot's version, and the publication marker has
    the event's; the repository accepts only equal ones. *)
From S2P Require Import Prelude ProgLogic Errors Types ConnStateMachine Json DeviceCommand.
From S2P Require Import RedisKeys Redis RedisRepository RedisRepositoryProps RedisOnce.
From S2P Require Import Services CallLogic OrchRules Orchestrator OrchSteps OrchFrame.
From stdpp Require Import options.

Section Delivery.
Context {J : JsonLib} {DB : Type} {R : Redis DB} {RL : RedisLaws DB}.
Context {G : RedisGroups DB} {GL : RedisGroupLaws DB}.
Variable oracle : Oracle.
#[local] Set Default Proof Using "Type*".

(** ** What there may be nothing to send for *)

(** Commands of other clients that leave the connections of a device in APPL_DB alone. *)
Definition elsewhere (dev : string) (c : redis_cmd) : Prop :=
  forall id, target c <> connectionAppKey dev id.

(** The entry of connection [id] in APPL_DB. *)
Definition entry (w : World DB) (dev id : string) : gmap string string :=
  hgetall (connectionAppKey dev id) (appl_db_ w).

(** APPL_DB has a version of the connection that is at least the command's. *)
Definition superseded (entry : string -> gmap string string) (c : ConnectionCommand) : Prop :=
  exists z, currentVersion (entry (cmd_id c)) = Ok z /\ (desired_version c <= z)%Z.

(** The command removes a connection APPL_DB does not have. *)
Definition removes_nothing (entry : string -> gmap string string) (c : ConnectionCommand) : Prop :=
  operation c = ConnectionOperation.kRemove /\ entry (cmd_id c) = ∅.

Variable dev : string.
Hypothesis Hothers : oracle_within (elsewhere dev) oracle.
Variable entries : string -> gmap string string.

Definition entries_are (db : DB) : Prop :=
  forall id, hgetall (connectionAppKey dev id) db = entries id.
#[local] Abbreviation inv := (holds LogicalDb.kAppl entries_are).

Lemma entries_stable c db : elsewhere dev c -> entries_are db -> entries_are (execute c db).
Proof.
  intros Hc Hdb id. destruct (execute_frame c (connectionAppKey dev id) db) as (_ & -> & _);
    [by apply not_eq_sym|apply Hdb].
Qed.

Lemma keeps_entry id :
  keeps inv (get_hash oracle LogicalDb.kAppl (connectionAppKey dev id)) (fun m => m = entries id).
Proof.
  eapply keeps_weaken; [apply (keeps_get_hash _ _ _ entries_stable _ Hothers)|].
  by intros m (db & Hdb & ->).
Qed.

Lemma select_reads e commands :
  ev_device e = dev ->
  keeps inv (select_commands oracle e commands) (fun selected =>
    match selected with
    | None => exists c, c ∈ commands /\ superseded entries c
    | Some [] => Forall (removes_nothing entries) commands
    | Some _ => True
    end).
Proof.
  intros He. induction commands as [|c rest IH]; cbn [select_commands]; [by apply keeps_ret|].
  rewrite He. eapply keeps_bind; [apply keeps_entry|]. intros existing ->.
  eapply keeps_bind; [apply keeps_lift; intros ? Hv; exact Hv|]. intros previous Hprev.
  case_decide as Hold.
  { apply keeps_ret. exists c. split; [by left|]. by exists previous. }
  case_decide as Hrm.
  { eapply keeps_weaken; [exact IH|]. intros [[|c' cs]|]; [by constructor|done|].
    intros (c' & Hin & Hc'). exists c'. split; [by right|done]. }
  apply keeps_seq.
  { case_decide; [|by apply keeps_ret]. unfold loadDesiredSnapshot, get_hash.
    keeps_walk ltac:(apply keeps_call_other; done). }
  intros command'. eapply keeps_bind; [exact IH|]. intros [cs|] Hcs; apply keeps_ret; simpl; [done|].
  destruct Hcs as (c' & Hin & Hc'). exists c'. split; [by right|done].
Qed.

(** Nothing to send: a command is superseded, or all of them remove what is not there. *)
Definition nothing_to_send (e : EventEnvelope) : Prop :=
  exists batch, decodeConfigBatchEvent e = Ok batch /\
    (Exists (superseded entries) (batch_commands batch) \/
     Forall (removes_nothing entries) (batch_commands batch)).

Lemma prepare_reads e :
  ev_device e = dev ->
  keeps inv (prepare_batch oracle e) (fun batch => batch = None -> nothing_to_send e).
Proof.
  intros He. unfold prepare_batch.
  assert (forall key, keeps inv (get_hash oracle LogicalDb.kDevice key) (fun _ => True)) as Hdev
    by (intros; by apply keeps_call_other).
  cbv zeta. apply keeps_seq; [apply Hdev|]. intros prepared. case_decide.
  { keeps_walk ltac:(done). }
  eapply keeps_bind; [apply keeps_lift; intros ? Hb; exact Hb|]. intros batch Hb.
  eapply keeps_bind; [by apply select_reads|]. intros selected Hsel.
  destruct selected as [[|c commands]|].
  - apply keeps_ret. intros _. exists batch. split; [done|]. by right.
  - apply keeps_seq; [by apply keeps_lift|]. intros payload.
    keeps_walk ltac:(first [done | apply Hdev | apply keeps_call_other; done]).
  - apply keeps_ret. intros _. exists batch. split; [done|]. left. by apply Exists_exists.
Qed.

Lemma publish_batch_marks e batch w w' :
  publish_batch oracle e batch w = (Ok tt, w') ->
  exists_key (orchDeviceCommandPublicationKey (event_id e)) (device_db_ w') = true.
Proof.
  unfold publish_batch. cbv zeta. intros Hrun.
  repeat (apply bind_Ok_inv in Hrun as (? & ? & ? & Hrun)).
  apply after_phase_world in Hrun as ->. eapply append_once_marks; [| |eassumption];
    [by apply insert_non_empty|done].
Qed.
End Delivery.

(** The two ways a call can return. *)
Lemma publish_config_done {J : JsonLib} {DB} {R : Redis DB} {RL : RedisLaws DB}
    {G : RedisGroups DB} {GL : RedisGroupLaws DB} oracle e (w w' : World DB) :
  oracle_within (elsewhere (ev_device e)) oracle -> publish_config oracle e w = (Ok tt, w') ->
  exists_key (orchDeviceCommandPublicationKey (event_id e)) (device_db_ w') = true \/
  nothing_to_send (entry w' (ev_device e)) e.
Proof.
  intros Ho Hrun. unfold publish_config in Hrun.
  apply bind_Ok_inv in Hrun as (published & w1 & Hpub & Hbody).
  apply get_hash_run in Hpub as [-> _]. case_decide as Hp.
  { injection Hbody as <-. left. by apply hash_exists. }
  apply bind_Ok_inv in Hbody as ([batch|] & w3 & Hprep & Hbody).
  { left. by eapply publish_batch_marks. }
  injection Hbody as <-. right.
  destruct (prepare_reads oracle (ev_device e) Ho (entry w1 (ev_device e)) e eq_refl w1 _ _
    (fun id => eq_refl) Hprep) as [Hinv Hpost].
  destruct (Hpost None eq_refl eq_refl) as (b & Hb & Hcase). exists b. split; [done|].
  assert (forall id, entry w3 (ev_device e) id = entry w1 (ev_device e) id) as Hsame
    by apply Hinv.
  destruct Hcase as [Hx|Hf]; [left|right].
  - eapply Exists_impl; [exact Hx|]. intros c (z & Hz & Hle). exists z. by rewrite Hsame.
  - eapply Forall_impl; [exact Hf|]. intros c [? ?]. split; [done|]. by rewrite Hsame.
Qed.

(** ** The command in the stream *)
Section Sent.
Context {J : JsonLib} {DB : Type} {R : Redis DB} {RL : RedisLaws DB}.
Context {G : RedisGroups DB} {GL : RedisGroupLaws DB}.
#[local] Set Default Proof Using "Type*".
Variable E : string.                (* the ID of a configuration event *)
#[local] Abbreviation prepared_key := (orchConfigBatchKey E).
#[local] Abbreviation marker := (orchDeviceCommandPublicationKey E).

Definition prepared_is (batch : DeviceCommandBatch) (db : DB) : Prop :=
  exists text, hgetall prepared_key db !! "payload" = Some text /\
    decodeDeviceCommand text = Ok batch.

(** The batch that comes back is the stored one. *)
Lemma prepared_stored oracle e w b w' :
  prepare_batch oracle e w = (Ok (Some b), w') ->
  exists text, hgetall (orchConfigBatchKey (event_id e)) (device_db_ w') !! "payload" = Some text /\
    decodeDeviceCommand text = Ok b.
Proof.
  unfold prepare_batch. cbv zeta. intros Hrun.
  assert (forall m w1 w2, m = hgetall (orchConfigBatchKey (event_id e)) (device_db_ w1) ->
    (lift (map_at m "payload" ≫= decodeDeviceCommand) ≫= (fun b => mret (Some b))) w1
      = (Ok (Some b), w2) ->
    exists text, hgetall (orchConfigBatchKey (event_id e)) (device_db_ w2) !! "payload" = Some text /\
      decodeDeviceCommand text = Ok b) as Hlast.
  { intros m w1 w2 -> Hl. apply bind_Ok_inv in Hl as (b' & w3 & Hb & [= -> <-]).
    injection Hb as Hb <-.
    apply result_bind_Ok in Hb as (text & Ht & Hb). exists text. split; [|done].
    unfold map_at in Ht.
    destruct (hgetall _ _ !! "payload") as [t|]; [by injection Ht as <-|done]. }
  apply bind_Ok_inv in Hrun as (m & w1 & [-> _]%get_hash_run & Hrun).
  case_decide; [by eapply Hlast|].
  apply bind_Ok_inv in Hrun as (b0 & w2 & _ & Hrun).
  apply bind_Ok_inv in Hrun as (sel & w3 & _ & Hrun).
  destruct sel as [[|c l]|]; [done| |done].
  apply bind_Ok_inv in Hrun as (payload & w4 & _ & Hrun).
  apply bind_Ok_inv in Hrun as (ok & w5 & _ & Hrun).
  apply bind_Ok_inv in Hrun as (m2 & w6 & [-> _]%get_hash_run & Hrun).
  eapply Hlast; [reflexivity|exact Hrun].
Qed.

(** The fields of the event that publishes the prepared batch. *)
Definition carries_batch (db : DB) (fs : list (string * string)) : Prop :=
  exists e batch now payload,
    event_id e = E /\ fs = eventFields (command_event e batch now payload) /\
    encodeDeviceCommand batch = Ok payload /\ prepared_is batch db.

(** The command is an entry of the device stream. *)
Definition command_sent (db : DB) : Prop := in_stream kDeviceCommands carries_batch db.

(** The other clients write neither the prepared batch nor the marker, and only append to
    the stream. *)
Definition spares_batch (c : redis_cmd) : Prop := target c <> prepared_key.
Definition spares_command : redis_cmd -> Prop := faithful marker kDeviceCommands spares_batch.

#[local] Abbreviation sent := (backed marker kDeviceCommands carries_batch).

Lemma prepared_stable batch c db :
  spares_batch c -> prepared_is batch db -> prepared_is batch (execute c db).
Proof.
  intros Hc (text & Ht & Hb). exists text.
  by destruct (execute_frame c prepared_key db (not_eq_sym Hc)) as (_ & -> & _).
Qed.

Lemma carries_stable c db fs :
  spares_batch c -> carries_batch db fs -> carries_batch (execute c db) fs.
Proof.
  intros Hc (e & batch & now & payload & Hid & Hfs & Hp & Hb).
  exists e, batch, now, payload. split_and!; [done..|]. by apply prepared_stable.
Qed.

Lemma carries_hashes db db' fs :
  (forall k, hgetall k db' = hgetall k db) -> carries_batch db fs -> carries_batch db' fs.
Proof.
  intros Hk (e & batch & now & payload & Hid & Hfs & Hp & (text & Ht & Hb)).
  exists e, batch, now, payload. split_and!; [done..|]. exists text. by rewrite Hk.
Qed.

Lemma command_sent_stable c db : spares_command c -> sent db -> sent (execute c db).
Proof. apply backed_stable, carries_stable. Qed.

Lemma sent_group s g i db : marker <> s -> sent db -> sent (createConsumerGroup s g i db).2.
Proof. apply backed_group, carries_hashes. Qed.

Lemma group_prepared batch s g i db :
  prepared_is batch db -> prepared_is batch (createConsumerGroup s g i db).2.
Proof.
  intros (text & Ht & Hb). exists text. split; [|done]. unfold createConsumerGroup.
  pose proof (xgroup_create_data s g i db prepared_key) as (_ & Hh & _).
  destruct (xgroup_create _ _ _ _) as [r db']. cbn [snd] in Hh. rewrite <-Hh in Ht.
  destruct r as [u|[]]; try done. by destruct (contains _ _).
Qed.

Lemma orch_spares c : orch_writes c -> spares_command c.
Proof.
  intros [Hk|(dev & n & ->)]; [|by split_and!].
  split; [|split]; [intros Ht; rewrite Ht in Hk; inversion Hk..|].
  intros Ht. rewrite Ht in Hk. inversion Hk.
Qed.

Variable orch : OrchConfig.
Variable oracle : Oracle.
Hypothesis Hothers : oracle_within spares_command oracle.
#[local] Abbreviation inv := (holds LogicalDb.kDevice sent).

Lemma sent_groups stream group start db :
  stream ∈ [kConfigEvents; kDeviceResults; kDeviceRetries] ->
  sent db -> sent (createConsumerGroup stream group start db).2.
Proof. intros Hs. apply sent_group. intros <-. revert Hs. not_in_keys. Qed.

(** A prepared batch is stored once, so the one that was sent is still there. *)
Lemma sent_batches : keeps_batches oracle LogicalDb.kDevice sent.
Proof.
  intros id fs. apply (keeps_put_if_absent _ _ _ command_sent_stable _ Hothers).
  intros db Hdb Hex Hfs. destruct (decide (orchConfigBatchKey id = prepared_key)) as [Hid|Hne].
  2: { apply command_sent_stable; [|done]. by split_and!. }
  rewrite Hid in Hex |- *. destruct Hdb as [Ht Hm]. set (c := HMSET _ _).
  destruct (execute_frame c kDeviceCommands db) as (Ht' & _); [done|].
  split; [by rewrite Ht'|]. unfold exists_key.
  destruct (execute_frame c marker db) as (-> & _); [done|]. intros Hx.
  destruct (Hm Hx) as (i & f & _ & (e & batch & now & payload & _ & _ & _ & (text & Htext & _))).
  assert (exists_key prepared_key db = true) as Hkey; [|congruence].
  apply hash_exists. intros He. by rewrite He in Htext.
Qed.

Lemma sent_retries : keeps_retries oracle LogicalDb.kDevice sent.
Proof.
  intros id mf ev _ _. apply (keeps_append_once _ _ _ command_sent_stable _ Hothers).
  intros db Hdb _ _. eapply stable_run; [apply command_sent_stable| |exact Hdb].
  constructor; [split_and!; [done..|by eauto]|]. constructor; [by split_and!|constructor].
Qed.

(** Another event's publication. *)
Lemma sent_commands e : event_id e <> E -> keeps_commands oracle LogicalDb.kDevice sent e.
Proof.
  intros He batch now payload _. apply (keeps_append_once _ _ _ command_sent_stable _ Hothers).
  intros db Hdb _ _. eapply stable_run; [apply command_sent_stable| |exact Hdb].
  constructor; [split_and!; [done..|by eauto]|]. constructor; [|constructor].
  split_and!; [done| |done]. by intros [= ?].
Qed.

(** The event's own: the batch that is sent is the one that was prepared. *)
Definition sent_prepared (batch : DeviceCommandBatch) (db : DB) : Prop :=
  sent db /\ prepared_is batch db.

Lemma sent_prepared_stable batch c db :
  spares_command c -> sent_prepared batch db -> sent_prepared batch (execute c db).
Proof.
  intros Hc [Hs Hb]. split; [by apply command_sent_stable|]. apply prepared_stable; [|done]. apply Hc.
Qed.

Lemma own_publish e batch :
  event_id e = E ->
  keeps (holds LogicalDb.kDevice (sent_prepared batch)) (publish_batch oracle e batch)
    (fun _ => True).
Proof.
  intros He. apply (frame_publish_batch oracle LogicalDb.kDevice _ _
    (sent_prepared_stable batch) Hothers orch_spares).
  - intros db db' [Hs (text & Ht & Hb)] Hd. split; [by eapply backed_data, Hd; [apply carries_hashes|]|].
    exists text. by rewrite (proj1 (proj2 (Hd _))).
  - intros _ s g i db Hs [Hdb Hb]. split; [by apply sent_groups|by apply group_prepared].
  - intros now payload Hp. rewrite He.
    apply (keeps_append_once _ _ _ (sent_prepared_stable batch) _ Hothers).
    intros db [Hs Hb] _ _. split.
    + apply (backed_publish marker kDeviceCommands carries_batch spares_batch carries_stable);
        [done..| |done]. by exists e, batch, now, payload.
    + eapply (stable_run _ spares_batch); [apply prepared_stable| |exact Hb].
      by repeat constructor.
Qed.

Lemma sent_config e : keeps inv (publish_config oracle e) (fun _ => True).
Proof.
  assert (keeps inv (prepare_batch oracle e) (fun _ => True)) as Hprep.
  { apply (frame_prepare oracle LogicalDb.kDevice _ _ command_sent_stable Hothers orch_spares
      (backed_data _ _ _ carries_hashes) (fun _ => sent_groups)), sent_batches. }
  destruct (decide (event_id e = E)) as [He|He].
  2: { by apply (frame_publish_config oracle LogicalDb.kDevice _ _ command_sent_stable Hothers orch_spares
      (backed_data _ _ _ carries_hashes) (fun _ => sent_groups)), sent_commands; [apply sent_batches|]. }
  unfold publish_config. apply keeps_seq.
  { by apply (frame_get oracle LogicalDb.kDevice _ _ command_sent_stable Hothers orch_spares
      (backed_data _ _ _ carries_hashes) (fun _ => sent_groups)). }
  intros published. case_decide; [by apply keeps_ret|]. intros w r w' Hw Hrun. split; [|done].
  unfold mbind, prog_bind in Hrun. destruct (prepare_batch oracle e w) as [r1 w1] eqn:Hr1.
  destruct (Hprep w _ _ Hw Hr1) as [Hw1 _].
  destruct r1 as [[batch|]|x]; [|by injection Hrun as _ <-..].
  destruct (own_publish e batch He w1 r w') as [[Hs _] _]; [|done|done].
  split; [exact Hw1|]. apply prepared_stored in Hr1. by rewrite He in Hr1.
Qed.

Lemma sent_call c : keeps inv (run_service orch oracle c) (fun _ => True).
Proof.
  apply (orchestrator_frame orch oracle LogicalDb.kDevice _ _ command_sent_stable Hothers orch_spares
    (backed_data _ _ _ carries_hashes) (fun _ => sent_groups)).
  - apply sent_config.
  - apply sent_batches.
  - apply sent_retries.
Qed.
End Sent.

(** In every state the orchestrators and the other clients reach, a marker has its entry. *)
Lemma command_sent_reachable {J : JsonLib} {DB} {R : Redis DB} {RL : RedisLaws DB}
    {G : RedisGroups DB} {GL : RedisGroupLaws DB} orch E (w w' : World DB) :
  rtc (orch_step orch (fun _ => True) (spares_command E)) w w' ->
  type_of kDeviceCommands (device_db_ w) <> KHash ->
  exists_key (orchDeviceCommandPublicationKey E) (device_db_ w) = false ->
  backed (orchDeviceCommandPublicationKey E) kDeviceCommands (carries_batch E) (device_db_ w').
Proof.
  intros Hsteps Ht Hm.
  apply (orch_invariant _ _ _ LogicalDb.kDevice
    (backed (orchDeviceCommandPublicationKey E) kDeviceCommands (carries_batch E))) in Hsteps.
  - exact Hsteps.
  - apply command_sent_stable.
  - intros oracle c _ Ho. by apply sent_call.
  - split; [done|]. intros Hx. exfalso. unfold database in Hx. congruence.
Qed.

(** Handling an event, before its acknowledgement, writes nothing to CONFIG_DB. *)
Lemma config_untouched {J : JsonLib} {DB} {R : Redis DB} {RL : RedisLaws DB}
    {G : RedisGroups DB} {GL : RedisGroupLaws DB} oracle e (w w' : World DB) r :
  publish_config oracle e w = (r, w') ->
  exists cs, Forall (by_others oracle) cs /\ config_db_ w' = run_cmds cs (config_db_ w).
Proof.
  set (Q := fun db : DB => exists cs, Forall (by_others oracle) cs /\
    db = run_cmds cs (config_db_ w)).
  assert (forall c db, by_others oracle c -> Q db -> Q (execute c db)) as Hstable.
  { intros c db Hc (cs & Hcs & ->). exists (cs ++ [c]). rewrite run_cmds_app.
    split; [|done]. apply Forall_app. split; [done|by repeat constructor]. }
  assert (forall l key, keeps (holds LogicalDb.kConfig Q) (get_hash oracle l key) (fun _ => True))
    as Hget.
  { intros l key. destruct (decide (l = LogicalDb.kConfig)) as [->|Hl]; [|by apply keeps_call_other].
    eapply keeps_weaken; [apply (keeps_get_hash _ _ _ Hstable oracle)|done].
    intros n i c Hc. by exists n, i. }
  assert (forall commands, keeps (holds LogicalDb.kConfig Q) (select_commands oracle e commands)
    (fun _ => True)) as Hselect.
  { induction commands as [|c commands IH]; cbn [select_commands]; [by apply keeps_ret|].
    keeps_walk ltac:(first [exact IH | apply Hget | progress unfold loadDesiredSnapshot]). }
  assert (keeps (holds LogicalDb.kConfig Q) (publish_config oracle e) (fun _ => True)) as Hall.
  { unfold publish_config, prepare_batch, publish_batch, start_application. cbv zeta.
    keeps_walk ltac:(first [apply Hselect | apply Hget | by apply keeps_call_other
      | eapply keeps_weaken; [apply (keeps_mapM _ _ (fun _ => True))|done]
      | apply (keeps_state _ _ (fun _ => True)); [by intros []|done]
      | apply (keeps_state _ _ (fun _ => True)); done]). }
  intros Hrun. destruct (Hall w r w') as [Hq _]; [by exists []|done|exact Hq].
Qed.


Section Blocked.
Context {J : JsonLib} {DB : Type} {R : Redis DB} {RL : RedisLaws DB}.
Context {G : RedisGroups DB} {GL : RedisGroupLaws DB}.
Variable oracle : Oracle.
Variable e : EventEnvelope.
Hypothesis Hversion : is_u64 (ev_desired_version e).
#[local] Set Default Proof Using "Type*".

#[local] Abbreviation prepared_key := (orchConfigBatchKey (event_id e)).
#[local] Abbreviation command_marker := (orchDeviceCommandPublicationKey (event_id e)).
#[local] Abbreviation application_marker := (orchApplicationPublicationKey (event_id e)).

(** A prepared batch has a command of another version than the event's, and neither the
    event's application states nor its command are published. *)
Definition mismatched (c : ConnectionCommand) : Prop :=
  is_u64 (desired_version c) /\ desired_version c <> ev_desired_version e.

Definition prepared_mismatch (db : DB) : Prop :=
  exists text batch,
    hgetall prepared_key db !! "payload" = Some text /\ decodeDeviceCommand text = Ok batch /\
    Exists mismatched (batch_commands batch) /\ hgetall command_marker db = ∅.
Definition unpublished (db : DB) : Prop := exists_key application_marker db = false.

Definition blocked (w : World DB) : Prop :=
  holds LogicalDb.kDevice prepared_mismatch w /\ holds LogicalDb.kAppl unpublished w.

(** The other clients write none of the three keys. *)
Definition aside : redis_cmd -> Prop :=
  apart [prepared_key; command_marker; application_marker].
Hypothesis Hothers : oracle_within aside oracle.

Lemma mismatch_stable c db : aside c -> prepared_mismatch db -> prepared_mismatch (execute c db).
Proof.
  unfold aside, apart. intros Hc (text & batch & Ht & Hb & Hm & Hnone). exists text, batch.
  destruct (execute_frame c prepared_key db) as (_ & -> & _); [set_solver|].
  destruct (execute_frame c command_marker db) as (_ & -> & _); [set_solver|]. done.
Qed.

Lemma unpublished_stable c db : aside c -> unpublished db -> unpublished (execute c db).
Proof.
  unfold aside, apart, unpublished, exists_key. intros Hc.
  by destruct (execute_frame c application_marker db) as (-> & _ & _); [set_solver|].
Qed.

Variable w0 : World DB.

(** Still blocked, and the service has written nothing. *)
Definition stuck (w : World DB) : Prop := blocked w /\ only_others oracle w0 w.

Lemma stuck_call {A} l op (P : A -> Prop) :
  keeps blocked (call oracle l op) P -> keeps (only_others oracle w0) (call oracle l op) (fun _ => True) ->
  keeps stuck (call oracle l op) P.
Proof. intros H1 H2. eapply keeps_weaken; [by apply keeps_and|]. by intros a []. Qed.

Lemma blocked_read key :
  keeps stuck (get_hash oracle LogicalDb.kDevice key)
    (fun m => exists db, prepared_mismatch db /\ m = hgetall key db).
Proof.
  apply stuck_call; [|apply quiet_get_hash]. eapply keeps_weaken.
  - apply keeps_and; [apply (keeps_get_hash _ _ _ mismatch_stable _ Hothers)|].
    by apply keeps_call_other.
  - by intros a [].
Qed.

Lemma blocked_read_application key :
  keeps stuck (get_hash oracle LogicalDb.kAppl key) (fun _ => True).
Proof.
  apply stuck_call; [|apply quiet_get_hash].
  eapply keeps_weaken; [apply keeps_and; [by apply keeps_call_other|]|by intros a []].
  eapply keeps_weaken; [apply (keeps_get_hash _ _ _ unpublished_stable _ Hothers)|done].
Qed.

(** The batch that is read back is the mismatched one. *)
Lemma blocked_prepare :
  keeps stuck (prepare_batch oracle e)
    (fun batch => exists b, batch = Some b /\ Exists mismatched (batch_commands b)).
Proof.
  unfold prepare_batch. cbv zeta. eapply keeps_bind; [apply blocked_read|].
  intros m (db & (text & batch & Ht & Hb & Hm & _) & ->).
  rewrite decide_True by (by intros He; rewrite He in Ht).
  unfold map_at. rewrite Ht. simpl. rewrite Hb.
  apply (keeps_bind _ _ _ (fun b => Exists mismatched (batch_commands b)));
    [apply keeps_lift; by intros ? [= <-]|].
  intros b Hmb. apply keeps_ret. eauto.
Qed.

Lemma mismatched_refused (hashes : list (string * gmap string string)) commands db cs :
  Forall2 (fun c h => h.2 !! "desired_version" = Some (to_string (desired_version c)))
    commands hashes ->
  Exists mismatched commands ->
  mapM (versioned_cmds (ev_desired_version e) db) (keyed connectionAppKey e hashes) <> Ok cs.
Proof.
  intros Hf. revert cs. induction Hf as [|c [id fs] commands hashes Hc Hf IH]; intros cs.
  { intros Hx. by inversion Hx. }
  intros Hx Hrun. simpl in Hrun. apply result_bind_Ok in Hrun as (cs1 & H1 & Hrun).
  apply result_bind_Ok in Hrun as (css & Hcss & _).
  inversion Hx as [? ? [Hu Hne]|]; subst; [|by eapply IH].
  apply versioned_cmds_cases in H1 as (Hv & _ & _). apply Hne, Hv. simpl in Hc.
  exists (to_string (desired_version c)). by rewrite Hc, stoull_to_string.
Qed.

Lemma blocked_put mf hashes commands :
  mf !! "desired_version" = Some (to_string (ev_desired_version e)) ->
  Forall2 (fun c h => h.2 !! "desired_version" = Some (to_string (desired_version c)))
    commands hashes ->
  Exists mismatched commands ->
  keeps stuck (put_versioned oracle LogicalDb.kAppl application_marker mf
    (keyed connectionAppKey e hashes)) (fun _ => False).
Proof.
  intros Hmf Hf Hx w r w' [[Hdev Hw] Hquiet] Hrun.
  unfold put_versioned, putVersionedHashesAtomicallyIfMarkerAbsent in Hrun.
  rewrite Hmf, stoull_to_string in Hrun by done.
  apply call_run in Hrun as (db' & Hrun & ->).
  change ((lift (Ok ?v) ≫= ?f) ?s) with (f v s) in Hrun.
  apply watch_loop_outcome in Hrun as (others & Ho & Hout).
  2: { apply reads_only_marked; [by left|]. apply versioned_reads. }
  assert (Forall (by_others oracle) others) as Hby.
  { eapply Forall_impl; [exact Ho|]. intros c [i Hc]. by exists (calls w), i. }
  assert (unpublished (run_cmds others (database LogicalDb.kAppl w))) as Hdb1.
  { eapply stable_run; [apply unpublished_stable| |exact Hw].
    eapply Forall_impl; [exact Hby|]. intros c (n & i & Hc). by eapply Hothers. }
  inversion Hout as [cs Hb|Hb|x|cs Hb]; subst; [exfalso..| |exfalso].
  1,4: apply body_inv in Hb as (_ & es & (css & Hcss & _)%result_fmap_Ok & _);
    by eapply mismatched_refused.
  { apply body_inv in Hb. unfold unpublished in Hdb1. congruence. }
  split; [|by intros ?]. split; [|by apply only_others_call]. split.
  - unfold holds. by rewrite database_after_other.
  - unfold holds. by rewrite database_after_call.
Qed.

Lemma blocked_start command_id c :
  keeps stuck (start_application oracle e command_id c)
    (fun h => h.2 !! "desired_version" = Some (to_string (desired_version c))).
Proof.
  unfold start_application. apply keeps_seq; [apply blocked_read_application|]. intros existing.
  apply keeps_seq; [by apply keeps_lift|]. intros status. by apply keeps_ret.
Qed.

Lemma blocked_publish batch :
  Exists mismatched (batch_commands batch) ->
  keeps stuck (publish_batch oracle e batch) (fun _ => False).
Proof.
  intros Hx. unfold publish_batch. cbv zeta.
  apply keeps_seq; [by apply (keeps_state _ _ (fun _ => True))|]. intros _.
  eapply keeps_bind.
  { apply (keeps_mapM_rel _ _ (fun c h =>
      h.2 !! "desired_version" = Some (to_string (desired_version c)))).
    intros c _. apply blocked_start. }
  intros hashes Hf. eapply keeps_bind; [by eapply blocked_put|]. by intros ? [].
Qed.

Lemma blocked_config : keeps stuck (publish_config oracle e) (fun _ => False).
Proof.
  unfold publish_config. eapply keeps_bind; [apply blocked_read|].
  intros m (db & (text & batch & _ & _ & _ & Hnone) & ->). rewrite Hnone.
  rewrite decide_False by (by intros []).
  eapply keeps_bind; [apply blocked_prepare|]. intros ? (b & -> & Hb). by apply blocked_publish.
Qed.
End Blocked.

(** C32: a batch recovered from a snapshot that is newer than the event blocks it: every
    attempt throws, and the orchestrator itself has written nothing by then: on every
    database exactly commands of the other clients ran, so no state is written, no command
    is published and the event is not acknowledged; and the next attempt is in the same
    position.  The other clients leave the prepared batch and the two publication markers
    alone. *)
Theorem newer_snapshot_blocks {J : JsonLib} {DB} {R : Redis DB} {RL : RedisLaws DB}
    {G : RedisGroups DB} {GL : RedisGroupLaws DB} oracle message (w : World DB) :
  let e := event message in
  is_u64 (ev_desired_version e) -> oracle_within (aside e) oracle -> blocked e w ->
  exists x w', process_config oracle message w = (Throw x, w') /\ blocked e w' /\
    forall l, exists cs, Forall (by_others oracle) cs /\
      database l w' = run_cmds cs (database l w).
Proof.
  intros e Hv Ho Hw. destruct (publish_config oracle e w) as [r w'] eqn:Hrun.
  destruct (blocked_config oracle e Hv Ho w w r w') as [[Hw' Hquiet] Hr]; [|done|].
  { split; [done|apply only_others_refl]. }
  destruct r as [u|x]; [by destruct (Hr u)|]. exists x, w'. split; [|done].
  by apply run_bind_throw.
Qed.
