(* ===== verification/OrchRulesProps.v ===== *)
(** * The orchestrator's rules and payloads: status choice, results, retry times; what a
    retry carries, what a configuration event gives. *)
From S2P Require Import Prelude Types ConnStateMachine Json DeviceCommand RedisRepository.
From S2P Require Import Services OrchRules Orchestrator OrchResults.
From stdpp Require Import options.

Import ConnectionApplyStatus.

(** ** The status a command starts in *)

(** A status the orchestrator itself stores. *)
Definition settled_or_running (s : ConnectionApplyStatus.t) : Prop :=
  s ∈ [kAbsent; kApplying; kRemoving; kActive; kFailed; kRetryWait].

(** A new command may start on a connection in this status. *)
Definition startable (current : ConnectionApplyStatus.t) (op : ConnectionOperation.t) : Prop :=
  match current with
  | kApplying | kRemoving | kFailed | kRetryWait | kActive => True
  | kAbsent => op = ConnectionOperation.kUpsert
  | _ => False
  end.

Lemma startable_starts current op :
  startable current op -> startApplyTransition current op = Ok (executing_status op).
Proof. by destruct current, op. Qed.

Lemma transition_executes current op s :
  startApplyTransition current op = Ok s -> s = executing_status op.
Proof. destruct current, op; vm_compute; congruence. Qed.

(** A command starts in APPLYING or REMOVING, by its operation, from every status the
    service stores but one: it starts over a running one, else through two transitions of
    the documented lifecycle.  The exception, a REMOVE of an ABSENT tombstone, and the
    statuses nobody stores end in a logic_error. *)
Theorem start_transition_exact current op :
  match startApplyTransition current op with
  | Ok s =>
      startable current op /\ s = executing_status op /\
      (current = kApplying \/ current = kRemoving \/ lifecycle current s \/
       exists pending, lifecycle current pending /\ lifecycle pending s)
  | Throw e =>
      (exists m, e = LogicError m) /\ ~ startable current op /\
      (settled_or_running current -> current = kAbsent /\ op = ConnectionOperation.kRemove)
  end.
Proof.
  assert (forall m, exists m', LogicError m = LogicError m') as Hlogic by eauto.
  destruct current, op; simpl; (split; [try exact Logic.I; try apply Hlogic; try done|]);
    (split; [try done|]); eauto with ocs;
    try (intros Hs; unfold settled_or_running in Hs; set_solver).
  all: right; right; right.
  all: first [exists kPendingCreate; by split; constructor | exists kPendingUpdate; by split; constructor
    | exists kPendingDelete; by split; constructor | exists kRetryWait; by split; constructor].
Qed.

(** ** Results *)

(** C31: a device result is judged by its version and the status it finds. An older one is
    ignored and a newer one refused; one of the current version is published only when the
    connection is neither ACTIVE nor ABSENT and the new status is a transition of the
    documented lifecycle, or, for a recovery that succeeds on a failed connection, the end
    of the retry path; FAILED is published exactly for failures, and ABSENT only when a
    removal was running. *)
Theorem results_follow_the_lifecycle version application_version current success recovery removes :
  match classify_result version application_version current success recovery removes with
  | Ignore => (version <= application_version)%Z /\
      ((version < application_version)%Z \/ current ∈ [kActive; kAbsent; kFailed])
  | Reject e => (application_version < version)%Z \/
      (version = application_version /\ exists m, e = LogicError m)
  | Publish next =>
      version = application_version /\ current <> kActive /\ current <> kAbsent /\
      (lifecycle current next \/
       success = true /\ recovery = true /\ (current = kFailed \/ current = kRetryWait) /\
       exists executing, lifecycle kRetryWait executing /\ lifecycle executing next) /\
      (next = kFailed <-> success = false) /\
      (next = kAbsent -> current = kRemoving \/ recovery = true /\ removes = true)
  end.
Proof.
  unfold classify_result.
  destruct (decide (version < application_version)%Z) as [Hlt|Hge].
  { rewrite (bool_decide_eq_true_2 (version <= _)%Z), (bool_decide_eq_true_2 (version < _)%Z)
      by lia. simpl. split; [lia|by left]. }
  destruct (decide (application_version < version)%Z) as [Hgt|Hle].
  { rewrite (bool_decide_eq_false_2 (version <= _)%Z) by lia. by left. }
  assert (version = application_version) as -> by lia.
  rewrite (bool_decide_eq_true_2 (application_version <= _)%Z),
    (bool_decide_eq_false_2 (application_version < _)%Z) by lia.
  destruct current, success, recovery, removes; simpl;
    first [split; [lia|right; set_solver]
          |right; split; [done|by eexists]
          |split; [done|]; split; [done|]; split; [done|]; split; [|by split; [|auto]]].
  all: first [left; by constructor | left; apply lc_fail; set_solver
    | right; split_and!; [done|done|by auto|]; eexists; split; constructor].
Qed.

(** ** Retry times *)
Lemma backoff_loop_bounds n delay max :
  (0 <= delay <= max)%Z ->
  let exact := Z.min (delay * 2 ^ Z.of_nat n) max in
  (exact <= backoff_loop n delay max <= exact + 1)%Z /\ (backoff_loop n delay max <= max)%Z /\
  (Z.even max = true -> backoff_loop n delay max = exact).
Proof.
  revert delay. induction n as [|n IH]; intros delay Hd; cbn [backoff_loop].
  { simpl. split; [lia|]. split; [lia|]. lia. }
  rewrite Nat2Z.inj_succ, Z.pow_succ_r by lia.
  assert (0 < 2 ^ Z.of_nat n)%Z as Hp by (apply Z.pow_pos_nonneg; lia).
  set (p := (2 ^ Z.of_nat n)%Z) in *. rewrite Z.quot_div_nonneg by lia.
  pose proof (Z.div_mod max 2 ltac:(lia)) as Hdm.
  pose proof (Z.mod_pos_bound max 2 ltac:(lia)) as Hmod.
  case_decide as H0; [subst; rewrite Z.mul_0_l; lia|].
  case_decide as Hhalf.
  - assert (max - 1 <= delay * (2 * p))%Z by nia.
    split; [lia|]. split; [lia|]. intros Hev%Z.even_spec. destruct Hev as [h ->].
    rewrite (Z.mul_comm 2 h), Z.div_mul in Hhalf by lia. nia.
  - replace (delay * (2 * p))%Z with (delay * 2 * p)%Z by ring. apply IH. lia.
Qed.

Lemma backoff_loop_mono n delay max :
  (0 <= delay <= max)%Z -> (backoff_loop n delay max <= backoff_loop (S n) delay max)%Z.
Proof.
  revert delay. induction n as [|n IH]; intros delay Hd.
  - simpl. repeat case_decide; lia.
  - change (backoff_loop (S (S n)) delay max) with
      (if decide (delay = 0)%Z then delay
       else if decide (Z.quot max 2 <= delay)%Z then max else backoff_loop (S n) (delay * 2) max).
    change (backoff_loop (S n) delay max) with
      (if decide (delay = 0)%Z then delay
       else if decide (Z.quot max 2 <= delay)%Z then max else backoff_loop n (delay * 2) max).
    case_decide; [lia|]. case_decide as Hh; [lia|]. apply IH.
    rewrite Z.quot_div_nonneg in Hh by lia. pose proof (Z.div_mod max 2 ltac:(lia)).
    pose proof (Z.mod_pos_bound max 2 ltac:(lia)). lia.
Qed.

(** Under the policies the constructor accepts, the wait before retry [n] is the base
    doubled n-1 times and capped by the maximum, up to one millisecond when the maximum is
    odd; it never exceeds the maximum, grows with the retries, and never overflows: the due
    time is the current time plus the wait in nanoseconds. *)
Theorem retry_delay_is_capped_backoff config idle policy now n :
  OrchestratorService_make idle policy = Ok config -> (1 <= n)%Z ->
  (0 <= now)%Z -> (now + 3600000 * 1000000 < 2 ^ 64)%Z ->
  let exact := Z.min (base_backoff policy * 2 ^ (n - 1)) (max_backoff policy) in
  (exact <= retry_delay n policy <= exact + 1)%Z /\
  (Z.even (max_backoff policy) = true -> retry_delay n policy = exact) /\
  (retry_delay n policy <= max_backoff policy)%Z /\
  (retry_delay n policy <= retry_delay (n + 1) policy)%Z /\
  retryAtNs now n policy = (now + retry_delay n policy * 1000000)%Z.
Proof.
  unfold OrchestratorService_make. intros Hmake Hn Hnow Hroom.
  destruct (decide (idle < 0 \/ 3600000 < idle)%Z); [done|].
  case_decide as Hpolicy; [done|]. clear Hmake.
  assert (0 <= base_backoff policy <= max_backoff policy)%Z as Hbase by lia.
  pose proof (backoff_loop_bounds (Z.to_nat (n - 1)) _ _ Hbase) as (H1 & H2 & H3).
  pose proof (backoff_loop_mono (Z.to_nat (n - 1)) _ _ Hbase) as Hmono.
  rewrite Z2Nat.id in H1, H3 by lia.
  assert (retry_delay n policy
    = backoff_loop (Z.to_nat (n - 1)) (base_backoff policy) (max_backoff policy)) as Hd
    by (unfold retry_delay; lia).
  assert (0 <= 2 ^ (n - 1))%Z by (apply Z.pow_nonneg; lia).
  assert (0 <= base_backoff policy * 2 ^ (n - 1))%Z by nia.
  cbv zeta. split; [lia|]. split; [by rewrite Hd|]. split; [lia|]. split.
  - unfold retry_delay. replace (n + 1 - 1)%Z with (Z.succ (n - 1)) by lia.
    rewrite Z2Nat.inj_succ by lia. lia.
  - unfold retryAtNs. rewrite (wrap_small 64 (retry_delay _ _)) by (unfold in_width; lia).
    rewrite (wrap_small 64 (_ * _)) by (unfold in_width; lia).
    apply wrap_small. unfold in_width. lia.
Qed.

Section Payloads.
#[local] Set Default Proof Using "Type*".
Context {J : JsonLib} {JL : JsonLaws J}.

(** ** A decoded batch can be sent on *)
Lemma decoded_sendable c : decoded_wf c -> utf8 (cmd_id c) -> sendable c /\ received c = c.
Proof.
  intros [Hv Hports] Hid. unfold sendable, command_wf, received, in_width in *.
  destruct (operation c) eqn:Hop; [|destruct c; simpl in *; destruct Hports; subst];
    (split; [|done]); split_and!; (done || lia).
Qed.

Lemma decode_command_utf8 v c : from_text v -> decode_command v = Ok c -> utf8 (cmd_id c).
Proof.
  intros Hv. unfold decode_command. rewrite result_bind_Ok. intros (op & _ & H1).
  apply result_bind_Ok in H1 as (id & Hid & H2).
  apply result_bind_Ok in Hid as (x & Hx%at_from_text & Hid%string_from_text); [|done..].
  apply result_bind_Ok in H2 as (ver & _ & H3).
  destruct op; [|by simplify_eq].
  apply result_bind_Ok in H3 as (i & _ & H4).
  by apply result_bind_Ok in H4 as (o & _ & [= <-]).
Qed.

Lemma decoded_batch_sendable s b :
  decodeDeviceCommand s = Ok b -> sendable_batch b /\ received_batch b = b.
Proof.
  intros Hb. destruct (decode_batch_wf s b Hb) as (Hne & Hwf & Ht).
  unfold decodeDeviceCommand in Hb. apply result_bind_Ok in Hb as (v & Hv%parse_from_text & Hb).
  unfold decode_batch in Hb. apply result_bind_Ok in Hb as (atomic & _ & Hb).
  apply result_bind_Ok in Hb as (t & _ & Hb). apply result_bind_Ok in Hb as (oid & Hoid & Hb).
  apply value_from_text in Hoid; [|done|by apply utf8_ascii; constructor].
  case_decide; [done|]. apply result_bind_Ok in Hb as (l & Hl%at_from_text & Hb); [|done].
  apply elements_from_text in Hl. apply result_bind_Ok in Hb as (cs & Hcs & Hb).
  case_bool_decide; [done|]. simplify_eq. simpl in *.
  assert (Forall (fun c => utf8 (cmd_id c)) cs) as Hids.
  { clear -Hcs Hl JL. revert cs Hcs. induction Hl as [|v' l' Hv Hl IH]; intros cs Hcs; simpl in Hcs.
    { injection Hcs as <-. constructor. }
    apply result_bind_Ok in Hcs as (c & Hc & Hcs). apply result_bind_Ok in Hcs as (cs' & Hcs' & Hcs).
    injection Hcs as <-. constructor; [by eapply decode_command_utf8|by apply IH]. }
  assert (Forall (fun c => sendable c /\ received c = c) cs) as Hboth.
  { apply Forall_forall. intros c Hc. rewrite Forall_forall in Hwf, Hids. apply decoded_sendable; auto. }
  split.
  - split; [done|]. split; [|split; [|simpl; lia]].
    + eapply Forall_impl; [done|]. by intros c [].
    + split; [|done]. unfold is_i64. simpl. lia.
  - unfold received_batch. simpl. f_equal. rewrite <- (list_fmap_id cs) at 2.
    apply list_fmap_ext. intros i c Hc. by eapply (Forall_lookup_1 _ _ i c Hboth).
Qed.

(** ** Retry payloads *)
Definition retry_members (v : Json) (id : string) (attempt not_before : Z) : list (string * Json) :=
  [("batch", v); ("failed_command_id", json_string id);
   ("retry_attempt", json_uint attempt); ("not_before_ns", json_uint not_before)].

Lemma retry_json_ok v id attempt not_before :
  is_ok (dump v) = true -> utf8 id -> is_ok (dump (retry_json v id attempt not_before)) = true.
Proof. intros Hv Hid. unfold retry_json. dump_members. Qed.

(** A retry executes what timed out: for every batch syncd stored with an attempt, the
    retry payload can be written, and processRetryOne reads from it the same batch, the
    command that failed, the attempt number and the time before which it must wait. *)
Theorem retry_payload_roundtrip stored b id attempt not_before :
  decodeDeviceCommand stored = Ok b -> utf8 id -> is_u64 attempt -> is_u64 not_before ->
  exists text payload,
    retryPayload b id attempt not_before = Ok text /\ parse text = Ok payload /\
    retryBatch payload = Ok b /\
    (json_at payload "failed_command_id" ≫= get_string) = Ok id /\
    (json_at payload "retry_attempt" ≫= get_u64) = Ok attempt /\
    (json_at payload "not_before_ns" ≫= get_u64) = Ok not_before.
Proof.
  intros Hb Hid Ha Hn. destruct (decoded_batch_sendable stored b Hb) as [Hsend Hrec].
  pose proof (batch_ok b Hsend) as Hbok.
  unfold retryPayload, encodeDeviceCommand.
  assert (exists s, dump (batch_json (batch_commands b) (batch_options b)) = Ok s) as [s Hs].
  { destruct (dump _); [by eexists|done]. }
  rewrite Hs. simpl.
  destruct (parse_dump _ _ Hs) as (v & -> & Hv). simpl.
  pose proof (retry_json_ok v id attempt not_before (dump_parsed _ _ Hv Hbok) Hid) as Hok.
  destruct (dump (retry_json _ _ _ _)) as [text|] eqn:Ht; [|done].
  destruct (parse_dump _ _ Ht) as (w & Hw & Hobj). exists text, w.
  split; [done|]. split; [done|]. unfold retry_json in Hobj. read_members Hobj. split; [|done].
  unfold retryBatch. destruct (parsed_at _ "batch" v w Hnd) as (x & -> & Hx); [member|done|].
  simpl. pose proof (parsed_trans _ _ _ Hv Hx) as Hbx.
  pose proof (dump_parsed _ _ Hbx Hbok) as Hxok.
  destruct (dump x) as [t|] eqn:Hxt; [|done]. simpl. unfold decodeDeviceCommand.
  destruct (parse_dump _ _ Hxt) as (y & -> & Hy). simpl.
  rewrite (batch_reads b Hsend y); [by rewrite Hrec|]. by eapply parsed_trans.
Qed.

(** ** Configuration events *)
Lemma decodePort_parsePort v k : decodePort v k = parsePort v k.
Proof. reflexivity. Qed.

Lemma config_event_sendable e b :
  is_u64 (ev_desired_version e) -> utf8 (resource_id e) -> decodeConfigBatchEvent e = Ok b ->
  sendable_batch b /\ Forall (fun c => received c = c) (batch_commands b).
Proof.
  intros Hv Hid Hb. assert (decodeConfigBatchEvent e = Ok b) as Hb' by done.
  unfold decodeConfigBatchEvent in Hb. case_decide as Hr.
  - apply result_bind_Ok in Hb as (c & Hc & [= <-]).
    assert (decoded_wf c /\ cmd_id c = resource_id e) as [Hwf Hcid].
    { unfold decodeConfigEvent in Hc. repeat (case_decide; try done).
      - by simplify_eq.
      - apply result_bind_Ok in Hc as (p & _ & Hc).
        apply result_bind_Ok in Hc as (i & Hi%parsePort_range & Hc).
        apply result_bind_Ok in Hc as (o & Ho%parsePort_range & Hc). by simplify_eq. }
    destruct (decoded_sendable c Hwf) as [Hs Hrec]; [by rewrite Hcid|].
    split; [|by repeat constructor]. split; [done|]. split; [by constructor|].
    split; [|done]. split; [done|]. apply utf8_ascii. constructor.
  - case_decide; [done|]. case_decide; [done|]. apply result_bind_Ok in Hb as (b' & Hdec & Hb).
    destruct (existsb _ _); [done|]. apply Ok_inj in Hb as ->.
    destruct (decoded_batch_sendable _ _ Hdec) as [Hs Hrec]. split; [done|].
    unfold received_batch in Hrec. destruct b as [cs o]. simpl in *. injection Hrec as Hrec.
    rewrite <-(list_fmap_id cs) in Hrec at 2. apply Forall_forall. intros c (i & Hi)%list_elem_of_lookup.
    apply (f_equal (.!! i)) in Hrec. rewrite !list_lookup_fmap, Hi in Hrec. by injection Hrec.
Qed.

(** The commands the orchestrator takes from a configuration event, whatever text it
    carries: at least one, each with the version of the event, which is positive, with two
    ports between 1 and 65535 for an UPSERT and none for a REMOVE, and a positive timeout;
    an event about one connection gives one command, for that connection. *)
Theorem config_event_is_valid e b :
  is_u64 (ev_desired_version e) -> decodeConfigBatchEvent e = Ok b ->
  (0 < ev_desired_version e)%Z /\ batch_commands b <> [] /\
  Forall (fun c => decoded_wf c /\ desired_version c = ev_desired_version e) (batch_commands b) /\
  (0 < opt_timeout (batch_options b) < 2 ^ 63)%Z /\
  (resource_type e = "connection" ->
   exists c, batch_commands b = [c] /\ cmd_id c = resource_id e) /\
  (resource_type e <> "connection" ->
   resource_type e = "connection-batch" /\ ev_operation e = "APPLY_BATCH" /\
   decodeDeviceCommand (ev_payload e) = Ok b).
Proof.
  intros Hv. unfold decodeConfigBatchEvent. case_decide as Hr.
  - rewrite result_bind_Ok. intros (c & Hc & [= <-]). simpl.
    assert (decoded_wf c /\ desired_version c = ev_desired_version e /\ cmd_id c = resource_id e
            /\ ev_desired_version e <> 0%Z) as (Hwf & Hver & Hid & H0).
    { unfold decodeConfigEvent in Hc. repeat (case_decide; try done).
      - by simplify_eq.
      - apply result_bind_Ok in Hc as (p & _ & Hc).
        apply result_bind_Ok in Hc as (i & Hi & Hc). apply result_bind_Ok in Hc as (o & Ho & Hc).
        rewrite decodePort_parsePort in Hi, Ho. apply parsePort_range in Hi, Ho. by simplify_eq. }
    unfold in_width in Hv. split_and!; try done; [lia|by constructor|].
    intros _. by exists c.
  - case_decide as Hb; [done|]. case_decide as H0; [done|]. rewrite result_bind_Ok.
    intros (b' & Hdec & Hsame). destruct (existsb _ _) eqn:Hex; [done|]. simplify_eq.
    destruct (decode_batch_wf _ _ Hdec) as (Hne & Hwf & Ht). unfold in_width in Hv.
    split_and!; try done; [lia| |lia|lia|].
    + apply Forall_forall. intros c Hc. split; [by eapply Forall_forall in Hwf|].
      destruct (decide (desired_version c = ev_desired_version e)) as [|Hd]; [done|exfalso].
      apply not_true_iff_false in Hex. apply Hex, existsb_exists.
      exists c. rewrite bool_decide_eq_false_2 by done. split; [by apply list_elem_of_In|done].
    + intros _. split; [|split; [|done]]; apply dec_stable; tauto.
Qed.
End Payloads.
