(* ===== verification/OrchTypes.v ===== *)
(** * The stored connection entries stay well formed. *)
From S2P Require Import Prelude ProgLogic Redis RedisKeys RedisRepository RedisRepositoryProps.
From S2P Require Import RedisOnce.
From S2P Require Import Errors Types ConnStateMachine Json DeviceCommand.
From S2P Require Import OrchRules Services Orchestrator OrchResults CallLogic OrchSteps OrchRulesProps.
From stdpp Require Import options.
Import ConnectionApplyStatus.

(** ** Entries *)

(** An entry the service can work with: its version is a number and its status one of the
    six it stores itself.  A missing entry is one. *)
Definition entry_ok (m : gmap string string) : Prop :=
  is_ok (currentVersion m) = true /\
  exists s, currentStatus m = Ok s /\ settled_or_running s.

(** The decision a timeout publication stores. *)
Definition decision_ok (m : gmap string string) : Prop :=
  forall text, m !! "apply_status" = Some text ->
  exists s, text = toString s /\ settled_or_running s.

Lemma entry_ok_empty : entry_ok ∅.
Proof. split; [done|]. exists kAbsent. by split; [|left]. Qed.

Lemma entry_ok_field m f x :
  f <> "desired_version" -> f <> "apply_status" -> entry_ok m -> entry_ok (<[f := x]> m).
Proof.
  intros H1 H2. unfold entry_ok, currentVersion, currentStatus.
  by rewrite !lookup_insert_ne.
Qed.

Lemma entry_ok_status m s :
  settled_or_running s -> entry_ok m -> entry_ok (<["apply_status" := toString s]> m).
Proof.
  intros Hs [Hv _]. unfold entry_ok, currentVersion, currentStatus in *.
  rewrite lookup_insert_ne, lookup_insert_eq by done. split; [done|]. exists s.
  by rewrite status_roundtrip.
Qed.
#[local] Hint Resolve entry_ok_empty entry_ok_field entry_ok_status : core.

Lemma executing_settled op : settled_or_running (executing_status op).
Proof. unfold settled_or_running. destruct op; simpl; set_solver. Qed.

Lemma application_ok e command_id c op :
  is_u64 (desired_version c) -> entry_ok (application_fields e command_id c (executing_status op)).
Proof.
  intros Hc. split.
  - unfold currentVersion.
    change (application_fields e command_id c (executing_status op) !! "desired_version")
      with (Some (to_string (desired_version c))). cbv beta iota. by rewrite stoull_to_string.
  - exists (executing_status op). split; [|apply executing_settled]. unfold currentStatus.
    change (application_fields e command_id c (executing_status op) !! "apply_status")
      with (Some (toString (executing_status op))). cbv beta iota. apply status_roundtrip.
Qed.

Lemma result_ok application next success error_code error_message :
  settled_or_running next -> entry_ok application ->
  entry_ok (result_application application next success error_code error_message).
Proof. intros Hn Ha. unfold result_application. destruct success; auto 8. Qed.

Ltac settled := unfold settled_or_running; set_solver.

Lemma classify_settled version application_version current success recovery removes next :
  classify_result version application_version current success recovery removes = Publish next ->
  settled_or_running next.
Proof.
  unfold classify_result. destruct (_ && _); [done|]. case_decide; [done|].
  set (n := if success then _ else _).
  assert (settled_or_running n) as Hn.
  { unfold n. destruct success; [destruct (_ || _)|]; settled. }
  set (checked := if _ && _ then _ else _). destruct checked; [|done]. by intros [= <-].
Qed.

(** ** Databases *)
Definition entry_key (k : string) : Prop :=
  exists dev id, k = connectionAppKey dev id \/ k = connectionDeviceKey dev id.
Definition decision_key (k : string) : Prop :=
  exists id, k = orchTimeoutApplicationPublicationKey id \/ k = orchTimeoutDevicePublicationKey id.

Lemma keys_apart k : entry_key k -> ~ decision_key k.
Proof. by intros (dev & id & [->| ->]) (id' & [H|H]). Qed.

Section Typed.
Context {J : JsonLib} {JL : JsonLaws J} {DB : Type} {R : Redis DB} {RL : RedisLaws DB}.
Context {G : RedisGroups DB} {GL : RedisGroupLaws DB}.
#[local] Set Default Proof Using "Type*".

Definition well_typed (db : DB) : Prop := forall k,
  (entry_key k -> entry_ok (hgetall k db)) /\ (decision_key k -> decision_ok (hgetall k db)).

(** The invariant of the two databases the service keeps entries in. *)
Definition typed (w : World DB) : Prop :=
  holds LogicalDb.kAppl well_typed w /\ holds LogicalDb.kDevice well_typed w.

(** A command of another client that leaves a well-typed database well typed. *)
Definition typed_write (c : redis_cmd) : Prop :=
  forall db, well_typed db -> well_typed (execute c db).

Lemma typed_elsewhere c :
  ~ entry_key (target c) -> ~ decision_key (target c) -> typed_write c.
Proof.
  intros He Hd db Hdb k. destruct (decide (k = target c)) as [->|Hk]; [done|].
  destruct (execute_frame c k db) as (_ & -> & _); [done|]. apply Hdb.
Qed.

Lemma typed_run cs db : Forall typed_write cs -> well_typed db -> well_typed (run_cmds cs db).
Proof. apply stable_run. intros c db0 Hc. apply Hc. Qed.

Lemma typed_reads_data : reads_data well_typed.
Proof. intros db db' Hdb Hd k. destruct (Hd k) as (_ & -> & _). apply Hdb. Qed.

Variable oracle : Oracle.
Hypothesis Hothers : oracle_within typed_write oracle.

Lemma well_typed_stable c db : typed_write c -> well_typed db -> well_typed (execute c db).
Proof. intros Hc. apply Hc. Qed.

Lemma typed_call {A} l (op : (nat -> interference) -> prog DB A) P :
  l = LogicalDb.kAppl \/ l = LogicalDb.kDevice ->
  keeps (holds l well_typed) (call oracle l op) P -> keeps typed (call oracle l op) P.
Proof.
  intros [->| ->] Hk; unfold typed.
  - eapply keeps_weaken; [apply keeps_and; [exact Hk|by apply keeps_call_other]|].
    by intros a [].
  - eapply keeps_weaken; [apply keeps_and; [by apply keeps_call_other|exact Hk]|].
    by intros a [].
Qed.

Lemma typed_call_other {A} l (op : (nat -> interference) -> prog DB A) :
  l <> LogicalDb.kAppl -> l <> LogicalDb.kDevice -> keeps typed (call oracle l op) (fun _ => True).
Proof.
  intros H1 H2. apply (keeps_weaken _ _ (fun _ => True /\ True)); [|done].
  apply (keeps_and _ _ _ (fun _ => True) (fun _ => True)); by apply keeps_call_other.
Qed.

Lemma typed_read l key :
  l = LogicalDb.kAppl \/ l = LogicalDb.kDevice ->
  keeps typed (get_hash oracle l key) (fun m =>
    (entry_key key -> entry_ok m) /\ (decision_key key -> decision_ok m)).
Proof.
  intros Hl. apply typed_call; [done|].
  eapply keeps_weaken; [apply (keeps_get_hash _ _ _ well_typed_stable _ Hothers)|].
  intros m (db & Hdb & ->). apply Hdb.
Qed.

Lemma typed_put l marker mf hashes :
  l = LogicalDb.kAppl \/ l = LogicalDb.kDevice -> ~ entry_key marker ->
  (decision_key marker -> decision_ok mf) ->
  Forall (fun h => entry_key h.1 /\ entry_ok h.2) hashes ->
  keeps typed (put_versioned oracle l marker mf hashes) (fun _ => True).
Proof.
  intros Hl Hm Hmf Hh. apply typed_call; [done|]. rewrite Forall_forall in Hh.
  apply (keeps_put_versioned _ _ _ well_typed_stable _ Hothers).
  intros db version t css Hdb Hex Ht _ Hcss. rewrite run_cmds_app.
  assert (well_typed (run_cmds (concat css) db)) as Hdb1.
  { intros k. destruct (versioned_last _ _ _ _ k db Hcss) as [->|(fs & Hin & -> & _)];
      [apply Hdb|]. destruct (Hh _ Hin) as [Hk Hfs]. split; [done|].
    intros Hd. by destruct (keys_apart k Hk). }
  intros k. set (db1 := run_cmds (concat css) db) in *.
  change (run_cmds ?cs db1) with (execute (HMSET marker (sorted_items mf)) db1).
  destruct (decide (k = marker)) as [->|Hk].
  2: { destruct (execute_frame (HMSET marker (sorted_items mf)) k db1) as (_ & -> & _); [done|].
       apply Hdb1. }
  split; [done|]. intros Hd. specialize (Hmf Hd).
  assert (type_of marker db1 = KNone) as Hnone.
  { unfold db1. destruct (run_cmds_frame (concat css) marker db) as (-> & _ & _).
    - intros (c & -> & Hin)%list_elem_of_fmap. apply (versioned_targets _ _ _ _ Hcss) in Hin.
      apply list_elem_of_fmap in Hin as (h & Hh1 & Hin). apply Hm. rewrite Hh1. by apply Hh.
    - unfold exists_key in Hex. by rewrite negb_false_iff, bool_decide_eq_true in Hex. }
  rewrite execute_hmset; [|apply sorted_items_ne; by intros ->|by rewrite Hnone].
  assert (hgetall marker db1 = ∅) as ->.
  { destruct (decide (hgetall marker db1 = ∅)) as [|Hne%type_hash]; [done|congruence]. }
  by rewrite assign_sorted_items, (right_id_L ∅ (∪)).
Qed.

(** A publication in the device stream. *)
Lemma typed_append marker mf stream ev :
  typed_write (XADD stream (eventFields ev)) -> typed_write (HMSET marker (sorted_items mf)) ->
  keeps typed (append_once oracle marker mf stream ev) (fun _ => True).
Proof.
  intros H1 H2. apply typed_call; [by right|].
  apply (keeps_append_once _ _ _ well_typed_stable _ Hothers).
  intros db Hdb _ _. apply typed_run; [|done].
  by apply Forall_cons; split; [|apply Forall_singleton].
Qed.

Lemma typed_put_if_absent key fs :
  typed_write (HMSET key (sorted_items fs)) ->
  keeps typed (call oracle LogicalDb.kDevice (putHashIfAbsent key fs)) (fun _ => True).
Proof.
  intros Hk. apply typed_call; [by right|].
  apply (keeps_put_if_absent _ _ _ well_typed_stable _ Hothers). intros db Hdb _ _. by apply Hk.
Qed.

Lemma keyed_entries key e hashes :
  (forall dev id, entry_key (key dev id)) -> Forall (fun h => entry_ok h.2) hashes ->
  Forall (fun h => entry_key h.1 /\ entry_ok h.2) (keyed key e hashes).
Proof.
  intros Hkey Hh. unfold keyed. apply Forall_fmap. eapply Forall_impl; [exact Hh|].
  intros [id fs] Hfs. split; [apply Hkey|done].
Qed.

(** ** The operations *)
Ltac untyped := apply typed_elsewhere; [by intros (? & ? & [?|?])|by intros (? & [?|?])].

Ltac typed_leaf :=
  lazymatch goal with
  | |- keeps _ (get_hash _ LogicalDb.kAppl _) _ =>
      eapply keeps_weaken; [apply typed_read; by left|exact (fun _ _ => Logic.I)]
  | |- keeps _ (get_hash _ LogicalDb.kDevice _) _ =>
      eapply keeps_weaken; [apply typed_read; by right|exact (fun _ _ => Logic.I)]
  | |- keeps _ (get_hash _ _ _) _ => by apply typed_call_other
  | |- keeps _ (next_message _ LogicalDb.kDevice _ _ _ _) _ =>
      unfold typed; eapply keeps_weaken;
      [apply keeps_and; [unfold next_message|
         apply (keeps_next_message _ _ _ well_typed_stable _ Hothers), typed_reads_data]
      |by intros ? []]
  | |- keeps _ (call _ LogicalDb.kDevice (putHashIfAbsent _ _)) _ =>
      apply typed_put_if_absent; untyped
  | |- keeps _ (append_once _ _ _ _ _) _ => apply typed_append; untyped
  | |- keeps _ (call _ _ _) _ => by apply typed_call_other
  | |- keeps _ (after_phase _ _) _ => apply (keeps_state _ _ (fun _ => True)); done
  | |- keeps _ (timestampNowNs _) _ => apply (keeps_state _ _ (fun _ => True)); [by intros []|done]
  end.
Ltac typed_walk := keeps_walk ltac:(idtac; typed_leaf).

Lemma typed_message l stream group consumer min_idle :
  keeps typed (next_message oracle l stream group consumer min_idle) (fun _ => True).
Proof.
  apply (keeps_weaken _ _ (fun _ => True /\ True)); [|done]. apply keeps_and.
  - destruct (decide (l = LogicalDb.kAppl)) as [->|Hl].
    + apply (keeps_next_message _ _ _ well_typed_stable _ Hothers), typed_reads_data.
    + unfold next_message. keeps_walk ltac:(by apply keeps_call_other).
  - destruct (decide (l = LogicalDb.kDevice)) as [->|Hl].
    + apply (keeps_next_message _ _ _ well_typed_stable _ Hothers), typed_reads_data.
    + unfold next_message. keeps_walk ltac:(by apply keeps_call_other).
Qed.

Lemma typed_ack l stream group message :
  keeps typed (ack oracle l stream group message) (fun _ => True).
Proof.
  apply (keeps_weaken _ _ (fun _ => True /\ True)); [|done]. apply keeps_and.
  - destruct (decide (l = LogicalDb.kAppl)) as [->|Hl].
    + apply (keeps_ack _ _ _ well_typed_stable _ Hothers), typed_reads_data.
    + unfold ack. keeps_walk ltac:(by apply keeps_call_other).
  - destruct (decide (l = LogicalDb.kDevice)) as [->|Hl].
    + apply (keeps_ack _ _ _ well_typed_stable _ Hothers), typed_reads_data.
    + unfold ack. keeps_walk ltac:(by apply keeps_call_other).
Qed.

(** Configuration events *)
Lemma typed_select e commands : keeps typed (select_commands oracle e commands) (fun _ => True).
Proof.
  induction commands as [|c commands IH]; cbn [select_commands]; [by apply keeps_ret|].
  keeps_walk ltac:(first [exact IH | typed_leaf | progress unfold loadDesiredSnapshot]).
Qed.

Definition versions_fit (b : DeviceCommandBatch) : Prop :=
  Forall (fun c => is_u64 (desired_version c)) (batch_commands b).

Lemma decoded_versions_fit s b : decodeDeviceCommand s = Ok b -> versions_fit b.
Proof.
  intros (_ & Hwf & _)%decode_batch_wf. eapply Forall_impl; [exact Hwf|]. by intros c [].
Qed.

Lemma typed_prepare e :
  keeps typed (prepare_batch oracle e) (fun ob => forall b, ob = Some b -> versions_fit b).
Proof.
  unfold prepare_batch.
  assert (forall m, keeps typed
    (lift (map_at m "payload" ≫= decodeDeviceCommand) ≫= (fun b => mret (Some b)))
    (fun ob => forall b, ob = Some b -> versions_fit b)) as Hlast.
  { intros m. apply (keeps_bind _ _ _ versions_fit).
    - apply keeps_lift. intros b (s & _ & Hb)%result_bind_Ok. by eapply decoded_versions_fit.
    - intros b Hb. apply keeps_ret. by intros ? [= <-]. }
  cbv zeta. apply keeps_seq; [typed_leaf|]. intros prepared. case_decide; [apply Hlast|].
  apply keeps_seq; [by apply keeps_lift|]. intros batch.
  apply keeps_seq; [apply typed_select|]. intros [[|c l]|]; [by apply keeps_ret| |by apply keeps_ret].
  apply keeps_seq; [by apply keeps_lift|]. intros payload.
  apply keeps_seq; [typed_leaf|]. intros _. apply keeps_seq; [typed_leaf|]. intros m. apply Hlast.
Qed.

Lemma typed_start e command_id c :
  is_u64 (desired_version c) ->
  keeps typed (start_application oracle e command_id c) (fun h => entry_ok h.2).
Proof.
  intros Hc. unfold start_application. apply keeps_seq; [typed_leaf|]. intros existing.
  apply (keeps_bind _ _ _ (fun s => s = executing_status (operation c))).
  - apply keeps_lift. intros s (current & _ & Hs)%result_bind_Ok. by eapply transition_executes.
  - intros s ->. apply keeps_ret. by apply application_ok.
Qed.

Lemma typed_put_entries l key e marker mf hashes :
  l = LogicalDb.kAppl \/ l = LogicalDb.kDevice -> (forall dev id, entry_key (key dev id)) ->
  ~ entry_key marker -> (decision_key marker -> decision_ok mf) ->
  Forall (fun h => entry_ok h.2) hashes ->
  keeps typed (put_versioned oracle l marker mf (keyed key e hashes)) (fun _ => True).
Proof. intros Hl Hkey Hm Hmf Hh. apply typed_put; try done. by apply keyed_entries. Qed.

Lemma app_entry dev id : entry_key (connectionAppKey dev id).
Proof. exists dev, id. by left. Qed.
Lemma device_entry dev id : entry_key (connectionDeviceKey dev id).
Proof. exists dev, id. by right. Qed.

(** A publication of entries, under a marker that is no decision or a good one. *)
Ltac put_entries :=
  lazymatch goal with
  | |- keeps _ (put_versioned _ LogicalDb.kAppl _ _ _) _ =>
      apply typed_put_entries; [by left|apply app_entry|by intros (? & ? & [?|?])| |done]
  | |- keeps _ (put_versioned _ LogicalDb.kDevice _ _ _) _ =>
      apply typed_put_entries; [by right|apply device_entry|by intros (? & ? & [?|?])| |done]
  end; first [by intros (? & [?|?])|done].

Lemma typed_publish_batch e batch :
  versions_fit batch -> keeps typed (publish_batch oracle e batch) (fun _ => True).
Proof.
  intros Hb. unfold publish_batch. cbv zeta. apply keeps_seq; [typed_leaf|]. intros _.
  eapply keeps_bind.
  { apply keeps_mapM. intros c Hc. apply typed_start. by eapply Forall_forall in Hb. }
  intros hashes Hh. keeps_walk ltac:(first [put_entries | typed_leaf]).
Qed.

Lemma typed_config orch consumer :
  keeps typed (processConfigOne orch oracle consumer) (fun _ => True).
Proof.
  unfold processConfigOne. apply keeps_seq; [apply typed_message|].
  intros [message|]; [|by apply keeps_ret]. apply keeps_seq; [|intros; by apply keeps_ret].
  unfold process_config, publish_config. apply keeps_seq; [|intros; apply typed_ack].
  apply keeps_seq; [typed_leaf|]. intros published. case_decide; [by apply keeps_ret|].
  eapply keeps_bind; [apply typed_prepare|]. intros [batch|] Hb; [|by apply keeps_ret].
  apply typed_publish_batch. by apply Hb.
Qed.

(** Alarms live in other databases. *)
Lemma typed_alarms e error_message :
  keeps typed (publishTimeoutAlarm oracle e error_message) (fun _ => True) /\
  keeps typed (clearTimeoutAlarm oracle e) (fun _ => True).
Proof.
  unfold publishTimeoutAlarm, clearTimeoutAlarm, raise_alarm, lower_alarm, count_alarm.
  split; typed_walk.
Qed.

(** Timeouts *)
Lemma typed_metadata orch e command_id c :
  keeps typed (timeout_metadata orch oracle e command_id c)
    (fun om => forall m, om = Some m -> decision_ok m).
Proof.
  unfold timeout_metadata. apply keeps_seq; [typed_leaf|]. intros first.
  typed_walk; try done.
  all: match goal with H : Some _ = Some ?m |- decision_ok ?m => injection H as <- end.
  all: intros text Htext; apply (f_equal (default "")) in Htext; symmetry in Htext.
  all: destruct (bool_decide _).
  all: first [exists kRetryWait; split; [exact Htext|settled]
             |exists kFailed; split; [exact Htext|settled]].
Qed.

Definition entries_ok (oh : option (string * gmap string string)) : Prop :=
  forall h, oh = Some h -> entry_ok h.2.

Lemma typed_timeout_application e command_id error_message metadata c :
  decision_ok metadata ->
  keeps typed (timeout_application oracle e command_id error_message metadata c) entries_ok.
Proof.
  intros Hm. unfold timeout_application.
  eapply keeps_bind; [apply typed_read; by left|]. intros application [Ha _].
  specialize (Ha (app_entry _ _)). case_decide; [by apply keeps_ret|].
  apply keeps_seq; [by apply keeps_lift|]. intros version. case_decide; [by apply keeps_ret|].
  apply (keeps_bind _ _ _ (fun t => exists s, t = toString s /\ settled_or_running s)).
  { apply keeps_lift. intros t Ht. apply Hm. unfold map_at in Ht.
    by destruct (metadata !! "apply_status"); [injection Ht as ->|]. }
  intros status (s & -> & Hs). typed_walk. intros h [= <-]. simpl. auto 10.
Qed.

Lemma typed_publish_timeout e command_id error_message batch metadata :
  decision_ok metadata ->
  keeps typed (publish_timeout oracle e command_id error_message batch metadata) (fun _ => True).
Proof.
  intros Hm. unfold publish_timeout, schedule_retry. eapply keeps_bind.
  { apply (keeps_collect_all _ _ (fun h => entry_ok h.2)).
    intros. by apply typed_timeout_application. }
  intros [hashes|] Hh; [|by apply keeps_ret]. specialize (Hh hashes eq_refl).
  keeps_walk ltac:(first [put_entries | apply typed_alarms | typed_leaf]).
Qed.

Lemma typed_timeout orch message command_id error_message :
  keeps typed (handleTimeoutResult orch oracle message command_id error_message) (fun _ => True).
Proof.
  unfold handleTimeoutResult. cbv zeta. apply keeps_seq; [typed_leaf|]. intros attempt.
  destruct (attempt !! "payload") as [payload|]; [|by apply keeps_ret].
  destruct (decodeDeviceCommand payload) as [batch|]; [|by apply keeps_ret].
  destruct (batch_commands batch) as [|c rest]; [by apply keeps_ret|].
  assert (forall l id, l = LogicalDb.kAppl \/ l = LogicalDb.kDevice -> decision_key id ->
    keeps typed (get_hash oracle l id) decision_ok) as Hread.
  { intros l id Hl Hid. eapply keeps_weaken; [by apply typed_read|]. intros m [_ Hm]. auto. }
  eapply keeps_bind; [apply Hread; [by left|by eexists; left]|]. intros stored Hs.
  apply (keeps_bind _ _ _ decision_ok).
  { case_decide; [|by apply keeps_ret]. apply Hread; [by right|by eexists; right]. }
  clear stored Hs. intros stored Hs.
  apply (keeps_bind _ _ _ (fun om => forall m, om = Some m -> decision_ok m)).
  { case_decide; [apply typed_metadata|]. apply keeps_ret. by intros ? [= <-]. }
  intros [metadata|] Hm; [|by apply keeps_ret]. apply typed_publish_timeout. auto.
Qed.

(** Results *)
Lemma typed_publish_result e application next success :
  entry_ok application ->
  keeps typed (publish_result oracle e application next success) (fun _ => True).
Proof.
  intros Ha. unfold publish_result.
  keeps_walk ltac:(first
    [ apply typed_put; [first [by left|by right]|by intros (? & ? & [?|?])|by intros (? & [?|?])|];
      apply Forall_singleton; split; [first [apply app_entry|apply device_entry]|];
      simpl; first [case_decide; [apply entry_ok_empty|done]|done]
    | apply (typed_alarms e "") | typed_leaf]).
Qed.

Lemma typed_handle_result e res success :
  keeps typed (handle_result oracle e res success) (fun _ => True).
Proof.
  unfold handle_result, already_published. apply keeps_seq; [typed_walk|]. intros published.
  destruct published; [keeps_walk ltac:(first [apply (typed_alarms e "") | typed_leaf])|].
  eapply keeps_bind; [apply typed_read; by left|]. intros application [Ha _].
  specialize (Ha (app_entry _ _)). case_decide; [by apply keeps_ret|].
  apply keeps_seq; [by apply keeps_lift|]. intros version.
  apply keeps_seq; [by apply keeps_lift|]. intros current.
  apply keeps_seq; [by apply keeps_lift|]. intros id. cbv zeta.
  destruct (classify_result _ _ _ _ _ _) as [|x|next] eqn:Hc;
    [by apply keeps_ret|apply keeps_throw|]. apply classify_settled in Hc.
  keeps_walk ltac:(apply typed_publish_result; by apply result_ok).
Qed.

Lemma typed_result orch consumer :
  keeps typed (processResultOne orch oracle consumer) (fun _ => True).
Proof.
  unfold processResultOne, process_result. apply keeps_seq; [apply typed_message|].
  intros [message|]; [|by apply keeps_ret].
  keeps_walk ltac:(first [apply typed_timeout | apply typed_handle_result | apply typed_ack]).
Qed.

(** Retries *)
Lemma typed_retry_application e failed attempt started c :
  keeps typed (retry_application oracle e failed attempt started c) entries_ok.
Proof.
  unfold retry_application. cbv zeta. eapply keeps_bind; [apply typed_read; by left|].
  intros application [Ha _]. specialize (Ha (app_entry _ _)). case_decide; [by apply keeps_ret|].
  apply keeps_seq; [by apply keeps_lift|]. intros version. case_decide; [by apply keeps_ret|].
  destruct (negb _); [by apply keeps_ret|].
  apply keeps_seq; [typed_walk|]. intros waiting. destruct (negb _); [by apply keeps_ret|].
  apply (keeps_bind _ _ _ entry_ok).
  { destruct started; [by apply keeps_ret|]. apply keeps_seq; [by apply keeps_lift|].
    intros _. apply keeps_ret. apply entry_ok_status; [apply executing_settled|done]. }
  intros m Hm. apply keeps_ret. intros h [= <-]. simpl. auto 10.
Qed.

Lemma typed_handle_retry e batch failed attempt :
  keeps typed (handle_retry oracle e batch failed attempt) (fun _ => True).
Proof.
  unfold handle_retry. apply keeps_seq; [typed_leaf|]. intros published.
  case_decide; [by apply keeps_ret|]. apply keeps_seq; [typed_leaf|]. intros application.
  apply keeps_seq; [typed_walk|]. intros started. eapply keeps_bind.
  { apply (keeps_collect_all _ _ (fun h => entry_ok h.2)). intros. apply typed_retry_application. }
  intros [hashes|] Hh; [|by apply keeps_ret]. specialize (Hh hashes eq_refl).
  unfold publish_retry. keeps_walk ltac:(first [put_entries | typed_leaf]).
Qed.

(** Initialization creates consumer groups. *)
Lemma typed_initialize : keeps typed (initialize oracle) (fun _ => True).
Proof.
  unfold initialize, publishHeartbeat.
  assert (forall stream group, keeps typed (call oracle LogicalDb.kDevice
    (plain (createConsumerGroup stream group "0-0"))) (fun _ => True)) as Hgroup.
  { intros stream group. apply typed_call; [by right|].
    apply (keeps_plain _ _ _ well_typed_stable _ Hothers). intros db Hdb. split; [|done].
    unfold createConsumerGroup. pose proof (xgroup_create_data stream group "0-0" db) as Hx.
    destruct (xgroup_create _ _ _ _) as [r db'].
    assert (well_typed db') as Hdb'.
    { intros k. destruct (Hx k) as (_ & Hh & _). simpl in Hh. rewrite Hh. apply Hdb. }
    destruct r as [u|[]]; try done. by destruct (contains _ _). }
  keeps_walk ltac:(first [apply Hgroup | typed_leaf]).
Qed.

Lemma typed_retry consumer : keeps typed (processRetryOne oracle consumer) (fun _ => True).
Proof.
  unfold processRetryOne, process_retry. apply keeps_seq; [apply typed_message|].
  intros [message|]; [|by apply keeps_ret].
  keeps_walk ltac:(first [apply typed_handle_retry | apply typed_ack | typed_leaf]).
Qed.
End Typed.

(** C8: every entry of a connection the orchestrator keeps, in APPL_DB and in DEVICE_DB,
    has a numeric version and one of the six statuses ABSENT, APPLYING, REMOVING, ACTIVE,
    FAILED and RETRY_WAIT, whatever happens: so reading it never throws, and the transient
    statuses of the lifecycle are never stored.  The other clients may write anything that
    leaves such entries, and the stored timeout decisions, well formed. *)
Theorem stored_entries_are_well_formed {J : JsonLib} {JL : JsonLaws J} {DB} {R : Redis DB}
    {RL : RedisLaws DB} {G : RedisGroups DB} {GL : RedisGroupLaws DB} orch dev id
    (w w' : World DB) :
  rtc (orch_step orch (fun _ => True) typed_write) w w' -> typed w ->
  entry_ok (hgetall (connectionAppKey dev id) (appl_db_ w')) /\
  entry_ok (hgetall (connectionDeviceKey dev id) (device_db_ w')).
Proof.
  intros Hsteps Hw. apply (orch_invariant_world _ _ _ typed w w') in Hsteps; [|..|done].
  - destruct Hsteps as [Ha Hd]. split; [apply Ha, app_entry|apply Hd, device_entry].
  - intros l cs w1 Hcs [Ha Hd].
    split; apply (others_hold typed_write); try done; intros c db Hc; apply Hc.
  - intros oracle c _ Ho. destruct c; simpl.
    + apply keeps_seq; [by apply typed_initialize|]. intros. by apply keeps_ret.
    + unfold publishHeartbeat.
      keeps_walk ltac:(first [by apply typed_call_other
        | apply (keeps_state _ _ (fun _ => True)); [by intros []|done]]).
    + by apply typed_config.
    + by apply typed_result.
    + by apply typed_retry.
Qed.
