(* ===== verification/OrchProgress.v ===== *)
(** * An undisturbed attempt publishes: no crash before it can leave an event stuck. *)
From S2P Require Import Prelude Redis RedisKeys RedisRepository RedisRepositoryProps.
From S2P Require Import RedisOnce.
From S2P Require Import Errors Types ConnStateMachine Json DeviceCommand.
From S2P Require Import OrchRules Services Orchestrator CallLogic OrchRulesProps OrchDelivery.
From stdpp Require Import options.

Section Progress.
Context {J : JsonLib} {JL : JsonLaws J} {DB : Type} {R : Redis DB} {RL : RedisLaws DB}.
Context {G : RedisGroups DB} {GL : RedisGroupLaws DB}.
Variable oracle : Oracle.
Hypothesis Hcalm : undisturbed oracle.
#[local] Set Default Proof Using "Type*".

(** ** Single calls *)

(** Only the number of calls has changed. *)
Definition same_databases (w w' : World DB) : Prop := forall l, database l w' = database l w.

Lemma calm_read l key (w : World DB) :
  exists w', get_hash oracle l key w = (Ok (hgetall key (database l w)), w') /\
    same_databases w w'.
Proof.
  destruct Hcalm as [Hq _]. unfold get_hash, call, plain. rewrite Hq. simpl. eexists.
  split; [reflexivity|]. intros l'. by destruct w, l, l'.
Qed.

Lemma calm_phase p (w : World DB) : after_phase oracle p w = (Ok tt, w).
Proof. unfold after_phase. by rewrite (proj2 Hcalm). Qed.

Lemma same_trans (w1 w2 w3 : World DB) :
  same_databases w1 w2 -> same_databases w2 w3 -> same_databases w1 w3.
Proof. intros H12 H23 l. by rewrite H23. Qed.

(** A marked transaction whose effects can be computed returns. *)
Lemma calm_marked l marker mf eff n watched msg (w : World DB) :
  is_ok (eff (database l w)) = true ->
  exists b w', call oracle l (watch_loop (S n) watched msg (unless_marked marker mf eff)) w
    = (Ok b, w') /\ forall l', l' <> l -> database l' w' = database l' w.
Proof.
  intros Heff. unfold call. rewrite calm_watch_loop by done. unfold unless_marked.
  destruct (exists_key marker _); [|destruct (eff (database l w)) as [cs|]; [|done]]; simpl;
    (eexists _, _; split; [reflexivity|]); intros l' Hl; by apply database_after_other.
Qed.

(** ** When an attempt can succeed *)

(** The stored entries of the connection have a version and a status that parse. *)
Definition readable (w : World DB) (dev id : string) : Prop :=
  is_ok (currentVersion (entry w dev id)) = true /\
  is_ok (currentStatus (entry w dev id)) = true /\
  is_ok (currentVersion (hgetall (connectionDeviceKey dev id) (device_db_ w))) = true.

Definition can_start (w : World DB) (dev : string) (c : ConnectionCommand) : Prop :=
  exists s, currentStatus (entry w dev (cmd_id c)) = Ok s /\ startable s (operation c).

(** A command of the event that can be published. *)
Definition publishable (e : EventEnvelope) (w : World DB) (c : ConnectionCommand) : Prop :=
  readable w (ev_device e) (cmd_id c) /\ cmd_id c <> "" /\
  desired_version c = ev_desired_version e.

(** Only an event about one connection recovers from a version gap. *)
Definition no_gap (e : EventEnvelope) (w : World DB) (c : ConnectionCommand) : Prop :=
  resource_type e = "connection" ->
  forall z, currentVersion (entry w (ev_device e) (cmd_id c)) = Ok z -> (desired_version c <= z + 1)%Z.

Definition selectable (e : EventEnvelope) (w : World DB) (c : ConnectionCommand) : Prop :=
  publishable e w c /\ no_gap e w c /\
  (can_start w (ev_device e) c \/ removes_nothing (entry w (ev_device e)) c).

Lemma same_entry (w w' : World DB) dev id : same_databases w w' -> entry w' dev id = entry w dev id.
Proof. intros Hs. unfold entry. by rewrite (Hs LogicalDb.kAppl : appl_db_ w' = appl_db_ w). Qed.

Lemma same_selectable e (w w' : World DB) c :
  same_databases w w' -> selectable e w c -> selectable e w' c.
Proof.
  intros Hs. pose proof (fun dev id => same_entry w w' dev id Hs) as He.
  unfold selectable, publishable, readable, no_gap, can_start, removes_nothing.
  rewrite (Hs LogicalDb.kDevice : device_db_ w' = device_db_ w). by rewrite !He.
Qed.

Lemma calm_select e commands (w : World DB) :
  Forall (selectable e w) commands ->
  exists selected w', select_commands oracle e commands w = (Ok selected, w') /\
    same_databases w w' /\
    (forall l, selected = Some l -> Forall (fun c => c ∈ commands /\ can_start w (ev_device e) c) l).
Proof.
  revert w. induction commands as [|c rest IH]; intros w Hc; cbn [select_commands].
  { exists (Some []), w. split; [done|]. split; [done|]. intros l [= <-]. constructor. }
  apply Forall_cons in Hc as [Hone Hrest].
  destruct (calm_read LogicalDb.kAppl (connectionAppKey (ev_device e) (cmd_id c)) w)
    as (w1 & Hr1 & Hs1).
  rewrite (run_bind _ _ _ _ _ Hr1). fold (entry w (ev_device e) (cmd_id c)).
  destruct Hone as (((Hv & _) & _) & Hgap & Hstart). unfold no_gap in Hgap.
  change (hgetall _ (database LogicalDb.kAppl w)) with (entry w (ev_device e) (cmd_id c)).
  destruct (currentVersion (entry w (ev_device e) (cmd_id c))) as [z|] eqn:Hz; [|done].
  change ((lift (Ok z) ≫= ?f) ?s) with (f z s). cbv beta.
  case_decide as Hold.
  { exists None, w1. split; [done|]. split; [done|]. by intros l. }
  destruct (IH w1) as (sel & w2 & Hr2 & Hs2 & Hsel).
  { eapply Forall_impl; [exact Hrest|]. intros c'. by apply same_selectable. }
  assert (forall l, sel = Some l ->
    Forall (fun c' => c' ∈ c :: rest /\ can_start w (ev_device e) c') l) as Hsel'.
  { intros l Hl. eapply Forall_impl; [by apply Hsel|]. intros c' [Hin Hc'].
    split; [by right|]. unfold can_start in *. by rewrite <-(same_entry w w1). }
  case_decide as Hrm.
  { exists sel, w2. split; [done|]. split; [by eapply same_trans|done]. }
  rewrite decide_False.
  2: { intros [Hconn Hfar]. specialize (Hgap Hconn z eq_refl). lia. }
  rewrite run_ret_bind, (run_bind _ _ _ _ _ Hr2).
  exists (cons c <$> sel), w2. split; [done|]. split; [by eapply same_trans|].
  intros l Hl. destruct sel as [l'|]; [|done]. injection Hl as <-.
  constructor; [|by apply Hsel']. split; [by left|]. by destruct Hstart.
Qed.

(** An attempt that has not begun finds every command selectable, one that has been
    interrupted finds the batch it prepared. *)
Definition attempt_ready (e : EventEnvelope) (w : World DB) : Prop :=
  (type_of (orchConfigBatchKey (event_id e)) (device_db_ w) = KNone /\
   exists b, decodeConfigBatchEvent e = Ok b /\ Forall (selectable e w) (batch_commands b)) \/
  (exists text b,
     hgetall (orchConfigBatchKey (event_id e)) (device_db_ w) !! "payload" = Some text /\
     decodeDeviceCommand text = Ok b /\
     Forall (fun c => publishable e w c /\ can_start w (ev_device e) c) (batch_commands b)).

(** The two worlds differ in the prepared batch at most. *)
Definition same_states (e : EventEnvelope) (w w' : World DB) : Prop :=
  appl_db_ w' = appl_db_ w /\
  forall key, key <> orchConfigBatchKey (event_id e) ->
    hgetall key (device_db_ w') = hgetall key (device_db_ w).

Lemma same_states_ready e (w w' : World DB) c :
  same_states e w w' -> publishable e w c /\ can_start w (ev_device e) c ->
  publishable e w' c /\ can_start w' (ev_device e) c.
Proof.
  intros [Ha Hd]. unfold publishable, readable, can_start, entry. rewrite Ha. by rewrite Hd.
Qed.

Lemma sub_batch_sendable b l :
  sendable_batch b -> Forall (fun c => received c = c) (batch_commands b) ->
  l <> [] -> Forall (fun c => c ∈ batch_commands b) l ->
  sendable_batch (mkBatch l (batch_options b)) /\
  received_batch (mkBatch l (batch_options b)) = mkBatch l (batch_options b).
Proof.
  intros (_ & Hs & Ho) Hrec Hne Hl. rewrite Forall_forall in Hs, Hrec, Hl.
  split; [split; [done|split; [apply Forall_forall; auto|done]]|].
  unfold received_batch. simpl. f_equal. rewrite <-(list_fmap_id l) at 2.
  apply list_fmap_ext. intros i c Hc%list_elem_of_lookup_2. auto.
Qed.

(** The batch is stored and read back. *)
Lemma batch_fields_ne e payload : batch_fields e payload <> ∅.
Proof. apply insert_non_empty. Qed.

Lemma calm_store e payload (w : World DB) :
  type_of (orchConfigBatchKey (event_id e)) (device_db_ w) = KNone ->
  exists w', call oracle LogicalDb.kDevice
      (putHashIfAbsent (orchConfigBatchKey (event_id e)) (batch_fields e payload)) w
    = (Ok true, w') /\ same_states e w w' /\
    hgetall (orchConfigBatchKey (event_id e)) (device_db_ w') = batch_fields e payload.
Proof.
  intros Ht. set (key := orchConfigBatchKey (event_id e)) in *. unfold call, putHashIfAbsent.
  destruct (decide (batch_fields e payload = ∅)) as [He|_]; [by apply batch_fields_ne in He|].
  rewrite (calm_watch_loop oracle 7 _ _ _ _ (database LogicalDb.kDevice w)) by done. change (database LogicalDb.kDevice w) with (device_db_ w).
  unfold exists_key. rewrite Ht, (bool_decide_eq_true_2 (KNone = KNone)) by done.
  cbn [negb]. cbv beta iota. eexists. split; [reflexivity|]. set (db' := run_cmds _ _).
  change (device_db_ (after_call LogicalDb.kDevice db' w))
    with (database LogicalDb.kDevice (after_call LogicalDb.kDevice db' w)).
  unfold same_states.
  change (appl_db_ (after_call LogicalDb.kDevice db' w))
    with (database LogicalDb.kAppl (after_call LogicalDb.kDevice db' w)).
  change (device_db_ (after_call LogicalDb.kDevice db' w))
    with (database LogicalDb.kDevice (after_call LogicalDb.kDevice db' w)).
  rewrite database_after_call, database_after_other by done. split; [split; [done|]|].
  - intros key' Hk. unfold db'.
    destruct (run_cmds_frame [HMSET key (sorted_items (batch_fields e payload))] key'
      (device_db_ w)) as (_ & -> & _); [|done]. by intros ?%list_elem_of_singleton.
  - change db' with (execute (HMSET key (sorted_items (batch_fields e payload))) (device_db_ w)).
    rewrite execute_hmset; [|apply sorted_items_ne, batch_fields_ne|by rewrite Ht].
    assert (hgetall key (device_db_ w) = ∅) as ->.
    { destruct (decide (hgetall key (device_db_ w) = ∅)) as [|Hne]; [done|].
      apply type_hash in Hne. congruence. }
    by rewrite assign_sorted_items, (right_id_L ∅ (∪)).
Qed.

Lemma same_states_of (w w' : World DB) e : same_databases w w' -> same_states e w w'.
Proof.
  intros Hs. split; [apply (Hs LogicalDb.kAppl)|]. intros key _.
  by rewrite (Hs LogicalDb.kDevice : device_db_ w' = device_db_ w).
Qed.
Lemma same_states_trans e (w1 w2 w3 : World DB) :
  same_states e w1 w2 -> same_states e w2 w3 -> same_states e w1 w3.
Proof.
  intros [A1 D1] [A2 D2]. split; [congruence|]. intros key Hk. by rewrite D2, D1.
Qed.

Lemma read_payload m text b :
  m !! "payload" = Some text -> decodeDeviceCommand text = Ok b ->
  (map_at m "payload" ≫= decodeDeviceCommand) = Ok b.
Proof. intros Hm Hb. unfold map_at. by rewrite Hm. Qed.

Lemma calm_prepare e (w : World DB) :
  is_u64 (ev_desired_version e) -> utf8 (resource_id e) -> attempt_ready e w ->
  exists prepared w', prepare_batch oracle e w = (Ok prepared, w') /\
    forall b, prepared = Some b -> sendable_batch b /\
      Forall (fun c => publishable e w' c /\ can_start w' (ev_device e) c) (batch_commands b).
Proof.
  intros Hv Hid Hready. unfold prepare_batch. cbv zeta.
  destruct (calm_read LogicalDb.kDevice (orchConfigBatchKey (event_id e)) w) as (w1 & Hr1 & Hs1).
  rewrite (run_bind _ _ _ _ _ Hr1). clear Hr1.
  change (database LogicalDb.kDevice w) with (device_db_ w).
  destruct Hready as [(Ht & b & Hb & Hsel)|(text & b & Htext & Hb & Hall)].
  - assert (hgetall (orchConfigBatchKey (event_id e)) (device_db_ w) = ∅) as ->.
    { destruct (decide (hgetall (orchConfigBatchKey (event_id e)) (device_db_ w) = ∅)) as [|Hne];
        [done|]. apply type_hash in Hne. congruence. }
    rewrite decide_False by (by intros []). rewrite Hb.
    change ((lift (Ok b) ≫= ?f) ?s) with (f b s). cbv beta.
    destruct (calm_select e (batch_commands b) w1) as (sel & w2 & Hr2 & Hs2 & Hstart).
    { eapply Forall_impl; [exact Hsel|]. intros c. by apply same_selectable. }
    rewrite (run_bind _ _ _ _ _ Hr2).
    destruct (config_event_sendable e b Hv Hid Hb) as [Hsend Hrec].
    destruct sel as [[|c l]|]; [by exists None, w2| |by exists None, w2].
    specialize (Hstart _ eq_refl).
    destruct (sub_batch_sendable b (c :: l) Hsend Hrec) as [Hsub Hsubrec]; [done| |].
    { eapply Forall_impl; [exact Hstart|]. by intros ? []. }
    destruct (batch_roundtrip _ Hsub) as (payload & -> & Hdec). rewrite Hsubrec in Hdec.
    change ((lift (Ok payload) ≫= ?f) ?s) with (f payload s). cbv beta.
    destruct (calm_store e payload w2) as (w3 & Hr3 & Hs3 & Hget).
    { rewrite <-Ht. f_equal. exact (same_trans _ _ _ Hs1 Hs2 LogicalDb.kDevice). }
    rewrite (run_bind _ _ _ _ _ Hr3).
    destruct (calm_read LogicalDb.kDevice (orchConfigBatchKey (event_id e)) w3)
      as (w4 & Hr4 & Hs4).
    rewrite (run_bind _ _ _ _ _ Hr4).
    change (database LogicalDb.kDevice w3) with (device_db_ w3). rewrite Hget.
    rewrite (read_payload (batch_fields e payload) payload _ eq_refl Hdec). eexists _, w4. split; [reflexivity|]. intros b' [= <-]. split; [done|].
    eapply Forall_impl; [exact Hstart|]. intros c' [Hin Hcan].
    apply (same_states_ready e w1); [|split; [|done]].
    + eapply same_states_trans; [by apply same_states_of|].
      by eapply same_states_trans; [|apply same_states_of].
    + rewrite Forall_forall in Hsel. by eapply same_selectable; [|apply Hsel].
  - rewrite decide_True by (by intros He; rewrite He in Htext).
    rewrite (read_payload _ text b Htext Hb). eexists _, w1. split; [reflexivity|]. intros b' [= <-].
    split; [by eapply decoded_batch_sendable|]. eapply Forall_impl; [exact Hall|]. intros c.
    by apply same_states_ready, same_states_of.
Qed.

(** ** Publishing *)
Lemma calm_start e command_id commands (w : World DB) :
  Forall (fun c => can_start w (ev_device e) c) commands ->
  exists hashes w', mapM (start_application oracle e command_id) commands w = (Ok hashes, w') /\
    same_databases w w' /\
    Forall2 (fun c h => h.1 = cmd_id c /\
      h.2 !! "desired_version" = Some (to_string (desired_version c))) commands hashes.
Proof.
  revert w. induction commands as [|c rest IH]; intros w Hall; simpl.
  { exists [], w. split; [done|]. split; [done|constructor]. }
  apply Forall_cons in Hall as [(s & Hs & Hstart) Hrest].
  destruct (calm_read LogicalDb.kAppl (connectionAppKey (ev_device e) (cmd_id c)) w)
    as (w1 & Hr1 & Hs1).
  assert (start_application oracle e command_id c w
    = (Ok (cmd_id c, application_fields e command_id c (executing_status (operation c))), w1))
    as Hone.
  { unfold start_application. rewrite (run_bind _ _ _ _ _ Hr1).
    change (hgetall _ (database LogicalDb.kAppl w)) with (entry w (ev_device e) (cmd_id c)).
    rewrite Hs. change ((Ok s : result _) ≫= ?f) with (f s). cbv beta.
    by rewrite (startable_starts _ _ Hstart). }
  rewrite (run_bind _ _ _ _ _ Hone).
  destruct (IH w1) as (hashes & w2 & Hr2 & Hs2 & Hf).
  { eapply Forall_impl; [exact Hrest|]. intros c'. unfold can_start.
    by rewrite (same_entry w w1). }
  rewrite (run_bind _ _ _ _ _ Hr2). eexists _, w2. split; [reflexivity|].
  split; [by eapply same_trans|]. by constructor.
Qed.

Lemma versioned_ok v (db : DB) hashes :
  is_u64 v ->
  Forall (fun h => h.2 !! "desired_version" = Some (to_string v) /\
                   is_ok (currentVersion (hgetall h.1 db)) = true) hashes ->
  is_ok (@concat redis_cmd <$> mapM (versioned_cmds v db) hashes) = true.
Proof.
  intros Hv Hall.
  assert (is_ok (mapM (versioned_cmds v db) hashes) = true) as Hok; [|by destruct (mapM _ _)].
  induction Hall as [|[key fs] hashes [Hfs Hcur] _ IH]; [done|].
  assert (is_ok (versioned_cmds v db (key, fs)) = true) as Hone.
  { unfold versioned_cmds. simpl in Hfs, Hcur. rewrite Hfs, stoull_to_string by done. simpl.
    rewrite decide_False by (intros Hn; by apply Hn). simpl. unfold currentVersion in Hcur.
    destruct (hgetall key db !! "desired_version") as [t|]; [|done]. by destruct (stoull t). }
  change (is_ok (versioned_cmds v db (key, fs) ≫= fun cs =>
    mapM (versioned_cmds v db) hashes ≫= fun css => mret (cs :: css)) = true).
  destruct (versioned_cmds v db (key, fs)); [|done].
  destruct (mapM (versioned_cmds v db) hashes); done.
Qed.

Lemma calm_put l marker mf hashes v (w : World DB) :
  mf !! "desired_version" = Some (to_string v) -> is_u64 v ->
  Forall (fun h => h.2 !! "desired_version" = Some (to_string v) /\
                   is_ok (currentVersion (hgetall h.1 (database l w))) = true) hashes ->
  exists b w', put_versioned oracle l marker mf hashes w = (Ok b, w') /\
    forall l', l' <> l -> database l' w' = database l' w.
Proof.
  intros Hmf Hv Hall. unfold put_versioned, putVersionedHashesAtomicallyIfMarkerAbsent.
  rewrite Hmf, stoull_to_string by done.
  apply (calm_marked l marker mf (fun db => @concat redis_cmd <$> mapM (versioned_cmds v db) hashes)
    7). by apply versioned_ok.
Qed.

Lemma calm_append marker mf stream ev (w : World DB) :
  validateEvent ev = Ok tt ->
  exists b w', append_once oracle marker mf stream ev w = (Ok b, w').
Proof.
  intros Hev. unfold append_once, appendEventOnce. rewrite Hev.
  destruct (calm_marked LogicalDb.kDevice marker mf (fun _ => Ok [XADD stream (eventFields ev)]) 7
    [marker] "Redis event publication exceeded retry limit" w eq_refl) as (b & w' & Hr & _).
  exists b, w'. exact Hr.
Qed.

Definition command_event (e : EventEnvelope) (batch : DeviceCommandBatch) (now : Z)
    (payload : string) : EventEnvelope :=
  mkEventEnvelope 1 (event_id e +:+ ":command") (request_id e) now (ev_device e)
    (single batch (fun _ => "connection") "connection-batch")
    (single batch cmd_id (request_id e))
    (single batch (fun c => operationName (operation c)) "APPLY_BATCH")
    (ev_desired_version e) payload.

Lemma command_event_valid e batch now payload :
  validateEvent e = Ok tt -> Forall (fun c => cmd_id c <> "") (batch_commands batch) ->
  validateEvent (command_event e batch now payload) = Ok tt.
Proof.
  unfold validateEvent. intros He Hids. case_decide; [done|]. case_decide as Hf; [done|].
  simpl. apply decide_False.
  assert (event_id e +:+ ":command" <> "") as Hcid by by destruct (event_id e).
  unfold single. destruct (batch_commands batch) as [|c [|]]; simpl; [naive_solver| |naive_solver].
  apply Forall_cons in Hids as [Hc _]. destruct (operation c); naive_solver.
Qed.

(** The hashes for one database agree with the marker and can be compared. *)
Lemma keyed_ok key e commands hashes (db : DB) :
  Forall2 (fun c h => h.1 = cmd_id c /\
    h.2 !! "desired_version" = Some (to_string (desired_version c))) commands hashes ->
  Forall (fun c => desired_version c = ev_desired_version e /\
    is_ok (currentVersion (hgetall (key (ev_device e) (cmd_id c)) db)) = true) commands ->
  Forall (fun h => h.2 !! "desired_version" = Some (to_string (ev_desired_version e)) /\
    is_ok (currentVersion (hgetall h.1 db)) = true) (keyed key e hashes).
Proof.
  intros Hf. induction Hf as [|c [id fs] commands hashes [Hid Hfs] _ IH]; [constructor|].
  intros [[Hv Hcur] Hrest]%Forall_cons. constructor; [|by apply IH]. simpl in *. subst id.
  split; [by rewrite <-Hv|done].
Qed.

Lemma calm_publish e batch (w : World DB) :
  is_u64 (ev_desired_version e) -> validateEvent e = Ok tt -> sendable_batch batch ->
  Forall (fun c => publishable e w c /\ can_start w (ev_device e) c) (batch_commands batch) ->
  exists w', publish_batch oracle e batch w = (Ok tt, w').
Proof.
  intros Hv He Hsend Hall. unfold publish_batch. cbv zeta.
  rewrite (run_bind _ _ _ _ _ (calm_phase _ _)).
  destruct (calm_start e (event_id e +:+ ":command") (batch_commands batch) w)
    as (hashes & w1 & Hr1 & Hs1 & Hf).
  { eapply Forall_impl; [exact Hall|]. by intros c []. }
  rewrite (run_bind _ _ _ _ _ Hr1).
  destruct (calm_put LogicalDb.kAppl (orchApplicationPublicationKey (event_id e))
    (publication_marker e (event_id e +:+ ":command")) (keyed connectionAppKey e hashes)
    (ev_desired_version e) w1) as (b2 & w2 & Hr2 & Hs2); [done|done| |].
  { apply (keyed_ok connectionAppKey e _ _ _ Hf). eapply Forall_impl; [exact Hall|].
    intros c (((H1 & _) & _ & Hver) & _). split; [done|].
    by rewrite (Hs1 LogicalDb.kAppl). }
  rewrite (run_bind _ _ _ _ _ Hr2), (run_bind _ _ _ _ _ (calm_phase _ _)).
  destruct (calm_put LogicalDb.kDevice (orchDeviceStatePublicationKey (event_id e))
    (publication_marker e (event_id e +:+ ":command")) (keyed connectionDeviceKey e hashes)
    (ev_desired_version e) w2) as (b3 & w3 & Hr3 & _); [done|done| |].
  { apply (keyed_ok connectionDeviceKey e _ _ _ Hf). eapply Forall_impl; [exact Hall|].
    intros c (((_ & _ & H3) & _ & Hver) & _). split; [done|].
    by rewrite Hs2, (Hs1 LogicalDb.kDevice). }
  rewrite (run_bind _ _ _ _ _ Hr3), (run_bind _ _ _ _ _ (calm_phase _ _)).
  destruct (batch_roundtrip batch Hsend) as (payload & -> & _).
  set (now := clock oracle (calls w3)).
  destruct (calm_append (orchDeviceCommandPublicationKey (event_id e))
    {["event_id" := event_id e; "command_id" := event_id e +:+ ":command"]} kDeviceCommands
    (command_event e batch now payload) (tick w3)) as (b4 & w4 & Hr4).
  { apply command_event_valid; [done|]. eapply Forall_impl; [exact Hall|].
    by intros c ((_ & ? & _) & _). }
  exists w4. rewrite (run_bind (timestampNowNs oracle) _ w3 now (tick w3) eq_refl).
  rewrite (run_bind (lift (Ok payload)) _ (tick w3) payload (tick w3) eq_refl).
  unfold command_event in Hr4. rewrite (run_bind _ _ _ _ _ Hr4). apply calm_phase.
Qed.

Lemma calm_config e (w : World DB) :
  is_u64 (ev_desired_version e) -> utf8 (resource_id e) -> validateEvent e = Ok tt ->
  attempt_ready e w -> exists w', publish_config oracle e w = (Ok tt, w').
Proof.
  intros Hv Hid He Hready. unfold publish_config.
  destruct (calm_read LogicalDb.kDevice (orchDeviceCommandPublicationKey (event_id e)) w)
    as (w1 & Hr1 & Hs1).
  rewrite (run_bind _ _ _ _ _ Hr1). case_decide; [by exists w1|].
  destruct (calm_prepare e w1 Hv Hid) as (prepared & w2 & Hr2 & Hb).
  { pose proof (Hs1 LogicalDb.kDevice : device_db_ w1 = device_db_ w) as Hdev.
    unfold attempt_ready. rewrite Hdev. destruct Hready as [(Ht & b & Hb & Hsel)|Hstored].
    - left. split; [done|]. exists b. split; [done|]. eapply Forall_impl; [exact Hsel|].
      intros c. by apply same_selectable.
    - right. destruct Hstored as (text & b & Htext & Hb & Hall). exists text, b.
      split; [done|]. split; [done|]. eapply Forall_impl; [exact Hall|].
      intros c. by apply same_states_ready, same_states_of. }
  rewrite (run_bind _ _ _ _ _ Hr2). destruct prepared as [b|]; [|by exists w2].
  destruct (Hb b eq_refl) as [Hsend Hall]. by apply calm_publish.
Qed.
End Progress.
