(* ===== verification/OrchRecovery.v ===== *)
(** * Crashes leave an event ready for its next attempt. *)
From S2P Require Import Prelude ProgLogic Redis RedisKeys RedisRepository RedisRepositoryProps.
From S2P Require Import RedisOnce.
From S2P Require Import Errors Types ConnStateMachine Json DeviceCommand.
From S2P Require Import OrchRules Services Orchestrator CallLogic OrchSteps OrchRulesProps.
From S2P Require Import OrchRulesProps OrchDelivery OrchProgress.
From stdpp Require Import options.

Section Recovery.
Context {J : JsonLib} {JL : JsonLaws J} {DB : Type} {R : Redis DB} {RL : RedisLaws DB}.
Context {G : RedisGroups DB} {GL : RedisGroupLaws DB}.
Variable e : EventEnvelope.
#[local] Abbreviation dev := (ev_device e).
#[local] Abbreviation prepared_key := (orchConfigBatchKey (event_id e)).

(** The other clients write neither the device's connections nor the prepared batch. *)
Definition hands_off (c : redis_cmd) : Prop :=
  target c <> prepared_key /\
  forall id, target c <> connectionAppKey dev id /\ target c <> connectionDeviceKey dev id.

Variable oracle : Oracle.
Hypothesis Hothers : oracle_within hands_off oracle.
Hypothesis Hversion : is_u64 (ev_desired_version e).
Hypothesis Hid : utf8 (resource_id e).
#[local] Set Default Proof Using "Type*".

(** ** Until the batch is stored *)
Section Preparing.
Variable w0 : World DB.

Definition entries_kept (db : DB) : Prop :=
  forall id, hgetall (connectionAppKey dev id) db = entry w0 dev id.

Definition preparing (db : DB) : Prop :=
  (forall id, hgetall (connectionDeviceKey dev id) db
              = hgetall (connectionDeviceKey dev id) (device_db_ w0)) /\
  ((type_of prepared_key db = KNone /\
    exists b, decodeConfigBatchEvent e = Ok b /\ Forall (selectable e w0) (batch_commands b)) \/
   (exists text b, hgetall prepared_key db !! "payload" = Some text /\
      decodeDeviceCommand text = Ok b /\
      Forall (fun c => publishable e w0 c /\ can_start w0 dev c) (batch_commands b))).

Definition in_preparation (w : World DB) : Prop :=
  holds LogicalDb.kAppl entries_kept w /\ holds LogicalDb.kDevice preparing w.

Lemma entries_kept_stable c db : hands_off c -> entries_kept db -> entries_kept (execute c db).
Proof.
  intros [_ Hc] Hdb id. destruct (execute_frame c (connectionAppKey dev id) db) as (_ & -> & _);
    [by apply not_eq_sym, Hc|apply Hdb].
Qed.

Lemma preparing_stable c db : hands_off c -> preparing db -> preparing (execute c db).
Proof.
  intros [Hp Hc] [Hd Hcase].
  destruct (execute_frame c prepared_key db) as (Ht & Hh & _); [by apply not_eq_sym|].
  split; [|by rewrite Ht, Hh]. intros id. rewrite <-Hd.
  destruct (execute_frame c (connectionDeviceKey dev id) db) as (_ & -> & _); [|done].
  by apply not_eq_sym, Hc.
Qed.

Lemma in_preparation_ready w : in_preparation w -> attempt_ready e w.
Proof.
  intros [Ha [Hd Hcase]].
  assert (forall id, entry w dev id = entry w0 dev id) as He by exact Ha.
  change (database LogicalDb.kDevice w) with (device_db_ w) in *. unfold attempt_ready.
  destruct Hcase as [(Ht & b & Hb & Hsel)|(text & b & Ht & Hb & Hall)]; [left|right].
  - split; [done|]. exists b. split; [done|]. eapply Forall_impl; [exact Hsel|]. intros c.
    unfold selectable, publishable, readable, no_gap, can_start, removes_nothing.
    by rewrite !He, Hd.
  - exists text, b. split; [done|]. split; [done|]. eapply Forall_impl; [exact Hall|]. intros c.
    unfold publishable, readable, can_start. by rewrite !He, Hd.
Qed.

Lemma keeps_appl {A} (m : prog (World DB) A) P :
  keeps (holds LogicalDb.kAppl entries_kept) m P ->
  keeps (holds LogicalDb.kDevice preparing) m (fun _ => True) -> keeps in_preparation m P.
Proof.
  intros H1 H2. eapply keeps_weaken; [by apply keeps_and|]. by intros a [].
Qed.
Lemma keeps_device {A} (m : prog (World DB) A) P :
  keeps (holds LogicalDb.kAppl entries_kept) m (fun _ => True) ->
  keeps (holds LogicalDb.kDevice preparing) m P -> keeps in_preparation m P.
Proof.
  intros H1 H2. eapply keeps_weaken; [by apply keeps_and|]. by intros a [].
Qed.

Lemma preparing_read key :
  keeps in_preparation (get_hash oracle LogicalDb.kDevice key)
    (fun m => exists db, preparing db /\ m = hgetall key db).
Proof.
  apply keeps_device; [by apply keeps_call_other|].
  apply (keeps_get_hash _ _ _ preparing_stable _ Hothers).
Qed.

Lemma preparing_entry id :
  keeps in_preparation (get_hash oracle LogicalDb.kAppl (connectionAppKey dev id))
    (fun m => m = entry w0 dev id).
Proof.
  apply keeps_appl; [|by apply keeps_call_other].
  eapply keeps_weaken; [apply (keeps_get_hash _ _ _ entries_kept_stable _ Hothers)|].
  by intros m (db & Hdb & ->).
Qed.

Lemma select_starts commands :
  Forall (selectable e w0) commands ->
  keeps in_preparation (select_commands oracle e commands) (fun selected => forall l,
    selected = Some l -> Forall (fun c => c ∈ commands /\ can_start w0 dev c) l).
Proof.
  induction 1 as [|c rest Hc _ IH]; cbn [select_commands].
  { apply keeps_ret. intros l [= <-]. constructor. }
  eapply keeps_bind; [apply preparing_entry|]. intros existing ->.
  eapply keeps_bind; [apply keeps_lift; intros ? Hv; exact Hv|]. intros previous Hprev.
  case_decide as Hold; [by apply keeps_ret|].
  assert (forall l, Forall (fun c' => c' ∈ rest /\ can_start w0 dev c') l ->
    Forall (fun c' => c' ∈ c :: rest /\ can_start w0 dev c') l) as Hmore.
  { intros l Hl. eapply Forall_impl; [exact Hl|]. intros c' []. split; [by right|done]. }
  case_decide as Hrm.
  { eapply keeps_weaken; [exact IH|]. intros sel Hsel l Hl. auto. }
  destruct Hc as (_ & Hgap & Hstart).
  rewrite decide_False.
  2: { intros [Hconn Hfar]. specialize (Hgap Hconn previous Hprev). lia. }
  apply (keeps_bind _ _ _ (fun c' => c' = c)); [by apply keeps_ret|]. intros c' ->.
  eapply keeps_bind; [exact IH|]. intros sel Hsel. apply keeps_ret. intros l Hl.
  destruct sel as [l'|]; [|done]. injection Hl as <-.
  constructor; [|auto]. split; [by left|]. by destruct Hstart.
Qed.

(** Storing the batch: the payload decodes to commands that can start. *)
Lemma preparing_store payload b :
  decodeDeviceCommand payload = Ok b ->
  Forall (fun c => publishable e w0 c /\ can_start w0 dev c) (batch_commands b) ->
  keeps in_preparation (call oracle LogicalDb.kDevice
    (putHashIfAbsent prepared_key (batch_fields e payload))) (fun _ => True).
Proof.
  intros Hb Hall. apply keeps_device; [by apply keeps_call_other|].
  apply (keeps_put_if_absent _ _ _ preparing_stable _ Hothers).
  intros db [Hd _] Hex _. split.
  - intros id. rewrite <-Hd.
    destruct (execute_frame (HMSET prepared_key (sorted_items (batch_fields e payload)))
      (connectionDeviceKey dev id) db) as (_ & -> & _); done.
  - right. exists payload, b. split; [|done]. unfold exists_key in Hex.
    rewrite negb_false_iff, bool_decide_eq_true in Hex.
    rewrite execute_hmset; [|apply sorted_items_ne, batch_fields_ne|by rewrite Hex].
    assert (hgetall prepared_key db = ∅) as ->.
    { destruct (decide (hgetall prepared_key db = ∅)) as [|Hne]; [done|].
      apply type_hash in Hne. congruence. }
    by rewrite assign_sorted_items, (right_id_L ∅ (∪)).
Qed.

Lemma preparing_prepare : keeps in_preparation (prepare_batch oracle e) (fun _ => True).
Proof.
  unfold prepare_batch. cbv zeta. eapply keeps_bind; [apply preparing_read|].
  intros prepared (db & [_ Hcase] & ->). case_decide as Hp; [keeps_walk ltac:(done)|].
  destruct Hcase as [(_ & b & Hb & Hsel)|(text & b & Ht & _)].
  2: by rewrite Hp in Ht.
  rewrite Hb. apply (keeps_bind _ _ _ (fun b' => b' = b)).
  { apply keeps_lift. by intros ? [= <-]. }
  intros b' ->. eapply keeps_bind; [by apply select_starts|]. intros [[|c l]|] Hl;
    [by apply keeps_ret| |by apply keeps_ret].
  specialize (Hl _ eq_refl).
  destruct (config_event_sendable e b Hversion Hid Hb) as [Hsend Hrec].
  destruct (sub_batch_sendable b (c :: l) Hsend Hrec) as [Hsub Hsubrec]; [done| |].
  { eapply Forall_impl; [exact Hl|]. by intros ? []. }
  destruct (batch_roundtrip _ Hsub) as (payload & -> & Hdec). rewrite Hsubrec in Hdec.
  apply (keeps_bind _ _ _ (fun p => p = payload)).
  { apply keeps_lift. by intros ? [= <-]. }
  intros p ->. apply keeps_seq.
  { apply (preparing_store _ _ Hdec). eapply Forall_impl; [exact Hl|]. intros c' [Hin Hc'].
    rewrite Forall_forall in Hsel. by destruct (Hsel _ Hin). }
  intros _. apply keeps_seq; [eapply keeps_weaken; [apply preparing_read|done]|].
  intros m. keeps_walk ltac:(done).
Qed.
End Preparing.

(** ** While it is published *)
Section Publishing.
Variable text : string.
Variable batch : DeviceCommandBatch.
Hypothesis Hdec : decodeDeviceCommand text = Ok batch.
Hypothesis Hbatch : Forall (fun c => cmd_id c <> "" /\
  desired_version c = ev_desired_version e) (batch_commands batch).

(** What the stored entries of the batch's connections are good for. *)
Definition restartable (db : DB) : Prop :=
  Forall (fun c =>
    is_ok (currentVersion (hgetall (connectionAppKey dev (cmd_id c)) db)) = true /\
    exists s, currentStatus (hgetall (connectionAppKey dev (cmd_id c)) db) = Ok s /\
              startable s (operation c)) (batch_commands batch).

Definition stored (db : DB) : Prop :=
  hgetall prepared_key db !! "payload" = Some text /\
  Forall (fun c => is_ok (currentVersion (hgetall (connectionDeviceKey dev (cmd_id c)) db)) = true)
    (batch_commands batch).

Lemma published_ready w :
  restartable (appl_db_ w) -> stored (device_db_ w) -> attempt_ready e w.
Proof.
  intros Ha [Ht Hd]. right. exists text, batch. split; [done|]. split; [done|].
  unfold restartable in Ha. rewrite Forall_forall in Ha, Hd, Hbatch.
  apply Forall_forall. intros c Hc.
  destruct (Ha c Hc) as (Hv & s & Hs & Hstart). destruct (Hbatch c Hc).
  unfold publishable, readable, can_start, entry. split; [|by exists s].
  split; [|done]. split; [done|]. split; [by rewrite Hs|]. by apply Hd.
Qed.

Lemma restartable_stable c db : hands_off c -> restartable db -> restartable (execute c db).
Proof.
  intros [_ Hc] Hdb. eapply Forall_impl; [exact Hdb|]. intros c'.
  destruct (execute_frame c (connectionAppKey dev (cmd_id c')) db) as (_ & -> & _); [|done].
  by apply not_eq_sym, Hc.
Qed.

Lemma stored_stable c db : hands_off c -> stored db -> stored (execute c db).
Proof.
  intros [Hp Hc] [Ht Hd].
  destruct (execute_frame c prepared_key db) as (_ & Hh & _); [by apply not_eq_sym|].
  split; [by rewrite Hh|]. eapply Forall_impl; [exact Hd|]. intros c'.
  destruct (execute_frame c (connectionDeviceKey dev (cmd_id c')) db) as (_ & -> & _); [|done].
  by apply not_eq_sym, Hc.
Qed.

(** A new entry can be read, and started again. *)
Definition fresh_entry (fs : gmap string string) : Prop :=
  is_ok (currentVersion fs) = true /\
  exists s, currentStatus fs = Ok s /\ forall op, startable s op.

Lemma application_fresh command_id c op :
  is_u64 (desired_version c) -> fresh_entry (application_fields e command_id c (executing_status op)).
Proof.
  intros Hc. split.
  - unfold currentVersion.
    change (application_fields e command_id c (executing_status op) !! "desired_version")
      with (Some (to_string (desired_version c))).
    cbv beta iota. by rewrite stoull_to_string.
  - exists (executing_status op). split; [|by destruct op]. unfold currentStatus.
    change (application_fields e command_id c (executing_status op) !! "apply_status")
      with (Some (ConnectionApplyStatus.toString (executing_status op))).
    cbv beta iota. by destruct op.
Qed.

Lemma fresh_hashes I command_id :
  (forall key, keeps I (get_hash oracle LogicalDb.kAppl key) (fun _ => True)) ->
  keeps I (mapM (start_application oracle e command_id) (batch_commands batch))
    (Forall (fun h => fresh_entry h.2)).
Proof.
  intros Hread. apply keeps_mapM. intros c Hc. unfold start_application.
  apply keeps_seq; [apply Hread|]. intros existing.
  apply (keeps_bind _ _ _ (fun s => s = executing_status (operation c))).
  { apply keeps_lift. intros s (current & _ & Hs)%result_bind_Ok. by eapply transition_executes. }
  intros s ->. apply keeps_ret. apply application_fresh.
  rewrite Forall_forall in Hbatch. by destruct (Hbatch c Hc) as [_ ->].
Qed.

Lemma keyed_fresh key hashes k fs :
  Forall (fun h => fresh_entry h.2) hashes -> (k, fs) ∈ keyed key e hashes -> fresh_entry fs.
Proof.
  intros Hf Hin. unfold keyed in Hin. apply list_elem_of_fmap in Hin as ([id fs'] & Heq & Hin).
  apply pair_eq in Heq as [_ ->]. rewrite Forall_forall in Hf. by apply (Hf (id, fs')).
Qed.

(** After a publication the entry of a connection is the old one or a new one. *)
Lemma published_entry key marker mf hashes css v (db : DB) k :
  mapM (versioned_cmds v db) (keyed key e hashes) = Ok css -> marker <> k ->
  Forall (fun h => fresh_entry h.2) hashes ->
  let db' := run_cmds (concat css ++ [HMSET marker (sorted_items mf)]) db in
  hgetall k db' = hgetall k db \/ fresh_entry (hgetall k db').
Proof.
  intros Hcss Hm Hf. cbv zeta. rewrite run_cmds_app.
  destruct (run_cmds_frame [HMSET marker (sorted_items mf)] k (run_cmds (concat css) db))
    as (_ & -> & _); [by intros ?%list_elem_of_singleton|].
  destruct (versioned_last _ _ _ _ k db Hcss) as [->|(fs & Hin & -> & _)]; [by left|right].
  by eapply keyed_fresh.
Qed.

Lemma restartable_put marker mf hashes :
  (forall id, marker <> connectionAppKey dev id) -> Forall (fun h => fresh_entry h.2) hashes ->
  keeps (holds LogicalDb.kAppl restartable)
    (put_versioned oracle LogicalDb.kAppl marker mf (keyed connectionAppKey e hashes))
    (fun _ => True).
Proof.
  intros Hm Hf. apply (keeps_put_versioned _ _ _ restartable_stable _ Hothers).
  intros db version t css Hdb _ _ _ Hcss. eapply Forall_impl; [exact Hdb|]. intros c [Hv Hs].
  destruct (published_entry connectionAppKey marker mf hashes css version db
    (connectionAppKey dev (cmd_id c)) Hcss (Hm _) Hf) as [->|(Hv' & s & Hs' & Hstart)]; [done|].
  split; [done|]. by exists s.
Qed.

Lemma stored_put marker mf hashes :
  (forall id, marker <> connectionDeviceKey dev id) -> marker <> prepared_key ->
  Forall (fun h => fresh_entry h.2) hashes ->
  keeps (holds LogicalDb.kDevice stored)
    (put_versioned oracle LogicalDb.kDevice marker mf (keyed connectionDeviceKey e hashes))
    (fun _ => True).
Proof.
  intros Hm Hmp Hf. apply (keeps_put_versioned _ _ _ stored_stable _ Hothers).
  intros db version t css [Ht Hd] _ _ _ Hcss. split.
  - destruct (run_cmds_frame (concat css ++ [HMSET marker (sorted_items mf)]) prepared_key db)
      as (_ & -> & _); [|done].
    intros (c & Hc & [Hin|Hin%list_elem_of_singleton]%elem_of_app)%list_elem_of_fmap;
      [|by subst; apply Hmp].
    apply (versioned_targets _ _ _ _ Hcss) in Hin. unfold keyed in Hin.
    apply list_elem_of_fmap in Hin as (h & Hh & Hin).
    apply list_elem_of_fmap in Hin as ([id fs] & -> & _). simpl in Hh. by rewrite Hh in Hc.
  - eapply Forall_impl; [exact Hd|]. intros c Hv.
    destruct (published_entry connectionDeviceKey marker mf hashes css version db
      (connectionDeviceKey dev (cmd_id c)) Hcss (Hm _) Hf) as [->|[Hv' _]]; done.
Qed.

Lemma stored_append marker mf ev :
  hands_off (HMSET marker (sorted_items mf)) ->
  keeps (holds LogicalDb.kDevice stored) (append_once oracle marker mf kDeviceCommands ev)
    (fun _ => True).
Proof.
  intros Hm. apply (keeps_append_once _ _ _ stored_stable _ Hothers).
  intros db Hdb _ _. eapply stable_run; [apply stored_stable| |exact Hdb].
  constructor; [by split|]. constructor; [done|constructor].
Qed.

Ltac publish_leaf :=
  lazymatch goal with
  | |- keeps _ (after_phase _ _) _ => apply (keeps_state _ _ (fun _ => True)); done
  | |- keeps _ (timestampNowNs _) _ => apply (keeps_state _ _ (fun _ => True)); [by intros []|done]
  | |- keeps (holds LogicalDb.kAppl _) (put_versioned _ LogicalDb.kAppl _ _ _) _ =>
      by apply restartable_put
  | |- keeps (holds LogicalDb.kDevice _) (put_versioned _ LogicalDb.kDevice _ _ _) _ =>
      by apply stored_put
  | |- keeps (holds LogicalDb.kDevice _) (append_once _ _ _ _ _) _ =>
      apply stored_append; by split
  | |- keeps _ (append_once _ _ _ _ _) _ => by apply keeps_call_other
  | |- keeps _ (put_versioned _ _ _ _ _) _ => by apply keeps_call_other
  end.

Lemma publish_keeps (I : World DB -> Prop) :
  I = holds LogicalDb.kAppl restartable \/ I = holds LogicalDb.kDevice stored ->
  keeps I (publish_batch oracle e batch) (fun _ => True).
Proof.
  intros HI. unfold publish_batch. cbv zeta.
  assert (forall key, keeps I (get_hash oracle LogicalDb.kAppl key) (fun _ => True)) as Hread.
  { intros key. destruct HI as [->| ->]; [|by apply keeps_call_other].
    eapply keeps_weaken; [apply (keeps_get_hash _ _ _ restartable_stable _ Hothers)|done]. }
  apply keeps_seq; [publish_leaf|]. intros _.
  eapply keeps_bind; [by apply fresh_hashes|]. intros hashes Hf.
  destruct HI as [->| ->]; keeps_walk ltac:(idtac; publish_leaf).
Qed.
End Publishing.

(** ** Every attempt, however it ends *)
Lemma attempt_keeps_ready : keeps (attempt_ready e) (publish_config oracle e) (fun _ => True).
Proof.
  intros w r w' Hready Hrun. split; [|done]. unfold publish_config in Hrun.
  assert (in_preparation w w) as Hin.
  { split; [by intros id|]. by split. }
  unfold mbind, prog_bind in Hrun.
  destruct (get_hash _ _ _ w) as [r1 w1] eqn:Hr1.
  destruct (preparing_read w _ _ _ _ Hin Hr1) as [Hin1 _].
  destruct r1 as [published|x]; [|injection Hrun as <- <-; by eapply in_preparation_ready].
  case_decide; [injection Hrun as <- <-; by eapply in_preparation_ready|].
  destruct (prepare_batch oracle e w1) as [r2 w2] eqn:Hr2.
  destruct (preparing_prepare w _ _ _ Hin1 Hr2) as [Hin2 _].
  destruct r2 as [[batch|]|x]; [|injection Hrun as <- <-; by eapply in_preparation_ready..].
  destruct (prepared_stored _ _ _ _ _ Hr2) as (text & Htext & Hdec).
  pose proof (in_preparation_ready w w2 Hin2) as [(Ht & _)|(text' & b & Htext' & Hb & Hall)].
  { assert (hgetall prepared_key (device_db_ w2) <> ∅) as Hne%type_hash; [|congruence].
    intros He. by rewrite He in Htext. }
  assert (b = batch) as -> by congruence.
  assert (Forall (fun c => cmd_id c <> "" /\ desired_version c = ev_desired_version e)
    (batch_commands batch)) as Hids.
  { eapply Forall_impl; [exact Hall|]. by intros c ((_ & ? & ?) & _). }
  apply (published_ready text batch Hdec Hids).
  - apply (publish_keeps text batch Hdec Hids _ (or_introl eq_refl) w2 r w'); [|done].
    eapply Forall_impl; [exact Hall|]. by intros c (((? & _) & _) & ?).
  - apply (publish_keeps text batch Hdec Hids _ (or_intror eq_refl) w2 r w'); [|done].
    split; [done|]. eapply Forall_impl; [exact Hall|]. by intros c (((_ & _ & ?) & _) & _).
Qed.
End Recovery.

(** The other clients leave the event alone: the device's entries, the prepared batch and
    the publication marker, and they only append to the command stream. *)
Definition off_event (e : EventEnvelope) (c : redis_cmd) : Prop :=
  hands_off e c /\ spares_command (event_id e) c.

(** One attempt at a configuration event, acknowledgement included: the other clients
    interfere, calls fail and the hook throws as the oracle says. *)
Definition attempt {J : JsonLib} {DB} {R : Redis DB} {G : RedisGroups DB}
    (message : StreamMessage) : relation (World DB) := fun w w' =>
  exists oracle r, oracle_within (off_event (event message)) oracle /\
    process_config oracle message w = (r, w').

Section Attempts.
Context {J : JsonLib} {JL : JsonLaws J} {DB : Type} {R : Redis DB} {RL : RedisLaws DB}.
Context {G : RedisGroups DB} {GL : RedisGroupLaws DB}.
Variable message : StreamMessage.
#[local] Abbreviation e := (event message).
#[local] Set Default Proof Using "Type*".

Lemma within_parts oracle :
  oracle_within (off_event e) oracle ->
  oracle_within (hands_off e) oracle /\ oracle_within (spares_command (event_id e)) oracle.
Proof. intros Ho. split; intros n i c Hc; by destruct (Ho n i c Hc). Qed.

(** An attempt is its publication, then at most a call on CONFIG_DB. *)
Lemma attempt_publication oracle (I : World DB -> Prop) :
  (forall w db, I w -> I (after_call LogicalDb.kConfig db w)) ->
  keeps I (publish_config oracle e) (fun _ => True) ->
  keeps I (process_config oracle message) (fun _ => True).
Proof using Type.
  intros Hconfig Hpub. unfold process_config, ack.
  apply keeps_seq; [done|]. intros _. apply keeps_seq; [|intros; by apply keeps_ret].
  intros w r w' Hw Hrun. unfold call in Hrun. destruct (plain _ _ _) as [r1 db].
  injection Hrun as <- <-. split; [by apply Hconfig|done].
Qed.

Lemma attempts_keep_ready (w w' : World DB) :
  is_u64 (ev_desired_version e) -> utf8 (resource_id e) ->
  rtc (attempt message) w w' -> attempt_ready e w -> attempt_ready e w'.
Proof.
  intros Hv Hid. induction 1 as [|w1 w2 w3 (oracle & r & [Ho _]%within_parts & Hrun) _ IH]; [done|].
  intros Hw. apply IH.
  destruct (attempt_publication oracle (attempt_ready e)) with
    (s := w1) (r := r) (s' := w2) as [Hw2 _]; [..|exact Hw|exact Hrun|exact Hw2].
  - by intros [].
  - by apply attempt_keeps_ready.
Qed.

Lemma attempts_keep_sent (w w' : World DB) :
  let sent := backed (orchDeviceCommandPublicationKey (event_id e)) kDeviceCommands
    (carries_batch (event_id e)) in
  rtc (attempt message) w w' -> sent (device_db_ w) -> sent (device_db_ w').
Proof.
  intros sent. induction 1 as [|w1 w2 w3 (oracle & r & [_ Ho]%within_parts & Hrun) _ IH]; [done|].
  intros Hw. apply IH.
  destruct (attempt_publication oracle (holds LogicalDb.kDevice sent)) with
    (s := w1) (r := r) (s' := w2) as [Hw2 _]; [..|exact Hw|exact Hrun|exact Hw2].
  - intros w0 db. unfold holds. by rewrite database_after_other.
  - by apply sent_config.
Qed.
End Attempts.

