(* ===== verification/OrchExamples.v ===== *)
(** * Concrete runs of the orchestrator, on the reference store and the reference JSON. *)
From S2P Require Import Prelude Redis RedisRef RedisKeys RedisRepository RedisRepositoryProps RedisOnce.
From S2P Require Import Errors Types ConnStateMachine Json JsonRef DeviceCommand.
From S2P Require Import CallLogic OrchRules Services Orchestrator OrchResults OrchSteps OrchCommands.
From S2P Require Import OrchRulesProps OrchDelivery OrchTypes.
From S2P Require Import OrchProgress OrchRecovery.
From stdpp Require Import options.

Definition orch0 : OrchConfig := mkOrchConfig 1000 default_retry_policy.

(** Nothing interferes, and the clock shows the number of calls. *)
Definition calm : Oracle :=
  mkOracle (fun _ _ => quiet) (fun n => 1700000000000000000 + Z.of_nat n)%Z (fun _ _ => Ok tt).

(** The service crashes at a phase of its work. *)
Definition crash_at (phase : string) : Oracle :=
  mkOracle (fun _ _ => quiet) (clock calm)
    (fun _ p => if decide (p = phase) then Throw (RuntimeError "crash") else Ok tt).

Definition sample_batch : DeviceCommandBatch :=
  mkBatch [mkCommand ConnectionOperation.kUpsert "c1" 1 2 5;
           mkCommand ConnectionOperation.kUpsert "c2" 3 4 5] default_options.
Definition sample_payload : string :=
  match encodeDeviceCommand sample_batch with Ok s => s | Throw _ => "" end.
Definition sample_event : EventEnvelope :=
  mkEventEnvelope 1 "E" "req-1" 1700000000000000000 "ocs0" "connection-batch" "req-1"
    "APPLY_BATCH" 5 sample_payload.
Definition start : World store :=
  mkWorld {[kConfigEvents := VStream [("1-0", eventFields sample_event)]]} ∅ ∅ ∅ ∅ ∅ 0.

Definition first_run := processConfigOne orch0 calm "w" start.
Definition crashed_run := processConfigOne orch0 (crash_at "device-state") "w" start.
Definition second_run := processConfigOne orch0 calm "w" crashed_run.2.


(** The crash comes after the states are published and before the command: the second run
    appends the command, once, and stores nothing twice. *)
Lemma crashed_run_recovers :
  first_run.1 = Ok true /\ crashed_run.1 = Throw (RuntimeError "crash") /\
  second_run.1 = Ok true /\
  length (xrange kDeviceCommands (device_db_ crashed_run.2)) = 0 /\
  length (xrange kDeviceCommands (device_db_ second_run.2)) = 1 /\
  hgetall (connectionAppKey "ocs0" "c1") (appl_db_ second_run.2) !! "apply_status"
  = Some "APPLYING".
Proof. by vm_compute. Qed.

Lemma calm_within allowed : oracle_within allowed calm.
Proof. intros n i c Hc. by apply elem_of_nil in Hc. Qed.
Lemma crash_within allowed phase : oracle_within allowed (crash_at phase).
Proof. intros n i c Hc. by apply elem_of_nil in Hc. Qed.

Lemma second_step calls_ allowed :
  (forall c, calls_ c) -> orch_step orch0 calls_ allowed crashed_run.2 second_run.2.
Proof.
  intros Hc. apply (ServiceStep _ _ _ calm (ProcessConfig "w") _ second_run.1);
    [done|apply calm_within|]. apply surjective_pairing.
Qed.

Lemma crashed_step calls_ allowed :
  (forall c, calls_ c) -> orch_step orch0 calls_ allowed start crashed_run.2.
Proof.
  intros Hc. apply (ServiceStep _ _ _ (crash_at "device-state") (ProcessConfig "w") _ crashed_run.1);
    [done|apply crash_within|]. apply surjective_pairing.
Qed.

Lemma both_runs calls_ allowed :
  (forall c, calls_ c) -> rtc (orch_step orch0 calls_ allowed) start second_run.2.
Proof.
  intros Hc. eapply rtc_l; [by apply crashed_step|by apply rtc_once, second_step].
Qed.

(** The second run starts from the version the first one stored. *)
Lemma application_version_never_decreases_witness :
  exists z', stored_version (hgetall (connectionAppKey "ocs0" "c1") (appl_db_ second_run.2)) z'
             /\ (5 <= z')%Z.
Proof.
  apply (application_version_never_decreases orch0 "ocs0" "c1" crashed_run.2 second_run.2 5).
  - by apply rtc_once, second_step.
  - exists "5". by vm_compute.
Defined.

Lemma commands_appended_once_witness :
  command_count "E" (device_db_ second_run.2)
  <= marks (orchDeviceCommandPublicationKey "E") (device_db_ second_run.2)
     + marks (orchRetryCommandPublicationKey "E") (device_db_ second_run.2).
Proof.
  apply (commands_appended_once orch0 "E" start second_run.2).
  - by apply both_runs.
  - by vm_compute.
  - by vm_compute.
Defined.

Lemma retry_delay_is_capped_backoff_witness :
  let exact := Z.min (100 * 2 ^ (7 - 1)) 5000 in
  (exact <= retry_delay 7 default_retry_policy <= exact + 1)%Z /\
  (Z.even 5000 = true -> retry_delay 7 default_retry_policy = exact) /\
  (retry_delay 7 default_retry_policy <= 5000)%Z /\
  (retry_delay 7 default_retry_policy <= retry_delay (7 + 1) default_retry_policy)%Z /\
  retryAtNs 1700000000000000000 7 default_retry_policy
  = (1700000000000000000 + retry_delay 7 default_retry_policy * 1000000)%Z.
Proof.
  apply (retry_delay_is_capped_backoff orch0 1000 default_retry_policy 1700000000000000000 7);
    [reflexivity|lia|lia|lia].
Defined.

(** ** One event, interrupted *)
Definition sample_message : StreamMessage := mkStreamMessage "1-0" sample_event.

(** A first attempt crashed between the states and the command. *)
Definition calm_publication := publish_config calm (event sample_message) crashed_run.2.


Lemma calm_undisturbed : undisturbed calm.
Proof. by split. Qed.

(** Two attempts crash, one before and one after the states are published. *)
Definition crashed_once : World store :=
  (process_config (crash_at "prepared") sample_message start).2.
Definition crashed_twice : World store :=
  (process_config (crash_at "device-state") sample_message crashed_once).2.

Lemma start_ready : attempt_ready sample_event start.
Proof.
  left. split; [by vm_compute|]. exists sample_batch. split; [by vm_compute|].
  assert (forall i o id, id <> "" -> is_ok (currentVersion (entry start "ocs0" id)) = true ->
    is_ok (currentVersion (hgetall (connectionDeviceKey "ocs0" id) (device_db_ start))) = true ->
    currentStatus (entry start "ocs0" id) = Ok ConnectionApplyStatus.kAbsent ->
    selectable sample_event start (mkCommand ConnectionOperation.kUpsert id i o 5)) as Hone.
  { intros i o id Hid Hv Hd Hs. split; [split; [|by split]|split; [by intros H|left]].
    - split; [exact Hv|split; [|exact Hd]].
      change (is_ok (currentStatus (entry start "ocs0" id)) = true). by rewrite Hs.
    - exists ConnectionApplyStatus.kAbsent. split; [exact Hs|done]. }
  apply Forall_cons; split; [apply Hone; by vm_compute|].
  apply Forall_cons; split; [apply Hone; by vm_compute|apply Forall_nil; exact Logic.I].
Qed.


(** ** Well-formed entries *)
Lemma start_typed : typed start.
Proof. split; intros k; (split; [intros _; apply entry_ok_empty|by intros _ text]). Qed.

Lemma stored_entries_are_well_formed_witness :
  entry_ok (hgetall (connectionAppKey "ocs0" "c1") (appl_db_ second_run.2)) /\
  entry_ok (hgetall (connectionDeviceKey "ocs0" "c1") (device_db_ second_run.2)).
Proof.
  apply (stored_entries_are_well_formed orch0 "ocs0" "c1" start second_run.2).
  - by apply both_runs.
  - apply start_typed.
Defined.

(** ** A retry *)
Lemma retry_payload_roundtrip_witness :
  exists text payload,
    retryPayload sample_batch "E:command" 2 1700000000100000000 = Ok text /\
    parse text = Ok payload /\ retryBatch payload = Ok sample_batch /\
    (json_at payload "failed_command_id" ≫= get_string) = Ok "E:command" /\
    (json_at payload "retry_attempt" ≫= get_u64) = Ok 2%Z /\
    (json_at payload "not_before_ns" ≫= get_u64) = Ok 1700000000100000000%Z.
Proof.
  apply (retry_payload_roundtrip sample_payload sample_batch "E:command" 2 1700000000100000000).
  - by vm_compute.
  - apply utf8_ascii, (bool_decide_unpack _). by vm_compute.
  - vm_compute; split; [discriminate|reflexivity].
  - vm_compute; split; [discriminate|reflexivity].
Defined.

(** ** A version gap whose snapshot is newer than the event

    APPL_DB has version 2 of the connection, the event announces version 5, and CONFIG_DB
    already has version 7. *)
Definition gap_event : EventEnvelope :=
  mkEventEnvelope 1 "G" "req-2" 1700000000000000000 "ocs0" "connection" "c1" "REMOVE" 5 "{}".
Definition gap_message : StreamMessage := mkStreamMessage "2-0" gap_event.
Definition gap_start : World store :=
  mkWorld
    {[connectionConfigKey "ocs0" "c1" :=
        VHash {["desired_version" := "7"; "input_port" := "1"; "output_port" := "2"]}]}
    {[connectionAppKey "ocs0" "c1" :=
        VHash {["desired_version" := "2"; "apply_status" := "ACTIVE"]}]} ∅ ∅ ∅ ∅ 0.
Definition gap_first := process_config calm gap_message gap_start.

Lemma gap_is_refused :
  gap_first.1
  = Throw (InvalidArgument "versioned Redis hash does not match marker desired_version").
Proof. by vm_compute. Qed.

Lemma gap_blocked : blocked gap_event gap_first.2.
Proof.
  split; [|by vm_compute].
  eexists _, _. split; [by vm_compute|]. split; [by vm_compute|]. split; [|by vm_compute].
  left. split; [vm_compute; split; [discriminate|reflexivity]|by vm_compute].
Qed.

Lemma newer_snapshot_blocks_witness :
  exists x w', process_config calm gap_message gap_first.2 = (Throw x, w') /\
    blocked gap_event w' /\
    forall l, exists cs, Forall (by_others calm) cs /\
      database l w' = run_cmds cs (database l gap_first.2).
Proof.
  apply (newer_snapshot_blocks calm gap_message gap_first.2).
  - vm_compute; split; [discriminate|reflexivity].
  - apply calm_within.
  - apply gap_blocked.
Defined.
