(* ===== verification/SyncdRules.v ===== *)
(** * The rules of syncd: the free functions of syncd_service.cpp.

    They encode results and states and read snapshots; Syncd.v has the service. *)
From S2P Require Import Prelude Errors Types RedisRepository Json.
From stdpp Require Import options.

Definition kConsumerGroup : string := "ocs-syncd".
Definition kFaultConsumerGroup : string := "ocs-syncd-faults".

(** [s.ends_with(p)], with the text before the suffix *)
Fixpoint strip_suffix (p s : string) : option string :=
  if decide (s = p) then Some ""
  else match s with
       | EmptyString => None
       | String c s' => before ← strip_suffix p s'; Some (String c before)
       end.

Definition isGenerationRecovery (command_id : string) : bool :=
  starts_with "hwsim-recovery:" command_id.
Definition isReconciliation (command_id : string) : bool := starts_with "reconcile:" command_id.

Definition snapshotPort (snapshot : gmap string string) (field : string) : result PortId :=
  match snapshot !! field with
  | None => Throw (InvalidArgument ("device connection snapshot is missing " +:+ field))
  | Some value =>
      parsed ← stoull value;
      if decide (parsed = 0 \/ 2 ^ 16 - 1 < parsed)%Z then
        Throw (InvalidArgument ("device connection snapshot has invalid " +:+ field))
      else Ok (u16 parsed)
  end.

(** ** Ports *)
Definition portDirectionName (direction : PortDirection.t) : string :=
  match direction with PortDirection.kInput => "input" | PortDirection.kOutput => "output" end.

Definition portResourceType (direction : PortDirection.t) : string :=
  match direction with
  | PortDirection.kInput => "input-port"
  | PortDirection.kOutput => "output-port"
  end.

Definition portOperStatusName (status : PortOperStatus.t) : string :=
  match status with
  | PortOperStatus.kUp => "UP"
  | PortOperStatus.kDown => "DOWN"
  | PortOperStatus.kLowPower => "LOW_POWER"
  | PortOperStatus.kFault => "FAULT"
  | PortOperStatus.kUnknown => "UNKNOWN"
  end.

Definition portUnavailable (port : PortState) : bool :=
  negb (admin_enabled port) || negb (bool_decide (oper_status port = PortOperStatus.kUp)).

Definition managedFaultType (value : string) : result FaultType.t :=
  if decide (value = "NEXT_APPLY_ERROR") then Ok FaultType.kNextApplyError
  else if decide (value = "NEXT_APPLY_TIMEOUT") then Ok FaultType.kNextApplyTimeout
  else if decide (value = "INPUT_PORT_DOWN") then Ok FaultType.kInputPortDown
  else if decide (value = "OUTPUT_PORT_DOWN") then Ok FaultType.kOutputPortDown
  else if decide (value = "ALL") then Ok FaultType.kAll
  else Throw (InvalidArgument "unsupported managed fault type").

(** ** Payloads *)
Section Payloads.
Context {J : JsonLib}.

Definition resultPayload (r : ApplyResult) (command_id : string) : result string :=
  dump (json_object
    [("success", json_bool (apply_ok r));
     ("error_code", json_string (ErrorCode.toString (code (apply_error r))));
     ("error_message", json_string (message (apply_error r)));
     ("command_id", json_string command_id)]).

Definition durable_connection (c : AppliedConnection) : Json :=
  json_object
    [("id", json_string (app_id c));
     ("input_port", json_uint (app_input_port c));
     ("output_port", json_uint (app_output_port c));
     ("applied_version", json_uint (applied_version c))].

Definition durable_json (r : ApplyResult) : Json :=
  json_object
    [("success", json_bool (apply_ok r));
     ("error_code", json_string (ErrorCode.toString (code (apply_error r))));
     ("error_message", json_string (message (apply_error r)));
     ("connections", json_array (durable_connection <$> apply_connections r))].

Definition durableResultPayload (r : ApplyResult) : result string := dump (durable_json r).

Definition decode_durable_connection (connection : Json) : result AppliedConnection :=
  id ← json_at connection "id" ≫= get_string;
  input ← json_at connection "input_port" ≫= get_u16;
  output ← json_at connection "output_port" ≫= get_u16;
  version ← json_at connection "applied_version" ≫= get_u64;
  Ok (mkApplied id input output version).

Definition decode_durable (value : Json) : result ApplyResult :=
  error_code ← json_at value "error_code" ≫= get_string;
  error_message ← json_at value "error_message" ≫= get_string;
  list ← json_at value "connections";
  connections ← mapM decode_durable_connection (elements list);
  Ok (mkApplyResult (mkError (ErrorCode.errorCodeFromString error_code) error_message)
        connections).

Definition decodeDurableResult (payload : string) : result ApplyResult :=
  parse payload ≫= decode_durable.

Definition statePayload (fs : gmap string string) : result string :=
  dump (json_object ((fun kv => (kv.1, json_string kv.2)) <$> sorted_items fs)).
End Payloads.
