(* ===== verification/Syncd.v ===== *)
(** * The syncd service: its state, fault commands and how a command is applied
    (src/syncd_service.cpp, include/ocs/syncd_service.hpp).

    The service keeps the name and the generation of the device it last spoke to; the rest
    of its state is the databases and the device itself, which others may change between
    two calls.  SyncdPublish.v has what follows the apply. *)
From S2P Require Import Prelude Redis RedisKeys RedisRepository Services.
From S2P Require Import DeviceApi Errors Types Reconciler Json DeviceCommand SyncdRules.
From stdpp Require Import options.

Record Syncd (DB D : Type) := mkSyncd {
  stores : World DB;
  device_ : D;
  device_name_ : string;
  device_generation_ : Z;
}.
Arguments mkSyncd {DB D}. Arguments stores {DB D}. Arguments device_ {DB D}.
Arguments device_name_ {DB D}. Arguments device_generation_ {DB D}.

(** The constructor: the device pointer may be null. *)
Definition SyncdService_make {DB D} (w : World DB) (device : option D) (pending_min_idle : Z)
    : result (Syncd DB D) :=
  match device with
  | None => Throw (InvalidArgument "syncd device backend must not be null")
  | Some d =>
      if decide (pending_min_idle < 0)%Z then
        Throw (InvalidArgument "syncd pending minimum idle time must not be negative")
      else Ok (mkSyncd w d "" 0)
  end.

(** What surrounds the service: the stores' oracle, what happens to the device before a
    call, the steady clock in nanoseconds, the test hook [before_ack], and the replies to
    SCAN with a pattern (or a lost connection), each by the number of calls made so far; and
    the order in which an [std::unordered_map] is iterated. *)
Record SyncdOracle (D : Type) := mkSyncdOracle {
  store_oracle : Oracle;
  device_events : nat -> D -> D;
  steady_clock : nat -> Z;
  before_ack_hook : nat -> result unit;
  scans : nat -> string -> result (nat -> Z -> Z * list string);
  bucket_order : gmap string AppliedConnection -> list (string * AppliedConnection);
}.
Arguments mkSyncdOracle {D}. Arguments store_oracle {D}. Arguments device_events {D}.
Arguments steady_clock {D}. Arguments before_ack_hook {D}. Arguments scans {D}. Arguments bucket_order {D}.

Section Service.
Context {J : JsonLib} {DB : Type} {R : Redis DB} {G : RedisGroups DB}.
Context {D : Type} {API : OcsDeviceApi D}.
Variable pending_min_idle_ : Z.     (* milliseconds *)
Variable oracle : SyncdOracle D.

(** ** Calls *)
Definition on_stores {A} (m : prog (World DB) A) : prog (Syncd DB D) A := fun s =>
  let 'mkSyncd w d name generation := s in
  let '(r, w') := m w in (r, mkSyncd w' d name generation).

(** A device call.  None of the calls the service makes runs forever (only [reset] can,
    see SimDeviceFaults.v); one that did would be an exception here. *)
Definition on_device {A} (m : DeviceApi.call D A) : prog (Syncd DB D) A := fun s =>
  let 'mkSyncd w d name generation := s in
  let d1 := device_events oracle (calls w) d in
  match m d1 with
  | Some (r, d2) => (r, mkSyncd (tick w) d2 name generation)
  | None => (Throw (RuntimeError "the device call did not return"),
             mkSyncd (tick w) d1 name generation)
  end.

Definition set_identity (name : string) (generation : Z) : prog (Syncd DB D) unit :=
  modify (fun s => mkSyncd (stores s) (device_ s) name generation).

Definition steady_now : prog (Syncd DB D) Z := fun s =>
  (Ok (steady_clock oracle (calls (stores s))),
   mkSyncd (tick (stores s)) (device_ s) (device_name_ s) (device_generation_ s)).

Definition before_ack : prog (Syncd DB D) unit := fun s =>
  (before_ack_hook oracle (calls (stores s)), s).

Definition get (l : LogicalDb.t) (key : string) : prog (Syncd DB D) (gmap string string) :=
  on_stores (get_hash (store_oracle oracle) l key).
Definition update {A} (l : LogicalDb.t) (op : (nat -> interference) -> prog DB A)
    : prog (Syncd DB D) A := on_stores (Services.call (store_oracle oracle) l op).
Definition put (l : LogicalDb.t) (key : string) (fs : gmap string string)
    : prog (Syncd DB D) unit := update l (plain (putHash key fs Replied)).
Definition now_ns : prog (Syncd DB D) Z := on_stores (timestampNowNs (store_oracle oracle)).
Definition phase (name : string) : prog (Syncd DB D) unit :=
  on_stores (after_phase (store_oracle oracle) name).

(** [scanKeys] with its default bound of 4096 keys *)
Definition scan_keys (l : LogicalDb.t) (pattern : string) : prog (Syncd DB D) (list string) :=
  on_stores (fun w => (scan ← scans oracle (calls w) pattern; scanKeys scan pattern (Z.to_nat 4096),
                       tick w)).

(** ** processFaultOne *)
Definition decode_fault (e : EventEnvelope) : result (string * FaultSpec) :=
  if decide (resource_type e <> "fault"
             \/ (ev_operation e <> "INJECT" /\ ev_operation e <> "CLEAR")) then
    Throw (InvalidArgument "invalid fault command envelope")
  else
    payload ← parse (ev_payload e);
    operation ← json_at payload "operation" ≫= get_string;
    if decide (operation <> ev_operation e) then
      Throw (InvalidArgument "fault payload operation does not match envelope")
    else
      name ← json_at payload "fault_type" ≫= get_string;
      type ← managedFaultType name;
      raw_port ← json_at payload "port_id" ≫= get_u64;
      if decide (2 ^ 16 - 1 < raw_port)%Z then
        Throw (InvalidArgument "fault port is outside the supported range")
      else if decide ((type = FaultType.kInputPortDown \/ type = FaultType.kOutputPortDown)
                      /\ raw_port = 0%Z) then
        Throw (InvalidArgument "port fault requires a positive port")
      else if decide (type = FaultType.kAll /\ operation <> "CLEAR") then
        Throw (InvalidArgument "ALL is only valid for clear")
      else Ok (operation, mkFaultSpec type (u16 raw_port)).

Definition run_fault (e : EventEnvelope) : prog (Syncd DB D) FaultResult :=
  decoded ← lift (decode_fault e);
  let '(operation, fault) := decoded in
  info ← on_device api_getDeviceInfo;
  if decide (info_name info <> ev_device e) then
    mret (mkFaultResult (mkError ErrorCode.kDeviceNotReady
            "fault device does not match the connected backend"))
  else if decide (operation = "INJECT") then on_device (api_injectFault fault)
  else on_device (api_clearFault (mkFaultSelector (fault_type fault) (fault_port fault))).

(** The three [catch] clauses *)
Definition fault_exception (e : exn) : Error :=
  match e with
  | JsonError m => mkError ErrorCode.kProtocolMalformed m
  | InvalidArgument m => mkError ErrorCode.kInvalidArgument m
  | e => mkError ErrorCode.kDeviceNotReady (what e)
  end.

Definition fault_result_fields (e : EventEnvelope) (error : Error) (now : Z)
    : gmap string string :=
  {["command_id" := event_id e; "device" := ev_device e;
    "success" := if error_ok error then "true" else "false";
    "error_code" := ErrorCode.toString (code error);
    "error_message" := message error;
    "completed_at_ns" := to_string now]}.

Definition acknowledge_on (stream group : string) (id : string) (failure : string)
    : prog (Syncd DB D) unit :=
  acknowledged ← update LogicalDb.kDevice (plain (RedisRepository.acknowledge stream group id));
  if decide (acknowledged <> 1%Z) then throw (RuntimeError failure) else mret tt.

Definition process_fault (message : StreamMessage) : prog (Syncd DB D) unit :=
  let e := event message in
  stored ← get LogicalDb.kDevice (faultResultKey (event_id e));
  (if decide (stored = ∅) then
     r ← try_catch (run_fault e) (fun error => mret (mkFaultResult (fault_exception error)));
     now ← now_ns;
     update LogicalDb.kDevice (putHashIfAbsent (faultResultKey (event_id e))
       (fault_result_fields e (fault_error r) now)) ;;
     mret tt
   else mret tt) ;;
  acknowledge_on kFaultCommands kFaultConsumerGroup (message_id message)
    "syncd failed to acknowledge processed fault command".

Definition processFaultOne (consumer : string) : prog (Syncd DB D) bool :=
  message ← on_stores (next_message (store_oracle oracle) LogicalDb.kDevice kFaultCommands
    kFaultConsumerGroup consumer pending_min_idle_);
  match message with
  | None => mret false
  | Some message => process_fault message ;; mret true
  end.

(** ** What a failed apply left on the device *)
Definition port_up (p : PortState) : bool :=
  admin_enabled p && bool_decide (oper_status p = PortOperStatus.kUp).

(** One command: [None] when the device does not confirm it, else what it contributes to
    the confirmed connections. *)
Definition confirm_command (actual_by_id : gmap string AppliedConnection)
    (command : ConnectionCommand) : prog (Syncd DB D) (option (list AppliedConnection)) :=
  match operation command, actual_by_id !! cmd_id command with
  | ConnectionOperation.kRemove, None => mret (Some [])
  | ConnectionOperation.kRemove, Some _ => mret None
  | ConnectionOperation.kUpsert, None => mret None
  | ConnectionOperation.kUpsert, Some found =>
      if negb (same_connection command found) then mret None
      else
        input ← on_device (api_getInputPortState (cmd_input_port command));
        output ← on_device (api_getOutputPortState (cmd_output_port command));
        mret (if port_up input && port_up output then Some [found] else None)
  end.

Definition confirmAppliedResult (batch : DeviceCommandBatch) (r : ApplyResult)
    : prog (Syncd DB D) ApplyResult :=
  if apply_ok r || bool_decide (batch_commands batch = []) then mret r
  else
    try_catch
      (actual ← on_device api_getConnections;
       confirmed ← collect_all (confirm_command (index_by_id actual)) (batch_commands batch);
       match confirmed with
       | None => mret r
       | Some confirmed => mret (mkApplyResult success (concat confirmed))
       end)
      (fun _ => mret r).

(** ** Applying a command *)
Definition failed_apply (code : ErrorCode.t) (text : string) : ApplyResult :=
  mkApplyResult (mkError code text) [].

(** The two nested [try] blocks: whether the apply was attempted, and its result. *)
Definition apply_on_device (e : EventEnvelope) (batch : DeviceCommandBatch)
    : prog (Syncd DB D) (bool * ApplyResult) :=
  try_catch
    (info ← on_device api_getDeviceInfo;
     set_identity (info_name info) (generation info) ;;
     if decide (info_name info <> ev_device e) then
       mret (false, failed_apply ErrorCode.kDeviceNotReady
                      "command device does not match the connected device backend")
     else
       r ← try_catch
             (on_device (api_applyConnections (batch_commands batch) (batch_options batch)))
             (fun error => mret (failed_apply ErrorCode.kProtocolMalformed (what error)));
       mret (true, r))
    (fun error => mret (false, failed_apply ErrorCode.kDeviceNotReady (what error))).

Definition attempt_fields (e : EventEnvelope) (now : Z) (payload : string)
    : gmap string string :=
  {["command_id" := event_id e; "device" := ev_device e;
    "started_at_ns" := to_string now; "payload" := payload]}.

Definition result_fields (payload : string) (latency_ms : Z) : gmap string string :=
  {["payload" := payload; "latency_ms" := to_string latency_ms]}.

(** From the attempt record to the durable result. *)
Definition run_attempt (e : EventEnvelope) (batch : DeviceCommandBatch)
    : prog (Syncd DB D) (gmap string string) :=
  now ← now_ns;
  payload ← lift (encodeDeviceCommand batch);
  update LogicalDb.kDevice (putHashIfAbsent (deviceApplyAttemptKey (event_id e))
    (attempt_fields e now payload)) ;;
  apply_started ← steady_now;
  applied ← apply_on_device e batch;
  let '(apply_attempted, r) := applied in
  r ← (if apply_attempted && negb (apply_ok r) then confirmAppliedResult batch r else mret r);
  phase "device-apply" ;;
  finished ← steady_now;
  let latency_ms := Z.quot (Z.quot (finished - apply_started) 1000 + 999) 1000 in
  payload ← lift (durableResultPayload r);
  put LogicalDb.kDevice (deviceApplyResultKey (event_id e)) (result_fields payload latency_ms) ;;
  get LogicalDb.kDevice (deviceApplyResultKey (event_id e)).

(** ** Decoding a command *)

(** The batch another component stored before it published the command, if any. *)
Definition recoverPreparedBatch (e : EventEnvelope) : prog (Syncd DB D) DeviceCommandBatch :=
  match strip_suffix ":command" (event_id e) with
  | None => mret (mkBatch [] default_options)
  | Some config_event_id =>
      prepared ← get LogicalDb.kDevice (orchConfigBatchKey config_event_id);
      match prepared !! "payload" with
      | None => mret (mkBatch [] default_options)
      | Some payload => lift (decodeDeviceCommand payload)
      end
  end.

Definition with_operation_id (id : string) (batch : DeviceCommandBatch) : DeviceCommandBatch :=
  mkBatch (batch_commands batch)
    (mkOptions (opt_atomic (batch_options batch)) (opt_timeout (batch_options batch)) id).

(** A payload that does not decode gets its durable result at once. *)
Definition decode_command (e : EventEnvelope) : prog (Syncd DB D) DeviceCommandBatch :=
  match decodeDeviceCommand (ev_payload e) with
  | Ok batch => mret (with_operation_id (event_id e) batch)
  | Throw error =>
      batch ← try_catch (recoverPreparedBatch e) (fun _ => mret (mkBatch [] default_options));
      payload ← lift (durableResultPayload
                        (failed_apply ErrorCode.kProtocolMalformed (what error)));
      put LogicalDb.kDevice (deviceApplyResultKey (event_id e)) (result_fields payload 0) ;;
      mret batch
  end.

(** ** Versions *)

(** Whether the stored version of a connection, of this generation, is at least the
    command's. *)
Definition version_known (generation : Z) (command : ConnectionCommand)
    (version : gmap string string) : result bool :=
  match version !! "last_successful_version", version !! "device_generation" with
  | Some last, Some stored =>
      stored ← stoull stored;
      if decide (stored = generation) then
        last ← stoull last; Ok (bool_decide (desired_version command <= last)%Z)
      else Ok false
  | _, _ => Ok false
  end.

Definition known (e : EventEnvelope) (command : ConnectionCommand) : prog (Syncd DB D) bool :=
  version ← get LogicalDb.kDevice (syncdConnectionVersionKey (ev_device e) (cmd_id command));
  generation ← gets device_generation_;
  lift (version_known generation command version).

Definition isStaleVersion (e : EventEnvelope) (batch : DeviceCommandBatch)
    : prog (Syncd DB D) bool :=
  if isGenerationRecovery (event_id e) || isReconciliation (event_id e) then mret false
  else all_of (known e) (batch_commands batch).

Definition isAlreadyProcessed (e : EventEnvelope) : prog (Syncd DB D) bool :=
  processed ← get LogicalDb.kDevice (processedDeviceCommandKey (event_id e));
  mret (bool_decide (processed <> ∅)).

(** The durable result of a command; [None] when it is stale. *)
Definition durable_result (e : EventEnvelope) (batch : DeviceCommandBatch)
    : prog (Syncd DB D) (option (gmap string string)) :=
  stored ← get LogicalDb.kDevice (deviceApplyResultKey (event_id e));
  if decide (stored <> ∅) then mret (Some stored)
  else
    attempt ← get LogicalDb.kDevice (deviceApplyAttemptKey (event_id e));
    stale ← (if decide (attempt <> ∅) then mret false else isStaleVersion e batch);
    if stale : bool then mret None
    else stored ← run_attempt e batch; mret (Some stored).
End Service.
