(* ===== verification/SyncdPublish.v ===== *)
(** * Publishing the outcome of a command (src/syncd_service.cpp): the state of each
    connection, counters, results, versions, and the whole of processOne. *)
From S2P Require Import Prelude Redis RedisKeys RedisRepository Services.
From S2P Require Import DeviceApi Errors Types Json DeviceCommand SyncdRules Syncd.
From stdpp Require Import options.

(** ** Tests on hashes *)
Definition has (m : gmap string string) (field value : string) : bool :=
  bool_decide (m !! field = Some value).

Definition was_active (previous : gmap string string) : bool :=
  match previous !! "actual_present" with
  | Some present => bool_decide (present = "true")
  | None => match previous !! "applied_version" with
            | Some version => bool_decide (version <> "0")
            | None => false
            end
  end.

(** [a && b], where a conversion in either may throw *)
Definition and_also (a b : result bool) : result bool := x ← a; if x : bool then b else Ok false.

Definition has_port (m : gmap string string) (field : string) (value : Z) : result bool :=
  match m !! field with
  | None => Ok false
  | Some _ => port ← snapshotPort m field; Ok (bool_decide (port = value))
  end.

Definition has_version (m : gmap string string) (field : string) (value : Z) : result bool :=
  match m !! field with
  | None => Ok false
  | Some text => version ← stoull text; Ok (bool_decide (version = value))
  end.

(** The device answered PORT_DOWN, but the connection is in place and active. *)
Definition preserve_confirmed_port_state (r : ApplyResult) (c : ConnectionCommand)
    (previous : gmap string string) : result bool :=
  and_also (Ok (bool_decide (code (apply_error r) = ErrorCode.kPortDown)
                && bool_decide (operation c = ConnectionOperation.kUpsert)
                && was_active previous && has previous "apply_status" "ACTIVE"))
  (and_also (has_port previous "input_port" (cmd_input_port c))
  (and_also (has_port previous "output_port" (cmd_output_port c))
  (and_also (has_version previous "desired_version" (desired_version c))
            (has_version previous "applied_version" (desired_version c))))).

Definition superseded (c : ConnectionCommand) (previous : gmap string string) : result bool :=
  match previous !! "desired_version" with
  | None => Ok false
  | Some text => version ← stoull text; Ok (bool_decide (desired_version c < version)%Z)
  end.

(** ** The state after a command *)
Definition failed_state (e : EventEnvelope) (c : ConnectionCommand) (error : Error)
    (state : gmap string string) : gmap string string :=
  let state := if decide (state = ∅) then
      {["device" := ev_device e; "id" := cmd_id c;
        "input_port" := to_string (cmd_input_port c);
        "output_port" := to_string (cmd_output_port c);
        "applied_version" := "0"; "actual_present" := "false"]}
    else state in
  <["last_error_message" := message error]>
  (<["last_error_code" := ErrorCode.toString (code error)]>
  (<["apply_status" := "FAILED"]>
  (<["desired_version" := to_string (desired_version c)]> state))).

Definition applied_state (e : EventEnvelope) (c : ConnectionCommand) (version : Z)
    (error : Error) : gmap string string :=
  {["device" := ev_device e; "id" := cmd_id c;
    "input_port" := to_string (cmd_input_port c);
    "output_port" := to_string (cmd_output_port c);
    "desired_version" := to_string (desired_version c);
    "applied_version" := to_string version;
    "actual_present" := "true"; "apply_status" := "ACTIVE";
    "last_error_code" := ErrorCode.toString (code error);
    "last_error_message" := message error]}.

Definition publication_fields (e : EventEnvelope) (c : ConnectionCommand) (delta : Z)
    : gmap string string :=
  {["command_id" := event_id e; "connection_id" := cmd_id c; "active_delta" := to_string delta]}.

Definition is_active_after (r : ApplyResult) (c : ConnectionCommand) (was : bool) : bool :=
  if apply_ok r then bool_decide (operation c <> ConnectionOperation.kRemove) else was.

Definition command_delta (before after : bool) : Z :=
  if decide (before = after) then 0%Z else if after then 1%Z else (-1)%Z.

Definition counter_increments (r : ApplyResult) (active_delta : Z) : gmap string Z :=
  let increments : gmap string Z :=
    {["device_apply_total" := 1%Z;
      (if apply_ok r then "device_apply_success_total" else "device_apply_failure_total") := 1%Z;
      "active_connections" := active_delta]} in
  if decide (code (apply_error r) = ErrorCode.kApplyTimeout) then
    <["device_apply_timeout_total" := 1%Z]> increments
  else increments.

Section Publish.
Context {J : JsonLib} {DB : Type} {R : Redis DB} {G : RedisGroups DB}.
Context {D : Type} {API : OcsDeviceApi D}.
Variable pending_min_idle_ : Z.
Variable oracle : SyncdOracle D.
#[local] Abbreviation get := (get (DB:=DB) oracle).
#[local] Abbreviation update := (update (DB:=DB) oracle).
#[local] Abbreviation now_ns := (now_ns (DB:=DB) oracle).
#[local] Abbreviation phase := (phase (DB:=DB) oracle).

(** ** publishState *)
Definition published_delta (key : string) : prog (Syncd DB D) Z :=
  published ← get LogicalDb.kState key;
  lift (map_at published "active_delta" ≫= stoll).

(** The operation and the hash to publish. *)
Definition new_state (e : EventEnvelope) (r : ApplyResult) (c : ConnectionCommand)
    : prog (Syncd DB D) (string * gmap string string) :=
  if negb (apply_ok r) then
    state ← get LogicalDb.kState (connectionStateKey (ev_device e) (cmd_id c));
    mret ("UPSERT", failed_state e c (apply_error r) state)
  else if decide (operation c = ConnectionOperation.kRemove) then mret ("REMOVE", ∅)
  else
    match list_find (fun a => app_id a = cmd_id c) (apply_connections r) with
    | None => throw (RuntimeError "successful device apply omitted connection result")
    | Some (_, applied) =>
        mret ("UPSERT", applied_state e c (applied_version applied) (apply_error r))
    end.

(** A publication that changes no state: its marker only. *)
Definition publish_unchanged (e : EventEnvelope) (c : ConnectionCommand) (reason : string)
    : prog (Syncd DB D) Z :=
  let key := syncdStatePublicationKey (event_id e) (cmd_id c) in
  update LogicalDb.kState (putHashIfAbsent key (<[reason := "true"]> (publication_fields e c 0))) ;;
  published_delta key.

Definition publish_changed (e : EventEnvelope) (r : ApplyResult) (c : ConnectionCommand)
    (was : bool) : prog (Syncd DB D) Z :=
  let key := syncdStatePublicationKey (event_id e) (cmd_id c) in
  changed ← new_state e r c;
  now ← now_ns;
  payload ← lift (statePayload changed.2);
  let delta := command_delta was (is_active_after r c was) in
  published_now ← update LogicalDb.kState
    (replaceHashAndAppendEventOnce key (publication_fields e c delta)
       (connectionStateKey (ev_device e) (cmd_id c)) changed.2 kStateEvents
       (mkEventEnvelope 1 (event_id e +:+ ":state:" +:+ cmd_id c) (request_id e) now
          (ev_device e) "connection" (cmd_id c) changed.1 (desired_version c) payload));
  if published_now : bool then mret delta else published_delta key.

(** The body of the loop: by how much the command changed the active connections. *)
Definition publish_command_state (e : EventEnvelope) (r : ApplyResult) (c : ConnectionCommand)
    : prog (Syncd DB D) Z :=
  published ← get LogicalDb.kState (syncdStatePublicationKey (event_id e) (cmd_id c));
  if decide (published <> ∅) then lift (map_at published "active_delta" ≫= stoll)
  else
    previous ← get LogicalDb.kState (connectionStateKey (ev_device e) (cmd_id c));
    newer ← lift (superseded c previous);
    if newer : bool then publish_unchanged e c "superseded"
    else
      preserve ← lift (preserve_confirmed_port_state r c previous);
      if preserve : bool then publish_unchanged e c "confirmed_unchanged"
      else publish_changed e r c (was_active previous).

Definition publishState (e : EventEnvelope) (batch : DeviceCommandBatch) (r : ApplyResult)
    : prog (Syncd DB D) Z :=
  deltas ← mapM (publish_command_state e r) (batch_commands batch);
  mret (foldr Z.add 0%Z deltas).

(** ** publishResult *)
Definition publish_batch_result (e : EventEnvelope) (r : ApplyResult) : prog (Syncd DB D) unit :=
  now ← now_ns;
  payload ← lift (resultPayload r (event_id e));
  update LogicalDb.kDevice
    (appendEventOnce (syncdResultPublicationKey (event_id e) (resource_id e))
       {["command_id" := event_id e; "connection_id" := resource_id e]} kDeviceResults
       (mkEventEnvelope 1 (event_id e +:+ ":result") (request_id e) now (ev_device e)
          (resource_type e) (resource_id e) "APPLY_RESULT" (ev_desired_version e) payload)) ;;
  mret tt.

Definition command_result (r : ApplyResult) (c : ConnectionCommand)
    (publication : gmap string string) : ApplyResult :=
  if has publication "confirmed_unchanged" "true" then
    mkApplyResult success
      [mkApplied (cmd_id c) (cmd_input_port c) (cmd_output_port c) (desired_version c)]
  else r.

Definition publish_command_result (e : EventEnvelope) (r : ApplyResult) (c : ConnectionCommand)
    : prog (Syncd DB D) unit :=
  publication ← get LogicalDb.kState (syncdStatePublicationKey (event_id e) (cmd_id c));
  now ← now_ns;
  payload ← lift (resultPayload (command_result r c publication) (event_id e));
  update LogicalDb.kDevice
    (appendEventOnce (syncdResultPublicationKey (event_id e) (cmd_id c))
       {["command_id" := event_id e; "connection_id" := cmd_id c]} kDeviceResults
       (mkEventEnvelope 1 (event_id e +:+ ":result:" +:+ cmd_id c) (request_id e) now
          (ev_device e) "connection" (cmd_id c) "APPLY_RESULT" (desired_version c) payload)) ;;
  mret tt.

Definition publishResult (e : EventEnvelope) (batch : DeviceCommandBatch) (r : ApplyResult)
    : prog (Syncd DB D) unit :=
  match batch_commands batch with
  | [] => publish_batch_result e r
  | commands => for_each (publish_command_result e r) commands
  end.

(** ** markProcessed *)
Definition processed_fields (e : EventEnvelope) (now : Z) (applied : bool) : gmap string string :=
  {["command_id" := event_id e; "device" := ev_device e; "resource_id" := resource_id e;
    "desired_version" := to_string (ev_desired_version e);
    "processed_at_ns" := to_string now;
    "applied" := if applied then "true" else "false"]}.

Definition version_fields (e : EventEnvelope) (c : ConnectionCommand) (generation : Z)
    : gmap string string :=
  {["last_successful_version" := to_string (desired_version c);
    "last_command_id" := event_id e;
    "device_generation" := to_string generation;
    "operation" := match operation c with
                   | ConnectionOperation.kRemove => "REMOVE"
                   | ConnectionOperation.kUpsert => "UPSERT"
                   end]}.

(** The version record of one command, unless a newer one is stored. *)
Definition version_update (e : EventEnvelope) (c : ConnectionCommand)
    : prog (Syncd DB D) (option (string * gmap string string)) :=
  newer ← known oracle e c;
  if newer : bool then mret None
  else
    generation ← gets device_generation_;
    mret (Some (syncdConnectionVersionKey (ev_device e) (cmd_id c),
                version_fields e c generation)).

(** [portFaults]: the stored faults of the device's ports. *)
Definition portFaults (device : string)
    : prog (Syncd DB D) (list (string * gmap string string)) :=
  keys ← scan_keys oracle LogicalDb.kDevice (syncdPortFaultPattern device);
  faults ← mapM (fun key => fields ← get LogicalDb.kDevice key; mret (key, fields)) keys;
  mret (filter (fun kf => kf.2 <> ∅) faults).

Definition recovered_fault (e : EventEnvelope) (kf : string * gmap string string)
    : prog (Syncd DB D) (option (string * gmap string string)) :=
  let '(key, fault) := kf in
  if has fault "command_id" (event_id e) then
    now ← now_ns;
    mret (Some (key, <["recovered_at_ns" := to_string now]> (<["status" := "RECOVERED"]> fault)))
  else mret None.

(** What a reconciliation command updates besides its marker and versions. *)
Definition reconciliation_updates (e : EventEnvelope) (applied : bool)
    : prog (Syncd DB D) (list (string * gmap string string)) :=
  control ← get LogicalDb.kDevice (syncdReconciliationKey (ev_device e));
  controls ← (if has control "command_id" (event_id e) then
                now ← now_ns;
                mret [(syncdReconciliationKey (ev_device e),
                       <["completed_at_ns" := to_string now]>
                       (<["status" := if applied : bool then "APPLIED" else "FAILED"]> control))]
              else mret []);
  if applied then
    update LogicalDb.kCounters
      (incrementHashFieldsOnce
         (syncdReconciliationSuccessCountersPublicationKey (event_id e))
         {["command_id" := event_id e]} (deviceCountersKey (ev_device e))
         {["reconciliation_success_total" := 1%Z]}) ;;
    faults ← portFaults (ev_device e);
    recovered ← mapM (recovered_fault e) faults;
    mret (controls ++ omap id recovered)
  else mret controls.

Definition markProcessed (e : EventEnvelope) (batch : DeviceCommandBatch) (applied : bool)
    : prog (Syncd DB D) unit :=
  now ← now_ns;
  versions ← (if applied then mapM (version_update e) (batch_commands batch) else mret []);
  updates ← (if isReconciliation (event_id e) then reconciliation_updates e applied
             else mret []);
  update LogicalDb.kDevice (plain (putHashesAtomically
    ((processedDeviceCommandKey (event_id e), processed_fields e now applied)
     :: omap id versions ++ updates) Replied)).

(** ** processOne *)
Definition acknowledge (id : string) : prog (Syncd DB D) unit :=
  acknowledge_on oracle kDeviceCommands kConsumerGroup id
    "syncd failed to acknowledge processed device command".

(** Everything that follows the durable result, up to the acknowledgement. *)
Definition publish_outcome (e : EventEnvelope) (batch : DeviceCommandBatch)
    (stored : gmap string string) : prog (Syncd DB D) unit :=
  payload ← lift (match stored !! "payload" with
                  | Some payload => Ok payload
                  | None => Throw (RuntimeError "durable device apply result is missing payload")
                  end);
  r ← lift (decodeDurableResult payload);
  phase "apply-result" ;;
  active_delta ← publishState e batch r;
  phase "state" ;;
  latency ← lift (match stored !! "latency_ms" with Some ms => stoll ms | None => Ok 0%Z end);
  update LogicalDb.kCounters
    (recordApplyCountersOnce (syncdCountersPublicationKey (event_id e))
       {["command_id" := event_id e]} (deviceCountersKey (ev_device e))
       (counter_increments r active_delta) latency) ;;
  phase "counters" ;;
  publishResult e batch r ;;
  phase "result" ;;
  markProcessed e batch (apply_ok r) ;;
  phase "processed".

(** A command up to its acknowledgement. *)
Definition handle_command (e : EventEnvelope) : prog (Syncd DB D) unit :=
  processed ← isAlreadyProcessed oracle e;
  if processed : bool then mret tt
  else
    batch ← decode_command oracle e;
    stored ← durable_result oracle e batch;
    match stored with
    | None => markProcessed e batch false
    | Some stored => publish_outcome e batch stored ;; before_ack oracle
    end.

Definition process_command (message : StreamMessage) : prog (Syncd DB D) unit :=
  handle_command (event message) ;; acknowledge (message_id message).

Definition processOne (consumer : string) : prog (Syncd DB D) bool :=
  message ← on_stores (next_message (store_oracle oracle) LogicalDb.kDevice kDeviceCommands
    kConsumerGroup consumer pending_min_idle_);
  match message with
  | None => mret false
  | Some message => process_command message ;; mret true
  end.
End Publish.
