(* ===== verification/SyncdPorts.v ===== *)
(** * Syncd and the ports of its device (src/syncd_service.cpp): the state of each port, the
    fault record of a port that is down, and its alarm.

    A fault record goes ACTIVE, then CLEARED when the port is up again, RECOVERY_PUBLISHED
    when a reconciliation command takes it, and RECOVERED when that command is applied. *)
From S2P Require Import Prelude Redis RedisKeys RedisRepository Services.
From S2P Require Import DeviceApi Errors Types Json SyncdRules Syncd SyncdPublish.
From Stdlib Require Import SpecFloat.
From stdpp Require Import options.

(** ** [std::to_string] of a double

    The format %f: six decimals, the exact value rounded to the nearest, ties to even. *)
Definition round_half_even (num den : Z) : Z :=
  let q := (num / den)%Z in
  match (2 * (num mod den) ?= den)%Z with
  | Lt => q
  | Gt => (q + 1)%Z
  | Eq => if Z.even q then q else (q + 1)%Z
  end.

(** [m * 2^e] in millionths *)
Definition millionths (m : positive) (e : Z) : Z :=
  if decide (0 <= e)%Z then (Z.pos m * 2 ^ e * 1000000)%Z
  else round_half_even (Z.pos m * 1000000) (2 ^ (- e)).

(** Six digits *)
Definition six_digits (z : Z) : string :=
  let s := to_string z in
  String.concat "" (replicate (6 - String.length s) "0") +:+ s.

Definition double_to_string (d : double) : string :=
  match d with
  | S754_zero s => (if s then "-" else "") +:+ "0.000000"
  | S754_infinity s => (if s then "-" else "") +:+ "inf"
  | S754_nan => "nan"
  | S754_finite s m e =>
      let z := millionths m e in
      (if s then "-" else "") +:+ to_string (z / 1000000) +:+ "." +:+ six_digits (z mod 1000000)
  end.

Example minus_three_text : double_to_string minus_three = "-3.000000".
Proof. reflexivity. Qed.
(** 0.1 is a little more than a tenth. *)
Example tenth_text : double_to_string (S754_finite false 7205759403792794 (-56)) = "0.100000".
Proof. reflexivity. Qed.

(** ** Hashes and events *)
Definition boolean_text (b : bool) : string := if b then "true" else "false".

Definition port_fields (device : string) (port : PortState) : gmap string string :=
  {["device" := device; "id" := to_string (port_id port);
    "direction" := portDirectionName (direction port);
    "admin_enabled" := boolean_text (admin_enabled port);
    "oper_status" := portOperStatusName (oper_status port);
    "optical_power_dbm" := double_to_string (optical_power_dbm port)]}.

Definition differs (previous fs : gmap string string) : bool :=
  existsb (fun '(k, v) => negb (has previous k v)) (sorted_items fs).

(** No fault record, or one that is over. *)
Definition no_fault (fault : gmap string string) : bool :=
  match fault !! "status" with
  | None => true
  | Some status => bool_decide (status = "RECOVERED")
  end.

Definition port_state_key (device : string) (port : PortState) : string :=
  match direction port with
  | PortDirection.kInput => inputPortStateKey device (to_string (port_id port))
  | PortDirection.kOutput => outputPortStateKey device (to_string (port_id port))
  end.

Definition port_event (device : string) (port : PortState) (timestamp : Z) (payload : string)
    : EventEnvelope :=
  let direction_name := portDirectionName (direction port) in
  let id := to_string (port_id port) in
  mkEventEnvelope 1
    ("syncd-port:" +:+ device +:+ ":" +:+ direction_name +:+ ":" +:+ id +:+ ":"
     +:+ to_string timestamp)
    ("syncd-port-health:" +:+ device) timestamp device (portResourceType (direction port)) id
    "UPSERT" 0 payload.

Definition new_fault (device : string) (port : PortState) (activation_id : string) (raised : Z)
    : gmap string string :=
  {["device" := device; "direction" := portDirectionName (direction port);
    "port_id" := to_string (port_id port); "activation_id" := activation_id;
    "status" := "ACTIVE"; "raised_at_ns" := to_string raised]}.

Definition alarm_id_of (port : PortState) : string :=
  portDownAlarmId (portDirectionName (direction port)) (to_string (port_id port)).

Definition port_alarm_fields (port : PortState) (activation_id : string) (affected now : Z)
    : gmap string string :=
  {["id" := alarm_id_of port; "active" := "true"; "severity" := "MAJOR";
    "resource_type" := portResourceType (direction port);
    "resource_id" := to_string (port_id port);
    "direction" := portDirectionName (direction port);
    "port_id" := to_string (port_id port);
    "affected_connection_count" := to_string affected;
    "error_code" := ErrorCode.toString (if admin_enabled port then ErrorCode.kPortDown
                                        else ErrorCode.kPortDisabled);
    "error_message" := "port is not operationally available";
    "activation_id" := activation_id;
    "first_raised_ns" := to_string now; "last_change_ns" := to_string now]}.

(** An alarm event: [suffix] tells raising from clearing. *)
Definition alarm_event (source suffix device alarm_id operation : string) (version now : Z)
    (payload : string) : EventEnvelope :=
  mkEventEnvelope 1 (source +:+ suffix) source now device "alarm" alarm_id operation version
    payload.

(** [count_if] over the applied connections *)
Definition uses_port (port : PortState) (c : AppliedConnection) : Prop :=
  match direction port with
  | PortDirection.kInput => app_input_port c = port_id port
  | PortDirection.kOutput => app_output_port c = port_id port
  end.
#[export] Instance uses_port_dec port c : Decision (uses_port port c).
Proof. unfold uses_port. destruct (direction port); apply _. Defined.

Definition affected_by (port : PortState) (actual : list AppliedConnection) : Z :=
  Z.of_nat (length (filter (uses_port port) actual)).

Definition available (unavailable_inputs unavailable_outputs : gset Z) (c : AppliedConnection)
    : Prop :=
  (app_input_port c ∉ unavailable_inputs) /\ (app_output_port c ∉ unavailable_outputs).
#[export] Instance available_dec ins outs c : Decision (available ins outs c).
Proof. unfold available. apply _. Defined.

Section Ports.
Context {J : JsonLib} {DB : Type} {R : Redis DB} {G : RedisGroups DB}.
Context {D : Type} {API : OcsDeviceApi D}.
Variable oracle : SyncdOracle D.
#[local] Abbreviation get := (get (DB:=DB) oracle).
#[local] Abbreviation put := (put (DB:=DB) oracle).
#[local] Abbreviation update := (update (DB:=DB) oracle).
#[local] Abbreviation now_ns := (now_ns (DB:=DB) oracle).

(** ** Alarms *)

(** The event and the hash of an alarm, under a marker. *)
Definition publish_alarm (marker : string) (mf : gmap string string) (key : string)
    (fs : gmap string string) (e : EventEnvelope) : prog (Syncd DB D) unit :=
  update LogicalDb.kAlarm (replaceHashAndAppendEventOnce marker mf key fs kAlarmEvents e) ;;
  mret tt.

Definition count_once (device marker : string) (mf : gmap string string)
    (increments : gmap string Z) : prog (Syncd DB D) unit :=
  update LogicalDb.kCounters
    (incrementHashFieldsOnce marker mf (deviceCountersKey device) increments) ;;
  mret tt.

Definition publishPortAlarm (info : DeviceInfo) (port : PortState) (activation_id : string)
    (affected : Z) : prog (Syncd DB D) unit :=
  let device := info_name info in
  let mf : gmap string string := {["activation_id" := activation_id]} in
  let marker := syncdPortAlarmPublicationKey activation_id in
  published ← get LogicalDb.kAlarm marker;
  (if decide (published = ∅) then
     now ← now_ns;
     let fs := port_alarm_fields port activation_id affected now in
     payload ← lift (statePayload fs);
     publish_alarm marker mf (activeAlarmKey device (alarm_id_of port)) fs
       (alarm_event activation_id ":alarm" device (alarm_id_of port) "UPSERT" 0 now payload)
   else mret tt) ;;
  count_once device (syncdPortAlarmCounterPublicationKey activation_id false) mf
    {["active_alarms" := 1%Z; "port_down_total" := 1%Z]}.

Definition cleared_alarm (active : gmap string string) (now : Z) : gmap string string :=
  <["last_change_ns" := to_string now]> (<["active" := "false"]> active).

(** The marker of the clearing, which is published unless it is there already or no alarm
    is active. *)
Definition clear_port_alarm_once (info : DeviceInfo) (port : PortState) (activation_id : string)
    : prog (Syncd DB D) (gmap string string) :=
  let device := info_name info in
  let key := activeAlarmKey device (alarm_id_of port) in
  let marker := syncdPortAlarmClearPublicationKey activation_id in
  published ← get LogicalDb.kAlarm marker;
  if decide (published <> ∅) then mret published
  else
    active ← get LogicalDb.kAlarm key;
    if decide (active = ∅) then mret ∅
    else
      now ← now_ns;
      payload ← lift (statePayload (cleared_alarm active now));
      publish_alarm marker {["activation_id" := activation_id]} key ∅
        (alarm_event activation_id ":alarm-clear" device (alarm_id_of port) "REMOVE" 0 now
           payload) ;;
      get LogicalDb.kAlarm marker.

Definition clearPortAlarm (info : DeviceInfo) (port : PortState) (activation_id : string)
    : prog (Syncd DB D) unit :=
  marker ← clear_port_alarm_once info port activation_id;
  if decide (marker <> ∅) then
    count_once (info_name info) (syncdPortAlarmCounterPublicationKey activation_id true)
      {["activation_id" := activation_id]} {["active_alarms" := (-1)%Z]}
  else mret tt.

(** ** publishPortState *)
Definition publish_port_hash (info : DeviceInfo) (port : PortState) : prog (Syncd DB D) unit :=
  let device := info_name info in
  let key := port_state_key device port in
  let fs := port_fields device port in
  previous ← get LogicalDb.kState key;
  if bool_decide (previous = ∅) || differs previous fs then
    timestamp ← now_ns;
    let fs := <["last_change_ns" := to_string timestamp]> fs in
    if decide (previous = ∅) then put LogicalDb.kState key fs
    else
      payload ← lift (statePayload fs);
      update LogicalDb.kState (plain (replaceHashAndAppendEvent key fs kStateEvents
        (port_event device port timestamp payload) Replied))
  else mret tt.

(** The port is down: its fault record, a new one unless there is one, and its alarm. *)
Definition raise_port_fault (info : DeviceInfo) (port : PortState) (key : string)
    (fault : gmap string string) (affected : Z) : prog (Syncd DB D) unit :=
  fault ← (if no_fault fault then
             started ← now_ns;
             let activation_id := "port-fault:" +:+ info_name info +:+ ":"
               +:+ portDirectionName (direction port) +:+ ":" +:+ to_string (port_id port)
               +:+ ":" +:+ to_string started in
             raised ← now_ns;
             let fault := new_fault (info_name info) port activation_id raised in
             put LogicalDb.kDevice key fault ;;
             mret fault
           else mret fault);
  activation_id ← lift (map_at fault "activation_id");
  publishPortAlarm info port activation_id affected.

(** What becomes of the record of a port that is up again. *)
Definition cleared_fault (fault : gmap string string) : prog (Syncd DB D) (gmap string string) :=
  if has fault "status" "ACTIVE" then mret (<["status" := "CLEARED"]> fault)
  else
    match has fault "status" "RECOVERY_PUBLISHED", fault !! "command_id" with
    | true, Some command_id =>
        processed ← get LogicalDb.kDevice (processedDeviceCommandKey command_id);
        if decide (processed <> ∅) then
          mret (<["status" := if has processed "applied" "true" then "RECOVERED"
                              else "CLEARED"]> fault)
        else mret (<["cleared" := "true"]> fault)
    | _, _ => mret fault
    end.

Definition clear_port_fault (info : DeviceInfo) (port : PortState) (key : string)
    (fault : gmap string string) : prog (Syncd DB D) unit :=
  activation_id ← lift (map_at fault "activation_id");
  clearPortAlarm info port activation_id ;;
  cleared ← now_ns;
  fault ← cleared_fault (<["cleared_at_ns" := to_string cleared]> fault);
  put LogicalDb.kDevice key fault.

Definition publishPortState (info : DeviceInfo) (port : PortState) (affected : Z)
    : prog (Syncd DB D) unit :=
  publish_port_hash info port ;;
  let key := syncdPortFaultKey (info_name info) (portDirectionName (direction port))
               (to_string (port_id port)) in
  fault ← get LogicalDb.kDevice key;
  if portUnavailable port then raise_port_fault info port key fault affected
  else if no_fault fault then mret tt
  else clear_port_fault info port key fault.

(** ** pollPortStates

    [for (PortId id = 1; id <= count; ++id)]: the ports that are unavailable.  The counter
    wraps, so that with 65535 ports the loop goes on at port 0 and, if the device answers
    that, never ends; that is an exception here, as for a device call. *)
Definition get_port (direction : PortDirection.t) (id : PortId) : prog (Syncd DB D) PortState :=
  match direction with
  | PortDirection.kInput => on_device oracle (api_getInputPortState id)
  | PortDirection.kOutput => on_device oracle (api_getOutputPortState id)
  end.

Definition poll_port (info : DeviceInfo) (actual : list AppliedConnection)
    (direction : PortDirection.t) (id : PortId) : prog (Syncd DB D) bool :=
  port ← get_port direction id;
  publishPortState info port (affected_by port actual) ;;
  mret (portUnavailable port).

Fixpoint poll_direction (fuel : nat) (info : DeviceInfo) (actual : list AppliedConnection)
    (direction : PortDirection.t) (count id : PortId) (unavailable : gset Z)
    : prog (Syncd DB D) (gset Z) :=
  match fuel with
  | O => throw (RuntimeError "the loop over the ports did not end")
  | S fuel' =>
      if decide (id <= count)%Z then
        down ← poll_port info actual direction id;
        poll_direction fuel' info actual direction count (u16 (id + 1))
          (if down : bool then {[id]} ∪ unavailable else unavailable)
      else mret unavailable
  end.

(** The connections whose two ports are available. *)
Definition pollPortStates (info : DeviceInfo) (actual : list AppliedConnection)
    : prog (Syncd DB D) (list AppliedConnection) :=
  unavailable_inputs ← poll_direction (S (Z.to_nat (input_port_count info))) info actual
    PortDirection.kInput (input_port_count info) 1 ∅;
  unavailable_outputs ← poll_direction (S (Z.to_nat (output_port_count info))) info actual
    PortDirection.kOutput (output_port_count info) 1 ∅;
  mret (filter (available unavailable_inputs unavailable_outputs) actual).

(** ** Fault records and reconciliation commands *)
Definition associated_fault (command_id : string) (kf : string * gmap string string)
    : prog (Syncd DB D) (option (string * gmap string string)) :=
  let '(key, fault) := kf in
  if has fault "status" "ACTIVE" || has fault "status" "CLEARED" then
    now ← now_ns;
    mret (Some (key, <["recovery_published_at_ns" := to_string now]>
                     (<["command_id" := command_id]>
                     (<["status" := "RECOVERY_PUBLISHED"]> fault))))
  else mret None.

(** [putHashesAtomically], unless there is nothing to put. *)
Definition put_hashes (updates : list (string * gmap string string)) : prog (Syncd DB D) unit :=
  if decide (updates = []) then mret tt
  else update LogicalDb.kDevice (plain (putHashesAtomically updates Replied)).

Definition associatePortFaults (info : DeviceInfo) (command_id : string)
    : prog (Syncd DB D) unit :=
  faults ← portFaults oracle (info_name info);
  updates ← mapM (associated_fault command_id) faults;
  put_hashes (omap id updates).
End Ports.
