(* ===== verification/SyncdRecovery.v ===== *)
(** * Syncd and a new generation of its device (src/syncd_service.cpp): the state of every
    connection is published as the restarted device has it, once per generation, and one
    command brings back what was lost.

    [std::ranges::sort] is not stable; the model's sort is.  They agree whenever the IDs
    are distinct. *)
From S2P Require Import Prelude Redis RedisKeys RedisRepository Services.
From S2P Require Import DeviceApi Errors Types Reconciler Json DeviceCommand.
From S2P Require Import SyncdRules Syncd SyncdPublish SyncdPorts.
From stdpp Require Import options.

(** ** Commands *)

(** The command a stored snapshot stands for, if it is complete. *)
Definition snapshot_command (snapshot : gmap string string) : result (option ConnectionCommand) :=
  match snapshot !! "id", snapshot !! "desired_version" with
  | Some id, Some version =>
      version ← stoull version;
      if has snapshot "operation" "REMOVE" then
        Ok (Some (mkCommand ConnectionOperation.kRemove id 0 0 version))
      else
        input ← snapshotPort snapshot "input_port";
        output ← snapshotPort snapshot "output_port";
        Ok (Some (mkCommand ConnectionOperation.kUpsert id input output version))
  | _, _ => Ok None
  end.

(** Whether the device has what the command asks for. *)
Definition matches (c : ConnectionCommand) (found : option AppliedConnection) : bool :=
  match operation c, found with
  | ConnectionOperation.kRemove, None => true
  | ConnectionOperation.kRemove, Some _ => false
  | ConnectionOperation.kUpsert, None => false
  | ConnectionOperation.kUpsert, Some a => same_connection c a
  end.

(** The greatest version, at least 1 *)
Definition max_version (commands : list ConnectionCommand) : Z :=
  fold_left (fun version c => Z.max version (desired_version c)) commands 1%Z.

Definition command_resource (commands : list ConnectionCommand) (device : string)
    : string * string :=
  match commands with
  | [c] => ("connection", cmd_id c)
  | _ => ("connection-batch", device)
  end.

(** The event that publishes a batch of the service's own. *)
Definition batch_event (id request device operation : string)
    (commands : list ConnectionCommand) (version now : Z) (payload : string) : EventEnvelope :=
  let '(type, resource) := command_resource commands device in
  mkEventEnvelope 1 id request now device type resource operation version payload.

Definition with_commands (commands : list ConnectionCommand) (id : string) : DeviceCommandBatch :=
  mkBatch commands (mkOptions true 1000 id).

(** ** States *)
Definition connection_fields (device id : string) (input output desired applied : Z)
    (present status : string) (code text : string) : gmap string string :=
  {["device" := device; "id" := id; "input_port" := to_string input;
    "output_port" := to_string output; "desired_version" := to_string desired;
    "applied_version" := to_string applied; "actual_present" := present;
    "apply_status" := status; "last_error_code" := code; "last_error_message" := text]}.

(** The state of a known connection in the new generation. *)
Definition refreshed_state (device : string) (c : ConnectionCommand)
    (found : option AppliedConnection) : gmap string string :=
  match found with
  | Some a =>
      connection_fields device (cmd_id c) (app_input_port a) (app_output_port a)
        (desired_version c) (applied_version a) "true"
        (if matches c found then "ACTIVE" else "FAILED")
        (if matches c found then "" else ErrorCode.toString ErrorCode.kApplyFailed)
        (if matches c found then "" else "actual state differs after device restart")
  | None =>
      match operation c with
      | ConnectionOperation.kRemove => ∅
      | ConnectionOperation.kUpsert =>
          connection_fields device (cmd_id c) (cmd_input_port c) (cmd_output_port c)
            (desired_version c) 0 "false" "FAILED"
            (ErrorCode.toString ErrorCode.kDeviceNotReady)
            "actual state was lost when the device generation changed"
      end
  end.

Definition refreshed_operation (c : ConnectionCommand) (found : option AppliedConnection)
    : string :=
  match operation c, found with
  | ConnectionOperation.kRemove, None => "REMOVE"
  | _, _ => "UPSERT"
  end.

Definition unexpected_state (device id : string) (a : AppliedConnection) : gmap string string :=
  connection_fields device id (app_input_port a) (app_output_port a) (applied_version a)
    (applied_version a) "true" "FAILED" (ErrorCode.toString ErrorCode.kApplyFailed)
    "unexpected actual state after device restart".

(** ** IDs *)
Definition recovery_id (info : DeviceInfo) : string :=
  "hwsim-recovery:" +:+ info_name info +:+ ":" +:+ to_string (generation info).

Definition recovery_event (info : DeviceInfo) (id operation : string) (version now : Z)
    (payload : string) : EventEnvelope :=
  mkEventEnvelope 1 (recovery_id info +:+ ":actual:" +:+ id) (recovery_id info) now
    (info_name info) "connection" id operation version payload.

Definition recovery_fields (info : DeviceInfo) (id : string) (delta : Z) : gmap string string :=
  {["device_generation" := to_string (generation info); "connection_id" := id;
    "active_delta" := to_string delta]}.

Section Recovery.
Context {J : JsonLib} {DB : Type} {R : Redis DB} {G : RedisGroups DB}.
Context {D : Type} {API : OcsDeviceApi D}.
Variable oracle : SyncdOracle D.
#[local] Abbreviation get := (get (DB:=DB) oracle).
#[local] Abbreviation put := (put (DB:=DB) oracle).
#[local] Abbreviation update := (update (DB:=DB) oracle).
#[local] Abbreviation now_ns := (now_ns (DB:=DB) oracle).

(** The state of one connection, once: by how much the active connections changed. *)
Definition publish_refreshed (info : DeviceInfo) (id operation : string) (version : Z)
    (refreshed : gmap string string) (delta : Z) : prog (Syncd DB D) Z :=
  now ← now_ns;
  payload ← lift (statePayload refreshed);
  let key := syncdGenerationStatePublicationKey (info_name info) (generation info) id in
  published ← update LogicalDb.kState
    (replaceHashAndAppendEventOnce key (recovery_fields info id delta)
       (connectionStateKey (info_name info) id) refreshed kStateEvents
       (recovery_event info id operation version now payload));
  if published : bool then mret delta else published_delta oracle key.

Definition refresh_known (info : DeviceInfo) (c : ConnectionCommand)
    (found : option AppliedConnection) : prog (Syncd DB D) Z :=
  previous ← get LogicalDb.kState (connectionStateKey (info_name info) (cmd_id c));
  publish_refreshed info (cmd_id c) (refreshed_operation c found) (desired_version c)
    (refreshed_state (info_name info) c found)
    (command_delta (was_active previous) (bool_decide (is_Some found))).

(** The loop over the stored snapshots: the change of the active connections, the commands
    the device does not match, and the connections no snapshot names. *)
Fixpoint refresh_all (info : DeviceInfo) (keys : list string)
    (actual_by_id : gmap string AppliedConnection)
    : prog (Syncd DB D) (Z * list ConnectionCommand * gmap string AppliedConnection) :=
  match keys with
  | [] => mret (0%Z, [], actual_by_id)
  | key :: rest =>
      snapshot ← get LogicalDb.kDevice key;
      command ← lift (snapshot_command snapshot);
      match command with
      | None => refresh_all info rest actual_by_id
      | Some c =>
          let found := actual_by_id !! cmd_id c in
          delta ← refresh_known info c found;
          r ← refresh_all info rest (delete (cmd_id c) actual_by_id);
          let '(active_delta, commands, unexpected) := r in
          mret ((delta + active_delta)%Z, if matches c found then commands else c :: commands,
                unexpected)
      end
  end.

(** A connection that nothing asked for: it is published as it is and removed. *)
Definition refresh_unexpected (info : DeviceInfo) (item : string * AppliedConnection)
    : prog (Syncd DB D) (Z * ConnectionCommand) :=
  let '(id, a) := item in
  previous ← get LogicalDb.kState (connectionStateKey (info_name info) id);
  delta ← publish_refreshed info id "UPSERT" (applied_version a)
    (unexpected_state (info_name info) id a)
    (if has previous "actual_present" "true" then 0 else 1);
  mret (delta, removal_of id a).

(** The command of the recovery, stored under its prepared key before it is published. *)
Definition publish_recovery (info : DeviceInfo) (commands : list ConnectionCommand)
    : prog (Syncd DB D) unit :=
  let command_id := recovery_id info +:+ ":command" in
  payload ← lift (encodeDeviceCommand (with_commands commands command_id));
  put LogicalDb.kDevice (orchConfigBatchKey (recovery_id info))
    {["payload" := payload; "device_generation" := to_string (generation info)]} ;;
  now ← now_ns;
  update LogicalDb.kDevice
    (appendEventOnce (syncdGenerationRecoveryKey (info_name info) (generation info))
       {["device" := info_name info; "device_generation" := to_string (generation info);
         "command_id" := command_id; "recovery_required" := "true"]} kDeviceCommands
       (batch_event command_id (recovery_id info) (info_name info) "GENERATION_RECOVERY"
          commands (max_version commands) now payload)) ;;
  mret tt.

(** All states: the change of the active connections, and the commands, sorted by ID. *)
Definition refresh_generation (info : DeviceInfo) (actual : list AppliedConnection)
    : prog (Syncd DB D) (Z * list ConnectionCommand) :=
  keys ← scan_keys oracle LogicalDb.kDevice (connectionDevicePattern (info_name info));
  r ← refresh_all info keys (index_by_id actual);
  let '(active_delta, commands, unexpected) := r in
  removals ← mapM (refresh_unexpected info) (bucket_order oracle unexpected);
  mret (foldr Z.add active_delta removals.*1, sort_by cmd_id (commands ++ removals.*2)).

Definition recover_generation (info : DeviceInfo) (actual : list AppliedConnection)
    : prog (Syncd DB D) unit :=
  r ← refresh_generation info actual;
  let '(active_delta, commands) := r in
  count_once oracle (info_name info)
    (syncdGenerationCountersPublicationKey (info_name info) (generation info))
    {["device_generation" := to_string (generation info)]}
    {["active_connections" := active_delta]} ;;
  if decide (commands = []) then
    update LogicalDb.kDevice
      (putHashIfAbsent (syncdGenerationRecoveryKey (info_name info) (generation info))
         {["device" := info_name info; "device_generation" := to_string (generation info);
           "recovery_required" := "false"]}) ;;
    mret tt
  else publish_recovery info commands.

Definition scheduleGenerationRecovery (info : DeviceInfo) (actual : list AppliedConnection)
    : prog (Syncd DB D) unit :=
  scheduled ← get LogicalDb.kDevice
    (syncdGenerationRecoveryKey (info_name info) (generation info));
  if decide (scheduled <> ∅) then mret tt else recover_generation info actual.
End Recovery.
