(* ===== verification/SyncdReconcile.v ===== *)
(** * Syncd and reconciliation (src/syncd_service.cpp): once the orchestrator has settled, the
    desired connections are compared with those of the device, and one command that carries
    the whole desired state is published for a difference, with its states and its alarm.

    The control record of a device holds the last reconciliation command: PUBLISHING, then
    PUBLISHED, APPLIED or FAILED by markProcessed, CONVERGED when nothing differs any more. *)
From S2P Require Import Prelude Redis RedisKeys RedisRepository Services.
From S2P Require Import DeviceApi Errors Types ConnStateMachine Reconciler Json DeviceCommand.
From S2P Require Import SyncdRules Syncd SyncdPublish SyncdPorts SyncdRecovery.
From stdpp Require Import options.

(** ** Desired connections *)
Definition key_suffix (key : string) : string :=
  match split_last "|" key with Some (_, suffix) => suffix | None => key end.

(** The command of one configured connection; [None] for an empty snapshot. *)
Definition desired_command (key : string) (snapshot : gmap string string)
    : result (option ConnectionCommand) :=
  if decide (snapshot = ∅) then Ok None
  else
    let id := default (key_suffix key) (snapshot !! "id") in
    match snapshot !! "desired_version" with
    | Some text =>
        if decide (id = "") then
          Throw (InvalidArgument "desired connection snapshot is missing identity or version")
        else
          input ← snapshotPort snapshot "input_port";
          output ← snapshotPort snapshot "output_port";
          version ← stoull text;
          Ok (Some (mkCommand ConnectionOperation.kUpsert id input output version))
    | None =>
        Throw (InvalidArgument "desired connection snapshot is missing identity or version")
    end.

(** The commands by ID; the first of an ID stays. *)
Definition index_commands (l : list ConnectionCommand) : gmap string ConnectionCommand :=
  fold_left (fun m c => if decide (is_Some (m !! cmd_id c)) then m else <[cmd_id c := c]> m) l ∅.

Definition failed (snapshot : gmap string string) : bool := has snapshot "apply_status" "FAILED".

(** ** When the orchestrator has settled *)
Definition port_is (snapshot : gmap string string) (field : string) (value : Z) : result bool :=
  port ← snapshotPort snapshot field; Ok (bool_decide (port = value)).

(** One snapshot against the desired connections that are left: [None] when it is not
    settled, else what is left after it. *)
Definition settle (waiting : gmap string ConnectionCommand) (snapshot : gmap string string)
    : result (option (gmap string ConnectionCommand)) :=
  match snapshot !! "id", snapshot !! "desired_version", snapshot !! "apply_status" with
  | Some id, Some version, Some status =>
      match waiting !! id with
      | None => Ok (if has snapshot "operation" "REMOVE" && bool_decide (status = "FAILED")
                    then Some waiting else None)
      | Some c =>
          same ← and_also (Ok (bool_decide (status = "ACTIVE" \/ status = "FAILED")))
                (and_also (version ← stoull version;
                           Ok (bool_decide (version = desired_version c)))
                (and_also (port_is snapshot "input_port" (cmd_input_port c))
                          (port_is snapshot "output_port" (cmd_output_port c))));
          Ok (if same : bool then Some (delete id waiting) else None)
      end
  | _, _, _ => Ok None
  end.

(** ** Drifts the comparison does not show *)

(** A removal that failed although the device does not have the connection. *)
Definition failed_removal (desired_ids : gset string)
    (actual_by_id : gmap string AppliedConnection) (snapshot : gmap string string)
    : result (option ConnectionCommand) :=
  match snapshot !! "id", snapshot !! "desired_version" with
  | Some id, Some version =>
      if bool_decide (id ∈ desired_ids) || negb (has snapshot "operation" "REMOVE")
         || negb (failed snapshot) || bool_decide (is_Some (actual_by_id !! id)) then Ok None
      else
        version ← stoull version;
        Ok (Some (mkCommand ConnectionOperation.kRemove id 0 0 version))
  | _, _ => Ok None
  end.

Definition removal_drift (c : ConnectionCommand) : ConnectionDrift :=
  mkDrift (cmd_id c) ConnectionDriftKind.kMissing c no_connection.

Definition add_drifts (plan : ReconciliationPlan) (found : list ConnectionDrift)
    (removals : list ConnectionCommand) : ReconciliationPlan :=
  let '(mkPlan (mkBatch commands options) ds) := plan in
  mkPlan (mkBatch (sort_by cmd_id (commands ++ removals)) options)
    (sort_by drift_id (ds ++ found ++ (removal_drift <$> removals))).

(** ** States and alarms *)
Definition drifted_state (device : string) (drift : ConnectionDrift) : gmap string string :=
  let present := bool_decide (kind drift <> ConnectionDriftKind.kMissing) in
  connection_fields device (drift_id drift)
    (if present then app_input_port (actual drift) else cmd_input_port (desired drift))
    (if present then app_output_port (actual drift) else cmd_output_port (desired drift))
    (desired_version (desired drift))
    (if present then applied_version (actual drift) else 0%Z)
    (boolean_text present) "DRIFTED" (ErrorCode.toString ErrorCode.kApplyFailed)
    "desired and actual connection state differ".

Definition drift_event (device command_id suffix : string) (drift : ConnectionDrift) (now : Z)
    (payload : string) : EventEnvelope :=
  mkEventEnvelope 1 (command_id +:+ suffix +:+ drift_id drift) command_id now device "connection"
    (drift_id drift) "UPSERT" (desired_version (desired drift)) payload.

Definition drift_alarm_fields (device activation_id first_raised : string)
    (version count now : Z) : gmap string string :=
  {["id" := desiredActualDriftAlarmId; "active" := "true"; "severity" := "MAJOR";
    "resource_type" := "device"; "resource_id" := device;
    "desired_version" := to_string version;
    "error_code" := ErrorCode.toString ErrorCode.kApplyFailed;
    "error_message" := "desired and actual connection matrices differ";
    "drift_count" := to_string count; "activation_id" := activation_id;
    "first_raised_ns" := first_raised; "last_change_ns" := to_string now]}.

(** ** The control record *)
Definition new_control (info : DeviceInfo) (command_id : string) (version : Z)
    (signature reason : string) (started : Z) : gmap string string :=
  {["device" := info_name info; "device_generation" := to_string (generation info);
    "command_id" := command_id; "desired_version" := to_string version;
    "signature" := signature; "reason" := reason; "status" := "PUBLISHING";
    "started_at_ns" := to_string started]}.

(** Whether the last command failed. *)
Definition failed_control (control : gmap string string) : bool := has control "status" "FAILED".

(** Whether the command of the control record still stands for this difference. *)
Definition in_progress (control : gmap string string) (signature : string)
    (port_recovery confirmed_recovery : bool) : bool :=
  negb (port_recovery && failed_control control)
  && negb (confirmed_recovery && failed_control control
           && negb (has control "reason" "CONFIRMED_STATE_RECOVERY"))
  && has control "signature" signature
  && match control !! "status" with
     | Some status => bool_decide (status <> "CONVERGED")
     | None => false
     end.

(** [command_id.substr(0, command_id.size() - 8)], where the difference may wrap *)
Definition without_suffix (command_id : string) : string :=
  if decide (String.length command_id < 8) then command_id
  else String.substring 0 (String.length command_id - 8) command_id.

Definition recovered_at (kf : string * gmap string string) (now : Z)
    : string * gmap string string :=
  (kf.1, <["recovered_at_ns" := to_string now]> (<["status" := "RECOVERED"]> kf.2)).

Section Reconcile.
Context {J : JsonLib} {DB : Type} {R : Redis DB} {G : RedisGroups DB}.
Context {D : Type} {API : OcsDeviceApi D}.
Variable oracle : SyncdOracle D.
#[local] Abbreviation get := (get (DB:=DB) oracle).
#[local] Abbreviation put := (put (DB:=DB) oracle).
#[local] Abbreviation update := (update (DB:=DB) oracle).
#[local] Abbreviation now_ns := (now_ns (DB:=DB) oracle).

Definition loadDesiredConnections (device : string)
    : prog (Syncd DB D) (list ConnectionCommand) :=
  keys ← scan_keys oracle LogicalDb.kConfig (connectionConfigPattern device);
  commands ← mapM (fun key => snapshot ← get LogicalDb.kConfig key;
                              lift (desired_command key snapshot)) keys;
  mret (omap id commands).

(** ** orchestrationSettled *)
Fixpoint settle_all (keys : list string) (waiting : gmap string ConnectionCommand)
    : prog (Syncd DB D) bool :=
  match keys with
  | [] => mret (bool_decide (waiting = ∅))
  | key :: rest =>
      snapshot ← get LogicalDb.kDevice key;
      r ← lift (settle waiting snapshot);
      match r with
      | None => mret false
      | Some waiting => settle_all rest waiting
      end
  end.

Definition orchestrationSettled (device : string) (desired : list ConnectionCommand)
    : prog (Syncd DB D) bool :=
  keys ← scan_keys oracle LogicalDb.kDevice (connectionDevicePattern device);
  settle_all keys (index_commands desired).

(** ** The plan *)

(** The device has the connection, but a stored state says it failed. *)
Definition failed_drift (device : string) (actual_by_id : gmap string AppliedConnection)
    (c : ConnectionCommand) : prog (Syncd DB D) (option ConnectionDrift) :=
  match actual_by_id !! cmd_id c with
  | None => mret None
  | Some found =>
      device_state ← get LogicalDb.kDevice (connectionDeviceKey device (cmd_id c));
      confirmed_state ← get LogicalDb.kState (connectionStateKey device (cmd_id c));
      mret (if failed device_state || failed confirmed_state then
              Some (mkDrift (cmd_id c) ConnectionDriftKind.kMismatched c found)
            else None)
  end.

(** What a converged plan gets from the failed states, and whether it got anything. *)
Definition confirmed_state_recovery (device : string) (desired : list ConnectionCommand)
    (actual : list AppliedConnection) (plan : ReconciliationPlan)
    : prog (Syncd DB D) (ReconciliationPlan * bool) :=
  if negb (converged plan) then mret (plan, false)
  else
    let actual_by_id := index_by_id actual in
    let desired_ids : gset string := list_to_set (cmd_id <$> desired) in
    found ← mapM (failed_drift device actual_by_id) desired;
    keys ← scan_keys oracle LogicalDb.kDevice (connectionDevicePattern device);
    removals ← mapM (fun key => snapshot ← get LogicalDb.kDevice key;
                                lift (failed_removal desired_ids actual_by_id snapshot)) keys;
    let found := omap id found in
    let removals := omap id removals in
    mret (add_drifts plan found removals,
          negb (bool_decide (found = []) && bool_decide (removals = []))).

(** A port is up again: the drift of one desired connection, when its state failed. *)
Definition port_recovery_drift (device : string) (desired_by_id : gmap string ConnectionCommand)
    (actual_by_id : gmap string AppliedConnection) (c : ConnectionCommand)
    : prog (Syncd DB D) (option ConnectionDrift) :=
  snapshot ← get LogicalDb.kState (connectionStateKey device (cmd_id c));
  mret (if failed snapshot then
          match desired_by_id !! cmd_id c, actual_by_id !! cmd_id c with
          | Some wanted, Some found =>
              Some (mkDrift (cmd_id c) ConnectionDriftKind.kMismatched wanted found)
          | _, _ => None
          end
        else None).

Definition recovered_record (kf : string * gmap string string)
    : prog (Syncd DB D) (option (string * gmap string string)) :=
  if has kf.2 "status" "CLEARED" then now ← now_ns; mret (Some (recovered_at kf now))
  else mret None.

(** When nothing differs and a port is up again: the drifts of the states that failed; the
    fault records are closed when there are none. *)
Definition port_recovery (device : string) (desired : list ConnectionCommand)
    (actual : list AppliedConnection) (faults : list (string * gmap string string))
    (plan : ReconciliationPlan) : prog (Syncd DB D) ReconciliationPlan :=
  found ← mapM (port_recovery_drift device (index_commands desired) (index_by_id actual)) desired;
  let plan := mkPlan (full_snapshot plan) (sort_by drift_id (drifts plan ++ omap id found)) in
  (if converged plan then
     recovered ← mapM recovered_record faults;
     put_hashes oracle (omap id recovered)
   else mret tt) ;;
  mret plan.

(** ** publishReconciliationState *)
Definition publish_drift_state (device marker suffix command_id : string)
    (mf fs : gmap string string) (drift : ConnectionDrift) : prog (Syncd DB D) bool :=
  now ← now_ns;
  payload ← lift (statePayload fs);
  update LogicalDb.kState
    (replaceHashAndAppendEventOnce marker mf (connectionStateKey device (drift_id drift)) fs
       kStateEvents (drift_event device command_id suffix drift now payload)).

(** DRIFTED, then RECONCILING: by how much the active connections changed. *)
Definition publish_drift (device command_id : string) (drift : ConnectionDrift)
    : prog (Syncd DB D) Z :=
  previous ← get LogicalDb.kState (connectionStateKey device (drift_id drift));
  if failed previous || has previous "apply_status" "RETRY_WAIT" then mret 0%Z
  else
    let fs := drifted_state device drift in
    let id := drift_id drift in
    let marker phase := syncdReconciliationStatePublicationKey command_id id phase in
    (if has previous "apply_status" "ACTIVE" then
       lift (requireTransition ConnectionApplyStatus.kActive ConnectionApplyStatus.kDrifted)
     else mret tt) ;;
    let delta := command_delta (was_active previous)
                   (bool_decide (kind drift <> ConnectionDriftKind.kMissing)) in
    published ← publish_drift_state device (marker "DRIFTED") ":drifted:" command_id
      {["command_id" := command_id; "connection_id" := id; "active_delta" := to_string delta]}
      fs drift;
    delta ← (if published : bool then mret delta else published_delta oracle (marker "DRIFTED"));
    lift (requireTransition ConnectionApplyStatus.kDrifted ConnectionApplyStatus.kReconciling) ;;
    publish_drift_state device (marker "RECONCILING") ":reconciling:" command_id
      {["command_id" := command_id; "connection_id" := id]}
      (<["apply_status" := "RECONCILING"]> fs) drift ;;
    mret delta.

Definition publishReconciliationState (info : DeviceInfo) (plan : ReconciliationPlan)
    (command_id : string) : prog (Syncd DB D) unit :=
  deltas ← mapM (publish_drift (info_name info) command_id) (drifts plan);
  count_once oracle (info_name info) (syncdReconciliationCountersPublicationKey command_id)
    {["command_id" := command_id]}
    {["active_connections" := foldr Z.add 0%Z deltas; "drift_detected_total" := 1%Z;
      "reconciliation_total" := 1%Z]}.

(** ** The drift alarm *)
Definition raise_drift_alarm (device command_id : string) (version count : Z)
    : prog (Syncd DB D) (gmap string string) :=
  let key := activeAlarmKey device desiredActualDriftAlarmId in
  let marker := syncdDriftAlarmPublicationKey command_id in
  active ← get LogicalDb.kAlarm key;
  now ← now_ns;
  let activation_id := default command_id (active !! "activation_id") in
  let fs := drift_alarm_fields device activation_id
              (default (to_string now) (active !! "first_raised_ns")) version count now in
  payload ← lift (statePayload fs);
  publish_alarm oracle marker
    {["command_id" := command_id; "activation_id" := activation_id;
      "activated" := boolean_text (bool_decide (active = ∅))]} key fs
    (alarm_event command_id ":alarm" device desiredActualDriftAlarmId "UPSERT" version now
       payload) ;;
  get LogicalDb.kAlarm marker.

Definition publishDriftAlarm (info : DeviceInfo) (command_id : string) (version count : Z)
    : prog (Syncd DB D) unit :=
  published ← get LogicalDb.kAlarm (syncdDriftAlarmPublicationKey command_id);
  marker ← (if decide (published = ∅) then
              raise_drift_alarm (info_name info) command_id version count
            else mret published);
  activated ← lift (map_at marker "activated");
  if decide (activated = "true") then
    activation_id ← lift (map_at marker "activation_id");
    count_once oracle (info_name info)
      (syncdDriftAlarmCounterPublicationKey (info_name info) activation_id false)
      {["activation_id" := activation_id]} {["active_alarms" := 1%Z]}
  else mret tt.

Definition clear_drift_alarm (device command_id : string) (version : Z)
    (active : gmap string string) : prog (Syncd DB D) (gmap string string) :=
  let marker := syncdDriftAlarmClearPublicationKey command_id in
  now ← now_ns;
  activation_id ← lift (map_at active "activation_id");
  payload ← lift (statePayload (cleared_alarm active now));
  publish_alarm oracle marker
    {["command_id" := command_id; "activation_id" := activation_id; "cleared" := "true"]}
    (activeAlarmKey device desiredActualDriftAlarmId) ∅
    (alarm_event command_id ":alarm-clear" device desiredActualDriftAlarmId "REMOVE" version
       now payload) ;;
  get LogicalDb.kAlarm marker.

Definition clearDriftAlarm (info : DeviceInfo) (command_id : string) (version : Z)
    : prog (Syncd DB D) unit :=
  let device := info_name info in
  published ← get LogicalDb.kAlarm (syncdDriftAlarmClearPublicationKey command_id);
  active ← get LogicalDb.kAlarm (activeAlarmKey device desiredActualDriftAlarmId);
  if bool_decide (published = ∅) && bool_decide (active = ∅) then mret tt
  else
    marker ← (if decide (published = ∅) then clear_drift_alarm device command_id version active
              else mret published);
    activation_id ← lift (map_at marker "activation_id");
    count_once oracle device (syncdDriftAlarmCounterPublicationKey device activation_id true)
      {["activation_id" := activation_id]} {["active_alarms" := (-1)%Z]}.

(** ** reconcileDevice *)
Definition put_control (device : string) (control : gmap string string) : prog (Syncd DB D) unit :=
  put LogicalDb.kDevice (syncdReconciliationKey device) control.

(** Nothing differs: the open command of the control record is closed. *)
Definition close_control (info : DeviceInfo) (control : gmap string string)
    : prog (Syncd DB D) unit :=
  match control !! "status" with
  | None => mret tt
  | Some status =>
      if decide (status = "CONVERGED") then mret tt
      else
        command_id ← lift (map_at control "command_id");
        version ← lift (match control !! "desired_version" with
                        | Some text => stoull text
                        | None => Ok 0%Z
                        end);
        clearDriftAlarm info command_id version ;;
        now ← now_ns;
        put_control (info_name info)
          (<["converged_at_ns" := to_string now]> (<["status" := "CONVERGED"]> control))
  end.

(** A new control record, PUBLISHING, and its command *)
Definition open_control (info : DeviceInfo) (commands : list ConnectionCommand)
    (signature reason : string) : prog (Syncd DB D) (gmap string string * string) :=
  named ← now_ns;
  started ← now_ns;
  let command_id := "reconcile:" +:+ info_name info +:+ ":" +:+ to_string named
                    +:+ ":command" in
  let control := new_control info command_id (max_version commands) signature reason started in
  put_control (info_name info) control ;;
  mret (control, command_id).

(** The states, the alarm and the command of a reconciliation, and its record: PUBLISHED. *)
Definition publish_reconciliation (info : DeviceInfo) (plan : ReconciliationPlan)
    (control : gmap string string) (command_id : string) : prog (Syncd DB D) unit :=
  let commands := batch_commands (full_snapshot plan) in
  associatePortFaults oracle info command_id ;;
  publishReconciliationState info plan command_id ;;
  version ← lift (map_at control "desired_version" ≫= stoull);
  publishDriftAlarm info command_id version (Z.of_nat (length (drifts plan))) ;;
  payload ← lift (encodeDeviceCommand (with_operation_id command_id (full_snapshot plan)));
  let prepared_id := without_suffix command_id in
  put LogicalDb.kDevice (orchConfigBatchKey prepared_id)
    {["payload" := payload; "device_generation" := to_string (generation info)]} ;;
  now ← now_ns;
  update LogicalDb.kDevice
    (appendEventOnce (syncdReconciliationCommandPublicationKey command_id)
       {["command_id" := command_id; "device_generation" := to_string (generation info);
         "desired_version" := to_string version]} kDeviceCommands
       (batch_event command_id prepared_id (info_name info) "RECONCILE" commands version now
          payload)) ;;
  published ← now_ns;
  put_control (info_name info)
    (<["published_at_ns" := to_string published]> (<["status" := "PUBLISHED"]> control)).

Definition recovery_reason (port_recovery confirmed_recovery : bool) : string :=
  if port_recovery then "PORT_RECOVERY"
  else if confirmed_recovery then "CONFIRMED_STATE_RECOVERY" else "DESIRED_ACTUAL_DRIFT".

(** Something differs: the command in progress goes on when it was not published yet, and
    otherwise a new one starts. *)
Definition reconcile_drifts (info : DeviceInfo) (plan : ReconciliationPlan)
    (control : gmap string string) (port_recovery confirmed_recovery : bool)
    : prog (Syncd DB D) unit :=
  signature ← lift (encodeDeviceCommand (full_snapshot plan));
  if in_progress control signature port_recovery confirmed_recovery then
    if has control "status" "PUBLISHING" then
      command_id ← lift (map_at control "command_id");
      publish_reconciliation info plan control command_id
    else mret tt
  else
    opened ← open_control info (batch_commands (full_snapshot plan)) signature
      (recovery_reason port_recovery confirmed_recovery);
    let '(control, command_id) := opened in
    publish_reconciliation info plan control command_id.

Definition reconcile_settled (info : DeviceInfo) (desired : list ConnectionCommand)
    (actual : list AppliedConnection) : prog (Syncd DB D) unit :=
  let device := info_name info in
  plan ← lift (buildReconciliationPlan desired actual);
  r ← confirmed_state_recovery device desired actual plan;
  let '(plan, confirmed_recovery) := r in
  faults ← portFaults oracle device;
  let port_recovery_required := existsb (fun kf => has kf.2 "status" "CLEARED") faults in
  plan ← (if converged plan && port_recovery_required then
            port_recovery device desired actual faults plan
          else mret plan);
  control ← get LogicalDb.kDevice (syncdReconciliationKey device);
  if converged plan then close_control info control
  else reconcile_drifts info plan control port_recovery_required confirmed_recovery.

Definition reconcileDevice (info : DeviceInfo) (actual : list AppliedConnection)
    : prog (Syncd DB D) unit :=
  desired ← loadDesiredConnections (info_name info);
  settled ← orchestrationSettled (info_name info) desired;
  if settled : bool then reconcile_settled info desired actual else mret tt.
End Reconcile.
