(* ===== verification/SyncdPoll.v ===== *)
(** * Syncd and its device (src/syncd_service.cpp): starting, polling, and the state of the
    device and of its process. *)
From S2P Require Import Prelude Redis RedisKeys RedisRepository Services.
From S2P Require Import DeviceApi Errors Types Json DeviceCommand.
From S2P Require Import SyncdRules Syncd SyncdPublish SyncdPorts SyncdRecovery SyncdReconcile.
From stdpp Require Import options.

Definition inventory (info : DeviceInfo) : gmap string string :=
  {["name" := info_name info;
    "input_port_count" := to_string (input_port_count info);
    "output_port_count" := to_string (output_port_count info);
    "admin_status" := "ENABLED"; "model" := info_model info;
    "serial_number" := serial_number info; "firmware_version" := firmware_version info]}.

(** Whether the configured device is the one that is connected. *)
Definition same_inventory (info : DeviceInfo) (configured : gmap string string) : bool :=
  has configured "name" (info_name info)
  && has configured "input_port_count" (to_string (input_port_count info))
  && has configured "output_port_count" (to_string (output_port_count info)).

Definition initial_counters : gmap string string :=
  list_to_map ((fun field => (field, "0")) <$>
    ["active_alarms"; "active_connections"; "config_rejected_total"; "config_requests_total";
     "device_apply_failure_total"; "device_apply_success_total"; "device_apply_timeout_total";
     "device_apply_total"; "drift_detected_total"; "last_apply_latency_ms";
     "max_apply_latency_ms"; "port_down_total"; "reconciliation_success_total";
     "reconciliation_total"]).

Definition device_fields (name : string) (generation count : Z) (status : string) (error : Error)
    : gmap string string :=
  {["name" := name; "oper_status" := status; "device_generation" := to_string generation;
    "actual_connection_count" := to_string count;
    "last_error_code" := if error_ok error then "" else ErrorCode.toString (code error);
    "last_error_message" := message error]}.

Definition device_event (name : string) (generation : Z) (status : string) (timestamp : Z)
    (payload : string) : EventEnvelope :=
  mkEventEnvelope 1
    ("syncd-device:" +:+ name +:+ ":" +:+ to_string generation +:+ ":" +:+ status +:+ ":"
     +:+ to_string timestamp)
    ("syncd-device-health:" +:+ name) timestamp name "device" name "UPSERT" 0 payload.

Definition heartbeat_fields (online : bool) (now : Z) : gmap string string :=
  {["service" := "ocs-hwsim"; "status" := if online then "ONLINE" else "OFFLINE";
    "last_seen_ns" := to_string now]}.

Definition connection_count (actual : list AppliedConnection) : Z := Z.of_nat (length actual).

Section Poll.
Context {J : JsonLib} {DB : Type} {R : Redis DB} {G : RedisGroups DB}.
Context {D : Type} {API : OcsDeviceApi D}.
Variable oracle : SyncdOracle D.
#[local] Abbreviation get := (get (DB:=DB) oracle).
#[local] Abbreviation put := (put (DB:=DB) oracle).
#[local] Abbreviation update := (update (DB:=DB) oracle).
#[local] Abbreviation now_ns := (now_ns (DB:=DB) oracle).

Definition publishHwsimHeartbeat (online : bool) : prog (Syncd DB D) unit :=
  now ← now_ns;
  put LogicalDb.kState (serviceStateKey "ocs-hwsim") (heartbeat_fields online now).

(** Of the device's information it uses the name and the generation. *)
Definition publishDeviceState (name : string) (generation count : Z) (status : string)
    (error : Error) : prog (Syncd DB D) unit :=
  let fs := device_fields name generation count status error in
  timestamp ← now_ns;
  payload ← lift (statePayload fs);
  update LogicalDb.kState (plain (replaceHashAndAppendEvent (deviceStateKey name) fs kStateEvents
    (device_event name generation status timestamp payload) Replied)).

(** [throw] when the device is not the one syncd started with. *)
Definition same_device : prog (Syncd DB D) DeviceInfo :=
  info ← on_device oracle api_getDeviceInfo;
  name ← gets device_name_;
  if decide (name <> "" /\ info_name info <> name) then
    throw (RuntimeError "connected device identity changed after handshake")
  else mret info.

(** ** pollDevice *)

(** The generation has a recovery command that is not processed yet. *)
Definition recovery_pending (info : DeviceInfo) : prog (Syncd DB D) bool :=
  recovery ← get LogicalDb.kDevice
    (syncdGenerationRecoveryKey (info_name info) (generation info));
  match has recovery "recovery_required" "true", recovery !! "command_id" with
  | true, Some command_id =>
      processed ← get LogicalDb.kDevice (processedDeviceCommandKey command_id);
      mret (bool_decide (processed = ∅))
  | _, _ => mret false
  end.

Definition poll_online : prog (Syncd DB D) bool :=
  info ← same_device;
  actual ← on_device oracle api_getConnections;
  effective_actual ← pollPortStates oracle info actual;
  state ← get LogicalDb.kState (deviceStateKey (info_name info));
  same_generation ← lift (has_version state "device_generation" (generation info));
  same_count ← lift (has_version state "actual_connection_count" (connection_count actual));
  set_identity (info_name info) (generation info) ;;
  (if negb same_generation then scheduleGenerationRecovery oracle info actual
   else
     pending ← recovery_pending info;
     if pending : bool then mret tt else reconcileDevice oracle info effective_actual) ;;
  (if negb same_generation || negb same_count || negb (has state "oper_status" "READY") then
     publishDeviceState (info_name info) (generation info) (connection_count actual) "READY"
       success
   else mret tt) ;;
  publishHwsimHeartbeat true ;;
  mret true.

(** The [catch] clause *)
Definition poll_failed (error : exn) : prog (Syncd DB D) bool :=
  name ← gets device_name_;
  generation ← gets device_generation_;
  if decide (name = "") then mret false
  else
    state ← get LogicalDb.kState (deviceStateKey name);
    (if has state "oper_status" "FAILED" then mret tt
     else
       count ← lift (match state !! "actual_connection_count" with
                     | Some count => stoull count
                     | None => Ok 0%Z
                     end);
       publishDeviceState name generation count "FAILED"
         (mkError ErrorCode.kDeviceNotReady (what error))) ;;
    publishHwsimHeartbeat false ;;
    mret false.

Definition pollDevice : prog (Syncd DB D) bool := try_catch poll_online poll_failed.

Definition pollDeviceLiveness : prog (Syncd DB D) bool :=
  try_catch (same_device ;; publishHwsimHeartbeat true ;; mret true)
    (fun _ => publishHwsimHeartbeat false ;; mret false).

(** ** initialize *)
Definition publish_started (info : DeviceInfo) (actual : list AppliedConnection)
    : prog (Syncd DB D) unit :=
  let ready := publishDeviceState (info_name info) (generation info) (connection_count actual)
                 "READY" success in
  state ← get LogicalDb.kState (deviceStateKey (info_name info));
  if decide (state = ∅) then
    put LogicalDb.kState (deviceStateKey (info_name info))
      (device_fields (info_name info) (generation info) (connection_count actual) "READY" success)
  else
    same_generation ← lift (has_version state "device_generation" (generation info));
    if negb same_generation then scheduleGenerationRecovery oracle info actual ;; ready
    else if has state "oper_status" "READY" then mret tt else ready.

Definition initialize : prog (Syncd DB D) unit :=
  update LogicalDb.kDevice (plain (createConsumerGroup kDeviceCommands kConsumerGroup "0-0")) ;;
  update LogicalDb.kDevice (plain (createConsumerGroup kFaultCommands kFaultConsumerGroup "0-0")) ;;
  info ← on_device oracle api_getDeviceInfo;
  update LogicalDb.kConfig (putHashIfAbsent (deviceConfigKey (info_name info)) (inventory info)) ;;
  configured ← get LogicalDb.kConfig (deviceConfigKey (info_name info));
  if negb (same_inventory info configured) then
    throw (RuntimeError "configured device inventory does not match backend identity")
  else
    set_identity (info_name info) (generation info) ;;
    update LogicalDb.kCounters (plain (ensureHashFields (deviceCountersKey (info_name info))
      initial_counters Replied)) ;;
    actual ← on_device oracle api_getConnections;
    pollPortStates oracle info actual ;;
    publishHwsimHeartbeat true ;;
    publish_started info actual.
End Poll.
