(* ===== verification/SyncdPayloads.v ===== *)
(** * The durable result of a command survives a restart, and a command syncd can never
    finish because its result cannot be encoded. *)
From S2P Require Import Prelude ProgLogic Errors Types DeviceApi Json DeviceCommand.
From S2P Require Import UdsJsonProps RedisKeys Redis RedisRepository Services SyncdRules.
From S2P Require Import Syncd SyncdPublish RedisEvents CallLogic.
From stdpp Require Import options.

Section Payloads.
#[local] Set Default Proof Using "Type*".
Context {J : JsonLib} {JL : JsonLaws J}.

Lemma utf8_error_code c : utf8 (ErrorCode.toString c).
Proof. apply utf8_ascii. destruct c; repeat constructor. Qed.
#[local] Hint Resolve utf8_error_code : ocs.

Lemma durable_connection_ok c :
  connection_text c -> is_ok (dump (durable_connection c)) = true.
Proof. intros [_ Hc]. unfold durable_connection. dump_members. Qed.

Lemma durable_connection_reads c :
  connection_text c -> reads_as decode_durable_connection (durable_connection c) c.
Proof.
  intros [(Hi & Ho & Hv) _] w Hw. unfold durable_connection in Hw.
  unfold decode_durable_connection. read_members Hw. by destruct c.
Qed.

Lemma durable_result_carried r :
  result_text r -> carries (durableResultPayload r) decodeDurableResult r.
Proof.
  intros [He Hc]. unfold error_text in He. apply (carries_dump decode_durable).
  - unfold durable_json. dump_members.
    apply dump_array, Forall_fmap. eapply Forall_impl; [done|]. apply durable_connection_ok.
  - intros w Hw. unfold durable_json in Hw. unfold decode_durable. read_members Hw.
    destruct (parsed_at _ "connections" (json_array (durable_connection <$> apply_connections r))
      w Hnd) as (x & -> & Hx); [member|exact Hw|]. simpl. apply parsed_array in Hx.
    rewrite (reads_elements durable_connection decode_durable_connection id _ _ Hx).
    + simpl. rewrite list_fmap_id, error_code_roundtrip. by destruct r as [[]].
    + eapply Forall_impl; [done|]. apply durable_connection_reads.
Qed.

(** A result whose texts are not well-formed UTF-8 cannot be stored. *)
Lemma durable_result_strict r :
  ~ utf8 (message (apply_error r)) -> is_ok (durableResultPayload r) = false.
Proof.
  intros Hm. unfold durableResultPayload, durable_json.
  eapply dump_object_strict; [distinct_keys| |by apply dump_ill_formed].
  do 2 apply list_elem_of_further. apply list_elem_of_here.
Qed.

(** The durable result syncd stores before it publishes anything is exactly what a later
    attempt, also after a restart, reads back: the error code, the error text and every
    applied connection, so a repeated attempt publishes the same outcome.  A result whose
    error text is not well-formed UTF-8 is the exception: it cannot be stored at all. *)
Theorem durable_result_roundtrip r :
  (result_text r ->
     exists payload, durableResultPayload r = Ok payload /\ decodeDurableResult payload = Ok r) /\
  (~ utf8 (message (apply_error r)) -> is_ok (durableResultPayload r) = false).
Proof. split; [apply durable_result_carried|apply durable_result_strict]. Qed.
(** ** The texts of a state *)
Lemma number_utf8 z : (0 <= z)%Z -> utf8 (to_string z).
Proof.
  intros Hz. apply utf8_ascii. pose proof (all_digits_to_string z Hz) as Hd. revert Hd.
  generalize (to_string z). unfold ascii_text. induction s as [|c s IH]; simpl; [constructor|].
  destruct (digit_of c) as [d|] eqn:Hc; [|done]. intros Hs. constructor; [|by apply IH].
  unfold digit_of in Hc. case_decide; [lia|done].
Qed.

Lemma literal_utf8 (s : string) : bool_decide (ascii_text s) = true -> utf8 s.
Proof. intros Hs%bool_decide_eq_true. by apply utf8_ascii. Qed.

Lemma state_payload_ok m :
  map_Forall (fun k v => utf8 k /\ utf8 v) m -> is_ok (statePayload m) = true.
Proof.
  intros Hm. unfold statePayload. apply dump_object, Forall_forall.
  intros [k j] ([k' v] & [= -> ->] & Hkv)%list_elem_of_fmap.
  apply elem_of_sorted_items, Hm in Hkv as [Hk Hv]. split; [done|]. by apply dump_string.
Qed.

(** A state that could be encoded has well-formed texts. *)
Lemma payload_text fs payload :
  statePayload fs = Ok payload -> map_Forall (fun _ v => utf8 v) fs.
Proof.
  intros Hp k v Hk. apply (dumped_member k v
    ((fun kv => (kv.1, json_string kv.2)) <$> sorted_items fs)).
  - rewrite <-list_fmap_compose. apply sorted_items_keys_NoDup.
  - apply list_elem_of_fmap. exists (k, v). split; [done|]. by apply elem_of_sorted_items.
  - unfold statePayload in Hp. by rewrite Hp.
Qed.
End Payloads.

(** The texts of a literal state *)
Ltac state_members :=
  repeat match goal with
      | |- map_Forall _ (<[_ := _]> _) => apply map_Forall_insert_2
      | |- map_Forall _ {[_ := _]} => apply map_Forall_singleton
      | |- map_Forall _ ∅ => apply map_Forall_empty
      | |- utf8 _ /\ utf8 _ => split
      | |- utf8 (to_string _) => apply number_utf8
      | |- utf8 (ErrorCode.toString _) => apply utf8_error_code
      | |- utf8 (String _ _) => apply literal_utf8; vm_compute; reflexivity
      end.

Section Blocked.
Context {J : JsonLib} {JL : JsonLaws J} {DB : Type} {R : Redis DB} {G : RedisGroups DB}.
Context {D : Type} {API : OcsDeviceApi D}.
Variable oracle : SyncdOracle D.
#[local] Abbreviation state := (Syncd DB D).

(** From one state to the other syncd wrote nothing and called no device. *)
Definition untouched (s s' : state) : Prop :=
  only_others (store_oracle oracle) (stores s) (stores s') /\ device_ s' = device_ s.

Lemma untouched_get s0 l key : keeps (untouched s0) (get oracle l key) (fun _ => True).
Proof using Type.
  intros [w d name gen] r s' [Hw Hd] Hrun. unfold get, on_stores in Hrun.
  destruct (get_hash (store_oracle oracle) l key w) as [r1 w1] eqn:Hr. injection Hrun as <- <-.
  split; [|done]. by destruct (quiet_get_hash _ _ _ _ _ _ _ Hw Hr).
Qed.

Lemma untouched_prepared s0 e :
  keeps (untouched s0) (try_catch (recoverPreparedBatch oracle e)
    (fun _ => mret (mkBatch [] default_options))) (fun _ => True).
Proof using Type.
  assert (keeps (untouched s0) (recoverPreparedBatch oracle e) (fun _ => True)) as Hm.
  { unfold recoverPreparedBatch. keeps_walk ltac:(apply untouched_get). }
  intros s r s' Hs. unfold try_catch.
  destruct (recoverPreparedBatch oracle e s) as [[b|x] s1] eqn:Hr; intros [= <- <-];
    (split; [|done]); by destruct (Hm _ _ _ Hs Hr).
Qed.

Lemma ill_formed_untouched s0 e x :
  decodeDeviceCommand (ev_payload e) = Throw x -> ~ utf8 (what x) ->
  keeps (untouched s0) (decode_command oracle e) (fun _ => False).
Proof using JL.
  intros Hx Hutf. unfold decode_command. rewrite Hx.
  apply keeps_seq; [apply untouched_prepared|]. intros batch.
  pose proof (durable_result_strict (failed_apply ErrorCode.kProtocolMalformed (what x)) Hutf)
    as Hstrict.
  apply (keeps_bind _ _ _ (fun _ => False)); [|by intros ? []].
  apply keeps_lift. intros payload Hp. by rewrite Hp in Hstrict.
Qed.

(** C21: a command whose payload does not decode is meant to get a durable
    PROTOCOL_MALFORMED result.  When the text of the decoding error quotes ill-formed UTF-8
    (as a parse error of such a payload does), that result cannot be encoded either.  Then,
    unless the command was marked as processed before, every attempt throws, whatever the
    other clients do and whatever connection is lost, and syncd itself has written nothing
    by then: on every database exactly commands of the other clients ran, so the command is
    not acknowledged and there is no durable result, no report and no marker of it; the
    device is as it was. *)
Theorem ill_formed_command_is_never_done message x (s s' : state) r :
  decodeDeviceCommand (ev_payload (event message)) = Throw x -> ~ utf8 (what x) ->
  (isAlreadyProcessed oracle (event message) s).1 <> Ok true ->
  process_command oracle message s = (r, s') ->
  (exists x', r = Throw x') /\ device_ s' = device_ s /\
  forall l, exists cs, Forall (by_others (store_oracle oracle)) cs /\
    database l (stores s') = run_cmds cs (database l (stores s)).
Proof using JL.
  intros Hx Hutf Hpro Hrun.
  assert (untouched s s' /\ forall u, r = Ok u -> False) as [[Ho Hd] Hr].
  { assert (untouched s s) as Hs by (split; [apply only_others_refl|done]).
    assert (keeps (untouched s) (isAlreadyProcessed oracle (event message)) (fun _ => True)) as Hget.
    { unfold isAlreadyProcessed. keeps_walk ltac:(apply untouched_get). }
    unfold process_command, handle_command, mbind, prog_bind in Hrun.
    destruct (isAlreadyProcessed _ _ s) as [[[]|x'] s1] eqn:Hp; [done| |];
      destruct (Hget _ _ _ Hs Hp) as [Hs1 _]; [|by injection Hrun as <- <-].
    destruct (decode_command _ _ s1) as [[b|x'] s2] eqn:Hdec;
      destruct (ill_formed_untouched s _ _ Hx Hutf _ _ _ Hs1 Hdec) as [Hs2 Hno];
      [by destruct (Hno b)|by injection Hrun as <- <-]. }
  split; [|done]. destruct r as [u|x']; [by destruct (Hr u)|by exists x'].
Qed.
End Blocked.
