(* ===== verification/SyncdLogic.v ===== *)
(** * Rules for syncd's programs: invariants of one database, and of the device. *)
From S2P Require Import Prelude ProgLogic Redis RedisKeys RedisRepository RedisRepositoryProps.
From S2P Require Import RedisOnce Services CallLogic.
From S2P Require Import DeviceApi Errors Types Json DeviceCommand SyncdRules Syncd.
From stdpp Require Import options.

(** [try]/[catch]: the handler starts from the state the exception left. *)
Lemma keeps_try_catch {S A} (I : S -> Prop) (m : prog S A) h P :
  keeps I m P -> (forall e, keeps I (h e) P) -> keeps I (try_catch m h) P.
Proof.
  intros Hm Hh s r s' Hs. unfold try_catch. destruct (m s) as [[a|e] s1] eqn:Hr.
  - intros [= <- <-]. by eapply Hm.
  - destruct (Hm s _ _ Hs Hr) as [Hs1 _]. by apply Hh.
Qed.

Lemma keeps_gets {S A} (I : S -> Prop) (f : S -> A) (P : A -> Prop) :
  (forall s, I s -> P (f s)) -> keeps I (gets f) P.
Proof. intros Hf s r s' Hs [= <- <-]. split; [done|]. intros a [= <-]. auto. Qed.

Lemma keeps_modify {S} (I : S -> Prop) (f : S -> S) :
  (forall s, I s -> I (f s)) -> keeps I (modify f) (fun _ => True).
Proof. intros Hf s r s' Hs [= <- <-]. auto. Qed.

Lemma keeps_all_of {S A} (I : S -> Prop) (p : A -> prog S bool) l :
  (forall a, a ∈ l -> keeps I (p a) (fun _ => True)) -> keeps I (all_of p l) (fun _ => True).
Proof.
  induction l as [|a l IH]; intros Hp; simpl; [by apply keeps_ret|].
  apply keeps_seq; [apply Hp; by left|]. intros [|]; [|by apply keeps_ret].
  apply IH. intros b Hb. apply Hp. by right.
Qed.

Lemma keeps_any_mapM {S A B} (I : S -> Prop) (f : A -> prog S B) l :
  (forall a, keeps I (f a) (fun _ => True)) -> keeps I (mapM f l) (fun _ => True).
Proof. intros Hf. eapply keeps_weaken; [by apply (keeps_mapM _ _ (fun _ => True))|done]. Qed.

Lemma keeps_any_collect {S A B} (I : S -> Prop) (f : A -> prog S (option B)) l :
  (forall a, keeps I (f a) (fun _ => True)) -> keeps I (collect_all f l) (fun _ => True).
Proof.
  intros Hf. eapply keeps_weaken; [apply (keeps_collect_all _ _ (fun _ => True))|done].
  intros a _. eapply keeps_weaken; [apply Hf|done].
Qed.

Section Logic.
Context {J : JsonLib} {DB : Type} {R : Redis DB} {RL : RedisLaws DB}.
Context {G : RedisGroups DB} {GL : RedisGroupLaws DB}.
Context {D : Type} {API : OcsDeviceApi D}.
Variable oracle : SyncdOracle D.
#[local] Abbreviation state := (Syncd DB D).

(** ** Calls that leave the service's own fields alone *)

(** The device is [d]. *)
Definition device_is (d : D) (s : state) : Prop := device_ s = d.

Lemma keeps_on_stores {A} (I : World DB -> Prop) (m : prog (World DB) A) P :
  keeps I m P -> keeps (fun s : state => I (stores s)) (on_stores m) P.
Proof.
  intros Hm [w d name gen] r s' Hs. simpl in *. destruct (m w) as [r1 w1] eqn:Hr.
  intros [= <- <-]. by apply (Hm w).
Qed.

Lemma stores_device {A} (m : prog (World DB) A) d :
  keeps (device_is d) (on_stores m) (fun _ => True).
Proof.
  intros [w d' name gen] r s' Hs. simpl in *. destruct (m w) as [r1 w1]. by intros [= <- <-].
Qed.

Lemma stores_generation {A} (m : prog (World DB) A) g :
  keeps (fun s : state => device_generation_ s = g) (on_stores m) (fun _ => True).
Proof.
  intros [w d' name gen] r s' Hs. simpl in *. destruct (m w) as [r1 w1]. by intros [= <- <-].
Qed.

(** A call of the device, or of a clock. *)
Lemma keeps_on_device {A} l0 (Q : DB -> Prop) (m : DeviceApi.call D A) :
  keeps (fun s : state => holds l0 Q (stores s)) (on_device oracle m) (fun _ => True).
Proof.
  intros [[] d name gen] r s' Hs. simpl in *.
  destruct (m _) as [[r1 d1]|]; intros [= <- <-]; (split; [|done]); by destruct l0.
Qed.

Lemma keeps_steady l0 (Q : DB -> Prop) :
  keeps (fun s : state => holds l0 Q (stores s)) (steady_now oracle) (fun _ => True).
Proof. intros [[] d name gen] r s' Hs [= <- <-]. split; [|done]. by destruct l0. Qed.

Lemma keeps_now_ns l0 (Q : DB -> Prop) :
  keeps (fun s : state => holds l0 Q (stores s)) (now_ns oracle) (fun _ => True).
Proof. intros [[] d name gen] r s' Hs [= <- <-]. split; [|done]. by destruct l0. Qed.

Lemma keeps_scan l0 (Q : DB -> Prop) l pattern :
  keeps (fun s : state => holds l0 Q (stores s)) (scan_keys oracle l pattern) (fun _ => True).
Proof. intros [[] d name gen] r s' Hs [= <- <-]. split; [|done]. by destruct l0. Qed.

Lemma keeps_phase (I : state -> Prop) name : keeps I (phase oracle name) (fun _ => True).
Proof. intros [w d dn gen] r s' Hs [= <- <-]. done. Qed.

Lemma keeps_before_ack (I : state -> Prop) : keeps I (before_ack oracle) (fun _ => True).
Proof. intros s r s' Hs [= <- <-]. done. Qed.

Lemma keeps_identity l0 (Q : DB -> Prop) name gen :
  keeps (fun s : state => holds l0 Q (stores s)) (set_identity name gen) (fun _ => True).
Proof. by apply keeps_modify. Qed.

(** ** Calls of the repository *)
Variable l0 : LogicalDb.t.
Variable Q : DB -> Prop.
Variable allowed : redis_cmd -> Prop.
Hypothesis Hstable : forall c db, allowed c -> Q db -> Q (execute c db).
Hypothesis Hothers : oracle_within allowed (store_oracle oracle).
#[local] Abbreviation inv := (fun s : state => holds l0 Q (stores s)).
#[local] Set Default Proof Using "Type*".

Lemma keeps_update_other {A} l (op : (nat -> interference) -> prog DB A) :
  l <> l0 -> keeps inv (update oracle l op) (fun _ => True).
Proof using. intros Hl. by apply keeps_on_stores, keeps_call_other. Qed.

Lemma keeps_get key :
  keeps inv (get oracle l0 key) (fun m => exists db, Q db /\ m = hgetall key db).
Proof. by apply keeps_on_stores, (keeps_get_hash _ _ _ Hstable _ Hothers). Qed.

Lemma keeps_get_any l key : keeps inv (get oracle l key) (fun _ => True).
Proof.
  destruct (decide (l = l0)) as [->|Hl]; [|by apply keeps_update_other].
  eapply keeps_weaken; [apply keeps_get|done].
Qed.

Lemma keeps_put key fs :
  (forall db, Q db -> Q (run_cmds (replace_hash key fs) db)) ->
  keeps inv (put oracle l0 key fs) (fun _ => True).
Proof.
  intros Hq. apply keeps_on_stores, (keeps_plain _ _ _ Hstable _ Hothers).
  intros db Hdb. split; [by apply Hq|done].
Qed.

Lemma keeps_put_all hashes :
  (forall db, Q db ->
     Q (run_cmds (concat ((fun '(key, fs) => replace_hash key fs) <$> hashes)) db)) ->
  keeps inv (update oracle l0 (plain (putHashesAtomically hashes Replied))) (fun _ => True).
Proof.
  intros Hq. apply keeps_on_stores, (keeps_plain _ _ _ Hstable _ Hothers).
  intros db Hdb. split; [by apply Hq|done].
Qed.

Lemma keeps_put_absent key fs :
  (forall db, Q db -> exists_key key db = false -> fs <> ∅ ->
     Q (execute (HMSET key (sorted_items fs)) db)) ->
  keeps inv (update oracle l0 (putHashIfAbsent key fs)) (fun _ => True).
Proof. intros Hq. by apply keeps_on_stores, (keeps_put_if_absent _ _ _ Hstable _ Hothers). Qed.

Lemma keeps_append marker mf stream e :
  (forall db, Q db -> exists_key marker db = false -> validateEvent e = Ok tt ->
     Q (run_cmds [XADD stream (eventFields e); HMSET marker (sorted_items mf)] db)) ->
  keeps inv (update oracle l0 (appendEventOnce marker mf stream e)) (fun _ => True).
Proof. intros Hq. by apply keeps_on_stores, (keeps_append_once _ _ _ Hstable _ Hothers). Qed.

Lemma keeps_next stream group consumer min_idle l :
  reads_data Q ->
  keeps inv (on_stores (next_message (store_oracle oracle) l stream group consumer min_idle))
    (fun _ => True).
Proof.
  intros Hd. destruct (decide (l = l0)) as [->|Hl].
  - by apply keeps_on_stores, (keeps_next_message _ _ _ Hstable _ Hothers).
  - apply keeps_on_stores. unfold next_message.
    keeps_walk ltac:(first [by apply keeps_call_other]).
Qed.

Lemma keeps_acknowledge stream group id failure :
  reads_data Q -> keeps inv (acknowledge_on oracle stream group id failure) (fun _ => True).
Proof.
  intros Hd. unfold acknowledge_on. apply keeps_seq.
  2: { intros n. case_decide; [apply keeps_throw|by apply keeps_ret]. }
  destruct (decide (LogicalDb.kDevice = l0)) as [Hl|Hl]; [|by apply keeps_update_other].
  rewrite Hl. apply keeps_on_stores, (keeps_plain _ _ _ Hstable _ Hothers).
  intros db Hdb. split; [|done]. unfold RedisRepository.acknowledge.
  pose proof (xack_data stream group id db) as Hx. destruct (xack _ _ _ _) as [n db'].
  by eapply Hd.
Qed.
End Logic.

(** Walk through a program of syncd; [leaf] closes the writes. *)
Ltac syncd_step leaf :=
  first
    [ progress intros
    | progress cbv zeta
    | match goal with
      | |- keeps _ (mret _) _ => apply keeps_ret; try exact Logic.I
      | |- keeps _ (throw _) _ => apply keeps_throw
      | |- keeps _ (lift _) _ => apply keeps_lift; intros; try exact Logic.I
      | |- keeps _ (gets _) _ => apply keeps_gets; intros; try exact Logic.I
      | |- keeps _ (for_each _ _) _ => apply keeps_for_each
      | |- keeps _ (all_of _ _) _ => apply keeps_all_of
      | |- keeps _ (mapM _ _) _ => apply keeps_any_mapM
      | |- keeps _ (collect_all _ _) _ => apply keeps_any_collect
      | |- keeps _ (try_catch _ _) _ => apply keeps_try_catch
      | |- keeps _ (on_device _ _) _ => apply keeps_on_device
      | |- keeps _ (steady_now _) _ => apply keeps_steady
      | |- keeps _ (now_ns _) _ => apply keeps_now_ns
      | |- keeps _ (scan_keys _ _ _) _ => apply keeps_scan
      | |- keeps _ (phase _ _) _ => apply keeps_phase
      | |- keeps _ (before_ack _) _ => apply keeps_before_ack
      | |- keeps _ (set_identity _ _) _ => apply keeps_identity
      | |- keeps _ (_ ≫= _) _ => apply keeps_seq
      | |- keeps _ (match ?x with _ => _ end) _ => destruct x
      end
    | leaf ].
Ltac syncd_walk leaf := repeat syncd_step ltac:(idtac; leaf).
