(* ===== verification/SyncdSteps.v ===== *)
(** * syncd as a transition system, and the invariants of DEVICE_DB under its calls.

    A step is one call of the service, with any oracle, or some commands of other clients
    on one database.  The first of these invariants: once a key of DEVICE_DB holds a hash
    (or just exists) it does so for ever, through any calls and crashes of the service, when
    the other clients do not delete it. *)
From S2P Require Import Prelude ProgLogic Errors Types DeviceApi Json DeviceCommand.
From S2P Require Import RedisKeys Redis RedisRepository RedisRepositoryProps RedisOnce.
From S2P Require Import RedisEvents Services CallLogic SyncdRules Syncd SyncdPublish.
From S2P Require Import SyncdPorts SyncdRecovery SyncdReconcile SyncdPoll SyncdLogic.
From stdpp Require Import options.

(** The public operations; [Start] is a new process, the constructor and [initialize]. *)
Inductive syncd_call :=
  | ProcessOne (consumer : string)
  | ProcessFaultOne (consumer : string)
  | PollDevice
  | PollDeviceLiveness
  | Start.

(** SCAN returns keys that match the pattern: no special character of a pattern stands
    before its [*], so they start with the text before it. *)
Definition special (c : ascii) : bool :=
  bool_decide (c ∈ ["*"; "?"; "["; "\"]%char).
Definition literal (s : string) : Prop :=
  Forall (fun c => special c = false) (String.list_ascii_of_string s).
Definition scans_match {D} (oracle : SyncdOracle D) : Prop :=
  forall n text rest scan k cursor key,
    literal text -> scans oracle n (text +:+ rest) = Ok scan -> key ∈ (scan k cursor).2 ->
    starts_with text key = true.

Lemma collect_page_in max_results page seen keys seen' keys' k :
  collect_page max_results page seen keys = Ok (seen', keys') -> k ∈ keys' ->
  k ∈ keys \/ k ∈ page.
Proof.
  revert seen keys. induction page as [|x page IH]; intros seen keys; simpl.
  { intros [= <- <-]. auto. }
  case_decide.
  - intros Hc Hk. destruct (IH _ _ Hc Hk); [by left|right; by right].
  - case_decide; [done|]. intros Hc Hk.
    destruct (IH _ _ Hc Hk) as [[?|<-%list_elem_of_singleton]%elem_of_app|]; [by left|..];
      right; [by left|by right].
Qed.

Lemma scan_loop_in scan pages n max_results cursor seen keys keys' k :
  scan_loop scan pages n max_results cursor seen keys = Ok keys' -> k ∈ keys' ->
  k ∈ keys \/ exists m c, k ∈ (scan m c).2.
Proof.
  revert n cursor seen keys. induction pages as [|pages IH]; intros n cursor seen keys; simpl; [done|].
  destruct (scan n cursor) as [cursor' page] eqn:Hs.
  destruct (collect_page _ _ _ _) as [[seen1 keys1]|] eqn:Hc; [|done]. simpl. intros Hr Hk.
  assert (k ∈ keys1 -> k ∈ keys \/ exists m c, k ∈ (scan m c).2) as Hpage.
  { intros Hk1. destruct (collect_page_in _ _ _ _ _ _ _ Hc Hk1); [by left|].
    right. exists n, cursor. by rewrite Hs. }
  case_decide; [injection Hr as <-; auto|]. destruct (IH _ _ _ _ Hr Hk); auto.
Qed.

Lemma scanKeys_in scan pattern max_results keys k :
  scanKeys scan pattern max_results = Ok keys -> k ∈ keys -> exists m c, k ∈ (scan m c).2.
Proof.
  unfold scanKeys. case_decide; [done|].
  destruct (scan_loop _ _ _ _ _ _ _) as [keys'|] eqn:Hl; [|done]. intros [= <-] Hk.
  rewrite merge_sort_Permutation in Hk.
  by destruct (scan_loop_in _ _ _ _ _ _ _ _ _ Hl Hk) as [?%elem_of_nil|].
Qed.

Section Steps.
Context {J : JsonLib} {DB : Type} {R : Redis DB} {RL : RedisLaws DB}.
Context {G : RedisGroups DB} {GL : RedisGroupLaws DB}.
Context {D : Type} {API : OcsDeviceApi D}.
Variable min_idle : Z.

Definition run_syncd (oracle : SyncdOracle D) (c : syncd_call) : prog (Syncd DB D) bool :=
  match c with
  | ProcessOne consumer => processOne min_idle oracle consumer
  | ProcessFaultOne consumer => processFaultOne min_idle oracle consumer
  | PollDevice => pollDevice oracle
  | PollDeviceLiveness => pollDeviceLiveness oracle
  | Start => set_identity "" 0 ;; initialize oracle ;; mret true
  end.

Definition others_run (l : LogicalDb.t) (cs : list redis_cmd) (s : Syncd DB D) : Syncd DB D :=
  mkSyncd (after_call l (run_cmds cs (database l (stores s))) (stores s)) (device_ s)
    (device_name_ s) (device_generation_ s).

(** One call with an oracle of some class, or commands of other clients. *)
Inductive syncd_step (oracles : SyncdOracle D -> Prop) (allowed : redis_cmd -> Prop)
    : relation (Syncd DB D) :=
  | SyncdStep oracle c s r s' :
      oracles oracle -> oracle_within allowed (store_oracle oracle) ->
      run_syncd oracle c s = (r, s') -> syncd_step oracles allowed s s'
  | SyncdOthers l cs s : Forall allowed cs -> syncd_step oracles allowed s (others_run l cs s).

Lemma syncd_invariant oracles allowed l0 (Q : DB -> Prop) s s' :
  (forall c db, allowed c -> Q db -> Q (execute c db)) ->
  (forall oracle c, oracles oracle -> oracle_within allowed (store_oracle oracle) ->
     keeps (fun s => holds l0 Q (stores s)) (run_syncd oracle c) (fun _ => True)) ->
  rtc (syncd_step oracles allowed) s s' -> holds l0 Q (stores s) -> holds l0 Q (stores s').
Proof using Type.
  intros Hstable Hkeeps. induction 1 as [|s1 s2 s3 Hstep _ IH]; [done|]. intros Hs. apply IH.
  destruct Hstep as [oracle c s1 r s2 Hor Ho Hr|l cs s1 Hcs].
  - by destruct (Hkeeps oracle c Hor Ho s1 r s2 Hs Hr).
  - unfold others_run. simpl. by eapply others_hold.
Qed.

(** ** DEVICE_DB *)
Section DeviceDb.
Variable oracle : SyncdOracle D.
Variable Q : DB -> Prop.
Variable allowed : redis_cmd -> Prop.
Hypothesis Hstable : forall c db, allowed c -> Q db -> Q (execute c db).
Hypothesis Hothers : oracle_within allowed (store_oracle oracle).
Hypothesis Hreads : reads_data Q.
#[local] Abbreviation inv := (fun s : Syncd DB D => holds LogicalDb.kDevice Q (stores s)).
Ltac other := first [ apply keeps_update_other; done
                    | apply (keeps_get_any _ _ _ _ Hstable Hothers) ].
Ltac moved := first [ apply (keeps_acknowledge _ _ _ _ Hstable Hothers); assumption
                    | apply (keeps_next _ _ _ _ Hstable Hothers); assumption
                    | other ].

(** What is written with a marker or only when absent. *)
Hypothesis Hattempt : forall id fs db, Q db ->
  exists_key (deviceApplyAttemptKey id) db = false -> fs <> ∅ ->
  Q (execute (HMSET (deviceApplyAttemptKey id) (sorted_items fs)) db).
Hypothesis Hfault : forall id fs db, Q db ->
  exists_key (faultResultKey id) db = false -> fs <> ∅ ->
  Q (execute (HMSET (faultResultKey id) (sorted_items fs)) db).

(** A result event of the command [id] for one resource: its payload encodes a result. *)
Definition result_event (id : string) (ev : EventEnvelope) : Prop :=
  (event_id ev = id +:+ ":result:" +:+ resource_id ev \/ event_id ev = id +:+ ":result") /\
  ev_operation ev = "APPLY_RESULT" /\ exists r, resultPayload r id = Ok (ev_payload ev).
Hypothesis Hpublish : forall id ev mf db, Q db -> result_event id ev -> mf <> ∅ ->
  exists_key (syncdResultPublicationKey id (resource_id ev)) db = false ->
  Q (run_cmds [XADD kDeviceResults (eventFields ev);
               HMSET (syncdResultPublicationKey id (resource_id ev)) (sorted_items mf)] db).

(** What is replaced whatever was there. *)
Hypothesis Hresult : forall id payload ms db, Q db ->
  Q (run_cmds (replace_hash (deviceApplyResultKey id) (result_fields payload ms)) db).
Variable write_ok : string * gmap string string -> Prop.
Hypothesis Hwrites : forall hashes db, Forall write_ok hashes -> Q db ->
  Q (run_cmds (concat ((fun '(key, fs) => replace_hash key fs) <$> hashes)) db).
Hypothesis Hprocessed : forall e now applied,
  write_ok (processedDeviceCommandKey (event_id e), processed_fields e now applied).
Hypothesis Hversion : forall e c,
  keeps inv (version_update oracle e c) (fun o => forall kf, o = Some kf -> write_ok kf).
Hypothesis Hcontrol : forall device fs, fs <> ∅ -> write_ok (syncdReconciliationKey device, fs).
Hypothesis Hrecovered : forall n device scan k cursor key fs,
  scans oracle n (syncdPortFaultPattern device) = Ok scan -> key ∈ (scan k cursor).2 ->
  fs <> ∅ -> write_ok (key, fs).

Lemma keeps_put_result id payload ms :
  keeps inv (put oracle LogicalDb.kDevice (deviceApplyResultKey id) (result_fields payload ms))
    (fun _ => True).
Proof using API RL GL Hstable Hothers Hresult. apply (keeps_put _ _ _ _ Hstable Hothers). intros db. apply Hresult. Qed.

Lemma keeps_known e c : keeps inv (known oracle e c) (fun _ => True).
Proof using API RL GL Hstable Hothers. unfold known. syncd_walk other. Qed.

Lemma keeps_run_attempt e batch : keeps inv (run_attempt oracle e batch) (fun _ => True).
Proof using API RL GL Hstable Hothers Hattempt Hresult.
  unfold run_attempt, apply_on_device, confirmAppliedResult, confirm_command.
  syncd_walk ltac:(first [other | apply keeps_put_result
    | apply (keeps_put_absent _ _ _ _ Hstable Hothers); intros; by apply Hattempt]).
Qed.

Lemma keeps_decode e : keeps inv (decode_command oracle e) (fun _ => True).
Proof using API RL GL Hstable Hothers Hresult.
  unfold decode_command, recoverPreparedBatch.
  syncd_walk ltac:(first [other | apply keeps_put_result]).
Qed.

Lemma keeps_durable e batch : keeps inv (durable_result oracle e batch) (fun _ => True).
Proof using API RL GL Hstable Hothers Hattempt Hresult.
  unfold durable_result, isStaleVersion.
  syncd_walk ltac:(first [apply keeps_run_attempt | apply keeps_known | other]).
Qed.

Lemma keeps_result_publication id ev mf :
  result_event id ev -> mf <> ∅ ->
  keeps inv (update oracle LogicalDb.kDevice
    (appendEventOnce (syncdResultPublicationKey id (resource_id ev)) mf kDeviceResults ev))
    (fun _ => True).
Proof using API RL GL Hstable Hothers Hpublish. intros. apply (keeps_append _ _ _ _ Hstable Hothers). intros. by apply Hpublish. Qed.

Lemma keeps_results e batch r : keeps inv (publishResult oracle e batch r) (fun _ => True).
Proof using API RL GL Hstable Hothers Hpublish.
  unfold publishResult, publish_batch_result, publish_command_result.
  assert (forall (p : result string) (f : string -> prog (Syncd DB D) unit),
    (forall payload, p = Ok payload -> keeps inv (f payload) (fun _ => True)) ->
    keeps inv (lift p ≫= f) (fun _ => True)) as Hpayload.
  { intros p f Hf. eapply keeps_bind; [apply keeps_lift; intros ? Hp; exact Hp|done]. }
  assert (forall x y : string, ({["command_id" := x; "connection_id" := y]} : gmap string string)
    <> ∅) as Hmf by (intros; by apply insert_non_empty).
  destruct (batch_commands batch) as [|c commands]; [|apply keeps_for_each; intros c' _];
    repeat first [apply Hpayload; intros payload Hp | apply keeps_seq; [by first [other | apply keeps_now_ns]|intros ?]].
  all: apply keeps_seq; [|intros; by apply keeps_ret].
  all: apply (keeps_result_publication (event_id e) (mkEventEnvelope _ _ _ _ _ _ _ _ _ _)); [|apply Hmf].
  all: split_and!; [first [by left|by right]|done|by eexists].
Qed.

Lemma keeps_port_faults device :
  keeps inv (portFaults oracle device)
    (Forall (fun kf => exists n scan k cursor,
       scans oracle n (syncdPortFaultPattern device) = Ok scan /\ kf.1 ∈ (scan k cursor).2)).
Proof using API RL GL Hstable Hothers.
  unfold portFaults. eapply (keeps_bind _ _ _ (Forall (fun key => exists n scan k cursor,
    scans oracle n (syncdPortFaultPattern device) = Ok scan /\ key ∈ (scan k cursor).2))).
  { intros s r s' Hs Hr. split; [by eapply keeps_scan|]. intros keys ->.
    destruct s as [w d name gen]. injection Hr as Hr _.
    apply result_bind_Ok in Hr as (scan & Hscan & Hkeys).
    apply Forall_forall. intros key Hkey.
    destruct (scanKeys_in _ _ _ _ _ Hkeys Hkey) as (m & c & Hin). by exists (calls w), scan, m, c. }
  intros keys Hkeys. eapply keeps_bind.
  - apply (keeps_mapM _ _ (fun kf => exists n scan k cursor,
      scans oracle n (syncdPortFaultPattern device) = Ok scan /\ kf.1 ∈ (scan k cursor).2)).
    intros key Hkey. rewrite Forall_forall in Hkeys. apply keeps_seq; [other|].
    intros fields. apply keeps_ret. by apply Hkeys.
  - intros kfs Hkfs. apply keeps_ret. apply Forall_forall.
    intros kf [_ Hkf]%list_elem_of_filter. rewrite Forall_forall in Hkfs. by apply Hkfs.
Qed.

Lemma keeps_recovered e kf n scan k cursor :
  scans oracle n (syncdPortFaultPattern (ev_device e)) = Ok scan -> kf.1 ∈ (scan k cursor).2 ->
  keeps inv (recovered_fault oracle e kf) (fun o => forall kf, o = Some kf -> write_ok kf).
Proof using API RL GL Hstable Hothers Hrecovered.
  intros Hscan Hin. unfold recovered_fault. destruct kf as [key fault].
  destruct (has _ _ _); [|by apply keeps_ret].
  apply keeps_seq; [apply keeps_now_ns|]. intros now. apply keeps_ret. intros ? [= <-].
  eapply Hrecovered; [done..|apply insert_non_empty].
Qed.

Lemma Forall_omap_id {A} (P : A -> Prop) (l : list (option A)) :
  Forall (fun o => forall a, o = Some a -> P a) l -> Forall P (omap id l).
Proof using.
  induction 1 as [|[a|] l Ho _ IH]; simpl; [constructor|constructor; auto|done].
Qed.

Lemma keeps_reconciliation_updates e applied :
  keeps inv (reconciliation_updates oracle e applied) (Forall write_ok).
Proof using API RL GL Hstable Hothers Hcontrol Hrecovered.
  unfold reconciliation_updates. apply keeps_seq; [other|]. intros control.
  eapply (keeps_bind _ _ _ (Forall write_ok)).
  { destruct (has _ _ _); [|apply keeps_ret; constructor].
    apply keeps_seq; [apply keeps_now_ns|]. intros now. apply keeps_ret.
    repeat constructor. apply Hcontrol, insert_non_empty. }
  intros controls Hcontrols. destruct applied; [|by apply keeps_ret].
  apply keeps_seq; [other|]. intros _.
  eapply keeps_bind; [apply keeps_port_faults|]. intros faults Hfaults.
  eapply keeps_bind.
  - apply (keeps_mapM _ _ (fun o => forall kf, o = Some kf -> write_ok kf)).
    intros kf Hkf. rewrite Forall_forall in Hfaults.
    destruct (Hfaults kf Hkf) as (n & scan & k & cursor & Hscan & Hin).
    by eapply keeps_recovered.
  - intros recovered Hrec. apply keeps_ret. apply Forall_app. split; [done|].
    by apply Forall_omap_id.
Qed.

Lemma keeps_mark e batch applied : keeps inv (markProcessed oracle e batch applied) (fun _ => True).
Proof using API RL GL Hstable Hothers Hwrites Hprocessed Hversion Hcontrol Hrecovered.
  unfold markProcessed. apply keeps_seq; [apply keeps_now_ns|]. intros now.
  eapply (keeps_bind _ _ _ (Forall (fun o => forall kf, o = Some kf -> write_ok kf))).
  { destruct applied; [|apply keeps_ret; constructor].
    apply keeps_mapM. intros c _. apply Hversion. }
  intros versions Hversions. eapply (keeps_bind _ _ _ (Forall write_ok)).
  { destruct (isReconciliation _); [apply keeps_reconciliation_updates|apply keeps_ret; constructor]. }
  intros updates Hupdates. apply (keeps_put_all _ _ _ _ Hstable Hothers). intros db.
  apply Hwrites. constructor; [apply Hprocessed|]. apply Forall_app. split; [|done].
  by apply Forall_omap_id.
Qed.

Lemma keeps_state_publication e batch r : keeps inv (publishState oracle e batch r) (fun _ => True).
Proof using API RL GL Hstable Hothers.
  unfold publishState, publish_command_state, publish_unchanged, publish_changed, new_state,
    published_delta. syncd_walk other.
Qed.

Lemma keeps_outcome e batch stored : keeps inv (publish_outcome oracle e batch stored) (fun _ => True).
Proof using API RL GL Hstable Hothers Hattempt Hpublish Hresult Hwrites Hprocessed Hversion Hcontrol Hrecovered.
  unfold publish_outcome.
  syncd_walk ltac:(first [apply keeps_state_publication | apply keeps_results | apply keeps_mark
    | other]).
Qed.

Lemma keeps_handle e : keeps inv (handle_command oracle e) (fun _ => True).
Proof using API RL GL Hstable Hothers Hattempt Hpublish Hresult Hwrites Hprocessed Hversion Hcontrol Hrecovered.
  unfold handle_command, isAlreadyProcessed.
  syncd_walk ltac:(first [apply keeps_decode | apply keeps_durable | apply keeps_mark
    | apply keeps_outcome | other]).
Qed.

Lemma keeps_process message : keeps inv (process_command oracle message) (fun _ => True).
Proof using API RL GL Hstable Hothers Hattempt Hpublish Hresult Hwrites Hprocessed Hversion Hcontrol Hrecovered Hreads.
  unfold process_command, acknowledge. apply keeps_seq; [apply keeps_handle|]. intros _. moved.
Qed.

Lemma keeps_process_fault message : keeps inv (process_fault oracle message) (fun _ => True).
Proof using API RL GL Hstable Hothers Hreads Hfault.
  unfold process_fault, run_fault.
  syncd_walk ltac:(first [moved
    | apply (keeps_put_absent _ _ _ _ Hstable Hothers); intros; by apply Hfault]).
Qed.

Lemma keeps_handling c :
  match c with ProcessOne _ | ProcessFaultOne _ => True | _ => False end ->
  keeps inv (run_syncd oracle c) (fun _ => True).
Proof using API RL GL Hstable Hothers Hattempt Hpublish Hresult Hwrites Hprocessed Hversion Hcontrol Hrecovered Hreads Hfault.
  destruct c; simpl; [intros _..|done|done|done]; unfold processOne, processFaultOne;
    syncd_walk ltac:(first [apply keeps_process | apply keeps_process_fault | moved]).
Qed.
End DeviceDb.
End Steps.

Section Kept.
Context {J : JsonLib} {DB : Type} {R : Redis DB} {RL : RedisLaws DB}.
Context {G : RedisGroups DB} {GL : RedisGroupLaws DB}.
Context {D : Type} {API : OcsDeviceApi D}.

(** [ok] is "is a hash" or "exists". *)
Variable ok : key_type -> Prop.
Hypothesis Hhash : ok KHash.
Hypothesis Hnone : ~ ok KNone.
Variable k : string.

Definition kept (db : DB) : Prop := ok (type_of k db).

Lemma kept_stable c db : spares k c -> kept db -> kept (execute c db).
Proof using RL Hnone.
  intros Hc Hk. unfold kept in *. rewrite execute_keeps; [done|done|].
  intros Ht. apply Hnone. by rewrite <-Ht.
Qed.

Lemma kept_run cs db : Forall (spares k) cs -> kept db -> kept (run_cmds cs db).
Proof using RL Hnone. intros Hcs. eapply stable_run; [apply kept_stable|done]. Qed.

Lemma kept_reads_data : reads_data kept.
Proof using Type. intros db db' Hdb Hd. unfold kept. by destruct (Hd k) as (-> & _). Qed.

Lemma replaced_hash key fs (db : DB) :
  fs <> ∅ -> type_of key (run_cmds (replace_hash key fs) db) = KHash.
Proof using RL. intros Hfs. apply type_hash. by rewrite replace_hash_run. Qed.

Lemma kept_replace key fs db : fs <> ∅ -> kept db -> kept (run_cmds (replace_hash key fs) db).
Proof using RL Hhash Hnone.
  intros Hfs Hdb. destruct (decide (key = k)) as [->|Hne].
  - unfold kept. by rewrite replaced_hash.
  - apply kept_run; [|done]. apply Forall_forall. intros c Hc%replace_hash_targets ->.
    by apply Hne.
Qed.

Lemma kept_replace_all hashes db :
  Forall (fun kf => kf.2 <> ∅) hashes -> kept db ->
  kept (run_cmds (concat ((fun '(key, fs) => replace_hash key fs) <$> hashes)) db).
Proof using RL Hhash Hnone.
  intros Hf. revert db. induction Hf as [|[key fs] hashes Hfs _ IH]; intros db Hdb; simpl; [done|].
  rewrite run_cmds_app. by apply IH, kept_replace.
Qed.

Variable oracle : SyncdOracle D.
Hypothesis Hothers : oracle_within (spares k) (store_oracle oracle).
#[local] Abbreviation inv := (fun s : Syncd DB D => holds LogicalDb.kDevice kept (stores s)).
#[local] Abbreviation written := (fun kf : string * gmap string string => kf.2 <> ∅).
#[local] Set Default Proof Using "Type*".

Lemma written_version e c :
  keeps inv (version_update oracle e c) (fun o => forall kf, o = Some kf -> written kf).
Proof.
  unfold version_update. apply keeps_seq.
  { apply (keeps_known _ _ _ kept_stable Hothers). }
  intros [|]; [by apply keeps_ret|]. apply keeps_seq; [by apply keeps_gets|].
  intros generation. apply keeps_ret. intros ? [= <-]. apply insert_non_empty.
Qed.

(** Everything the service does keeps the key. *)
Lemma kept_handle e : keeps inv (handle_command oracle e) (fun _ => True).
Proof.
  apply (keeps_handle _ _ _ kept_stable Hothers) with (write_ok := written).
  - intros. by apply kept_stable.
  - intros id ev mf db Hdb _ _ _. apply kept_run; [by repeat constructor|done].
  - intros. apply kept_replace; [apply insert_non_empty|done].
  - intros hashes db Hf. by apply kept_replace_all.
  - intros. apply insert_non_empty.
  - apply written_version.
  - done.
  - done.
Qed.

Lemma kept_mark e batch applied : keeps inv (markProcessed oracle e batch applied) (fun _ => True).
Proof.
  apply (keeps_mark _ _ _ kept_stable Hothers) with (write_ok := written).
  - intros hashes db Hf. by apply kept_replace_all.
  - intros. apply insert_non_empty.
  - apply written_version.
  - done.
  - done.
Qed.

Lemma kept_results e batch r : keeps inv (publishResult oracle e batch r) (fun _ => True).
Proof.
  apply (keeps_results _ _ _ kept_stable Hothers).
  intros id ev mf db Hdb _ _ _. apply kept_run; [by repeat constructor|done].
Qed.

Lemma kept_acknowledge stream group id failure :
  keeps inv (acknowledge_on oracle stream group id failure) (fun _ => True).
Proof. apply (keeps_acknowledge _ _ _ _ kept_stable Hothers), kept_reads_data. Qed.

Lemma kept_fault message : keeps inv (process_fault oracle message) (fun _ => True).
Proof.
  apply (keeps_process_fault _ _ _ kept_stable Hothers kept_reads_data).
  intros. by apply kept_stable.
Qed.

Lemma kept_get_hash key :
  keeps inv (get oracle LogicalDb.kDevice key) (fun m => exists db, kept db /\ m = hgetall key db).
Proof. apply (keeps_get _ _ _ _ kept_stable Hothers). Qed.
End Kept.

(** ** Hashes, and keys that exist *)
Definition is_hash (t : key_type) : Prop := t = KHash.
Definition is_there (t : key_type) : Prop := t <> KNone.
Lemma no_hash : ~ is_hash KNone.
Proof. done. Qed.
Lemma hash_there : is_there KHash.
Proof. done. Qed.
Lemma none_there : ~ is_there KNone.
Proof. by intros H. Qed.

Section DeviceDb.
Context {J : JsonLib} {DB : Type} {R : Redis DB} {RL : RedisLaws DB}.
Context {G : RedisGroups DB} {GL : RedisGroupLaws DB}.
Context {D : Type} {API : OcsDeviceApi D}.
#[local] Abbreviation state := (Syncd DB D).
#[local] Set Default Proof Using "Type*".

(** DEVICE_DB *)
Definition device_db (s : state) : DB := device_db_ (stores s).

Variable oracle : SyncdOracle D.

Lemma hash_read k : oracle_within (spares k) (store_oracle oracle) ->
  keeps (fun s : state => holds LogicalDb.kDevice (kept is_hash k) (stores s))
    (get oracle LogicalDb.kDevice k) (fun m => m <> ∅).
Proof using API RL GL.
  intros Ho. eapply keeps_weaken; [by apply (kept_get_hash is_hash eq_refl no_hash)|].
  intros m (db & Hdb & ->). by apply type_hash.
Qed.

End DeviceDb.
