(* ===== verification/SyncdMain.v ===== *)
(** * The ocs-syncd process (ocs-syncd/main.cpp).

    [main] checks its settings, makes the UDS backend and the service and calls the service
    in a loop; beside it a thread publishes the heartbeat of the process.  The calls are
    steps of SyncdSteps.v, and to the service the thread is another client. *)
From S2P Require Import Prelude Process Redis RedisKeys RedisRepository RedisRepositoryProps.
From S2P Require Import DeviceApi UdsBackend Json Services CallLogic Syncd SyncdPublish SyncdPoll SyncdSteps.
From stdpp Require Import options.

Definition pendingMinIdle (getenv : string -> option string) : result Z :=
  read_setting getenv "OCS_SYNCD_PENDING_MIN_IDLE_MS" 5000 0 3600000
    "OCS_SYNCD_PENDING_MIN_IDLE_MS is outside 0..3600000".

Definition devicePollInterval (getenv : string -> option string) : result Z :=
  read_setting getenv "OCS_SYNCD_DEVICE_POLL_MS" 250 10 3600000
    "OCS_SYNCD_DEVICE_POLL_MS is outside 10..3600000".

(** Milliseconds on the steady clock, which counts nanoseconds *)
Definition milliseconds (n : Z) : Z := (n * 1000000)%Z.

(** ** The heartbeat thread *)
Section Heartbeat.
Context {DB : Type} {R : Redis DB} {G : RedisGroups DB}.
(** [stop_token.stop_requested()], by the number of calls made so far *)
Variable stop_requested : nat -> bool.
Variable oracle : Oracle.

Definition beat_fields (now : Z) : gmap string string :=
  {["service" := "ocs-syncd"; "status" := "ONLINE"; "last_seen_ns" := to_string now]}.

(** One round of the loop: whether the current failure has been reported, and what the
    round adds to the error output. *)
Definition heartbeat_round (failure_reported : bool) : prog (World DB) (bool * list string) :=
  try_catch
    (now ← timestampNowNs oracle;
     call oracle LogicalDb.kState
       (plain (putHash (serviceStateKey "ocs-syncd") (beat_fields now) Replied)) ;;
     mret (false, []))
    (fun error => mret (if failure_reported then (true, [])
                        else (true, ["ocs-syncd heartbeat failed: " +:+ what error]))).

Fixpoint heartbeat_loop (fuel : nat) (failure_reported : bool) : prog (World DB) (list string) :=
  fun w =>
  match fuel with
  | O => (Ok [], w)
  | S fuel =>
      if stop_requested (calls w) then (Ok [], w)
      else (round ← heartbeat_round failure_reported;
            let '(reported, line) := round in
            rest ← heartbeat_loop fuel reported; mret (line ++ rest)) w
  end.

(** The lines of the error output: opening the repository may fail. *)
Definition publishProcessHeartbeat (open_repository : result unit) (fuel : nat)
    : prog (World DB) (list string) :=
  try_catch (lift open_repository ;; heartbeat_loop fuel false)
    (fun error => mret ["ocs-syncd heartbeat stopped: " +:+ what error]).
End Heartbeat.

(** ** The main thread *)
Section Main.
Context {J : JsonLib} {DB : Type} {R : Redis DB} {G : RedisGroups DB}.
Context {D : Type} {API : OcsDeviceApi D}.
Variable process : Process RedisEndpoint.
Variable oracle : SyncdOracle D.

(** [before_ack]: with OCS_SYNCD_CRASH_BEFORE_ACK_ONCE it ends the process at once. *)
Definition crash_before_ack : exn := RuntimeError "ocs-syncd test crash before ACK".
Definition crash_wanted : bool :=
  bool_decide (is_Some (getenv process "OCS_SYNCD_CRASH_BEFORE_ACK_ONCE")).
Definition main_oracle : SyncdOracle D :=
  mkSyncdOracle (store_oracle oracle) (device_events oracle) (steady_clock oracle)
    (fun _ => if crash_wanted then Throw crash_before_ack else Ok tt)
    (scans oracle) (bucket_order oracle).

(** One iteration, from the times of the next liveness probe and the next poll. *)
Definition main_iteration (min_idle poll_interval : Z) (next : Z * Z)
    : prog (Syncd DB D) (Z * Z) :=
  let '(next_liveness_probe, next_poll) := next in
  now ← steady_now main_oracle;
  next_liveness_probe ←
    (if decide (next_liveness_probe <= now)%Z then
       pollDeviceLiveness main_oracle ;; mret (now + milliseconds 250)%Z
     else mret next_liveness_probe);
  next_poll ←
    (if decide (next_poll <= now)%Z then
       pollDevice main_oracle ;; mret (now + milliseconds poll_interval)%Z
     else mret next_poll);
  processed_fault ← processFaultOne min_idle main_oracle "syncd-main-fault";
  processed_command ← processOne min_idle main_oracle "syncd-main";
  mret (next_liveness_probe, next_poll).

(** The poll interval is read after the service is initialized. *)
Definition serve (min_idle : Z) (fuel : nat) : prog (Syncd DB D) bool :=
  initialize main_oracle ;;
  poll_interval ← lift (devicePollInterval (getenv process));
  now ← steady_now main_oracle;
  now' ← steady_now main_oracle;
  while_running (fun s => running process (calls (stores s))) (main_iteration min_idle poll_interval)
    fuel (now' + milliseconds 250, now + milliseconds poll_interval)%Z.

(** How the run ends: [std::_Exit(86)], an exception, a signal, or not yet. *)
Definition run_status (r : result bool) : status :=
  match r with
  | Ok true => Exited 0
  | Ok false => StillRunning
  | Throw x => if crash_wanted && bool_decide (x = crash_before_ack) then Exited 86 else Exited 1
  end.
End Main.

Section Process.
Context {J : JsonLib} {DB : Type} {R : Redis DB} {G : RedisGroups DB}.
Context {W : Type} {SK : Sockets W}.
Variable process : Process RedisEndpoint.
Variable oracle : SyncdOracle (UdsDeviceBackend * W).

(** The heartbeat thread: [stop_requested], and the environment of its calls. *)
Variable stop_requested : nat -> bool.
Variable thread_oracle : Oracle.

(** What [main] makes beside the running thread: the service, and its minimum idle time. *)
Definition make_service (endpoint : RedisEndpoint) (socket_path : string) (w : World DB) (net : W)
    : result (Syncd DB (UdsDeviceBackend * W) * Z) :=
  backend ← UdsDeviceBackend_make socket_path 1000;
  min_idle ← pendingMinIdle (getenv process);
  opened ← open_repositories process endpoint;
  service ← SyncdService_make w (Some (backend, net)) min_idle;
  Ok (service, min_idle).

(** The exit status, and what is left: the databases and the device when no service was
    made, else the service.  The thread is started as soon as the endpoint is parsed, before
    anything else can be refused; [rounds] are those it makes until the service makes its
    first call or [main] has joined it.  Its rounds after that are among the commands of the
    other clients in the oracle. *)
Definition main (argv : list string) (rounds fuel : nat) (w : World DB) (net : W)
    : status * (World DB * W + Syncd DB (UdsDeviceBackend * W)) :=
  match argv with
  | [_; target; socket_path] =>
      match parseRedisEndpoint target with
      | Throw _ => (Exited 1, inl (w, net))
      | Ok endpoint =>
          let w := (publishProcessHeartbeat stop_requested thread_oracle
                      (open_repositories process endpoint) rounds w).2 in
          match make_service endpoint socket_path w net with
          | Ok (service, min_idle) =>
              let '(r, service) := serve process oracle min_idle fuel service in
              (run_status process r, inr service)
          | Throw _ => (Exited 1, inl (w, net))
          end
      end
  | _ => (Exited 2, inl (w, net))
  end.
End Process.

(** ** The processes are steps of the service *)
Section Steps.
Context {J : JsonLib} {DB : Type} {R : Redis DB} {G : RedisGroups DB}.
Context {D : Type} {API : OcsDeviceApi D}.
Variable allowed : redis_cmd -> Prop.

(** Commands of other clients on one database. *)
Definition others_step : relation (World DB) := fun w w' =>
  exists l cs, Forall allowed cs /\ w' = after_call l (run_cmds cs (database l w)) w.

Lemma tick_others w : others_step w (tick w).
Proof using Type. exists LogicalDb.kConfig, []. split; [constructor|by destruct w]. Qed.

(** The heartbeat thread runs its two commands, or none, with those of the others. *)
Section Thread.
Variable thread_oracle : Oracle.
Hypothesis Hothers : oracle_within allowed thread_oracle.
Hypothesis Hbeat : forall now, Forall allowed
  (replace_hash (serviceStateKey "ocs-syncd") (beat_fields now)).

Lemma beat_others now :
  moves others_step (call thread_oracle LogicalDb.kState
    (plain (putHash (serviceStateKey "ocs-syncd") (beat_fields now) Replied))).
Proof using Hothers Hbeat.
  apply moves_once. intros w r w'. unfold call, plain.
  set (i := around thread_oracle (calls w) 0).
  assert (Forall allowed (others_of i)) as Hi by (apply Forall_forall; intros c; apply Hothers).
  destruct (exec_ends i).
  - intros [= <- <-]. exists LogicalDb.kState, (others_of i ++ replace_hash (serviceStateKey "ocs-syncd") (beat_fields now)).
    split; [by apply Forall_app|by rewrite run_cmds_app].
  - intros [= <- <-]. by exists LogicalDb.kState, (others_of i).
  - intros [= <- <-]. exists LogicalDb.kState, (others_of i ++ replace_hash (serviceStateKey "ocs-syncd") (beat_fields now)).
    split; [by apply Forall_app|by rewrite run_cmds_app].
Qed.

Lemma round_others reported : moves others_step (heartbeat_round thread_oracle reported).
Proof using Hothers Hbeat.
  apply moves_try; [|intros; destruct reported; apply moves_ret].
  apply moves_bind; [apply moves_once; intros w r w' [= <- <-]; apply tick_others|]. intros now.
  apply moves_bind; [apply beat_others|]. intros _. apply moves_ret.
Qed.

Lemma loop_others stop fuel reported :
  moves others_step (heartbeat_loop stop thread_oracle fuel reported).
Proof using Hothers Hbeat.
  revert reported. induction fuel as [|fuel IH]; intros reported w r w'; simpl.
  { intros [= <- <-]. constructor. }
  destruct (stop (calls w)); [intros [= <- <-]; constructor|].
  apply moves_bind; [apply round_others|]. intros [reported' line].
  apply moves_bind; [apply IH|]. intros rest. apply moves_ret.
Qed.

Lemma thread_others stop opened fuel :
  moves others_step (publishProcessHeartbeat stop thread_oracle opened fuel).
Proof using Hothers Hbeat.
  apply moves_try; [|intros; apply moves_ret].
  apply moves_bind; [apply moves_still|intros; apply loop_others].
Qed.
End Thread.

Lemma thread_returns stop thread_oracle opened fuel (w : World DB) :
  is_ok (publishProcessHeartbeat stop thread_oracle opened fuel w).1 = true.
Proof using Type.
  unfold publishProcessHeartbeat, try_catch. by destruct ((lift opened ≫= _) w) as [[]].
Qed.

Variable oracles : SyncdOracle D -> Prop.
Variable process : Process RedisEndpoint.
Variable oracle : SyncdOracle D.
#[local] Abbreviation oracle' := (main_oracle process oracle).
Hypothesis Horacle : oracles oracle'.
Hypothesis Hstores : oracle_within allowed (store_oracle oracle).
Variable min_idle : Z.
#[local] Abbreviation step := (syncd_step min_idle oracles allowed).

Lemma others_moves (s : Syncd DB D) w' :
  rtc others_step (stores s) w' ->
  rtc step s (mkSyncd w' (device_ s) (device_name_ s) (device_generation_ s)).
Proof using Type.
  intros Hsteps. remember (stores s) as w eqn:Hw. revert s Hw.
  induction Hsteps as [w|w w1 w2 (l & cs & Hcs & ->) _ IH]; intros s ->; [by destruct s|].
  eapply rtc_l; [by apply (SyncdOthers _ _ _ l cs)|]. by apply (IH (others_run l cs s)).
Qed.

Lemma syncd_steady_moves : moves step (steady_now oracle').
Proof using Type.
  apply moves_once. intros s r s' [= <- <-].
  assert (tick (stores s)
    = after_call LogicalDb.kConfig (run_cmds [] (database LogicalDb.kConfig (stores s))) (stores s))
    as -> by (by destruct (stores s)).
  by apply (SyncdOthers _ _ _ LogicalDb.kConfig []).
Qed.

Lemma syncd_call_moves c : moves step (run_syncd min_idle oracle' c).
Proof using Horacle Hstores. apply moves_once. intros s r s' Hr. by eapply SyncdStep. Qed.

Lemma syncd_iteration_moves interval next :
  moves step (main_iteration process oracle min_idle interval next).
Proof using Horacle Hstores.
  destruct next as [probe poll]. unfold main_iteration.
  apply moves_bind; [apply syncd_steady_moves|]. intros now.
  apply moves_bind.
  { case_decide; [|apply moves_ret].
    apply moves_bind; [apply (syncd_call_moves PollDeviceLiveness)|intros; apply moves_ret]. }
  intros probe'. apply moves_bind.
  { case_decide; [|apply moves_ret].
    apply moves_bind; [apply (syncd_call_moves PollDevice)|intros; apply moves_ret]. }
  intros poll'. apply moves_bind; [apply (syncd_call_moves (ProcessFaultOne "syncd-main-fault"))|].
  intros _. apply moves_bind; [apply (syncd_call_moves (ProcessOne "syncd-main"))|].
  intros _. apply moves_ret.
Qed.

(** The constructor leaves the identity as [Start] sets it. *)
Lemma start_moves (s : Syncd DB D) r s' :
  device_name_ s = "" -> device_generation_ s = 0%Z -> initialize oracle' s = (r, s') ->
  rtc step s s'.
Proof using Horacle Hstores.
  intros Hn Hg Hr. apply rtc_once.
  destruct (run_syncd min_idle oracle' Start s) as [r1 s1] eqn:Hs.
  assert (s1 = s') as ->; [|by eapply SyncdStep].
  destruct s as [w d name gen]. simpl in Hn, Hg. subst. unfold run_syncd in Hs.
  unfold set_identity, modify, mbind, prog_bind in Hs. simpl in Hs. rewrite Hr in Hs.
  destruct r; by injection Hs as _ <-.
Qed.

Lemma syncd_serve_moves fuel (s : Syncd DB D) r s' :
  device_name_ s = "" -> device_generation_ s = 0%Z ->
  serve process oracle min_idle fuel s = (r, s') -> rtc step s s'.
Proof using Horacle Hstores.
  intros Hn Hg. unfold serve. unfold mbind at 1, prog_bind.
  destruct (initialize oracle' s) as [[[]|x] s1] eqn:Hi; [|intros [= <- <-]; by eapply start_moves].
  intros Hr. etrans; [by eapply start_moves|]. revert Hr.
  apply moves_bind; [apply moves_still|]. intros interval.
  apply moves_bind; [apply syncd_steady_moves|]. intros now.
  apply moves_bind; [apply syncd_steady_moves|]. intros now'.
  apply moves_while. apply syncd_iteration_moves.
Qed.
End Steps.

(** C26: whatever the arguments, the environment, the clock, the signals and the failures, a run
    of ocs-syncd of any length has an exit status or is still running.  Started with a wrong
    number of arguments it exits with 2, with an endpoint that is refused with 1, and touches
    nothing.  With another setting that is refused it exits with 1 and leaves the device
    alone, but its heartbeat thread may have run by then, and nothing else of it: the
    databases went through steps of other clients.  Otherwise it takes a fresh service and
    its databases, after such steps, through steps of the service.  It exits with 86 only
    when the test crash was asked for.  The heartbeat thread reports errors, and its rounds,
    which run between those steps or inside them, are steps of other clients too: what holds
    after every step of SyncdSteps.v holds in the whole process, whenever it is stopped, dies
    or is started again. *)
Theorem syncd_process_takes_service_steps {J : JsonLib} {DB} {R : Redis DB} {G : RedisGroups DB}
    {W} {SK : Sockets W} process (oracle : SyncdOracle (UdsDeviceBackend * W)) thread_oracle
    oracles allowed :
  oracles (main_oracle process oracle) -> oracle_within allowed (store_oracle oracle) ->
  oracle_within allowed thread_oracle ->
  (forall now, Forall allowed (replace_hash (serviceStateKey "ocs-syncd") (beat_fields now))) ->
  (forall stop argv rounds fuel (w : World DB) net st final,
     main process oracle stop thread_oracle argv rounds fuel w net = (st, final) ->
     (st = Exited 86 -> crash_wanted process = true) /\
     match final with
     | inl (w', net') => net' = net /\
         (length argv <> 3 /\ st = Exited 2 /\ w' = w \/
          exists program target path, argv = [program; target; path] /\ st = Exited 1 /\
            (is_ok (parseRedisEndpoint target) = false /\ w' = w \/
             is_ok (parseRedisEndpoint target) = true /\ rtc (others_step allowed) w w'))
     | inr s' => exists service min_idle, (0 <= min_idle <= 3600000)%Z /\
         rtc (others_step allowed) w (stores service) /\ (device_ service).2 = net /\
         rtc (syncd_step min_idle oracles allowed) service s'
     end) /\
  (forall stop opened fuel (s : Syncd DB (UdsDeviceBackend * W)) r w' min_idle,
     publishProcessHeartbeat stop thread_oracle opened fuel (stores s) = (r, w') ->
     is_ok r = true /\
     rtc (syncd_step min_idle oracles allowed) s
       (mkSyncd w' (device_ s) (device_name_ s) (device_generation_ s))).
Proof.
  intros Horacle Hstores Hthread Hbeat. split.
  - intros stop argv rounds fuel w net st final Hrun.
    destruct argv as [|program [|target [|path [|]]]];
      try (injection Hrun as <- <-; split; [done|split; [done|by left]]).
    unfold main in Hrun. destruct (parseRedisEndpoint target) as [endpoint|x] eqn:Htarget.
    2: { injection Hrun as <- <-. split; [done|]. split; [done|]. right.
         exists program, target, path. rewrite Htarget. split; [done|]. split; [done|]. by left. }
    destruct (publishProcessHeartbeat stop thread_oracle _ rounds w) as [r1 w1] eqn:Hbeats.
    apply (thread_others allowed thread_oracle Hthread Hbeat) in Hbeats. cbn [snd] in Hrun.
    destruct (make_service _ _ _ _ _) as [[service min_idle]|] eqn:Hmake.
    2: { injection Hrun as <- <-. split; [done|]. split; [done|]. right.
         exists program, target, path. rewrite Htarget. split; [done|]. split; [done|]. by right. }
    destruct (serve _ _ _ _ _) as [r s'] eqn:Hserve. injection Hrun as <- <-. split.
    { unfold run_status. destruct r as [[]|x]; [done..|]. by destruct (crash_wanted process). }
    exists service, min_idle.
    apply result_bind_Ok in Hmake as (backend & _ & Hmake).
    apply result_bind_Ok in Hmake as (idle & Hidle & Hmake).
    apply result_bind_Ok in Hmake as (opened & _ & Hmake).
    apply result_bind_Ok in Hmake as (s & Hs & [= -> ->]).
    unfold SyncdService_make in Hs. case_decide; [done|]. injection Hs as <-.
    split; [|split; [done|split; [done|]]].
    { apply read_setting_inv in Hidle. destruct (getenv _ _); [by destruct Hidle|lia]. }
    by eapply syncd_serve_moves.
  - intros stop opened fuel s r w' min_idle Hrun. split.
    { pose proof (thread_returns stop thread_oracle opened fuel (stores s)) as Hok.
      by rewrite Hrun in Hok. }
    apply others_moves. by eapply thread_others.
Qed.
