(* ===== verification/SyncdPollSteps.v ===== *)
(** * The invariants of DEVICE_DB under syncd's polls, and under all its calls. *)
From S2P Require Import Prelude ProgLogic Redis RedisKeys RedisRepository RedisRepositoryProps.
From S2P Require Import RedisOnce Services CallLogic.
From S2P Require Import DeviceApi Errors Types Reconciler Json DeviceCommand SyncdRules Syncd.
From S2P Require Import SyncdPublish SyncdPorts SyncdRecovery SyncdReconcile SyncdPoll.
From S2P Require Import SyncdLogic SyncdSteps.
From stdpp Require Import options.

(** The commands of syncd's own, by operation and ID, with the marker they are published
    under: a reconciliation, or the recovery of a generation. *)
Inductive own_marker : string -> string -> string -> Prop :=
  | ReconcileMarker E :
      own_marker "RECONCILE" E (syncdReconciliationCommandPublicationKey E)
  | RecoveryMarker info :
      own_marker "GENERATION_RECOVERY" (recovery_id info +:+ ":command")
        (syncdGenerationRecoveryKey (info_name info) (generation info)).

Definition own_command (ev : EventEnvelope) (marker : string) : Prop :=
  own_marker (ev_operation ev) (event_id ev) marker.

Lemma own_marker_key op E marker : own_marker op E marker ->
  marker <> kDeviceCommands /\ marker <> kDeviceResults /\
  forall device id, marker <> syncdConnectionVersionKey device id.
Proof. by intros []. Qed.

Section Polls.
Context {J : JsonLib} {DB : Type} {R : Redis DB} {RL : RedisLaws DB}.
Context {G : RedisGroups DB} {GL : RedisGroupLaws DB}.
Context {D : Type} {API : OcsDeviceApi D}.
Variable oracle : SyncdOracle D.
Variable Q : DB -> Prop.
Variable allowed : redis_cmd -> Prop.
Hypothesis Hstable : forall c db, allowed c -> Q db -> Q (execute c db).
Hypothesis Hothers : oracle_within allowed (store_oracle oracle).
#[local] Abbreviation inv := (fun s : Syncd DB D => holds LogicalDb.kDevice Q (stores s)).
Ltac other := first [ apply keeps_update_other; done
                    | apply (keeps_get_any _ _ _ _ Hstable Hothers) ].

Hypothesis Hgroup : forall stream group start db, stream ∈ [kDeviceCommands; kFaultCommands] ->
  Q db -> Q (createConsumerGroup stream group start db).2.
Hypothesis Hmarked : forall device g fs db, Q db ->
  exists_key (syncdGenerationRecoveryKey device g) db = false -> fs <> ∅ ->
  Q (execute (HMSET (syncdGenerationRecoveryKey device g) (sorted_items fs)) db).
Hypothesis Hown : forall ev marker mf db, Q db -> own_command ev marker -> mf <> ∅ ->
  exists_key marker db = false ->
  Q (run_cmds [XADD kDeviceCommands (eventFields ev); HMSET marker (sorted_items mf)] db).
Variable write_ok : string * gmap string string -> Prop.
Hypothesis Hwrites : forall hashes db, Forall write_ok hashes -> Q db ->
  Q (run_cmds (concat ((fun '(key, fs) => replace_hash key fs) <$> hashes)) db).
Hypothesis Hcontrol : forall device fs, fs <> ∅ -> write_ok (syncdReconciliationKey device, fs).
Hypothesis Hprepared : forall id fs, fs <> ∅ -> write_ok (orchConfigBatchKey id, fs).
Hypothesis Hport : forall device direction port fs, fs <> ∅ ->
  write_ok (syncdPortFaultKey device direction port, fs).
Hypothesis Hrecovered : forall n device scan k cursor key fs,
  scans oracle n (syncdPortFaultPattern device) = Ok scan -> key ∈ (scan k cursor).2 ->
  fs <> ∅ -> write_ok (key, fs).

Lemma keeps_write key fs :
  write_ok (key, fs) -> keeps inv (put oracle LogicalDb.kDevice key fs) (fun _ => True).
Proof using API RL GL Hstable Hothers Hwrites.
  intros Hw. apply (keeps_put _ _ _ _ Hstable Hothers). intros db Hdb.
  pose proof (Hwrites [(key, fs)] db ltac:(by repeat constructor) Hdb) as Hq. simpl in Hq.
  by rewrite app_nil_r in Hq.
Qed.

Lemma keeps_hashes updates :
  Forall (fun o => forall kf, o = Some kf -> write_ok kf) updates ->
  keeps inv (put_hashes oracle (omap id updates)) (fun _ => True).
Proof using API RL GL Hstable Hothers Hwrites.
  intros Hu. unfold put_hashes. case_decide; [by apply keeps_ret|].
  apply (keeps_put_all _ _ _ _ Hstable Hothers). intros db. apply Hwrites. by apply Forall_omap_id.
Qed.

(** ** Ports *)
Lemma keeps_raise info port key fault affected :
  (forall fs, fs <> ∅ -> write_ok (key, fs)) ->
  keeps inv (raise_port_fault oracle info port key fault affected) (fun _ => True).
Proof using API RL GL Hstable Hothers Hwrites.
  intros Hk. unfold raise_port_fault, publishPortAlarm, publish_alarm, count_once.
  syncd_walk ltac:(first [other | apply keeps_write, Hk, insert_non_empty]).
Qed.

Lemma keeps_cleared fault :
  fault <> ∅ -> keeps inv (cleared_fault oracle fault) (fun fs => fs <> ∅).
Proof using API RL GL Hstable Hothers.
  intros Hf. unfold cleared_fault. destruct (has _ _ _); [apply keeps_ret, insert_non_empty|].
  destruct (has fault "status" "RECOVERY_PUBLISHED"), (fault !! "command_id"); try by apply keeps_ret.
  apply keeps_seq; [other|]. intros processed.
  case_decide; apply keeps_ret, insert_non_empty.
Qed.

Lemma keeps_clear info port key fault :
  (forall fs, fs <> ∅ -> write_ok (key, fs)) ->
  keeps inv (clear_port_fault oracle info port key fault) (fun _ => True).
Proof using API RL GL Hstable Hothers Hwrites.
  intros Hk. unfold clear_port_fault, clearPortAlarm, clear_port_alarm_once, publish_alarm, count_once.
  do 3 (apply keeps_seq; [syncd_walk other|intros ?]).
  eapply keeps_bind; [apply keeps_cleared, insert_non_empty|].
  intros fs Hfs. by apply keeps_write, Hk.
Qed.

Lemma keeps_port_state info port affected :
  keeps inv (publishPortState oracle info port affected) (fun _ => True).
Proof using API RL GL Hstable Hothers Hwrites Hport.
  unfold publishPortState, publish_port_hash.
  syncd_walk ltac:(first [by apply keeps_raise, Hport | by apply keeps_clear, Hport | other]).
Qed.

Lemma keeps_poll_direction fuel info actual direction count id unavailable :
  keeps inv (poll_direction oracle fuel info actual direction count id unavailable) (fun _ => True).
Proof using API RL GL Hstable Hothers Hwrites Hport.
  revert id unavailable. induction fuel as [|fuel IH]; intros id unavailable; simpl.
  { apply keeps_throw. }
  case_decide; [|by apply keeps_ret]. apply keeps_seq; [|intros; apply IH].
  unfold poll_port, get_port. syncd_walk ltac:(first [apply keeps_port_state | other]).
Qed.

Lemma keeps_ports info actual : keeps inv (pollPortStates oracle info actual) (fun _ => True).
Proof using API RL GL Hstable Hothers Hwrites Hport.
  unfold pollPortStates. syncd_walk ltac:(apply keeps_poll_direction).
Qed.

(** Updates of records found by a scan. *)
Lemma keeps_scanned device (f : string * gmap string string ->
    prog (Syncd DB D) (option (string * gmap string string))) faults :
  (forall kf, keeps inv (f kf)
     (fun o => forall kf', o = Some kf' -> kf'.1 = kf.1 /\ kf'.2 <> ∅)) ->
  Forall (fun kf => exists n scan k cursor,
    scans oracle n (syncdPortFaultPattern device) = Ok scan /\ kf.1 ∈ (scan k cursor).2) faults ->
  keeps inv (updates ← mapM f faults; put_hashes oracle (omap id updates)) (fun _ => True).
Proof using API RL GL Hstable Hothers Hwrites Hrecovered.
  intros Hf Hfaults. eapply keeps_bind; [|apply keeps_hashes].
  apply (keeps_mapM _ _ (fun o => forall kf, o = Some kf -> write_ok kf)). intros kf Hkf.
  eapply keeps_weaken; [apply Hf|]. intros o Ho [key fs] Heq.
  destruct (Ho _ Heq) as [Hk Hfs]. simpl in *. rewrite Forall_forall in Hfaults.
  destruct (Hfaults kf Hkf) as (n & scan & k & cursor & Hs & Hin). rewrite Hk.
  by eapply Hrecovered.
Qed.

Lemma keeps_associate info command_id :
  keeps inv (associatePortFaults oracle info command_id) (fun _ => True).
Proof using API RL GL Hstable Hothers Hwrites Hrecovered.
  unfold associatePortFaults. eapply keeps_bind.
  { by apply (keeps_port_faults _ _ _ Hstable Hothers). }
  intros faults Hfaults. eapply keeps_scanned; [|exact Hfaults]. intros [key fault].
  unfold associated_fault. destruct (_ || _); [|by apply keeps_ret].
  apply keeps_seq; [apply keeps_now_ns|]. intros now. apply keeps_ret. intros ? [= <-].
  split; [done|apply insert_non_empty].
Qed.

(** ** Generation recovery *)
Lemma keeps_append_own ev marker mf :
  own_command ev marker -> mf <> ∅ ->
  keeps inv (update oracle LogicalDb.kDevice (appendEventOnce marker mf kDeviceCommands ev))
    (fun _ => True).
Proof using API RL GL Hstable Hothers Hown.
  intros. apply (keeps_append _ _ _ _ Hstable Hothers). intros. by apply Hown.
Qed.

Lemma own_batch_event id request device op commands version now payload marker :
  own_marker op id marker ->
  own_command (batch_event id request device op commands version now payload) marker.
Proof using. unfold own_command, batch_event. by destruct (command_resource _ _). Qed.

Lemma keeps_refresh info keys m : keeps inv (refresh_all oracle info keys m) (fun _ => True).
Proof using API RL GL Hstable Hothers.
  revert m. induction keys as [|key keys IH]; intros m; simpl; [by apply keeps_ret|].
  unfold refresh_known, publish_refreshed, published_delta.
  syncd_walk ltac:(first [apply IH | other]).
Qed.

Lemma keeps_recovery info actual :
  keeps inv (scheduleGenerationRecovery oracle info actual) (fun _ => True).
Proof using API RL GL Hstable Hothers Hmarked Hown Hwrites Hprepared.
  unfold scheduleGenerationRecovery, recover_generation, refresh_generation, publish_recovery, refresh_unexpected,
    publish_refreshed, published_delta, count_once.
  syncd_walk ltac:(first [ apply keeps_refresh | other
    | apply (keeps_put_absent _ _ _ _ Hstable Hothers); intros; by apply Hmarked
    | apply keeps_write, Hprepared, insert_non_empty
    | apply keeps_append_own; [apply own_batch_event, RecoveryMarker|apply insert_non_empty] ]).
Qed.

(** ** Reconciliation *)
Lemma keeps_put_control device control :
  control <> ∅ -> keeps inv (put_control oracle device control) (fun _ => True).
Proof using API RL GL Hstable Hothers Hwrites Hcontrol. intros. by apply keeps_write, Hcontrol. Qed.

Lemma keeps_close info control : keeps inv (close_control oracle info control) (fun _ => True).
Proof using API RL GL Hstable Hothers Hwrites Hcontrol.
  unfold close_control, clearDriftAlarm, clear_drift_alarm, publish_alarm, count_once.
  syncd_walk ltac:(first [other | apply keeps_put_control, insert_non_empty]).
Qed.

Lemma keeps_reconciliation info plan control command_id :
  keeps inv (publish_reconciliation oracle info plan control command_id) (fun _ => True).
Proof using API RL GL Hstable Hothers Hwrites Hcontrol Hprepared Hrecovered Hown.
  unfold publish_reconciliation. apply keeps_seq; [apply keeps_associate|intros _].
  unfold publishReconciliationState, publish_drift, publish_drift_state, published_delta,
    publishDriftAlarm, raise_drift_alarm, publish_alarm, count_once.
  syncd_walk ltac:(first [ other
    | apply keeps_put_control, insert_non_empty
    | apply keeps_write, Hprepared, insert_non_empty
    | apply keeps_append_own; [apply own_batch_event, ReconcileMarker|apply insert_non_empty] ]).
Qed.

Lemma keeps_drifts info plan control p c :
  keeps inv (reconcile_drifts oracle info plan control p c) (fun _ => True).
Proof using API RL GL Hstable Hothers Hwrites Hcontrol Hprepared Hrecovered Hown.
  unfold reconcile_drifts, open_control.
  syncd_walk ltac:(first [ apply keeps_reconciliation | apply keeps_put_control, insert_non_empty ]).
Qed.

Lemma keeps_settle_all keys m : keeps inv (settle_all oracle keys m) (fun _ => True).
Proof using API RL GL Hstable Hothers.
  revert m. induction keys as [|key keys IH]; intros m; simpl; [by apply keeps_ret|].
  syncd_walk ltac:(first [apply IH | other]).
Qed.

Lemma keeps_port_recovery device desired actual faults plan :
  Forall (fun kf => exists n scan k cursor,
    scans oracle n (syncdPortFaultPattern device) = Ok scan /\ kf.1 ∈ (scan k cursor).2) faults ->
  keeps inv (port_recovery oracle device desired actual faults plan) (fun _ => True).
Proof using API RL GL Hstable Hothers Hwrites Hrecovered.
  intros Hfaults. unfold port_recovery, port_recovery_drift.
  apply keeps_seq; [syncd_walk other|]. intros found. cbv zeta.
  apply keeps_seq; [|intros; by apply keeps_ret]. destruct (converged _); [|by apply keeps_ret].
  eapply keeps_scanned; [|exact Hfaults]. intros [key fault]. unfold recovered_record.
  destruct (has _ _ _); [|by apply keeps_ret]. apply keeps_seq; [apply keeps_now_ns|].
  intros now. apply keeps_ret. intros ? [= <-]. split; [done|apply insert_non_empty].
Qed.

Lemma keeps_settled_reconcile info desired actual :
  keeps inv (reconcile_settled oracle info desired actual) (fun _ => True).
Proof using API RL GL Hstable Hothers Hwrites Hcontrol Hprepared Hrecovered Hown.
  unfold reconcile_settled. cbv zeta. apply keeps_seq; [by apply keeps_lift|]. intros plan.
  apply keeps_seq.
  { unfold confirmed_state_recovery, failed_drift. syncd_walk other. }
  intros [plan' confirmed]. eapply keeps_bind.
  { by apply (keeps_port_faults _ _ _ Hstable Hothers). }
  intros faults Hfaults. apply keeps_seq.
  { destruct (_ && _); [by apply keeps_port_recovery|by apply keeps_ret]. }
  syncd_walk ltac:(first [apply keeps_close | apply keeps_drifts | other]).
Qed.

Lemma keeps_reconcile info actual : keeps inv (reconcileDevice oracle info actual) (fun _ => True).
Proof using API RL GL Hstable Hothers Hwrites Hcontrol Hprepared Hrecovered Hown.
  unfold reconcileDevice, loadDesiredConnections, orchestrationSettled.
  syncd_walk ltac:(first [apply keeps_settled_reconcile | apply keeps_settle_all | other]).
Qed.

(** ** The calls *)
Lemma keeps_group stream group start :
  stream ∈ [kDeviceCommands; kFaultCommands] ->
  keeps inv (update oracle LogicalDb.kDevice (plain (createConsumerGroup stream group start)))
    (fun _ => True).
Proof using API RL GL Hstable Hothers Hgroup.
  intros Hs. apply keeps_on_stores, (keeps_plain _ _ _ Hstable _ Hothers). intros db Hdb.
  split; [by apply Hgroup|done].
Qed.

Lemma keeps_polling min_idle c :
  match c with ProcessOne _ | ProcessFaultOne _ => False | _ => True end ->
  keeps inv (run_syncd min_idle oracle c) (fun _ => True).
Proof using API RL GL Hstable Hothers Hgroup Hmarked Hown Hwrites Hcontrol Hprepared Hport Hrecovered.
  intros Hc. destruct c; try done; simpl;
    unfold pollDevice, poll_online, poll_failed, pollDeviceLiveness, same_device,
      recovery_pending, initialize, publish_started, publishDeviceState, publishHwsimHeartbeat;
    syncd_walk ltac:(first [ apply keeps_ports | apply keeps_recovery | apply keeps_reconcile
      | apply keeps_group; set_solver | other ]).
Qed.
End Polls.
