(* ===== verification/SyncdApply.v ===== *)
(** * Applying a command on the device: what is confirmed, what a crash leaves, and that a
    command whose outcome is known is not applied again. *)
From S2P Require Import Prelude ProgLogic Errors Types SimDevice SimDeviceInv.
From S2P Require Import SimDeviceProps DeviceApi Reconciler Json DeviceCommand RedisKeys.
From S2P Require Import Redis RedisRepository RedisRepositoryProps RedisOnce Services.
From S2P Require Import CallLogic SyncdRules Syncd SyncdPublish SyncdLogic SyncdSteps.
From S2P Require Import SyncdSteps.
From stdpp Require Import options.

Section Confirm.
Context {DB : Type} {R : Redis DB} {G : RedisGroups DB}.
Context {D : Type} {API : OcsDeviceApi D}.
Variable oracle : SyncdOracle D.
#[local] Abbreviation state := (Syncd DB D).

(** What the device must show for a command to count as applied, in the calls made from one
    state to the next: a removed connection is not listed; an installed one is listed with
    the command's ports and version, and then both its ports answer that they are up. *)
Inductive shows (actual : list AppliedConnection) (c : ConnectionCommand) : relation state :=
  | ShowsRemoved s :
      operation c = ConnectionOperation.kRemove -> index_by_id actual !! cmd_id c = None ->
      shows actual c s s
  | ShowsInstalled a input output s s1 s2 :
      operation c = ConnectionOperation.kUpsert -> index_by_id actual !! cmd_id c = Some a ->
      app_input_port a = cmd_input_port c -> app_output_port a = cmd_output_port c ->
      applied_version a = desired_version c ->
      on_device oracle (api_getInputPortState (cmd_input_port c)) s = (Ok input, s1) ->
      port_up input = true ->
      on_device oracle (api_getOutputPortState (cmd_output_port c)) s1 = (Ok output, s2) ->
      port_up output = true -> shows actual c s s2.

Inductive shows_all (actual : list AppliedConnection)
    : list ConnectionCommand -> relation state :=
  | ShowsNil s : shows_all actual [] s s
  | ShowsCons c commands s s1 s2 :
      shows actual c s s1 -> shows_all actual commands s1 s2 ->
      shows_all actual (c :: commands) s s2.

(** The connections it then reports *)
Definition confirmed_connections (actual : list AppliedConnection) (c : ConnectionCommand)
    : list AppliedConnection :=
  match operation c with
  | ConnectionOperation.kRemove => []
  | ConnectionOperation.kUpsert => option_list (index_by_id actual !! cmd_id c)
  end.

Lemma confirm_command_run actual c (s : state) l s' :
  confirm_command oracle (index_by_id actual) c s = (Ok (Some l), s') <->
  shows actual c s s' /\ l = confirmed_connections actual c.
Proof.
  unfold confirm_command, confirmed_connections. split.
  - destruct (operation c) eqn:Hop, (index_by_id actual !! cmd_id c) as [a|] eqn:Ha; try done.
    2: { intros [= <- <-]. split; [by constructor|done]. }
    unfold same_connection.
    destruct (bool_decide_reflect (app_input_port a = cmd_input_port c)); simpl; [|done].
    destruct (bool_decide_reflect (app_output_port a = cmd_output_port c)); simpl; [|done].
    destruct (bool_decide_reflect (applied_version a = desired_version c)); simpl; [|done].
    intros Hrun. apply bind_Ok_inv in Hrun as (input & s1 & Hi & Hrun).
    apply bind_Ok_inv in Hrun as (output & s2 & Ho & Hrun).
    destruct (port_up input) eqn:Hpi; simpl in Hrun; [|done].
    destruct (port_up output) eqn:Hpo; simpl in Hrun; [|done]. injection Hrun as <- <-.
    split; [|done]. by eapply ShowsInstalled.
  - intros [[s1 Hop Hnone|a input output s1 s2 s3 Hop Ha Hin Hout Hver Hi Hpi Ho Hpo] ->].
    { by rewrite Hop, Hnone. }
    rewrite Hop, Ha. unfold same_connection. rewrite Hin, Hout, Hver, !bool_decide_eq_true_2 by done.
    simpl. rewrite (run_bind _ _ _ _ _ Hi), (run_bind _ _ _ _ _ Ho). by rewrite Hpi, Hpo.
Qed.

Lemma collect_run actual commands (s : state) ls s' :
  collect_all (confirm_command oracle (index_by_id actual)) commands s = (Ok (Some ls), s') <->
  shows_all actual commands s s' /\ ls = confirmed_connections actual <$> commands.
Proof.
  revert s ls. induction commands as [|c commands IH]; intros s ls; cbn [collect_all]; split.
  - intros [= <- <-]. by repeat constructor.
  - intros [Hs ->]. by inversion Hs.
  - intros Hrun. apply bind_Ok_inv in Hrun as ([l|] & s1 & Hc & Hrun); [|done].
    apply bind_Ok_inv in Hrun as ([ls'|] & s2 & Hrest & Hrun); [|done]. injection Hrun as <- <-.
    apply confirm_command_run in Hc as [Hc ->]. apply IH in Hrest as [Hrest ->].
    split; [by econstructor|done].
  - intros [Hs ->]. inversion Hs as [|? ? ? s1 ? Hc Hrest]; subst.
    assert (confirm_command oracle (index_by_id actual) c s
      = (Ok (Some (confirmed_connections actual c)), s1)) as Hc' by by apply confirm_command_run.
    rewrite (run_bind _ _ _ _ _ Hc').
    by rewrite (run_bind _ _ _ _ _ (proj2 (IH s1 _) (conj Hrest eq_refl))).
Qed.

(** What is reported when the device confirms the commands. *)
Definition confirmed_result (actual : list AppliedConnection) (commands : list ConnectionCommand)
    : ApplyResult := mkApplyResult success (concat (confirmed_connections actual <$> commands)).

(** C20: when an apply fails, syncd asks the device what it did, and this never throws.  The
    failure is reported unchanged, unless the answers of the device to the calls of this run
    confirm the whole batch, with every connection listed at exactly the version of its
    command, both its ports up, and every removed connection gone.  When they do, and only
    then, syncd reports success, with the connections the device listed. *)
Theorem failure_overturned_only_by_device batch r (s : state) :
  exists r' s', confirmAppliedResult oracle batch r s = (Ok r', s') /\
  (forall actual s1 s2,
     apply_ok r = false -> batch_commands batch <> [] ->
     on_device oracle api_getConnections s = (Ok actual, s1) ->
     shows_all actual (batch_commands batch) s1 s2 ->
     s' = s2 /\ r' = confirmed_result actual (batch_commands batch)) /\
  (r' = r \/
   apply_ok r = false /\ batch_commands batch <> [] /\
   exists actual s1, on_device oracle api_getConnections s = (Ok actual, s1) /\
     shows_all actual (batch_commands batch) s1 s' /\
     r' = confirmed_result actual (batch_commands batch)).
Proof.
  unfold confirmAppliedResult.
  destruct (apply_ok r || bool_decide (batch_commands batch = [])) eqn:Hskip.
  { exists r, s. split; [done|]. split; [|by left]. intros actual s1 s2 Hr Hne.
    by rewrite Hr, bool_decide_eq_false_2 in Hskip. }
  apply orb_false_iff in Hskip as [Hr Hne%bool_decide_eq_false].
  destruct (on_device oracle api_getConnections s) as [[actual|x] s1] eqn:Ha; unfold try_catch.
  2: { rewrite (run_bind_throw _ _ _ _ _ Ha). exists r, s1. split; [done|].
       split; [by intros|by left]. }
  rewrite (run_bind _ _ _ _ _ Ha).
  destruct (collect_all (confirm_command oracle (index_by_id actual)) (batch_commands batch) s1)
    as [[[ls|]|x] s2] eqn:Hc;
    [rewrite (run_bind _ _ _ _ _ Hc)|rewrite (run_bind _ _ _ _ _ Hc)
    |rewrite (run_bind_throw _ _ _ _ _ Hc)]; eexists _, s2; (split; [done|]).
  2, 3: split; [|by left]; intros actual' s1' s2' _ _ [= <- <-] Hshow;
    by rewrite (proj2 (collect_run actual _ s1 _ s2') (conj Hshow eq_refl)) in Hc.
  apply collect_run in Hc as Hshow. destruct Hshow as [Hshow ->]. split.
  - intros actual' s1' s2' _ _ [= <- <-] Hshow'.
    rewrite (proj2 (collect_run actual _ s1 _ s2') (conj Hshow' eq_refl)) in Hc.
    by injection Hc as <-.
  - right. split_and!; [done..|]. by exists actual, s1.
Qed.
End Confirm.

(** ** The switch in process *)
Section Replay.
Context {DB : Type} {R : Redis DB} {G : RedisGroups DB}.
#[local] Abbreviation state := (Syncd DB SimDevice).

(** The device when [apply_on_device] asks for its identity, and when it applies. *)
Definition device_asked (oracle : SyncdOracle SimDevice) (s : state) : SimDevice :=
  device_events oracle (calls (stores s)) (device_ s).
Definition device_applied (oracle : SyncdOracle SimDevice) (s : state) : SimDevice :=
  device_events oracle (S (calls (stores s))) (device_asked oracle s).

(** An apply on the simulated switch, in one equation. *)
Lemma apply_on_switch oracle e batch (s : state) r d :
  info_name (info_ (device_asked oracle s)) = ev_device e ->
  applyConnections (batch_commands batch) (batch_options batch) (device_applied oracle s)
  = (Ok r, d) ->
  exists s', apply_on_device oracle e batch s = (Ok (true, r), s') /\ device_ s' = d.
Proof.
  destruct s as [[] dev name gen]. intros Hname Happ.
  unfold apply_on_device, try_catch, on_device, device_applied, device_asked in *.
  cbn in *. unfold mbind, prog_bind, returns, getDeviceInfo, gets, modify, set_identity. cbn.
  rewrite decide_False by (intros H; by apply H). cbn. rewrite Happ. simpl. by eexists.
Qed.

(** When the apply was attempted, the switch answered. *)
Lemma apply_on_switch_inv oracle e batch (s s' : state) r :
  device_wf (device_applied oracle s) -> Forall command_ports_unsigned (batch_commands batch) ->
  apply_on_device oracle e batch s = (Ok (true, r), s') ->
  applyConnections (batch_commands batch) (batch_options batch) (device_applied oracle s)
  = (Ok r, device_ s').
Proof.
  intros Hwf Hcs. destruct s as [[] dev name gen].
  unfold apply_on_device, try_catch, on_device, device_applied, device_asked in *.
  cbn in *. unfold mbind, prog_bind, returns, getDeviceInfo, gets, modify, set_identity. cbn.
  case_decide; [done|]. cbn.
  destruct (apply_cases _ (batch_options batch) _ Hwf Hcs)
    as [(r1 & _ & Happ)|(_ & r1 & d1 & rs & order & Happ & _)]; rewrite Happ; simpl;
    by intros [= <- <-].
Qed.

(** C18: syncd and the switch together: a crash after the switch applied a command and
    before the durable result was stored does not apply it twice.  The command carries its
    event ID as the operation ID, so when the next attempt applies it again, at most 4095
    calls of anyone later, the switch answers with the first result and stays as it is. *)
Theorem interrupted_apply_has_one_effect oracle oracle' e b m (s s1 s2 : state) r :
  let batch := with_operation_id (event_id e) b in
  event_id e <> "" -> device_wf (device_applied oracle s) ->
  Forall command_ports_unsigned (batch_commands b) ->
  apply_results_ (device_applied oracle s) !! event_id e = None ->
  apply_on_device oracle e batch s = (Ok (true, r), s1) ->
  nsteps live_step m (device_ s1) (device_applied oracle' s2) -> (Z.of_nat m <= 4095)%Z ->
  info_name (info_ (device_asked oracle' s2)) = ev_device e ->
  exists s', apply_on_device oracle' e batch s2 = (Ok (true, r), s') /\
             device_ s' = device_applied oracle' s2.
Proof.
  intros batch Hid Hwf Hcs Hfresh Hrun Hsteps Hm Hname.
  apply (apply_on_switch_inv oracle e batch) in Hrun; [|done..].
  apply apply_on_switch; [done|].
  apply (replay_window (batch_commands batch) _ (batch_options batch) _
    (device_applied oracle s) r (device_ s1) m); try done.
  unfold cached_result. simpl. by rewrite bool_decide_eq_false_2.
Qed.
End Replay.

Section Settled.
Context {J : JsonLib} {DB : Type} {R : Redis DB} {RL : RedisLaws DB}.
Context {G : RedisGroups DB} {GL : RedisGroupLaws DB}.
Context {D : Type} {API : OcsDeviceApi D}.
#[local] Abbreviation state := (Syncd DB D).
#[local] Set Default Proof Using "Type*".

(** ** A command whose outcome is known *)

(** The command has a durable result, or it is processed. *)
Definition settled (e : EventEnvelope) (db : DB) : Prop :=
  type_of (deviceApplyResultKey (event_id e)) db = KHash \/
  type_of (processedDeviceCommandKey (event_id e)) db = KHash.

(** No call of these programs reaches the device. *)
Ltac stores_only :=
  syncd_walk ltac:(first
    [ apply stores_device
    | match goal with |- keeps (device_is _) (steady_now _) _ =>
        intros s r s' Hs [= <- <-]; by split end ]).

Section Attempts.
Variable oracle : SyncdOracle D.
Variable d : D.

Lemma fixed_decode e : keeps (device_is d) (decode_command (DB:=DB) oracle e) (fun _ => True).
Proof. unfold decode_command, recoverPreparedBatch. stores_only. Qed.

Lemma fixed_mark e batch applied :
  keeps (device_is d) (markProcessed (DB:=DB) oracle e batch applied) (fun _ => True).
Proof.
  unfold markProcessed, version_update, known, reconciliation_updates, portFaults,
    recovered_fault. stores_only.
Qed.

Lemma fixed_outcome e batch stored :
  keeps (device_is d) (publish_outcome (DB:=DB) oracle e batch stored) (fun _ => True).
Proof.
  unfold publish_outcome, publishState, publish_command_state, publish_unchanged,
    publish_changed, new_state, published_delta, publishResult, publish_batch_result,
    publish_command_result.
  syncd_walk ltac:(first [apply fixed_mark | apply stores_device]).
Qed.

Variable e : EventEnvelope.
#[local] Abbreviation rkey := (deviceApplyResultKey (event_id e)).
#[local] Abbreviation pkey := (processedDeviceCommandKey (event_id e)).

(** The invariant of a settled command: its key is a hash, and the device is [d]. *)
#[local] Abbreviation fixed k := (fun s : state =>
  holds LogicalDb.kDevice (kept is_hash k) (stores s) /\ device_is d s).

Lemma both {A} k (m : prog state A) :
  keeps (fun s : state => holds LogicalDb.kDevice (kept is_hash k) (stores s)) m (fun _ => True) ->
  keeps (device_is d) m (fun _ => True) -> keeps (fixed k) m (fun _ => True).
Proof using. intros H1 H2. eapply keeps_weaken; [by apply keeps_and|done]. Qed.

Lemma processed_fixed :
  oracle_within (spares pkey) (store_oracle oracle) ->
  keeps (fixed pkey) (handle_command oracle e) (fun _ => True).
Proof.
  intros Ho. unfold handle_command.
  eapply (keeps_bind _ _ _ (fun processed : bool => processed = true /\ True)).
  - apply keeps_and.
    + unfold isAlreadyProcessed. eapply keeps_bind; [by apply hash_read|].
      intros m Hm. apply keeps_ret. by apply bool_decide_eq_true_2.
    + unfold isAlreadyProcessed. apply keeps_seq; [apply stores_device|]. intros m. by apply keeps_ret.
  - intros processed [-> _]. by apply keeps_ret.
Qed.

Lemma result_fixed :
  oracle_within (spares rkey) (store_oracle oracle) ->
  keeps (fixed rkey) (handle_command oracle e) (fun _ => True).
Proof.
  intros Ho. unfold handle_command. apply keeps_seq.
  { apply both; unfold isAlreadyProcessed.
    - apply keeps_seq; [|intros; by apply keeps_ret].
      eapply keeps_weaken; [by apply (kept_get_hash is_hash eq_refl no_hash)|done].
    - apply keeps_seq; [apply stores_device|]. intros. by apply keeps_ret. }
  intros [|]; [by apply keeps_ret|]. apply keeps_seq.
  { apply both; [|apply fixed_decode].
    apply (keeps_decode _ _ _ (kept_stable is_hash no_hash rkey) Ho).
    intros. apply (kept_replace is_hash eq_refl no_hash); [apply insert_non_empty|done]. }
  intros batch. eapply (keeps_bind _ _ _ (fun o => o <> None)).
  - unfold durable_result. eapply (keeps_bind _ _ _ (fun m : gmap string string => m <> ∅ /\ True)).
    + apply keeps_and; [by apply hash_read|apply stores_device].
    + intros m [Hm _]. rewrite decide_True by done. by apply keeps_ret.
  - intros [stored|] Hs; [|done]. apply keeps_seq; [|intros; apply keeps_before_ack].
    apply both; [|apply fixed_outcome].
    apply (keeps_outcome _ _ _ (kept_stable is_hash no_hash rkey) Ho)
      with (write_ok := fun kf => kf.2 <> ∅).
    + intros. by apply (kept_stable is_hash no_hash).
    + intros id ev mf db Hdb _ _ _. apply (kept_run is_hash no_hash); [by repeat constructor|done].
    + intros. apply (kept_replace is_hash eq_refl no_hash); [apply insert_non_empty|done].
    + intros hashes db Hf. by apply (kept_replace_all is_hash eq_refl no_hash).
    + intros. apply insert_non_empty.
    + by apply (written_version is_hash eq_refl no_hash).
    + done.
    + done.
Qed.

Lemma acknowledge_fixed k id :
  oracle_within (spares k) (store_oracle oracle) ->
  keeps (fixed k) (acknowledge oracle id) (fun _ => True).
Proof.
  intros Ho. apply both; [by apply (kept_acknowledge is_hash eq_refl no_hash)|].
  unfold acknowledge, acknowledge_on. stores_only.
Qed.

(** The other clients delete neither of the two keys of the command. *)
Definition spares_outcome (c : redis_cmd) : Prop := spares rkey c /\ spares pkey c.

Lemma settled_keeps {A} (m : prog state A) :
  (oracle_within (spares rkey) (store_oracle oracle) -> keeps (fixed rkey) m (fun _ => True)) ->
  (oracle_within (spares pkey) (store_oracle oracle) -> keeps (fixed pkey) m (fun _ => True)) ->
  oracle_within spares_outcome (store_oracle oracle) ->
  keeps (fun s => settled e (device_db s) /\ device_is d s) m (fun _ => True).
Proof.
  intros Hr Hp Ho s r s' [[Hk|Hk] Hd] Hrun.
  - destruct (Hr ltac:(intros n i c Hc; by apply (Ho n i c Hc)) s r s' (conj Hk Hd) Hrun)
      as [[Hk' Hd'] _]. split; [|done]. split; [by left|done].
  - destruct (Hp ltac:(intros n i c Hc; by apply (Ho n i c Hc)) s r s' (conj Hk Hd) Hrun)
      as [[Hk' Hd'] _]. split; [|done]. split; [by right|done].
Qed.
End Attempts.

(** One attempt at a message, with any oracle, or commands of other clients. *)
Definition attempt (message : StreamMessage) (allowed : redis_cmd -> Prop) (s s' : state) : Prop :=
  (exists oracle r, oracle_within allowed (store_oracle oracle) /\
     process_command oracle message s = (r, s')) \/
  (exists l cs, Forall allowed cs /\ s' = others_run l cs s).

(** C9: once a command has a durable result or is marked as processed, no attempt at it
    reaches the device again, however often it is delivered, claimed after a crash or
    interrupted: the device stays as it was, and the outcome stays stored.  The other
    clients only have to leave the command's two keys in place. *)
Theorem settled_command_leaves_device message s s' :
  let e := event message in
  rtc (attempt message (spares_outcome e)) s s' -> settled e (device_db s) ->
  device_ s' = device_ s /\ settled e (device_db s').
Proof.
  intros e Hsteps. induction Hsteps as [s|s1 s2 s3 Hstep _ IH]; [done|]. intros Hs.
  assert (settled e (device_db s2) /\ device_ s2 = device_ s1) as [H2 <-]; [|auto].
  destruct Hstep as [(oracle & r & Ho & Hrun)|(l & cs & Hcs & ->)].
  - assert (keeps (fun s => settled e (device_db s) /\ device_is (device_ s1) s)
      (process_command oracle message) (fun _ => True)) as Hkeeps.
    { apply keeps_seq; [|intros _]; apply (settled_keeps oracle); try done.
      - apply result_fixed.
      - apply processed_fixed.
      - apply acknowledge_fixed.
      - apply acknowledge_fixed. }
    by destruct (Hkeeps s1 r s2 (conj Hs eq_refl) Hrun) as [Hs2 _].
  - split; [|done]. unfold device_db, others_run. simpl.
    assert (forall k, Forall (spares k) cs -> type_of k (device_db s1) = KHash ->
      type_of k (device_db_ (after_call l (run_cmds cs (database l (stores s1))) (stores s1)))
      = KHash) as Hkeep.
    { intros k Hk. apply (others_hold (spares k) LogicalDb.kDevice (kept is_hash k)); [|done].
      by apply kept_stable. }
    apply Forall_and in Hcs as [Hc1 Hc2].
    destruct Hs; [left|right]; by apply Hkeep.
Qed.

(** ** Fault commands *)
Lemma stored_fault_fixed oracle d message :
  let k := faultResultKey (event_id (event message)) in
  oracle_within (spares k) (store_oracle oracle) ->
  keeps (fun s : state => holds LogicalDb.kDevice (kept is_hash k) (stores s) /\ device_is d s)
    (process_fault oracle message) (fun _ => True).
Proof.
  intros k Ho. unfold process_fault. cbv zeta.
  eapply (keeps_bind _ _ _ (fun m : gmap string string => m <> ∅ /\ True)).
  { apply keeps_and; [by apply hash_read|apply stores_device]. }
  intros m [Hm _]. rewrite decide_False by done. apply keeps_seq; [by apply keeps_ret|].
  intros _. apply both; [by apply (kept_acknowledge is_hash eq_refl no_hash)|].
  unfold acknowledge_on. stores_only.
Qed.

(** One attempt at a fault command, with any oracle, or commands of other clients. *)
Definition fault_attempt (message : StreamMessage) (allowed : redis_cmd -> Prop) (s s' : state)
    : Prop :=
  (exists oracle r, oracle_within allowed (store_oracle oracle) /\
     process_fault oracle message s = (r, s')) \/
  (exists l cs, Forall allowed cs /\ s' = others_run l cs s).

(** A fault command whose result is stored is not executed again: no attempt at it
    reaches the device, and the result stays stored, as long as nobody deletes it. *)
Theorem stored_fault_leaves_device message s s' :
  let k := faultResultKey (event_id (event message)) in
  rtc (fault_attempt message (spares k)) s s' -> type_of k (device_db s) = KHash ->
  device_ s' = device_ s /\ type_of k (device_db s') = KHash.
Proof.
  intros k Hsteps. induction Hsteps as [s|s1 s2 s3 Hstep _ IH]; [done|]. intros Hs.
  assert (type_of k (device_db s2) = KHash /\ device_ s2 = device_ s1) as [H2 <-]; [|auto].
  destruct Hstep as [(oracle & r & Ho & Hrun)|(l & cs & Hcs & ->)].
  - by destruct (stored_fault_fixed oracle (device_ s1) message Ho s1 r s2 (conj Hs eq_refl) Hrun)
      as [? _].
  - split; [|done]. unfold device_db, others_run. simpl.
    apply (others_hold (spares k) LogicalDb.kDevice (kept is_hash k)); [|done..].
    by apply kept_stable.
Qed.
End Settled.
