(* ===== verification/SyncdDelivery.v ===== *)
(** * When syncd acknowledges a command. *)
From S2P Require Import Prelude ProgLogic Redis RedisKeys RedisRepository RedisRepositoryProps.
From S2P Require Import RedisOnce RedisEvents Services CallLogic.
From S2P Require Import DeviceApi Errors Types Json DeviceCommand SyncdRules Syncd SyncdPublish.
From S2P Require Import SyncdLogic SyncdSteps SyncdPollSteps.
From stdpp Require Import options.

(** ** The results in the stream

    A result event that was published under the marker of command [E] and connection [c].
    The marker's key joins the two IDs with a bar, so it is the result of this command for
    this connection when neither ID has one. *)
Definition result_of {J : JsonLib} (E c : string) (fs : list (string * string)) : Prop :=
  exists E' ev, fs = eventFields ev /\ result_event E' ev /\
    syncdResultPublicationKey E' (resource_id ev) = syncdResultPublicationKey E c.

Lemma bar_cancel s1 t1 s2 t2 :
  char_free "|" s1 -> char_free "|" t1 -> s1 +:+ "|" +:+ t1 = s2 +:+ "|" +:+ t2 ->
  s1 = s2 /\ t1 = t2.
Proof.
  assert (forall s t, ~ char_free "|" (s +:+ String "|" t)) as Hbar.
  { intros s t. induction s as [|a s IH]; simpl; [by intros []|]. by intros [_ ?]. }
  revert s2. induction s1 as [|a s1 IH]; intros [|b s2]; simpl.
  - intros _ _ [= H]. by split.
  - intros _ Ht [= <- H]. change (t1 = s2 +:+ String "|" t2) in H. rewrite H in Ht. by apply Hbar in Ht.
  - intros [Ha _] _ [= Heq _]. by destruct Ha.
  - intros [_ Hs] Ht [= <- Heq]. by destruct (IH s2 Hs Ht Heq) as [-> ->].
Qed.

Lemma result_of_exact {J : JsonLib} E c fs :
  char_free "|" E -> char_free "|" c -> result_of E c fs ->
  exists ev, fs = eventFields ev /\ result_event E ev /\ resource_id ev = c.
Proof.
  intros HE Hc (E' & ev & -> & Hev & [= Hk]). symmetry in Hk.
  apply bar_cancel in Hk as [-> ->]; [|done..]. by exists ev.
Qed.

(** Its entry is in the result stream. *)
Definition result_sent {J : JsonLib} {DB} {R : Redis DB} (E c : string) (db : DB) : Prop :=
  in_stream kDeviceResults (fun _ => result_of E c) db.

(** The other clients do not write the markers of the command's results, and only append to
    the result stream. *)
Definition spares_results (E : string) (c : redis_cmd) : Prop := forall id,
  faithful (syncdResultPublicationKey E id) kDeviceResults (fun _ => True) c.

Section Sent.
Context {J : JsonLib} {DB : Type} {R : Redis DB} {RL : RedisLaws DB}.
Context {G : RedisGroups DB} {GL : RedisGroupLaws DB}.
Context {D : Type} {API : OcsDeviceApi D}.
Variable E id : string.
#[local] Abbreviation marker := (syncdResultPublicationKey E id).
#[local] Abbreviation spares_it := (faithful marker kDeviceResults (fun _ => True)).
#[local] Set Default Proof Using "Type*".

(** The marker of the result has its entry. *)
Definition sent : DB -> Prop := backed marker kDeviceResults (fun _ => result_of E id).

Lemma sent_stable c db : spares_it c -> sent db -> sent (execute c db).
Proof. by apply backed_stable. Qed.

Lemma sent_run cs db : Forall spares_it cs -> sent db -> sent (run_cmds cs db).
Proof. apply stable_run, sent_stable. Qed.

Lemma spares_key c : target c <> marker -> target c <> kDeviceResults -> spares_it c.
Proof using Type. by intros. Qed.

Definition off_result (kf : string * gmap string string) : Prop :=
  kf.1 <> marker /\ kf.1 <> kDeviceResults.

Lemma sent_writes hashes db :
  Forall off_result hashes -> sent db ->
  sent (run_cmds (concat ((fun '(key, fs) => replace_hash key fs) <$> hashes)) db).
Proof.
  intros Hf. apply sent_run, Forall_concat, Forall_fmap. eapply Forall_impl; [exact Hf|].
  intros [key fs] [H1 H2]. apply Forall_forall. intros c Hc%replace_hash_targets.
  apply spares_key; by rewrite Hc.
Qed.

Lemma sent_publish i ev mf db :
  sent db -> result_event i ev -> mf <> ∅ ->
  sent (run_cmds [XADD kDeviceResults (eventFields ev);
    HMSET (syncdResultPublicationKey i (resource_id ev)) (sorted_items mf)] db).
Proof.
  intros Hdb Hev _. destruct (decide (syncdResultPublicationKey i (resource_id ev) = marker)) as [Hk|Hk].
  - rewrite Hk. apply (backed_publish _ _ _ (fun _ => True)); try done. by exists i, ev.
  - apply sent_run; [|done]. constructor; [split_and!; [done..|by eauto]|].
    constructor; [by apply spares_key|constructor].
Qed.

Variable oracle : SyncdOracle D.
Hypothesis Hscan : scans_match oracle.
Hypothesis Hothers : oracle_within spares_it (store_oracle oracle).
#[local] Abbreviation inv := (fun s : Syncd DB D => holds LogicalDb.kDevice sent (stores s)).

Lemma sent_version e c :
  keeps inv (version_update oracle e c) (fun o => forall kf, o = Some kf -> off_result kf).
Proof.
  unfold version_update. apply keeps_seq; [by apply (keeps_known _ _ _ sent_stable Hothers)|].
  intros [|]; [by apply keeps_ret|]. apply keeps_seq; [by apply keeps_gets|]. intros g.
  apply keeps_ret. by intros ? [= <-].
Qed.

Lemma sent_scanned n device scan k cursor key (fs : gmap string string) :
  scans oracle n (syncdPortFaultPattern device) = Ok scan -> key ∈ (scan k cursor).2 ->
  fs <> ∅ -> off_result (key, fs).
Proof.
  intros Hs Hin _.
  assert (starts_with "OCS_SYNCD_PORT_FAULT|" key = true) as Hstart.
  { apply (Hscan n "OCS_SYNCD_PORT_FAULT|" (device +:+ "|*") scan k cursor); [|done|done].
    by repeat constructor. }
  split; cbn [fst]; by intros ->.
Qed.

Lemma sent_hmset key fs db :
  key <> marker -> key <> kDeviceResults -> sent db -> sent (execute (HMSET key fs) db).
Proof. intros. by apply sent_stable; [apply spares_key|]. Qed.

Lemma sent_handle e : keeps inv (handle_command oracle e) (fun _ => True).
Proof.
  apply (keeps_handle _ _ _ sent_stable Hothers) with (write_ok := off_result).
  - intros. by apply sent_hmset.
  - intros. by apply sent_publish.
  - intros i payload ms db Hdb.
    pose proof (sent_writes [(deviceApplyResultKey i, result_fields payload ms)] db) as H.
    simpl in H. rewrite app_nil_r in H. apply H; [by repeat constructor|done].
  - apply sent_writes.
  - done.
  - apply sent_version.
  - done.
  - apply sent_scanned.
Qed.

Lemma sent_process message : keeps inv (process_command oracle message) (fun _ => True).
Proof.
  unfold process_command, acknowledge. apply keeps_seq; [apply sent_handle|]. intros _.
  by apply (keeps_acknowledge _ _ _ _ sent_stable Hothers), backed_data.
Qed.

Lemma sent_syncd min_idle call : keeps inv (run_syncd min_idle oracle call) (fun _ => True).
Proof.
  destruct (match call with ProcessOne _ => true | _ => false end) eqn:Hcall.
  - destruct call; try done. simpl. unfold processOne.
    apply keeps_seq; [apply (keeps_next _ _ _ _ sent_stable Hothers), backed_data; done|].
    intros [message|]; [|by apply keeps_ret].
    apply keeps_seq; [apply sent_process|intros; by apply keeps_ret].
  - destruct (match call with ProcessFaultOne _ => true | _ => false end) eqn:Hfault.
    + destruct call; try done. simpl. unfold processFaultOne.
      apply keeps_seq; [apply (keeps_next _ _ _ _ sent_stable Hothers), backed_data; done|].
      intros [message|]; [|by apply keeps_ret].
      apply keeps_seq; [|intros; by apply keeps_ret].
      apply (keeps_process_fault _ _ _ sent_stable Hothers); [by apply backed_data|].
      intros. by apply sent_hmset.
    + apply (keeps_polling _ _ _ sent_stable Hothers) with (write_ok := off_result);
        [..|by destruct call].
      * intros stream group start db Hs. apply backed_group; [done|]. intros <-. revert Hs. not_in_keys.
      * intros. by apply sent_hmset.
      * intros ev m mf db Hdb How _ _. destruct (own_marker_key _ _ _ How) as (_ & Hm & _).
        apply sent_run; [|done]. constructor; [by apply spares_key|].
        constructor; [|constructor]. apply spares_key; [|done]. by destruct How.
      * apply sent_writes.
      * done.
      * done.
      * done.
      * apply sent_scanned.
Qed.
End Sent.

(** In every state that syncd and the other clients reach, a marker has its result. *)
Lemma sent_reachable {J : JsonLib} {DB} {R : Redis DB} {RL : RedisLaws DB}
    {G : RedisGroups DB} {GL : RedisGroupLaws DB} {D} {API : OcsDeviceApi D}
    min_idle E (s s' : Syncd DB D) :
  rtc (syncd_step min_idle scans_match (spares_results E)) s s' ->
  type_of kDeviceResults (device_db s) <> KHash ->
  (forall id, exists_key (syncdResultPublicationKey E id) (device_db s) = false) ->
  forall id, sent E id (device_db s').
Proof.
  intros Hsteps Ht Hm id.
  apply (syncd_invariant _ _ _ LogicalDb.kDevice (sent E id)) in Hsteps.
  - exact Hsteps.
  - intros c db Hc. by apply sent_stable.
  - intros oracle c Hscan Ho. apply sent_syncd; [done|]. intros n i x Hx. by apply (Ho n i x Hx).
  - split; [done|]. intros Hx. by rewrite Hm in Hx.
Qed.

Section Delivery.
Context {J : JsonLib} {DB : Type} {R : Redis DB} {RL : RedisLaws DB}.
Context {G : RedisGroups DB} {GL : RedisGroupLaws DB}.
Context {D : Type} {API : OcsDeviceApi D}.
#[local] Abbreviation state := (Syncd DB D).
#[local] Set Default Proof Using "Type*".

(** ** When a command is done *)
Section Done.
Variable oracle : SyncdOracle D.

Lemma on_stores_run {A} (m : prog (World DB) A) (s : state) r s' :
  on_stores m s = (r, s') -> m (stores s) = (r, stores s').
Proof using. destruct s as [w d n g]. simpl. destruct (m w). by intros [= <- <-]. Qed.

Lemma get_run l key (s : state) m s' :
  get oracle l key s = (Ok m, s') -> m = hgetall key (database l (stores s')).
Proof. by intros [-> _]%on_stores_run%get_hash_run. Qed.

(** A call that ran its commands, and answered. *)
Lemma plain_exec_run l cs (s s' : state) :
  update oracle l (plain (exec cs Replied)) s = (Ok tt, s') ->
  exists db, database l (stores s') = run_cmds cs db.
Proof.
  intros (db' & Hop & Hs)%on_stores_run%call_run. rewrite Hs, database_after_call.
  unfold plain in Hop. destruct (exec_ends _); try done. injection Hop as <-. eauto.
Qed.

Lemma append_run marker mf stream ev (s : state) b s' :
  mf <> ∅ -> marker <> stream ->
  update oracle LogicalDb.kDevice (appendEventOnce marker mf stream ev) s = (Ok b, s') ->
  exists_key marker (device_db s') = true.
Proof. intros Hmf Hm Hrun%on_stores_run. by eapply append_once_marks. Qed.

Lemma there_exists k (db : DB) : exists_key k db = true <-> kept is_there k db.
Proof using.
  unfold exists_key, kept, is_there. rewrite negb_true_iff. apply bool_decide_eq_false.
Qed.

(** *** The marker of a processed command *)
Lemma mark_leaves e batch applied (s s' : state) :
  oracle_within (fun _ => True) (store_oracle oracle) ->
  markProcessed oracle e batch applied s = (Ok tt, s') ->
  exists_key (processedDeviceCommandKey (event_id e)) (device_db s') = true.
Proof.
  intros Ho Hrun. set (Q := fun _ : DB => True).
  assert (forall (c : redis_cmd) db, True -> Q db -> Q (execute c db)) as Hst by done.
  unfold markProcessed in Hrun.
  apply bind_Ok_inv in Hrun as (now & s1 & _ & Hrun).
  apply bind_Ok_inv in Hrun as (versions & s2 & Hv & Hrun).
  apply bind_Ok_inv in Hrun as (updates & s3 & Hu & Hrun).
  assert (Forall (fun o => forall kf, o = Some kf -> kf.2 <> ∅) versions) as Hversions.
  { destruct applied; [|injection Hv as <- <-; constructor].
    refine (proj2 (keeps_mapM (fun s => holds LogicalDb.kDevice Q (stores s)) _
      (fun o => forall kf, o = Some kf -> kf.2 <> ∅) _ _ s1 _ _ I Hv) _ eq_refl).
    intros c _. unfold version_update. apply keeps_seq; [by apply (keeps_known _ _ _ Hst Ho)|].
    intros [|]; [by apply keeps_ret|]. apply keeps_seq; [by apply keeps_gets|]. intros g.
    apply keeps_ret. intros ? [= <-]. apply insert_non_empty. }
  assert (Forall (fun kf => kf.2 <> ∅) updates) as Hupdates.
  { destruct (isReconciliation _); [|injection Hu as <- <-; constructor].
    by refine (proj2 (keeps_reconciliation_updates _ _ _ Hst Ho (fun kf => kf.2 <> ∅) _ _
      e applied s2 _ _ I Hu) _ eq_refl). }
  apply plain_exec_run in Hrun as (db & Hdb).
  apply there_exists. change (device_db s') with (database LogicalDb.kDevice (stores s')).
  rewrite Hdb, fmap_cons. cbn [concat]. rewrite run_cmds_app.
  apply (kept_replace_all is_there hash_there none_there).
  - apply Forall_app. split; [by apply Forall_omap_id|done].
  - unfold kept. rewrite replaced_hash; [done|apply insert_non_empty].
Qed.

(** *** The results of a command *)

(** Every result of the batch has its marker. *)
Definition marked (e : EventEnvelope) (batch : DeviceCommandBatch) (db : DB) : Prop :=
  match batch_commands batch with
  | [] => exists_key (syncdResultPublicationKey (event_id e) (resource_id e)) db = true
  | commands => forall c, c ∈ commands ->
      exists_key (syncdResultPublicationKey (event_id e) (cmd_id c)) db = true
  end.

Definition result_keys (e : EventEnvelope) (c : redis_cmd) : Prop :=
  forall id, spares (syncdResultPublicationKey (event_id e) id) c.

Lemma within_result e id :
  oracle_within (result_keys e) (store_oracle oracle) ->
  oracle_within (spares (syncdResultPublicationKey (event_id e) id)) (store_oracle oracle).
Proof using. intros Ho n i c Hc. apply (Ho n i c Hc). Qed.

Lemma command_result_run e r c (s s' : state) :
  publish_command_result oracle e r c s = (Ok tt, s') ->
  exists_key (syncdResultPublicationKey (event_id e) (cmd_id c)) (device_db s') = true.
Proof.
  unfold publish_command_result. intros Hrun.
  apply bind_Ok_inv in Hrun as (publication & s1 & _ & Hrun).
  apply bind_Ok_inv in Hrun as (now & s2 & _ & Hrun).
  apply bind_Ok_inv in Hrun as (payload & s3 & _ & Hrun).
  apply bind_Ok_inv in Hrun as (b & s4 & Ha & Hrun). injection Hrun as <-.
  eapply append_run; [| |exact Ha]; [apply insert_non_empty|done].
Qed.

(** Publishing one result leaves the markers of the others. *)
Lemma command_result_keeps e r c k :
  oracle_within (spares k) (store_oracle oracle) ->
  keeps (fun s : state => holds LogicalDb.kDevice (kept is_there k) (stores s))
    (publish_command_result oracle e r c) (fun _ => True).
Proof.
  intros Ho. pose proof (kept_results is_there hash_there none_there k oracle Ho e
    (mkBatch [c] default_options) r) as H.
  intros s res s' Hs Hrun. destruct res as [[]|x]; (apply (H s _ s' Hs);
    unfold publishResult; cbn [batch_commands for_each]).
  - rewrite (run_bind _ _ _ _ _ Hrun). done.
  - by rewrite (run_bind_throw _ _ _ _ _ Hrun).
Qed.

Lemma results_run e r commands (s s' : state) :
  oracle_within (result_keys e) (store_oracle oracle) ->
  for_each (publish_command_result oracle e r) commands s = (Ok tt, s') ->
  forall c, c ∈ commands ->
  exists_key (syncdResultPublicationKey (event_id e) (cmd_id c)) (device_db s') = true.
Proof.
  intros Ho. revert s. induction commands as [|a commands IH]; intros s Hrun c Hc;
    [by apply elem_of_nil in Hc|].
  cbn [for_each] in Hrun. apply bind_Ok_inv in Hrun as ([] & s1 & Ha & Hrest).
  apply elem_of_cons in Hc as [->|Hc]; [|by eapply IH].
  apply there_exists.
  refine (proj1 (keeps_for_each (fun s => holds LogicalDb.kDevice (kept is_there
    (syncdResultPublicationKey (event_id e) (cmd_id a))) (stores s)) _ _ _ s1 _ s' _ Hrest)).
  - intros b _. by apply command_result_keeps, within_result.
  - by apply there_exists, (command_result_run e r a s).
Qed.

Lemma publish_run e batch r (s s' : state) :
  oracle_within (result_keys e) (store_oracle oracle) ->
  publishResult oracle e batch r s = (Ok tt, s') -> marked e batch (device_db s').
Proof.
  unfold publishResult, marked. intros Ho Hrun.
  destruct (batch_commands batch) as [|a commands]; [|by eapply results_run].
  unfold publish_batch_result in Hrun.
  apply bind_Ok_inv in Hrun as (now & s2 & _ & Hrun).
  apply bind_Ok_inv in Hrun as (payload & s3 & _ & Hrun).
  apply bind_Ok_inv in Hrun as (b & s4 & Ha & Hrun). injection Hrun as <-.
  eapply append_run; [| |exact Ha]; [apply insert_non_empty|done].
Qed.

(** What keeps every result key keeps the report. *)
Lemma marked_kept {A} e batch (m : prog state A) s r s' :
  (forall id, keeps (fun s : state => holds LogicalDb.kDevice
      (kept is_there (syncdResultPublicationKey (event_id e) id)) (stores s)) m (fun _ => True)) ->
  m s = (r, s') -> marked e batch (device_db s) -> marked e batch (device_db s').
Proof using.
  intros Hm Hrun. unfold marked.
  assert (forall id, exists_key (syncdResultPublicationKey (event_id e) id) (device_db s) = true ->
    exists_key (syncdResultPublicationKey (event_id e) id) (device_db s') = true) as Hkeep.
  { intros id Hs%there_exists. apply there_exists. by apply (Hm id s r s'). }
  destruct (batch_commands batch); auto.
Qed.

Lemma phase_run name (s : state) r s' : phase oracle name s = (r, s') -> s' = s.
Proof using. destruct s. by intros [= _ <-]. Qed.

Lemma outcome_run e batch stored (s s' : state) :
  oracle_within (result_keys e) (store_oracle oracle) ->
  publish_outcome oracle e batch stored s = (Ok tt, s') ->
  exists_key (processedDeviceCommandKey (event_id e)) (device_db s') = true /\
  marked e batch (device_db s').
Proof.
  intros Ho Hrun. unfold publish_outcome in Hrun.
  repeat match type of Hrun with
  | (publishResult _ _ _ _ ≫= _) _ = _ => fail 1
  | _ => apply bind_Ok_inv in Hrun as (? & ? & ? & Hrun)
  end.
  apply bind_Ok_inv in Hrun as ([] & s1 & Hpub & Hrun).
  apply bind_Ok_inv in Hrun as ([] & s2 & ->%phase_run & Hrun).
  apply bind_Ok_inv in Hrun as ([] & s3 & Hmark & ->%phase_run).
  split; [eapply mark_leaves; [|exact Hmark]; by intros n i c Hc|].
  eapply marked_kept; [|exact Hmark|by eapply publish_run].
  intros id. apply (kept_mark is_there hash_there none_there). by apply within_result.
Qed.

(** *** Stale commands *)
Variable dev : string.
Variable versions : string -> gmap string string.

(** The version records of the device's connections *)
Definition versions_are (db : DB) : Prop :=
  forall id, hgetall (syncdConnectionVersionKey dev id) db = versions id.

Definition off_versions (c : redis_cmd) : Prop :=
  forall id, target c <> syncdConnectionVersionKey dev id.

Lemma versions_stable c db : off_versions c -> versions_are db -> versions_are (execute c db).
Proof using RL.
  intros Hc Hdb id. destruct (execute_frame c (syncdConnectionVersionKey dev id) db) as (_ & -> & _);
    [by apply not_eq_sym|apply Hdb].
Qed.

Lemma versions_replace key fs db :
  (forall id, key <> syncdConnectionVersionKey dev id) -> versions_are db ->
  versions_are (run_cmds (replace_hash key fs) db).
Proof using RL.
  intros Hk. apply stable_run with (allowed := off_versions); [apply versions_stable|].
  apply Forall_forall. intros c Hc%replace_hash_targets id. rewrite Hc. apply Hk.
Qed.

(** A version record of some generation is at least the command's version. *)
Definition stale_command (c : ConnectionCommand) : Prop :=
  exists generation, version_known generation c (versions (cmd_id c)) = Ok true.

#[local] Abbreviation same := (fun s : state => holds LogicalDb.kDevice versions_are (stores s)).
Hypothesis Hothers : oracle_within off_versions (store_oracle oracle).

Lemma known_reads e c :
  ev_device e = dev -> keeps same (known oracle e c) (fun b => b = true -> stale_command c).
Proof.
  intros He. unfold known. rewrite He.
  eapply keeps_bind; [apply (keeps_get _ _ _ _ versions_stable Hothers)|].
  intros m (db & Hdb & ->). apply keeps_seq; [by apply keeps_gets|]. intros g.
  apply keeps_lift. intros b Hb ->. exists g. by rewrite <-Hdb.
Qed.

Lemma all_of_reads e commands :
  ev_device e = dev ->
  keeps same (all_of (known oracle e) commands) (fun b => b = true -> Forall stale_command commands).
Proof.
  intros He. induction commands as [|c commands IH]; cbn [all_of]; [by apply keeps_ret|].
  eapply keeps_bind; [by apply known_reads|]. intros [|] Hc; [|by apply keeps_ret].
  eapply keeps_weaken; [exact IH|]. intros b Hb ->. constructor; auto.
Qed.

Lemma durable_reads e batch :
  ev_device e = dev ->
  keeps same (durable_result oracle e batch)
    (fun o => o = None -> Forall stale_command (batch_commands batch)).
Proof.
  intros He. unfold durable_result.
  apply keeps_seq; [by apply (keeps_get_any _ _ _ _ versions_stable Hothers)|]. intros stored.
  case_decide; [by apply keeps_ret|].
  apply keeps_seq; [by apply (keeps_get_any _ _ _ _ versions_stable Hothers)|]. intros tried.
  eapply (keeps_bind _ _ _ (fun b => b = true -> Forall stale_command (batch_commands batch))).
  { case_decide; [by apply keeps_ret|]. unfold isStaleVersion.
    destruct (_ || _); [by apply keeps_ret|by apply all_of_reads]. }
  intros [|] Hb; [apply keeps_ret; auto|].
  apply keeps_seq; [|intros; by apply keeps_ret].
  apply (keeps_run_attempt _ _ _ versions_stable Hothers).
  - intros id fs db Hdb _ _. apply versions_stable; [|done]. by intros id'.
  - intros id payload ms db. by apply versions_replace.
Qed.

Lemma stale_mark e batch : ev_device e = dev ->
  keeps same (markProcessed oracle e batch false) (fun _ => True).
Proof.
  intros He. unfold markProcessed. apply keeps_seq; [apply keeps_now_ns|]. intros now.
  eapply (keeps_bind _ _ _ (fun vs => vs = [])); [by apply keeps_ret|]. intros vs ->.
  eapply (keeps_bind _ _ _ (Forall (fun kf => kf.1 = syncdReconciliationKey (ev_device e)))).
  { destruct (isReconciliation _); [|apply keeps_ret; constructor].
    unfold reconciliation_updates.
    apply keeps_seq; [by apply (keeps_get_any _ _ _ _ versions_stable Hothers)|]. intros control.
    eapply (keeps_bind _ _ _ (Forall (fun kf => kf.1 = syncdReconciliationKey (ev_device e)))).
    - destruct (has _ _ _); [|apply keeps_ret; constructor].
      apply keeps_seq; [apply keeps_now_ns|]. intros now'. apply keeps_ret. by repeat constructor.
    - intros controls Hc. by apply keeps_ret. }
  intros updates Hupdates. apply (keeps_put_all _ _ _ _ versions_stable Hothers).
  intros db Hdb. cbn [omap list_omap app]. rewrite fmap_cons. cbn [concat].
  rewrite run_cmds_app. apply (versions_replace (processedDeviceCommandKey (event_id e)) (processed_fields e now false)) in Hdb; [|done].
  revert Hdb. generalize (run_cmds (replace_hash (processedDeviceCommandKey (event_id e))
    (processed_fields e now false)) db).
  induction Hupdates as [|[key fs] updates Hk _ IH]; intros db1 Hdb1; [done|].
  simpl in *. subst key. rewrite run_cmds_app. by apply IH, versions_replace.
Qed.
End Done.

(** Every command of the batch is older than, or the same as, one that was applied. *)
Definition stale (e : EventEnvelope) (batch : DeviceCommandBatch) (db : DB) : Prop :=
  Forall (stale_command (fun id => hgetall (syncdConnectionVersionKey (ev_device e) id) db))
    (batch_commands batch).

(** The commands of the event; any when its payload does not decode, for then they come from
    the stored batch, if there is one. *)
Definition commands_of (e : EventEnvelope) (batch : DeviceCommandBatch) : Prop :=
  forall b, decodeDeviceCommand (ev_payload e) = Ok b -> batch_commands batch = batch_commands b.

(** The other clients leave alone the version records, the result markers and the durable
    result, and only append to the result stream. *)
Definition off_command (e : EventEnvelope) (c : redis_cmd) : Prop :=
  off_versions (ev_device e) c /\ spares_results (event_id e) c /\
  spares (deviceApplyResultKey (event_id e)) c.

Section Handled.
Variable oracle : SyncdOracle D.
Variable e : EventEnvelope.
Hypothesis Hothers : oracle_within (off_command e) (store_oracle oracle).

Lemma off_parts :
  oracle_within (off_versions (ev_device e)) (store_oracle oracle) /\
  oracle_within (result_keys e) (store_oracle oracle) /\
  oracle_within (spares (deviceApplyResultKey (event_id e))) (store_oracle oracle).
Proof.
  split_and!; intros n i c Hc; destruct (Hothers n i c Hc) as (? & Hr & ?); [done| |done].
  intros id ->. by destruct (Hr id) as (_ & ? & _).
Qed.

Lemma decode_run (s s' : state) batch :
  decode_command oracle e s = (Ok batch, s') ->
  commands_of e batch /\
  (is_ok (decodeDeviceCommand (ev_payload e)) = false ->
   kept is_hash (deviceApplyResultKey (event_id e)) (device_db s')).
Proof.
  unfold decode_command, commands_of.
  destruct (decodeDeviceCommand (ev_payload e)) as [b|x]; simpl.
  { intros [= <- <-]. split; [|done]. by intros b' [= <-]. }
  intros Hrun. apply bind_Ok_inv in Hrun as (b & s1 & _ & Hrun).
  apply bind_Ok_inv in Hrun as (payload & s2 & _ & Hrun).
  apply bind_Ok_inv in Hrun as ([] & s3 & Hput & Hrun). injection Hrun as <- <-.
  split; [done|]. intros _. apply plain_exec_run in Hput as (db & Hdb).
  change (device_db s3) with (database LogicalDb.kDevice (stores s3)). rewrite Hdb.
  unfold kept. rewrite replaced_hash; [done|apply insert_non_empty].
Qed.

Lemma durable_run (s s' : state) batch o :
  durable_result oracle e batch s = (Ok o, s') ->
  (kept is_hash (deviceApplyResultKey (event_id e)) (device_db s) -> o <> None) /\
  (o = None -> stale e batch (device_db s')).
Proof.
  destruct off_parts as (Hv & _ & Hr). intros Hrun. split.
  - intros Hk. unfold durable_result in Hrun.
    apply bind_Ok_inv in Hrun as (m & s1 & Hget & Hrun).
    destruct (hash_read oracle _ Hr s _ _ Hk Hget) as [_ Hm].
    rewrite decide_True in Hrun by by apply (Hm m). by injection Hrun as <- <-.
  - intros ->.
    destruct (durable_reads oracle (ev_device e)
      (fun id => hgetall (syncdConnectionVersionKey (ev_device e) id) (device_db s)) Hv e batch
      eq_refl s _ _ (fun id => eq_refl) Hrun) as [Hsame Hpost].
    eapply Forall_impl; [by apply (Hpost None)|]. intros c (g & Hg). exists g. by rewrite Hsame.
Qed.

Lemma stale_mark_run (s s' : state) batch :
  markProcessed oracle e batch false s = (Ok tt, s') -> stale e batch (device_db s) ->
  stale e batch (device_db s').
Proof.
  destruct off_parts as (Hv & _ & _). intros Hrun Hstale.
  destruct (stale_mark oracle (ev_device e)
    (fun id => hgetall (syncdConnectionVersionKey (ev_device e) id) (device_db s)) Hv e batch
    eq_refl s _ _ (fun id => eq_refl) Hrun) as [Hsame _].
  eapply Forall_impl; [exact Hstale|]. intros c (g & Hg). exists g. by rewrite Hsame.
Qed.

Lemma handle_run (s s' : state) :
  handle_command oracle e s = (Ok tt, s') ->
  exists_key (processedDeviceCommandKey (event_id e)) (device_db s') = true /\
  (isAlreadyProcessed oracle e s = (Ok true, s') \/
   (exists b, decodeDeviceCommand (ev_payload e) = Ok b /\ stale e b (device_db s')) \/
   (exists b, commands_of e b /\ marked e b (device_db s'))).
Proof.
  destruct off_parts as (_ & Hpub & _). unfold handle_command. intros Hrun.
  apply bind_Ok_inv in Hrun as (processed & s1 & Hpro & Hrun). destruct processed.
  { injection Hrun as <-. split; [|by left]. unfold isAlreadyProcessed in Hpro.
    apply bind_Ok_inv in Hpro as (m & s2 & ->%get_run & Hpro). injection Hpro as Hb <-.
    apply bool_decide_eq_true in Hb. by apply hash_exists. }
  apply bind_Ok_inv in Hrun as (batch & s2 & [Hof Hmal]%decode_run & Hrun).
  apply bind_Ok_inv in Hrun as (o & s3 & [Hsome Hnone]%durable_run & Hrun).
  destruct o as [stored|].
  - apply bind_Ok_inv in Hrun as ([] & s4 & [Hk Hrep]%outcome_run & Hack); [|done].
    assert (s4 = s') as -> by by injection Hack.
    split; [done|]. right; right. by exists batch.
  - specialize (Hnone eq_refl). split; [eapply mark_leaves; [|exact Hrun]; by intros n i c Hc|].
    right; left. destruct (decodeDeviceCommand (ev_payload e)) as [b|x] eqn:Hb.
    + exists b. split; [done|]. apply stale_mark_run in Hrun; [|done].
      unfold stale in *. by rewrite <-(Hof b Hb).
    + by destruct (Hsome (Hmal eq_refl)).
Qed.
End Handled.

(** Every result of the batch is in the result stream; one of the whole batch when it has no
    commands. *)
Definition reported (e : EventEnvelope) (batch : DeviceCommandBatch) (db : DB) : Prop :=
  match batch_commands batch with
  | [] => result_sent (event_id e) (resource_id e) db
  | commands => forall c, c ∈ commands -> result_sent (event_id e) (cmd_id c) db
  end.

Lemma marked_reported e batch db :
  (forall id, sent (event_id e) id db) -> marked e batch db -> reported e batch db.
Proof using Type.
  intros Hs. unfold marked, reported. destruct (batch_commands batch) as [|c0 commands].
  - apply Hs.
  - intros Hm c Hc. by apply Hs, Hm.
Qed.

End Delivery.
