(* ===== verification/SyncdResults.v ===== *)
(** * What syncd appends to its streams, it appends once: the results of the commands, and
    the commands of its own.

    [accounted] of CallLogic.v is an invariant of DEVICE_DB under every call of syncd when
    each publication of a counted entry is under one of the markers [keys]. *)
From S2P Require Import Prelude ProgLogic Errors Types DeviceApi Json DeviceCommand.
From S2P Require Import RedisKeys Redis RedisRepository RedisRepositoryProps RedisOnce.
From S2P Require Import RedisEvents Services CallLogic SyncdRules Syncd.
From S2P Require Import SyncdPublish SyncdRecovery SyncdLogic SyncdSteps SyncdPollSteps.
From S2P Require Import SyncdSteps.
From stdpp Require Import options.

(** ** The fields of an event *)
Lemma event_fields_inv ev :
  (forall v, ("event_id", v) ∈ eventFields ev -> v = event_id ev) /\
  (forall v, ("resource_id", v) ∈ eventFields ev -> v = resource_id ev) /\
  (forall v, ("operation", v) ∈ eventFields ev -> v = ev_operation ev).
Proof.
  unfold eventFields.
  split_and!; intros v Hv; rewrite !elem_of_cons, elem_of_nil in Hv; naive_solver.
Qed.

Section Counts.
Context {J : JsonLib} {DB : Type} {R : Redis DB} {RL : RedisLaws DB}.
Context {G : RedisGroups DB} {GL : RedisGroupLaws DB}.
Context {D : Type} {API : OcsDeviceApi D}.
Variable min_idle : Z.
Variable stream : string.
Variable keys : list string.
Variable counted : list (string * string) -> Prop.
Context {Hdec : forall fs, Decision (counted fs)}.
Hypothesis Hstream : stream = kDeviceResults \/ stream = kDeviceCommands.
Hypothesis Hkeys : stream ∉ keys.
Hypothesis Hresult : stream = kDeviceResults -> forall id ev,
  result_event id ev -> counted (eventFields ev) ->
  syncdResultPublicationKey id (resource_id ev) ∈ keys.
Hypothesis Hown : stream = kDeviceCommands -> forall ev m,
  own_command ev m -> counted (eventFields ev) -> m ∈ keys.
#[local] Abbreviation honest := (honest stream keys counted).
#[local] Abbreviation accounted := (accounted stream keys counted).
#[local] Abbreviation stable := (accounted_stable (DB:=DB) stream keys counted).
#[local] Set Default Proof Using "Type*".

(** What syncd replaces is never the stream. *)
Definition plain_write (kf : string * gmap string string) : Prop :=
  kf.1 <> stream /\ kf.2 <> ∅.

Lemma plain_key key : key <> kDeviceResults -> key <> kDeviceCommands -> key <> stream.
Proof using Hstream. intros H1 H2 Hk. destruct Hstream as [Hs|Hs]; congruence. Qed.

Lemma counted_hmset key fs (db : DB) :
  key <> kDeviceResults -> key <> kDeviceCommands -> accounted db ->
  accounted (execute (HMSET key fs) db).
Proof using RL Hstream. intros. apply stable; [|done]. by apply honest_hmset, plain_key. Qed.

Lemma accounted_writes hashes (db : DB) :
  Forall plain_write hashes -> accounted db ->
  accounted (run_cmds (concat ((fun '(key, fs) => replace_hash key fs) <$> hashes)) db).
Proof using RL.
  intros Hf. revert db. induction Hf as [|[key fs] hashes [Hk Hfs] _ IH]; intros db Hdb; simpl; [done|].
  rewrite run_cmds_app. by apply IH, accounted_replace.
Qed.

(** A publication on one of the two streams; [in_keys] holds when it is the counted one. *)
Lemma counted_publish s ev marker mf (db : DB) :
  (stream = s -> counted (eventFields ev) -> marker ∈ keys) ->
  marker <> kDeviceResults -> marker <> kDeviceCommands ->
  mf <> ∅ -> exists_key marker db = false -> accounted db ->
  accounted (run_cmds [XADD s (eventFields ev); HMSET marker (sorted_items mf)] db).
Proof using RL Hstream Hkeys.
  intros Hin Hm1 Hm2 Hmf Hex Hdb. destruct (decide (stream = s)) as [<-|Hne].
  - apply accounted_publish; try done; [by apply Hin|by apply plain_key].
  - apply accounted_run; [|done]. constructor; [by split; [|intros ?; destruct Hne]|].
    constructor; [|constructor]. by apply honest_hmset, plain_key.
Qed.

Variable oracle : SyncdOracle D.
Hypothesis Hscan : scans_match oracle.
Hypothesis Hothers : oracle_within honest (store_oracle oracle).
#[local] Abbreviation inv := (fun s : Syncd DB D => holds LogicalDb.kDevice accounted (stores s)).

Lemma counted_version e cmd :
  keeps inv (version_update oracle e cmd) (fun o => forall kf, o = Some kf -> plain_write kf).
Proof.
  unfold version_update. apply keeps_seq; [by apply (keeps_known _ _ _ stable Hothers)|].
  intros [|]; [by apply keeps_ret|]. apply keeps_seq; [by apply keeps_gets|]. intros g.
  apply keeps_ret. intros ? [= <-]. split; [by apply plain_key|apply insert_non_empty].
Qed.

(** The keys a scan finds are those of fault records. *)
Lemma counted_scanned n device scan k cursor key fs :
  scans oracle n (syncdPortFaultPattern device) = Ok scan -> key ∈ (scan k cursor).2 ->
  fs <> ∅ -> plain_write (key, fs).
Proof.
  intros Hs Hin Hfs. split; [|done]. cbn [fst]. intros ->.
  assert (starts_with "OCS_SYNCD_PORT_FAULT|" stream = true) as Hbad.
  { apply (Hscan n "OCS_SYNCD_PORT_FAULT|" (device +:+ "|*") scan k cursor); [|done|done].
    by repeat constructor. }
  destruct Hstream as [Hs' | Hs']; by rewrite Hs' in Hbad.
Qed.

Lemma counted_handling call :
  match call with ProcessOne _ | ProcessFaultOne _ => True | _ => False end ->
  keeps inv (run_syncd min_idle oracle call) (fun _ => True).
Proof.
  apply (keeps_handling _ _ _ _ stable Hothers) with (write_ok := plain_write).
  - apply accounted_reads_data.
  - intros. by apply counted_hmset.
  - intros. by apply counted_hmset.
  - intros id ev mf db Hdb Hev Hmf Hex. apply counted_publish; try done. intros Hs. by apply Hresult.
  - intros id payload ms db Hdb.
    apply accounted_replace; [by apply plain_key|apply insert_non_empty|done].
  - apply accounted_writes.
  - intros. split; [by apply plain_key|apply insert_non_empty].
  - apply counted_version.
  - intros. by split; [apply plain_key|].
  - apply counted_scanned.
Qed.

Lemma counted_polling call :
  match call with ProcessOne _ | ProcessFaultOne _ => False | _ => True end ->
  keeps inv (run_syncd min_idle oracle call) (fun _ => True).
Proof.
  apply (keeps_polling _ _ _ stable Hothers) with (write_ok := plain_write).
  - intros. by apply accounted_group.
  - intros. by apply counted_hmset.
  - intros ev m mf db Hdb How Hmf Hex. destruct (own_marker_key _ _ _ How) as (? & ? & _).
    apply counted_publish; try done. intros Hs. by apply Hown.
  - apply accounted_writes.
  - intros. by split; [apply plain_key|].
  - intros. by split; [apply plain_key|].
  - intros. by split; [apply plain_key|].
  - apply counted_scanned.
Qed.

Lemma counted_run call : keeps inv (run_syncd min_idle oracle call) (fun _ => True).
Proof. destruct call; first [by apply counted_handling|by apply counted_polling]. Qed.
End Counts.

(** Through any steps, the counted entries are at most as many as the markers. *)
Lemma counted_steps {J : JsonLib} {DB} {R : Redis DB} {RL : RedisLaws DB}
    {G : RedisGroups DB} {GL : RedisGroupLaws DB} {D} {API : OcsDeviceApi D}
    min_idle stream keys counted `{Hdec : forall fs, Decision (counted fs)} (s s' : Syncd DB D) :
  stream = kDeviceResults \/ stream = kDeviceCommands -> (stream ∉ keys) ->
  (stream = kDeviceResults -> forall id ev, result_event id ev -> counted (eventFields ev) ->
     syncdResultPublicationKey id (resource_id ev) ∈ keys) ->
  (stream = kDeviceCommands -> forall ev m, own_command ev m -> counted (eventFields ev) ->
     m ∈ keys) ->
  rtc (syncd_step min_idle scans_match (honest stream keys counted)) s s' ->
  accounted stream keys counted (device_db s) -> accounted stream keys counted (device_db s').
Proof.
  intros Hs Hk Hres Hown Hsteps Hacc.
  apply (syncd_invariant _ _ _ LogicalDb.kDevice (accounted stream keys counted) s s') in Hsteps;
    [done|apply accounted_stable| |done].
  intros oracle call Hsc Ho. by apply (counted_run min_idle stream keys counted).
Qed.

(** ** Suffixes *)
Lemma strip_suffix_app p s : strip_suffix p (s +:+ p) = Some s.
Proof.
  induction s as [|c s IH].
  - change ("" +:+ p) with p. destruct p; cbn [strip_suffix]; by rewrite decide_True.
  - change (String c s +:+ p) with (String c (s +:+ p)). cbn [strip_suffix]. rewrite decide_False; [by rewrite IH|].
    intros Hp. apply (f_equal String.length) in Hp. cbn [String.length] in Hp.
    assert (String.length (s +:+ p) = String.length s + String.length p) as Ha.
    { clear. induction s; simpl; [done|]. by f_equal. }
    lia.
Qed.

Lemma app_cancel_suffix s1 s2 t : s1 +:+ t = s2 +:+ t -> s1 = s2.
Proof.
  intros H. apply (f_equal (strip_suffix t)) in H. rewrite !strip_suffix_app in H.
  by injection H.
Qed.

(** ** Results *)
Section Results.
Variable E c : string.
#[local] Abbreviation result_id := (E +:+ ":result:" +:+ c).

(** The result of command [E] for connection [c]. *)
Definition is_result (fs : list (string * string)) : Prop :=
  ("event_id", result_id) ∈ fs /\ ("resource_id", c) ∈ fs.
#[export] Instance is_result_dec fs : Decision (is_result fs).
Proof. unfold is_result. apply _. Defined.

Definition result_count {DB} {R : Redis DB} (db : DB) : nat :=
  stream_count kDeviceResults is_result db.

Definition result_honest : redis_cmd -> Prop :=
  honest kDeviceResults [syncdResultPublicationKey E c] is_result.

(** Such an entry comes from a publication under this marker, unless the result ID is that
    of a whole batch. *)
Lemma result_marker {J : JsonLib} id ev :
  strip_suffix ":result" result_id = None ->
  result_event id ev -> is_result (eventFields ev) ->
  syncdResultPublicationKey id (resource_id ev) = syncdResultPublicationKey E c.
Proof.
  intros Hbatch Hev [Hid Hres]. destruct (event_fields_inv ev) as (He & Hr & _).
  apply He in Hid. apply Hr in Hres. destruct Hev as [[Hev|Hev] _]; rewrite <-Hid in Hev.
  - rewrite <-Hres in Hev |- *. by apply app_cancel_suffix in Hev as <-.
  - by rewrite Hev, strip_suffix_app in Hbatch.
Qed.
End Results.

(** C12: however often syncd crashes, restarts, polls, claims the same command again or handles
    it twice, each result is appended once: the entries of the result stream that carry the
    result of command [E] for connection [c] are at most one, and none while its publication
    marker does not exist.  The connection ID does not end in ":result", for such an ID makes
    the result's event ID also that of a whole batch.  The other clients may do anything
    but delete that marker and append such entries; SCAN replies with keys that match the
    pattern. *)
Theorem results_appended_once {J : JsonLib} {DB} {R : Redis DB} {RL : RedisLaws DB}
    {G : RedisGroups DB} {GL : RedisGroupLaws DB} {D} {API : OcsDeviceApi D}
    min_idle E c (s s' : Syncd DB D) :
  strip_suffix ":result" (E +:+ ":result:" +:+ c) = None ->
  rtc (syncd_step min_idle scans_match (result_honest E c)) s s' ->
  type_of kDeviceResults (device_db s) <> KHash -> result_count E c (device_db s) = 0 ->
  result_count E c (device_db s') <= marks (syncdResultPublicationKey E c) (device_db s').
Proof.
  intros Hb Hsteps Ht Hc. apply (counted_steps _ _ _ (is_result E c)) in Hsteps as [_ Hn].
  - unfold all_marks in Hn. simpl in Hn. by rewrite Nat.add_0_r in Hn.
  - by left.
  - not_in_keys.
  - intros _ id ev Hev Hr. rewrite (result_marker E c id ev Hb Hev Hr). by left.
  - done.
  - split; [done|]. unfold result_count in Hc. lia.
Qed.

(** ** Commands of syncd's own *)
Section Own.
Variable op E marker : string.

Definition is_own (fs : list (string * string)) : Prop :=
  ("event_id", E) ∈ fs /\ ("operation", op) ∈ fs.
#[export] Instance is_own_dec fs : Decision (is_own fs).
Proof. unfold is_own. apply _. Defined.

Definition own_count {DB} {R : Redis DB} (db : DB) : nat := stream_count kDeviceCommands is_own db.
Definition own_honest : redis_cmd -> Prop := honest kDeviceCommands [marker] is_own.
End Own.

Lemma to_string_colon_free z : char_free ":" (to_string z).
Proof.
  destruct (decide (0 <= z)%Z) as [Hz|Hz].
  { by apply all_digits_free, all_digits_to_string. }
  destruct z as [|p|p]; [lia..|].
  change (to_string (Z.neg p)) with (String "-" (to_string (Z.pos p))).
  split; [done|]. apply all_digits_free, all_digits_to_string. lia.
Qed.

(** The ID of a recovery determines the device and the generation, the marker of a command
    its operation and ID. *)
Lemma recovery_id_inj i j :
  recovery_id i = recovery_id j -> info_name i = info_name j /\ generation i = generation j.
Proof.
  assert (forall k, recovery_id k
    = ("hwsim-recovery:" +:+ info_name k) +:+ String ":" (to_string (generation k))) as Hid by done.
  rewrite !Hid. intros H. apply (f_equal (split_last ":")) in H.
  rewrite !split_last_app in H by apply to_string_colon_free.
  injection H as Hn Hg. split; [done|]. by apply to_string_inj.
Qed.

Lemma own_marker_inv op E m : own_marker op E m ->
  (op = "RECONCILE" /\ m = syncdReconciliationCommandPublicationKey E) \/
  (op = "GENERATION_RECOVERY" /\ exists i, E = recovery_id i +:+ ":command" /\
     m = syncdGenerationRecoveryKey (info_name i) (generation i)).
Proof. intros [E'|i]; [by left|right]. split; [done|]. by exists i. Qed.

Lemma own_marker_unique op E m1 m2 : own_marker op E m1 -> own_marker op E m2 -> m1 = m2.
Proof.
  intros [[-> ->]|(-> & i & -> & ->)]%own_marker_inv [[Ho ->]|(Ho & j & Hid & ->)]%own_marker_inv;
    try done.
  apply app_cancel_suffix, recovery_id_inj in Hid as [-> ->]. done.
Qed.

(** C13: syncd starts every repair once: however often it polls, crashes and starts again,
    the recovery command of a generation, and each reconciliation command, is in the command
    stream at most once, and only with its publication marker.  The other clients may do
    anything but delete that marker and append such commands themselves. *)
Theorem own_commands_appended_once {J : JsonLib} {DB} {R : Redis DB} {RL : RedisLaws DB}
    {G : RedisGroups DB} {GL : RedisGroupLaws DB} {D} {API : OcsDeviceApi D}
    min_idle op E marker (s s' : Syncd DB D) :
  own_marker op E marker ->
  rtc (syncd_step min_idle scans_match (own_honest op E marker)) s s' ->
  type_of kDeviceCommands (device_db s) <> KHash -> own_count op E (device_db s) = 0 ->
  own_count op E (device_db s') <= marks marker (device_db s').
Proof.
  intros Hm Hsteps Ht Hc. destruct (own_marker_key _ _ _ Hm) as (Hk & _).
  apply (counted_steps _ _ _ (is_own op E)) in Hsteps as [_ Hn].
  - unfold all_marks in Hn. simpl in Hn. by rewrite Nat.add_0_r in Hn.
  - by right.
  - intros Hin%list_elem_of_singleton. by rewrite Hin in Hk.
  - done.
  - intros _ ev m Hown [Hid Hop]. destruct (event_fields_inv ev) as (He & _ & Ho).
    apply He in Hid as ->. apply Ho in Hop as ->.
    rewrite (own_marker_unique _ _ _ _ Hown Hm). by left.
  - split; [done|]. unfold own_count in Hc. lia.
Qed.
