(* ===== verification/SyncdVersions.v ===== *)
(** * Version records: what syncd remembers of the commands it applied never goes back. *)
From S2P Require Import Prelude ProgLogic Redis RedisKeys RedisRepository RedisRepositoryProps.
From S2P Require Import RedisOnce Services CallLogic.
From S2P Require Import DeviceApi Errors Types Json DeviceCommand SyncdRules.
From S2P Require Import Syncd SyncdPublish SyncdLogic SyncdSteps SyncdPollSteps.
From stdpp Require Import options.

(** A record of generation [g] with a version of at least [z] *)
Definition version_record (g z : Z) (m : gmap string string) : Prop :=
  exists last generation v,
    m !! "last_successful_version" = Some last /\ stoull last = Ok v /\ (z <= v)%Z /\
    m !! "device_generation" = Some generation /\ stoull generation = Ok g.

Lemma version_fields_record e c g z :
  is_u64 g -> is_u64 (desired_version c) -> (z <= desired_version c)%Z ->
  version_record g z (version_fields e c g).
Proof.
  intros Hg Hc Hz. exists (to_string (desired_version c)), (to_string g), (desired_version c).
  rewrite !stoull_to_string by done. by split_and!.
Qed.

(** A command that is not known is newer than the record. *)
Lemma unknown_newer g z c m :
  version_record g z m -> version_known g c m = Ok false -> (z < desired_version c)%Z.
Proof.
  intros (last & generation & v & Hl & Hv & Hz & Hg & Hgen). unfold version_known.
  rewrite Hl, Hg, Hgen. simpl. rewrite decide_True by done. rewrite Hv. simpl.
  intros [= Hb]. apply bool_decide_eq_false in Hb. lia.
Qed.

(** ** Two assertions: before and after *)
Definition leads {S A} (I : S -> Prop) (m : prog S A) (I' : S -> Prop) : Prop :=
  forall s r s', I s -> m s = (r, s') -> I' s'.

Section Leads.
Context {S : Type} (I I' : S -> Prop).

Lemma leads_keeps {A} (m : prog S A) P : (forall s, I s -> I' s) -> keeps I m P -> leads I m I'.
Proof. intros HI Hm s r s' Hs Hr. apply HI. by apply (Hm s r s'). Qed.

(** The first part keeps [I] ... *)
Lemma leads_seq {A B} (m : prog S A) (f : A -> prog S B) P :
  (forall s, I s -> I' s) -> keeps I m P -> (forall a, P a -> leads I (f a) I') ->
  leads I (m ≫= f) I'.
Proof.
  intros HI Hm Hf s r s' Hs. unfold mbind, prog_bind. destruct (m s) as [[a|x] s1] eqn:Hr.
  - destruct (Hm s _ _ Hs Hr) as [Hs1 Ha]. by apply Hf; [apply Ha|].
  - destruct (Hm s _ _ Hs Hr) as [Hs1 _]. intros [= <- <-]. by apply HI.
Qed.

(** ... or the second part keeps [I']. *)
Lemma leads_then {A B} (m : prog S A) (f : A -> prog S B) :
  leads I m I' -> (forall a, keeps I' (f a) (fun _ => True)) -> leads I (m ≫= f) I'.
Proof.
  intros Hm Hf s r s' Hs. unfold mbind, prog_bind. destruct (m s) as [[a|x] s1] eqn:Hr.
  - intros Hr'. by apply (Hf a s1 r s'); [eapply Hm|].
  - intros [= <- <-]. by eapply Hm.
Qed.
End Leads.

Section Versions.
Context {J : JsonLib} {JL : JsonLaws J} {DB : Type} {R : Redis DB} {RL : RedisLaws DB}.
Context {G : RedisGroups DB} {GL : RedisGroupLaws DB}.
Context {D : Type} {API : OcsDeviceApi D}.
Variable dev conn : string.
#[local] Abbreviation vkey := (syncdConnectionVersionKey dev conn).
Variable g z : Z.
Hypothesis Hg : is_u64 g.

Definition recorded (db : DB) : Prop := version_record g z (hgetall vkey db).

Lemma recorded_stable c db : apart [vkey] c -> recorded db -> recorded (execute c db).
Proof using RL.
  intros Hc Hdb. unfold recorded in *.
  destruct (execute_frame c vkey db) as (_ & -> & _); [|done]. intros Hk. apply Hc. rewrite Hk. by left.
Qed.

Lemma recorded_reads_data : reads_data recorded.
Proof using Type. intros db db' Hdb Hd. unfold recorded. by destruct (Hd vkey) as (_ & -> & _). Qed.

Lemma recorded_apart cs (db : DB) : Forall (apart [vkey]) cs -> recorded db -> recorded (run_cmds cs db).
Proof using RL. intros Hcs. by eapply stable_run; [apply recorded_stable|]. Qed.

(** A write that is not to the record, or is a record of [g] at least as new. *)
Definition write_forward (kf : string * gmap string string) : Prop :=
  kf.1 = vkey -> version_record g z kf.2.

Lemma recorded_replace key fs db :
  write_forward (key, fs) -> recorded db -> recorded (run_cmds (replace_hash key fs) db).
Proof using RL.
  intros Hw Hdb. destruct (decide (key = vkey)) as [->|Hk].
  - unfold recorded. rewrite replace_hash_run. by apply Hw.
  - apply recorded_apart; [|done]. apply Forall_forall. intros c Hc%replace_hash_targets.
    unfold apart. rewrite Hc. by intros ?%list_elem_of_singleton.
Qed.

Lemma recorded_replace_all hashes db :
  Forall write_forward hashes -> recorded db ->
  recorded (run_cmds (concat ((fun '(key, fs) => replace_hash key fs) <$> hashes)) db).
Proof using RL.
  intros Hf. revert db. induction Hf as [|[key fs] hashes Hw _ IH]; intros db Hdb; simpl; [done|].
  rewrite run_cmds_app. by apply IH, recorded_replace.
Qed.

Variable oracle : SyncdOracle D.
Hypothesis Hscan : scans_match oracle.
Hypothesis Hothers : oracle_within (apart [vkey]) (store_oracle oracle).
#[local] Abbreviation state := (Syncd DB D).
#[local] Abbreviation inv := (fun s : state => holds LogicalDb.kDevice recorded (stores s)).
#[local] Set Default Proof Using "Type*".

(** The service serves generation [g]. *)
Definition serves (s : state) : Prop := device_generation_ s = g.

Ltac serve_walk := syncd_walk ltac:(first [apply stores_generation]).

Lemma forward_version e c :
  is_u64 (desired_version c) ->
  keeps (fun s => inv s /\ serves s) (version_update oracle e c)
    (fun o => forall kf, o = Some kf -> write_forward kf).
Proof.
  intros Hc. unfold version_update, known.
  eapply (keeps_bind _ _ _ (fun newer : bool => newer = false ->
    syncdConnectionVersionKey (ev_device e) (cmd_id c) = vkey -> (z <= desired_version c)%Z)).
  - eapply (keeps_bind _ _ _ (fun m => (exists db, recorded db /\
      m = hgetall (syncdConnectionVersionKey (ev_device e) (cmd_id c)) db) /\ True)).
    { apply keeps_and; [apply (keeps_get _ _ _ _ recorded_stable Hothers)|apply stores_generation]. }
    intros m [(db & Hdb & ->) _].
    eapply (keeps_bind _ _ _ (fun h => h = g)); [by apply keeps_gets; intros s []|]. intros h ->.
    apply keeps_lift. intros b Hb -> Hk. rewrite Hk in Hb.
    pose proof (unknown_newer g z c _ Hdb Hb). lia.
  - intros [|] Hnew; [by apply keeps_ret|].
    eapply (keeps_bind _ _ _ (fun h => h = g)); [by apply keeps_gets; intros s []|]. intros h ->.
    apply keeps_ret. intros ? [= <-] Hk. apply version_fields_record; [done..|]. by apply Hnew.
Qed.

(** The keys a scan finds are those of fault records. *)
Lemma forward_scanned n device scan k cursor key fs :
  scans oracle n (syncdPortFaultPattern device) = Ok scan -> key ∈ (scan k cursor).2 ->
  fs <> ∅ -> write_forward (key, fs).
Proof.
  intros Hs Hin _ Hk. cbn [fst] in Hk. subst key.
  assert (starts_with "OCS_SYNCD_PORT_FAULT|" vkey = true) as Hbad; [|done].
  apply (Hscan n "OCS_SYNCD_PORT_FAULT|" (device +:+ "|*") scan k cursor); [|done|done].
  by repeat constructor.
Qed.

Lemma forward_updates e applied :
  keeps (fun s => inv s /\ serves s) (reconciliation_updates oracle e applied) (Forall write_forward).
Proof.
  eapply keeps_weaken; [apply keeps_and|].
  - apply (keeps_reconciliation_updates _ _ _ recorded_stable Hothers write_forward).
    + by intros device fs _ Hk.
    + apply forward_scanned.
  - instantiate (1 := fun _ => True). unfold reconciliation_updates, portFaults, recovered_fault.
    serve_walk.
  - by intros updates [H _].
Qed.

(** [markProcessed], for the generation being served *)
Lemma forward_mark e batch applied :
  Forall (fun c => is_u64 (desired_version c)) (batch_commands batch) ->
  leads inv (markProcessed oracle e batch applied) (fun s => serves s -> inv s).
Proof.
  intros Hb s r s' Hs Hrun Hserves.
  assert (serves s) as Hserved.
  { assert (keeps (fun s1 : state => device_generation_ s1 = device_generation_ s)
      (markProcessed oracle e batch applied) (fun _ => True)) as Hgen.
    2: { unfold serves in *. by destruct (Hgen s r s' eq_refl Hrun) as [<- _]. }
    unfold markProcessed, version_update, known, reconciliation_updates, portFaults,
      recovered_fault. syncd_walk ltac:(apply stores_generation). }
  enough (keeps (fun s => inv s /\ serves s) (markProcessed oracle e batch applied) (fun _ => True))
    as Hk by by apply (Hk s r s' (conj Hs Hserved) Hrun).
  unfold markProcessed. apply keeps_seq.
  { eapply keeps_weaken; [apply keeps_and; [apply keeps_now_ns|apply stores_generation]|done]. }
  intros now. eapply (keeps_bind _ _ _ (Forall (fun o => forall kf, o = Some kf -> write_forward kf))).
  { destruct applied; [|apply keeps_ret; constructor]. apply keeps_mapM. intros c Hc.
    apply forward_version. rewrite Forall_forall in Hb. by apply Hb. }
  intros versions Hv. eapply (keeps_bind _ _ _ (Forall write_forward)).
  { destruct (isReconciliation _); [apply forward_updates|apply keeps_ret; constructor]. }
  intros updates Hu. eapply keeps_weaken; [apply keeps_and|done].
  - apply (keeps_put_all _ _ _ _ recorded_stable Hothers). intros db.
    apply recorded_replace_all. constructor; [done|]. apply Forall_app. split; [|done].
    by apply Forall_omap_id.
  - apply stores_generation.
Qed.

Lemma forward_put_result id payload ms db :
  recorded db -> recorded (run_cmds (replace_hash (deviceApplyResultKey id) (result_fields payload ms)) db).
Proof. by apply recorded_replace. Qed.

Lemma decoded_versions text b :
  decodeDeviceCommand text = Ok b -> Forall (fun c => is_u64 (desired_version c)) (batch_commands b).
Proof.
  intros Hb. destruct (decode_batch_wf text b Hb) as (_ & Hwf & _).
  eapply Forall_impl; [exact Hwf|]. by intros c [Hc _].
Qed.

Lemma forward_decode e :
  keeps inv (decode_command oracle e)
    (fun b => Forall (fun c => is_u64 (desired_version c)) (batch_commands b)).
Proof.
  assert (forall l key, keeps inv (get oracle l key) (fun _ => True)) as Hget
    by (intros; apply (keeps_get_any _ _ _ _ recorded_stable Hothers)).
  unfold decode_command. destruct (decodeDeviceCommand (ev_payload e)) as [b|x] eqn:Hb.
  { apply keeps_ret. by apply (decoded_versions _ _ Hb). }
  eapply (keeps_bind _ _ _ (fun b => Forall (fun c => is_u64 (desired_version c)) (batch_commands b))).
  - apply keeps_try_catch; [|intros x'; apply keeps_ret; constructor].
    unfold recoverPreparedBatch. destruct (strip_suffix _ _); [|apply keeps_ret; constructor].
    apply keeps_seq; [apply Hget|]. intros prepared.
    destruct (prepared !! "payload"); [|apply keeps_ret; constructor].
    apply keeps_lift. apply decoded_versions.
  - intros batch Hbatch. apply keeps_seq; [by apply keeps_lift|]. intros payload.
    apply keeps_seq; [|intros; by apply keeps_ret].
    apply (keeps_put _ _ _ _ recorded_stable Hothers). intros db. apply forward_put_result.
Qed.

Lemma forward_durable e batch : keeps inv (durable_result oracle e batch) (fun _ => True).
Proof.
  apply (keeps_durable _ _ _ recorded_stable Hothers); [|apply forward_put_result].
  intros id fs db Hdb _ _. apply recorded_stable; [|done]. by intros ?%list_elem_of_singleton.
Qed.

Lemma forward_results e batch r : keeps inv (publishResult oracle e batch r) (fun _ => True).
Proof.
  apply (keeps_results _ _ _ recorded_stable Hothers). intros id ev mf db Hdb _ _ _.
  apply recorded_apart; [|done]. repeat constructor; by intros ?%list_elem_of_singleton.
Qed.

Lemma forward_outcome e batch stored :
  Forall (fun c => is_u64 (desired_version c)) (batch_commands batch) ->
  leads inv (publish_outcome oracle e batch stored) (fun s => serves s -> inv s).
Proof.
  intros Hb. unfold publish_outcome.
  repeat match goal with
  | |- leads _ (markProcessed _ _ _ _ ≫= _) _ =>
      apply leads_then; [by apply forward_mark|intros; apply keeps_phase]
  | |- leads _ (_ ≫= _) _ =>
      apply (leads_seq _ _ _ _ (fun _ => True)); [done| |intros ? _]
  end.
  all: syncd_walk ltac:(first [by apply keeps_update_other
    | apply (keeps_state_publication _ _ _ recorded_stable Hothers) | apply forward_results]).
Qed.

Lemma forward_handle e : leads inv (handle_command oracle e) (fun s => serves s -> inv s).
Proof.
  unfold handle_command, isAlreadyProcessed.
  apply (leads_seq _ _ _ _ (fun _ => True)); [done| |].
  { syncd_walk ltac:(apply (keeps_get_any _ _ _ _ recorded_stable Hothers)). }
  intros [|] _; [by apply leads_keeps with (P := fun _ => True); [|apply keeps_ret]|].
  eapply leads_seq; [done|apply forward_decode|]. intros batch Hb.
  eapply leads_seq; [done|apply forward_durable|]. intros [stored|] _; [|by apply forward_mark].
  apply leads_then; [by apply forward_outcome|]. intros. apply keeps_before_ack.
Qed.

Lemma forward_next l stream group consumer idle :
  keeps inv (on_stores (next_message (store_oracle oracle) l stream group consumer idle))
    (fun _ => True).
Proof. by apply (keeps_next _ _ _ _ recorded_stable Hothers), recorded_reads_data. Qed.

(** An acknowledgement leaves the generation alone. *)
Lemma forward_acknowledge id :
  leads (fun s => serves s -> inv s) (acknowledge oracle id) (fun s => serves s -> inv s).
Proof.
  intros s r s' Hs Hrun Hserves. unfold acknowledge in Hrun.
  assert (serves s) as Hserved.
  { revert Hrun Hserves. unfold serves. intros Hrun <-.
    assert (keeps (fun s1 : state => device_generation_ s1 = device_generation_ s)
      (acknowledge_on oracle kDeviceCommands kConsumerGroup id
        "syncd failed to acknowledge processed device command") (fun _ => True)) as Hk.
    { unfold acknowledge_on. syncd_walk ltac:(apply stores_generation). }
    by destruct (Hk s r s' eq_refl Hrun). }
  by apply (keeps_acknowledge _ _ _ _ recorded_stable Hothers _ _ _ _ recorded_reads_data s r s'
    (Hs Hserved) Hrun).
Qed.

Lemma forward_command min_idle consumer :
  leads inv (run_syncd min_idle oracle (ProcessOne consumer)) (fun s => serves s -> inv s).
Proof.
  simpl. unfold processOne, process_command. eapply leads_seq; [done|apply forward_next|].
  intros [message|] _; [|by apply leads_keeps with (P := fun _ => True); [|apply keeps_ret]].
  apply leads_then; [|intros; by apply keeps_ret]. apply leads_then; [apply forward_handle|].
  intros _ s r s' Hs Hrun. split; [|done]. by apply (forward_acknowledge _ s r s' Hs Hrun).
Qed.

Lemma forward_fault min_idle consumer :
  keeps inv (run_syncd min_idle oracle (ProcessFaultOne consumer)) (fun _ => True).
Proof.
  simpl. unfold processFaultOne. apply keeps_seq; [apply forward_next|].
  intros [message|]; [|by apply keeps_ret]. apply keeps_seq; [|intros; by apply keeps_ret].
  apply (keeps_process_fault _ _ _ recorded_stable Hothers recorded_reads_data).
  intros id fs db Hdb _ _. apply recorded_stable; [|done]. by intros ?%list_elem_of_singleton.
Qed.

(** The polls write no version record. *)
Lemma forward_polling min_idle call :
  match call with ProcessOne _ | ProcessFaultOne _ => False | _ => True end ->
  keeps inv (run_syncd min_idle oracle call) (fun _ => True).
Proof.
  apply (keeps_polling _ _ _ recorded_stable Hothers) with (write_ok := write_forward).
  - intros stream group start db _ Hdb. unfold createConsumerGroup.
    pose proof (xgroup_create_data stream group start db) as Hx.
    destruct (xgroup_create _ _ _ _) as [r db']. simpl in Hx.
    assert (recorded db') as Hrec.
    { unfold recorded in *. by destruct (Hx vkey) as (_ & -> & _). }
    destruct r as [u|[]]; try done. by destruct (contains _ _).
  - intros device h fs db Hdb _ _. apply recorded_stable; [|done].
    by intros ?%list_elem_of_singleton.
  - intros ev m mf db Hdb Hown _ _. apply recorded_apart; [|done].
    destruct (own_marker_key _ _ _ Hown) as (_ & _ & Hm). specialize (Hm dev conn).
    repeat constructor; by intros ?%list_elem_of_singleton.
  - apply recorded_replace_all.
  - by intros device fs _ Hk.
  - by intros id fs _ Hk.
  - by intros device direction port fs _ Hk.
  - apply forward_scanned.
Qed.
End Versions.

(** A call or commands of other clients; commands are only handled for generation [g]. *)
Inductive serving_step {J : JsonLib} {DB} {R : Redis DB} {G : RedisGroups DB}
    {D} {API : OcsDeviceApi D} (min_idle g : Z) (allowed : redis_cmd -> Prop)
    : relation (Syncd DB D) :=
  | ServingStep oracle c s r s' :
      scans_match oracle -> oracle_within allowed (store_oracle oracle) ->
      run_syncd min_idle oracle c s = (r, s') ->
      (forall consumer, c = ProcessOne consumer -> device_generation_ s' = g) ->
      serving_step min_idle g allowed s s'
  | ServingOthers l cs s :
      Forall allowed cs -> serving_step min_idle g allowed s (others_run l cs s).

(** C19: the version records never go back: while the commands syncd handles are for one
    generation of the device, the last successful version it remembers for a connection
    never decreases, whatever commands arrive late, twice or out of order, however syncd
    polls and wherever it crashes and starts again, as long as nobody else writes the
    record. *)
Theorem version_records_never_go_back {J : JsonLib} {JL : JsonLaws J} {DB} {R : Redis DB}
    {RL : RedisLaws DB} {G : RedisGroups DB} {GL : RedisGroupLaws DB} {D} {API : OcsDeviceApi D}
    min_idle dev conn g z (s s' : Syncd DB D) :
  let key := syncdConnectionVersionKey dev conn in
  is_u64 g -> rtc (serving_step min_idle g (apart [key])) s s' ->
  version_record g z (hgetall key (device_db s)) ->
  version_record g z (hgetall key (device_db s')).
Proof.
  intros key Hg Hsteps. induction Hsteps as [|s1 s2 s3 Hstep _ IH]; [done|].
  intros Hs. apply IH. destruct Hstep as [oracle c s1 r s2 Hscan Ho Hrun Hserves|l cs s1 Hcs].
  - destruct c as [consumer|consumer| | |].
    + apply (forward_command dev conn g z Hg oracle Hscan Ho min_idle consumer s1 r s2 Hs Hrun).
      by apply (Hserves consumer).
    + by apply (forward_fault dev conn g z Hg oracle Hscan Ho min_idle consumer s1 r s2).
    + by apply (forward_polling dev conn g z Hg oracle Hscan Ho min_idle PollDevice I s1 r s2).
    + by apply (forward_polling dev conn g z Hg oracle Hscan Ho min_idle PollDeviceLiveness I s1 r s2).
    + by apply (forward_polling dev conn g z Hg oracle Hscan Ho min_idle Start I s1 r s2).
  - apply (others_hold (apart [key]) LogicalDb.kDevice (recorded dev conn g z)); [|done|exact Hs].
    by apply recorded_stable.
Qed.
