(* ===== verification/SyncdPollProps.v ===== *)
(** * Polling: it ends, it leaves the switch as it is, and it does not interfere with the
    orchestrator: a device is reconciled only when its snapshots in DEVICE_DB are settled. *)
From S2P Require Import Prelude ProgLogic Errors Types SimDevice DeviceApi Reconciler.
From S2P Require Import ReconcilerProps Json DeviceCommand RedisKeys Redis RedisRepository.
From S2P Require Import RedisRepositoryProps RedisOnce Services CallLogic SyncdRules Syncd.
From S2P Require Import SyncdPublish SyncdPorts SyncdRecovery SyncdReconcile SyncdPoll.
From S2P Require Import SyncdLogic SyncdSteps.
From stdpp Require Import options.

(** ** The loop over the ports *)
Section Loop.
Context {J : JsonLib} {DB : Type} {R : Redis DB} {G : RedisGroups DB}.
Context {D : Type} {API : OcsDeviceApi D}.
Variable oracle : SyncdOracle D.
Variable info : DeviceInfo.
Variable actual : list AppliedConnection.
Variable dir : PortDirection.t.

(** One poll of each port of a list: those that are unavailable. *)
Fixpoint poll_each (ids : list Z) (unavailable : gset Z) : prog (Syncd DB D) (gset Z) :=
  match ids with
  | [] => mret unavailable
  | id :: rest =>
      down ← poll_port oracle info actual dir id;
      poll_each rest (if down : bool then {[id]} ∪ unavailable else unavailable)
  end.

Lemma poll_direction_counts n count id unavailable s :
  (0 <= id)%Z -> (id + Z.of_nat n = count + 1)%Z -> (count < 65535)%Z ->
  poll_direction (DB:=DB) oracle (S n) info actual dir count id unavailable s
  = poll_each (seqZ id (Z.of_nat n)) unavailable s.
Proof.
  revert id unavailable s. induction n as [|n IH]; intros id unavailable s Hid Hn Hc.
  - cbn [poll_direction]. rewrite decide_False by lia. by rewrite seqZ_nil by lia.
  - rewrite seqZ_cons by lia. cbn [poll_each]. set (k := S n). cbn [poll_direction].
    rewrite decide_True by lia. unfold mbind, prog_bind.
    destruct (poll_port oracle info actual dir id s) as [[down|x] s1]; [|done].
    rewrite wrap_small by (unfold in_width; lia).
    replace (Z.pred (Z.of_nat k)) with (Z.of_nat n) by lia.
    replace (Z.succ id) with (id + 1)%Z by lia. apply IH; lia.
Qed.

(** At 65535 every 16-bit index is a port: the loop is left by an exception only. *)
Lemma poll_direction_wraps fuel id unavailable s :
  is_u16 id -> is_ok (poll_direction (DB:=DB) oracle fuel info actual dir 65535 id unavailable s).1
  = false.
Proof.
  revert id unavailable s. induction fuel as [|fuel IH]; intros id unavailable s Hid; [done|].
  cbn [poll_direction]. rewrite decide_True by (unfold in_width in Hid; lia).
  unfold mbind, prog_bind. destruct (poll_port _ _ _ _ _ _) as [[down|x] s1]; [|done].
  apply IH. by apply wrap_in_width.
Qed.

(** C17: the loop over the ports polls each port from 1 to the count once, in order, and
    ends, for every 16-bit count but 65535: there the index wraps to 0, no number of
    iterations completes the loop, and it goes on for ever unless a call throws. *)
Theorem ports_polled_once_unless_full count :
  is_u16 count ->
  (count <> 65535%Z -> forall s,
     poll_direction (DB:=DB) oracle (S (Z.to_nat count)) info actual dir count 1 ∅ s
     = poll_each (seqZ 1 count) ∅ s) /\
  (count = 65535%Z -> forall fuel s,
     is_ok (poll_direction (DB:=DB) oracle fuel info actual dir count 1 ∅ s).1 = false).
Proof.
  intros [Hc1 Hc2]. split.
  - intros Hne s. rewrite poll_direction_counts by lia. by rewrite Z2Nat.id by lia.
  - intros -> fuel s. apply poll_direction_wraps. unfold in_width. lia.
Qed.
End Loop.

(** ** The switch *)
Section Switch.
Context {J : JsonLib} {DB : Type} {R : Redis DB} {G : RedisGroups DB}.
Variable oracle : SyncdOracle SimDevice.
Hypothesis Halone : forall n d, device_events oracle n d = d.
Variable d : SimDevice.
#[local] Abbreviation state := (Syncd DB SimDevice).
#[local] Abbreviation inv := (device_is (DB:=DB) d).

Lemma device_read {A} (m : prog SimDevice A) :
  (forall d, (m d).2 = d) -> keeps inv (on_device oracle (returns m)) (fun _ => True).
Proof using Halone.
  intros Hm [w d' name gen] r s' Hs. unfold device_is in *. simpl in *. subst d'.
  rewrite Halone. specialize (Hm d). unfold returns. destruct (m d) as [r1 d1]. simpl in Hm.
  intros [= <- <-]. by subst.
Qed.

Lemma port_read direction id : keeps inv (get_port oracle direction id) (fun _ => True).
Proof using Halone.
  destruct direction; apply device_read; intros d'; unfold getPortState; by destruct (negb _).
Qed.

(** Walk through a program that only reads the device. *)
Ltac switch_walk leaf := syncd_walk ltac:(first
  [ apply stores_device
  | apply port_read
  | apply device_read; by intros
  | match goal with |- keeps _ (modify _) _ => apply keeps_modify; by intros [] end
  | leaf ]).

Lemma ports_leave fuel info actual direction count id unavailable :
  keeps inv (poll_direction oracle fuel info actual direction count id unavailable) (fun _ => True).
Proof using Halone.
  revert id unavailable. induction fuel as [|fuel IH]; intros id unavailable; simpl.
  { apply keeps_throw. }
  case_decide; [|by apply keeps_ret]. apply keeps_seq; [|intros; apply IH].
  unfold poll_port, publishPortState, publish_port_hash, raise_port_fault, publishPortAlarm,
    clear_port_fault, cleared_fault, clearPortAlarm, clear_port_alarm_once, publish_alarm,
    count_once.
  switch_walk fail.
Qed.

Lemma refresh_leaves info keys m : keeps inv (refresh_all oracle info keys m) (fun _ => True).
Proof.
  revert m. induction keys as [|key keys IH]; intros m; simpl; [by apply keeps_ret|].
  unfold refresh_known, publish_refreshed, published_delta. switch_walk ltac:(apply IH).
Qed.

Lemma recovery_leaves info actual :
  keeps inv (scheduleGenerationRecovery oracle info actual) (fun _ => True).
Proof using Halone.
  unfold scheduleGenerationRecovery, recover_generation, refresh_generation, publish_recovery, refresh_unexpected,
    publish_refreshed, published_delta, count_once.
  switch_walk ltac:(apply refresh_leaves).
Qed.

Lemma settle_leaves keys m : keeps inv (settle_all oracle keys m) (fun _ => True).
Proof.
  revert m. induction keys as [|key keys IH]; intros m; simpl; [by apply keeps_ret|].
  switch_walk ltac:(apply IH).
Qed.

Lemma reconcile_leaves info actual : keeps inv (reconcileDevice oracle info actual) (fun _ => True).
Proof using Halone.
  unfold reconcileDevice, loadDesiredConnections, orchestrationSettled, reconcile_settled,
    confirmed_state_recovery, failed_drift, portFaults, port_recovery, port_recovery_drift,
    recovered_record, put_hashes, close_control, reconcile_drifts, open_control, put_control,
    publish_reconciliation, associatePortFaults, portFaults, associated_fault, put_hashes,
    publishReconciliationState, publish_drift, publish_drift_state, published_delta,
    publishDriftAlarm, raise_drift_alarm, clearDriftAlarm, clear_drift_alarm, publish_alarm,
    count_once.
  switch_walk ltac:(apply settle_leaves).
Qed.

Lemma polls_leave min_idle c :
  match c with ProcessOne _ | ProcessFaultOne _ => False | _ => True end ->
  keeps inv (run_syncd min_idle oracle c) (fun _ => True).
Proof using Halone.
  intros Hc. destruct c; try done; simpl;
    unfold pollDevice, poll_online, poll_failed, pollDeviceLiveness, same_device,
      recovery_pending, initialize, pollPortStates, publish_started, publishDeviceState,
      publishHwsimHeartbeat, set_identity;
    switch_walk ltac:(first [apply ports_leave | apply recovery_leaves | apply reconcile_leaves]).
Qed.
End Switch.

(** Polling and starting only read the switch: unless somebody else changes it, it stays as
    it is; what syncd wants changed, it publishes as a command. *)
Theorem polls_leave_switch {J : JsonLib} {DB} {R : Redis DB} {G : RedisGroups DB}
    min_idle oracle c (s : Syncd DB SimDevice) r s' :
  (forall n d, device_events oracle n d = d) ->
  match c with ProcessOne _ | ProcessFaultOne _ => False | _ => True end ->
  run_syncd min_idle oracle c s = (r, s') -> device_ s' = device_ s.
Proof.
  intros Ha Hc Hrun. by destruct (polls_leave oracle Ha (device_ s) min_idle c Hc s r s' eq_refl Hrun).
Qed.

(** ** When a device is settled *)

(** The snapshot of a desired connection: its command is done, and it is this one. *)
Definition settled_snapshot (c : ConnectionCommand) (snapshot : gmap string string) : Prop :=
  exists version status,
    snapshot !! "apply_status" = Some status /\ (status = "ACTIVE" \/ status = "FAILED") /\
    snapshot !! "desired_version" = Some version /\ stoull version = Ok (desired_version c) /\
    snapshotPort snapshot "input_port" = Ok (cmd_input_port c) /\
    snapshotPort snapshot "output_port" = Ok (cmd_output_port c).

(** The snapshot of a connection that is not desired: its removal failed. *)
Definition removal_snapshot (snapshot : gmap string string) : Prop :=
  is_Some (snapshot !! "desired_version") /\ snapshot !! "apply_status" = Some "FAILED" /\
  snapshot !! "operation" = Some "REMOVE".

Definition fits (wanted : option ConnectionCommand) (snapshot : gmap string string) : Prop :=
  match wanted with
  | Some c => settled_snapshot c snapshot
  | None => removal_snapshot snapshot
  end.

(** Every snapshot fits what is desired of its connection, and every desired connection has
    a snapshot. *)
Definition settled_device (desired : gmap string ConnectionCommand)
    (snapshots : list (gmap string string)) : Prop :=
  (forall snapshot, snapshot ∈ snapshots ->
     exists id, snapshot !! "id" = Some id /\ fits (desired !! id) snapshot) /\
  (forall id, is_Some (desired !! id) ->
     exists snapshot, snapshot ∈ snapshots /\ snapshot !! "id" = Some id).

(** ** The loop, as a function of the snapshots *)
Fixpoint settle_list (snapshots : list (gmap string string))
    (waiting : gmap string ConnectionCommand) : result bool :=
  match snapshots with
  | [] => Ok (bool_decide (waiting = ∅))
  | snapshot :: rest =>
      r ← settle waiting snapshot;
      match r with None => Ok false | Some waiting => settle_list rest waiting end
  end.

Lemma has_true m f v : has m f v = true <-> m !! f = Some v.
Proof. unfold has. apply bool_decide_eq_true. Qed.

Lemma and_also_true a b : and_also a b = Ok true <-> a = Ok true /\ b = Ok true.
Proof. unfold and_also. destruct a as [[]|], b as [[]|]; simpl; naive_solver. Qed.

Lemma port_is_true m f v : port_is m f v = Ok true <-> snapshotPort m f = Ok v.
Proof.
  unfold port_is. destruct (snapshotPort m f) as [p|]; simpl; [|naive_solver]. split.
  - intros [= Hp%bool_decide_eq_true]. by subst.
  - intros [= ->]. by rewrite bool_decide_eq_true_2.
Qed.

(** One snapshot of the loop *)
Lemma settle_spec waiting snapshot waiting' :
  settle waiting snapshot = Ok (Some waiting') <->
  exists id, snapshot !! "id" = Some id /\ fits (waiting !! id) snapshot /\
    waiting' = delete id waiting.
Proof.
  unfold settle, fits, removal_snapshot, settled_snapshot.
  destruct (snapshot !! "id") as [id|]; [|naive_solver].
  destruct (snapshot !! "desired_version") as [version|];
    [|split; [done|intros (i & [= <-] & Hf & _); destruct (waiting !! id); naive_solver]].
  destruct (snapshot !! "apply_status") as [status|] eqn:Hs;
    [|split; [done|intros (i & [= <-] & Hf & _); destruct (waiting !! id); naive_solver]].
  destruct (waiting !! id) as [c|] eqn:Hw.
  - split.
    + intros (same & Hsame & Hok)%result_bind_Ok. destruct same; [|done].
      injection Hok as <-. rewrite !and_also_true, !port_is_true in Hsame.
      destruct Hsame as ([= Hst%bool_decide_eq_true] & Hv & Hi & Ho).
      exists id. rewrite Hw. split; [done|]. split; [|done].
      exists version, status. apply result_bind_Ok in Hv as (v & Hv & [= Hd%bool_decide_eq_true]).
      subst v. done.
    + intros (id' & [= <-] & Hf & ->). rewrite Hw in Hf.
      destruct Hf as (v & st & [= <-] & Hst & [= <-] & Hv & Hi & Ho).
      match goal with |- context [and_also ?a ?b] =>
        assert (and_also a b = Ok true) as ->; [|done] end.
      rewrite !and_also_true, !port_is_true. rewrite bool_decide_eq_true_2 by done. rewrite Hv. simpl.
      by rewrite bool_decide_eq_true_2.
  - pose proof (delete_id waiting id Hw) as Hdel. split.
    + destruct (has snapshot "operation" "REMOVE") eqn:Hop; [|done]. apply has_true in Hop.
      simpl. case_bool_decide as Hst; [subst status|done]. intros [= <-].
      exists id. rewrite Hw. by split_and!.
    + intros (i & [= <-] & Hf & ->). rewrite Hw in Hf.
      destruct Hf as (_ & [= ->] & Hop%has_true). rewrite Hop. simpl. by rewrite Hdel.
Qed.

Lemma settle_list_cons snapshot rest waiting :
  settle_list (snapshot :: rest) waiting = Ok true <->
  exists id, snapshot !! "id" = Some id /\ fits (waiting !! id) snapshot /\
    settle_list rest (delete id waiting) = Ok true.
Proof.
  cbn [settle_list]. rewrite result_bind_Ok. split.
  - intros ([waiting'|] & Hs & Hr); [|done]. apply settle_spec in Hs as (id & Hid & Hf & ->). eauto.
  - intros (id & Hid & Hf & Hr). exists (Some (delete id waiting)). split; [|done].
    apply settle_spec. eauto.
Qed.

(** The whole loop, for snapshots of distinct connections. *)
Lemma settle_list_spec snapshots waiting :
  NoDup ((.!! "id") <$> snapshots) ->
  settle_list snapshots waiting = Ok true <-> settled_device waiting snapshots.
Proof.
  revert waiting. induction snapshots as [|snap rest IH]; intros waiting Hnd.
  { cbn [settle_list]. split.
    - intros [= ->%bool_decide_eq_true]. split; [by intros ? ?%elem_of_nil|].
      intros id. rewrite lookup_empty. by intros [? [=]].
    - intros [_ Hw]. rewrite bool_decide_eq_true_2; [done|]. apply map_eq. intros id.
      rewrite lookup_empty. destruct (waiting !! id) as [c|] eqn:Hid; [|done].
      by destruct (Hw id) as (? & ?%elem_of_nil & _). }
  rewrite fmap_cons, NoDup_cons in Hnd. destruct Hnd as [Hfresh Hnd].
  assert (forall snapshot, snapshot ∈ rest -> snapshot !! "id" <> snap !! "id") as Hother.
  { intros snapshot Hin Heq. apply Hfresh. rewrite <-Heq. by apply list_elem_of_fmap_2. }
  rewrite settle_list_cons. unfold settled_device. setoid_rewrite elem_of_cons. split.
  - intros (id & Hid & Hf & Hr). apply IH in Hr as [Hr1 Hr2]; [|done]. split.
    + intros snapshot [->|Hin]; [eauto|]. destruct (Hr1 snapshot Hin) as (i & Hi & Hfi).
      exists i. split; [done|]. rewrite lookup_delete_ne in Hfi; [done|].
      intros ->. apply (Hother snapshot Hin). congruence.
    + intros i Hi. destruct (decide (i = id)) as [->|Hne]; [by exists snap; auto|].
      destruct (Hr2 i) as (snapshot & ? & ?); [by rewrite lookup_delete_ne|eauto].
  - intros [H1 H2]. destruct (H1 snap) as (id & Hid & Hf); [by left|].
    exists id. split_and!; [done..|]. apply IH; [done|]. split.
    + intros snapshot Hin. destruct (H1 snapshot) as (i & Hi & Hfi); [by right|].
      exists i. split; [done|]. rewrite lookup_delete_ne; [done|].
      intros ->. apply (Hother snapshot Hin). congruence.
    + intros i Hi. destruct (decide (i = id)) as [->|Hne].
      { rewrite lookup_delete_eq in Hi. by destruct Hi. }
      rewrite lookup_delete_ne in Hi by done.
      destruct (H2 i Hi) as (snapshot & [->|Hin] & Hsn); [congruence|eauto].
Qed.

(** ** Without other clients, what is read is what is stored *)
Section Waits.
Context {J : JsonLib} {DB : Type} {R : Redis DB} {G : RedisGroups DB}.
Context {D : Type} {API : OcsDeviceApi D}.
Variable oracle : SyncdOracle D.
Hypothesis Halone : forall n i, others_of (around (store_oracle oracle) n i) = [].
#[local] Abbreviation state := (Syncd DB D).
#[local] Set Default Proof Using "Type*".

Definition same_databases (w : World DB) (s : state) : Prop :=
  forall l, database l (stores s) = database l w.

Lemma same_databases_tick w w1 (d d1 : D) n n1 g g1 :
  same_databases w (mkSyncd w1 d n g) -> same_databases w (mkSyncd (tick w1) d1 n1 g1).
Proof using Type. intros Hw l. rewrite <-Hw. by destruct w1, l. Qed.

Lemma read_get w l key :
  keeps (same_databases w) (get oracle l key) (fun m => m = hgetall key (database l w)).
Proof.
  intros [w1 d n g] r s' Hw. unfold get, on_stores, get_hash, Services.call, plain.
  rewrite Halone. simpl.
  assert (forall db, db = database l w1 -> same_databases w (mkSyncd (after_call l db w1) d n g))
    as Hafter.
  { intros db -> l'. rewrite <-Hw. by destruct w1, l, l'. }
  destruct (exec_ends _); intros [= <- <-]; (split; [by apply Hafter|]); try done.
  intros m [= <-]. by rewrite <-Hw.
Qed.

Lemma read_scan w l pattern :
  keeps (same_databases w) (scan_keys oracle l pattern)
    (fun keys => exists s1 s2 : state, scan_keys oracle l pattern s1 = (Ok keys, s2)).
Proof.
  intros [w1 d n g] r s' Hw Hr. split; [|intros keys ->; eauto].
  injection Hr as _ <-. by eapply same_databases_tick.
Qed.

Lemma read_settle w keys waiting :
  keeps (same_databases w) (settle_all oracle keys waiting)
    (fun b => settle_list ((fun key => hgetall key (device_db_ w)) <$> keys) waiting = Ok b).
Proof.
  revert waiting. induction keys as [|key rest IH]; intros waiting; simpl; [by apply keeps_ret|].
  eapply keeps_bind; [apply read_get|]. intros m ->.
  change (database LogicalDb.kDevice w) with (device_db_ w).
  eapply (keeps_bind _ _ _ (fun o => settle waiting (hgetall key (device_db_ w)) = Ok o)).
  { by apply keeps_lift. }
  intros [waiting'|] ->; [apply IH|by apply keeps_ret].
Qed.

Lemma read_desired w device :
  keeps (same_databases w) (loadDesiredConnections oracle device) (fun _ => True).
Proof.
  unfold loadDesiredConnections. eapply keeps_bind; [apply read_scan|]. intros keys _.
  apply keeps_seq; [|intros; by apply keeps_ret]. apply keeps_any_mapM. intros key.
  eapply keeps_bind; [apply read_get|]. intros m _. by apply keeps_lift.
Qed.

(** C14: syncd leaves a device to the orchestrator until its snapshots are settled.  When
    [reconcileDevice] changes anything, a scan returned keys of DEVICE_DB whose snapshots, if
    their IDs are distinct, were each of a desired connection, with the desired ports and
    version and a finished status, or of a removal that failed, and every desired connection
    had one; otherwise it only reads.  The other clients are at rest, so the scan is of the
    same snapshots, and any of the connections may be lost. *)
Theorem reconcile_waits_for_orchestrator info actual (s : state) r s' :
  reconcileDevice oracle info actual s = (r, s') ->
  same_databases (stores s) s' \/
  exists desired (s1 : state) keys (s2 s3 : state),
    loadDesiredConnections oracle (info_name info) s = (Ok desired, s1) /\
    scan_keys oracle LogicalDb.kDevice (connectionDevicePattern (info_name info)) s2
      = (Ok keys, s3) /\
    let snapshots := (fun key => hgetall key (device_db_ (stores s))) <$> keys in
    (NoDup ((.!! "id") <$> snapshots) -> settled_device (index_commands desired) snapshots).
Proof.
  intros Hrun. unfold reconcileDevice, mbind, prog_bind in Hrun.
  destruct (loadDesiredConnections oracle (info_name info) s) as [[desired|x] s1] eqn:Hl.
  2: { left. injection Hrun as <- <-. by apply (read_desired (stores s) _ s (Throw x) s1 (fun _ => eq_refl) Hl). }
  assert (same_databases (stores s) s1) as H1
    by apply (read_desired (stores s) _ s (Ok desired) s1 (fun _ => eq_refl) Hl).
  assert (keeps (same_databases (stores s)) (orchestrationSettled oracle (info_name info) desired)
    (fun b => exists keys (s2 s3 : state),
      scan_keys oracle LogicalDb.kDevice (connectionDevicePattern (info_name info)) s2
        = (Ok keys, s3) /\
      settle_list ((fun key => hgetall key (device_db_ (stores s))) <$> keys)
        (index_commands desired) = Ok b)) as Hkeeps.
  { unfold orchestrationSettled. eapply keeps_bind; [apply read_scan|]. intros keys (s2 & s3 & Hk).
    eapply keeps_weaken; [apply read_settle|]. intros b Hb. by exists keys, s2, s3. }
  destruct (orchestrationSettled _ _ _ s1) as [[settled|x] s2] eqn:Ho;
    destruct (Hkeeps s1 _ _ H1 Ho) as [H2 Hval]; [|left; by injection Hrun as <- <-].
  destruct settled; [right|left; by injection Hrun as <- <-].
  destruct (Hval true eq_refl) as (keys & s3 & s4 & Hk & Hlist).
  exists desired, s1, keys, s3, s4. split_and!; [done..|].
  cbv zeta. intros Hnd. by apply settle_list_spec.
Qed.
End Waits.
