(* ===== verification/SyncdRecoveryProps.v ===== *)
(** * The recovery of a generation brings back what a reconciliation would. *)
From S2P Require Import Prelude ProgLogic Redis RedisKeys RedisRepository RedisRepositoryProps.
From S2P Require Import RedisOnce Services CallLogic.
From S2P Require Import DeviceApi Errors Types Reconciler ReconcilerProps Json DeviceCommand.
From S2P Require Import SyncdRules Syncd SyncdPublish SyncdPorts SyncdRecovery.
From S2P Require Import SyncdLogic SyncdSteps SyncdDelivery SyncdPollProps.
From stdpp Require Import options.

(** ** The commands, as a function of the snapshots *)
Fixpoint known_commands (snapshots : list (gmap string string))
    (actual_by_id : gmap string AppliedConnection)
    : result (list ConnectionCommand * gmap string AppliedConnection) :=
  match snapshots with
  | [] => Ok ([], actual_by_id)
  | snapshot :: rest =>
      command ← snapshot_command snapshot;
      match command with
      | None => known_commands rest actual_by_id
      | Some c =>
          r ← known_commands rest (delete (cmd_id c) actual_by_id);
          Ok (if matches c (actual_by_id !! cmd_id c) then r.1 else c :: r.1, r.2)
      end
  end.

(** The commands the device does not match. *)
Definition unmatched (m : gmap string AppliedConnection) (cs : list ConnectionCommand)
    : list ConnectionCommand :=
  omap (fun c => if matches c (m !! cmd_id c) then None else Some c) cs.

Lemma unmatched_delete id m cs :
  id ∉ (cmd_id <$> cs) -> unmatched (delete id m) cs = unmatched m cs.
Proof.
  intros Hid. unfold unmatched. apply omap_congr. intros c Hc.
  rewrite lookup_delete_ne; [done|]. intros ->. apply Hid. by apply list_elem_of_fmap_2.
Qed.

Lemma known_commands_spec snapshots m cs :
  mapM snapshot_command snapshots = Ok (Some <$> cs) -> NoDup (cmd_id <$> cs) ->
  known_commands snapshots m = Ok (unmatched m cs, drop_ids cs m).
Proof.
  revert m cs. induction snapshots as [|snap rest IH]; intros m cs Hm Hnd.
  { simpl in Hm. apply Ok_inj in Hm. destruct cs; [|done]. simpl. do 2 f_equal.
    symmetry. apply map_filter_id. intros. apply not_elem_of_nil. }
  simpl in Hm. apply result_bind_Ok in Hm as (o & Ho & (os & Hos & [= Hcs])%result_bind_Ok).
  destruct cs as [|c cs]; [done|]. injection Hcs as -> ->.
  rewrite fmap_cons, NoDup_cons in Hnd. destruct Hnd as [Hc Hnd].
  cbn [known_commands]. rewrite Ho. simpl. rewrite (IH _ cs) by done. simpl.
  rewrite unmatched_delete by done. do 2 f_equal.
  - by destruct (matches _ _).
  - apply map_eq. intros k. apply option_eq. intros a. rewrite !drop_ids_lookup.
    rewrite fmap_cons, elem_of_cons, lookup_delete_Some. naive_solver.
Qed.

(** For connections that should be there, these are the drifts of a reconciliation. *)
Lemma unmatched_drifts m cs :
  Forall (fun c => operation c = ConnectionOperation.kUpsert) cs ->
  unmatched m cs = desired <$> omap (drift_of m) cs.
Proof.
  unfold unmatched. induction 1 as [|c cs Hc _ IH]; [done|]. rewrite !omap_cons, IH.
  unfold matches, drift_of. rewrite Hc. destruct (m !! cmd_id c) as [a|]; [|done].
  by destruct (same_connection c a).
Qed.

(** ** Sorting *)
Lemma sorted_unique {A} (f : A -> string) l1 l2 :
  StronglySorted (by_key f) l1 -> StronglySorted (by_key f) l2 -> l1 ≡ₚ l2 ->
  NoDup (f <$> l1) -> l1 = l2.
Proof.
  intros H1 H2 Hp Hnd. apply (StronglySorted_unique_strong (by_key f)); try done.
  intros x y Hx Hy Hxy Hyx. rewrite <-Hp in Hy.
  assert (f x = f y) as Heq by by apply (anti_symm String.le).
  apply list_elem_of_lookup in Hx as [i Hi], Hy as [j Hj].
  assert (i = j) as ->; [|congruence].
  eapply (NoDup_lookup (f <$> l1)); [done|..]; rewrite list_lookup_fmap; [by rewrite Hi|].
  rewrite Hj. simpl. by rewrite Heq.
Qed.

Lemma sorted_fmap {A B} (f : A -> string) (g : B -> string) (h : A -> B) l :
  (forall a, a ∈ l -> g (h a) = f a) -> StronglySorted (by_key f) l ->
  StronglySorted (by_key g) (h <$> l).
Proof.
  intros Hh Hs. induction Hs as [|a l Hs IH Ha]; [constructor|]. rewrite fmap_cons. constructor.
  - apply IH. intros b Hb. apply Hh. by right.
  - apply Forall_fmap. rewrite Forall_forall in Ha |- *. intros b Hb. unfold by_key. simpl.
    rewrite !Hh; [by apply Ha|by right|by left].
Qed.

Lemma plan_drift_ids des m d : d ∈ drifts (plan_of des m) -> cmd_id (desired d) = drift_id d.
Proof.
  intros [(c & _ & Hd)|(id & a & _ & _ & ->)]%plan_drifts_elem; [|done].
  unfold drift_of in Hd. destruct (m !! cmd_id c); [|by injection Hd as <-].
  destruct (same_connection c a); [done|by injection Hd as <-].
Qed.

Lemma plan_drift_commands des m :
  desired <$> drifts (plan_of des m)
  ≡ₚ (desired <$> omap (drift_of m) des)
     ++ ((fun '(id, a) => removal_of id a) <$> map_to_list (drop_ids des m)).
Proof.
  unfold plan_of. simpl. rewrite sort_by_perm, fmap_app, <-list_fmap_compose.
  apply Permutation_app_head. rewrite <-sorted_items_perm.
  erewrite list_fmap_ext; [done|]. by intros i [id a] _.
Qed.

Lemma unmatched_sublist m cs : unmatched m cs `sublist_of` cs.
Proof.
  unfold unmatched. induction cs as [|c cs IH]; [constructor|]. rewrite omap_cons.
  destruct (matches _ _); by constructor.
Qed.

Lemma unmatched_NoDup m cs :
  NoDup (cmd_id <$> cs) ->
  NoDup (cmd_id <$> (unmatched m cs ++ ((fun '(id, a) => removal_of id a)
                                        <$> sorted_items (drop_ids cs m)))).
Proof.
  intros Hnd. eapply sublist_NoDup; [apply (plan_commands_NoDup cs m Hnd)|].
  apply fmap_sublist, sublist_app; [apply unmatched_sublist|done].
Qed.

(** ** The program *)
Section Recovery.
Context {J : JsonLib} {DB : Type} {R : Redis DB} {RL : RedisLaws DB}.
Context {G : RedisGroups DB} {GL : RedisGroupLaws DB}.
Context {D : Type} {API : OcsDeviceApi D}.
Variable oracle : SyncdOracle D.
Hypothesis Halone : oracle_within (fun _ => False) (store_oracle oracle).
Hypothesis Horder : forall m, bucket_order oracle m ≡ₚ map_to_list m.
#[local] Abbreviation state := (Syncd DB D).
#[local] Abbreviation inv db := (fun s : state => holds LogicalDb.kDevice (eq db) (stores s)).
#[local] Set Default Proof Using "Type*".

Lemma unchanged_stable db (c : redis_cmd) (db' : DB) : False -> db = db' -> db = execute c db'.
Proof using Type. done. Qed.

Lemma refresh_reads db info keys m :
  keeps (inv db) (refresh_all oracle info keys m)
    (fun r => known_commands ((fun key => hgetall key db) <$> keys) m = Ok (r.1.2, r.2)).
Proof.
  revert m. induction keys as [|key rest IH]; intros m; [by apply keeps_ret|].
  cbn [refresh_all]. rewrite fmap_cons. cbn [known_commands].
  eapply keeps_bind.
  { apply (keeps_get _ _ _ _ (unchanged_stable db) Halone). }
  intros snapshot (db' & <- & ->).
  eapply (keeps_bind _ _ _ (fun o => snapshot_command (hgetall key db) = Ok o)).
  { by apply keeps_lift. }
  intros [c|] Hc; rewrite Hc; cbn [mbind result_bind]; [|apply IH]. cbv zeta.
  apply keeps_seq.
  { unfold refresh_known, publish_refreshed, published_delta.
    syncd_walk ltac:(first [apply keeps_update_other; done
      | apply (keeps_get_any _ _ _ _ (unchanged_stable db) Halone)]). }
  intros delta. eapply keeps_bind; [apply IH|]. intros [[d commands] unexpected] Hr.
  apply keeps_ret. rewrite Hr. done.
Qed.

Lemma removals_read db info items :
  keeps (inv db) (mapM (refresh_unexpected oracle info) items)
    (fun rs => rs.*2 = (fun '(id, a) => removal_of id a) <$> items).
Proof.
  eapply keeps_weaken.
  - apply (keeps_mapM_rel _ _ (fun item r => r.2 = removal_of item.1 item.2)).
    intros [id a] _. unfold refresh_unexpected. apply keeps_seq.
    { apply (keeps_get_any _ _ _ _ (unchanged_stable db) Halone). }
    intros previous. apply keeps_seq; [|intros; by apply keeps_ret].
    unfold publish_refreshed, published_delta.
    syncd_walk ltac:(first [apply keeps_update_other; done
      | apply (keeps_get_any _ _ _ _ (unchanged_stable db) Halone)]).
  - induction 1 as [|[id a] r items rs Hr _ IH]; [done|]. rewrite !fmap_cons. by f_equal.
Qed.

(** The refresh finds what a reconciliation would. *)
Lemma refresh_finds_drifts info act des plan (s : state) delta commands s' :
  buildReconciliationPlan des act = Ok plan ->
  Forall (fun c => operation c = ConnectionOperation.kUpsert) des ->
  (forall keys (s1 s2 : state),
     scan_keys oracle LogicalDb.kDevice (connectionDevicePattern (info_name info)) s1
       = (Ok keys, s2) ->
     exists cs, cs ≡ₚ des /\
       mapM snapshot_command ((fun key => hgetall key (device_db_ (stores s))) <$> keys)
       = Ok (Some <$> cs)) ->
  refresh_generation oracle info act s = (Ok (delta, commands), s') ->
  commands = desired <$> drifts plan /\ device_db s' = device_db s.
Proof.
  intros (Hnd & Hact & ->)%build_plan_inv Hup Hscan Hrun. set (m := applied_map act).
  assert (keeps (inv (device_db_ (stores s))) (refresh_generation oracle info act)
    (fun r => exists cs, cs ≡ₚ des /\ r.2 ≡ₚ unmatched m cs
       ++ ((fun '(id, a) => removal_of id a) <$> map_to_list (drop_ids cs m)) /\
       StronglySorted (by_key cmd_id) r.2)) as Hkeeps.
  { unfold refresh_generation. eapply (keeps_bind _ _ _ (fun keys => exists s1 s2 : state,
      scan_keys oracle LogicalDb.kDevice (connectionDevicePattern (info_name info)) s1
      = (Ok keys, s2))).
    { intros s1 r s2 Hs1 Hr. split; [by eapply keeps_scan|]. intros keys ->. eauto. }
    intros keys (s1 & s2 & (cs & Hcs & Hsnap)%Hscan).
    eapply keeps_bind; [apply refresh_reads|]. intros [[d cmds] unexpected] Hknown.
    rewrite index_by_id_map in Hknown by done. fold m in Hknown.
    rewrite (known_commands_spec _ m cs) in Hknown by (done || by rewrite Hcs).
    injection Hknown as <- <-. eapply keeps_bind; [apply removals_read|]. intros removals Hrem.
    apply keeps_ret. exists cs. cbn [snd fst]. split; [done|]. rewrite Hrem. split.
    - by rewrite sort_by_perm, Horder.
    - apply sort_by_sorted. }
  destruct (Hkeeps s _ s' eq_refl Hrun) as [Hsame Hval]. split; [|by symmetry].
  destruct (Hval _ eq_refl) as (cs & Hcs & Hperm & Hsorted). cbn [snd] in Hperm, Hsorted.
  pose proof (sort_by_perm cmd_id des) as Hp.
  assert (commands ≡ₚ desired <$> drifts (plan_of (sort_by cmd_id des) m)) as Heq.
  { rewrite Hperm, plan_drift_commands, <-unmatched_drifts by by rewrite Hp.
    assert (drop_ids (sort_by cmd_id des) m = drop_ids cs m) as ->.
    { apply map_eq. intros k. apply option_eq. intros a. by rewrite !drop_ids_lookup, Hp, Hcs. }
    apply Permutation_app_tail. unfold unmatched. by rewrite Hcs, Hp. }
  apply (sorted_unique cmd_id); [done| |done|].
  - eapply sorted_fmap; [apply plan_drift_ids|]. apply sort_by_sorted.
  - rewrite Hperm, <-sorted_items_perm. apply unmatched_NoDup. by rewrite Hcs.
Qed.

(** *** The publication *)
Variable info : DeviceInfo.
#[local] Abbreviation recovery_marker :=
  (syncdGenerationRecoveryKey (info_name info) (generation info)).

(** The command stream has these entries, and the recovery is not marked as scheduled. *)
Definition unscheduled (entries : list (string * list (string * string))) (db : DB) : Prop :=
  type_of kDeviceCommands db <> KHash /\ xrange kDeviceCommands db = entries /\
  exists_key recovery_marker db = false.

Lemma unscheduled_apart entries cs db :
  Forall (fun c => Redis.target c <> kDeviceCommands /\ Redis.target c <> recovery_marker) cs ->
  unscheduled entries db -> unscheduled entries (run_cmds cs db).
Proof using RL.
  intros Hcs (Ht & Hx & Hm). rewrite Forall_forall in Hcs. unfold unscheduled, exists_key in *.
  destruct (run_cmds_frame cs kDeviceCommands db) as (-> & _ & ->).
  { intros (c & Hc & Hin)%list_elem_of_fmap. by destruct (Hcs c Hin). }
  destruct (run_cmds_frame cs recovery_marker db) as (-> & _); [|done].
  intros (c & Hc & Hin)%list_elem_of_fmap. by destruct (Hcs c Hin).
Qed.

Lemma nobody_else n others :
  Forall (env_cmd (around (store_oracle oracle) n)) others -> others = [].
Proof.
  destruct others as [|c others]; [done|]. intros [[i Hc] _]%Forall_cons.
  by destruct (Halone n i c Hc).
Qed.

(** Nothing else is in the way of a publication that returned. *)
Lemma append_alone mf ev entries (s s' : state) b :
  unscheduled entries (device_db s) ->
  update oracle LogicalDb.kDevice (appendEventOnce recovery_marker mf kDeviceCommands ev) s
    = (Ok b, s') ->
  exists id, xrange kDeviceCommands (device_db s') = entries ++ [(id, eventFields ev)].
Proof.
  intros (Ht & Hx & Hm) (db' & Hop & Hs)%on_stores_run%call_run.
  assert (device_db s' = db') as -> by (unfold device_db; by rewrite Hs; destruct (stores s)).
  unfold appendEventOnce in Hop. destruct (validateEvent ev) as [[]|]; [|done].
  change ((lift (Ok tt) ;; ?m) ?w) with (m w) in Hop.
  apply watch_loop_outcome in Hop as (others & ->%nobody_else & Hout);
    [|by apply reads_only_marked; [left|]].
  change (database LogicalDb.kDevice (stores s)) with (device_db s) in Hout.
  change (run_cmds [] (device_db s)) with (device_db s) in Hout.
  inversion Hout as [cs Hb|Hb| |]; subst; apply body_inv in Hb; [|congruence].
  destruct Hb as (_ & es & [= <-] & ->). cbn [app].
  destruct (execute_xadd kDeviceCommands (eventFields ev) (device_db s) Ht) as (_ & id & _ & Hr).
  exists id. rewrite <-Hr. by apply (run_cmds_frame [HMSET recovery_marker (sorted_items mf)]
    kDeviceCommands (execute (XADD kDeviceCommands (eventFields ev)) (device_db s)));
    intros ?%list_elem_of_singleton.
Qed.

(** The event of the recovery. *)
Record recovery_command (commands : list ConnectionCommand) (ev : EventEnvelope) : Prop := {
  recovery_event_id : event_id ev = recovery_id info +:+ ":command";
  recovery_device : ev_device ev = info_name info;
  recovery_operation : ev_operation ev = "GENERATION_RECOVERY";
  recovery_payload : encodeDeviceCommand (with_commands commands (event_id ev)) = Ok (ev_payload ev);
}.

Lemma publish_recovery_sends commands entries (s s' : state) :
  unscheduled entries (device_db s) -> publish_recovery oracle info commands s = (Ok tt, s') ->
  exists id ev, xrange kDeviceCommands (device_db s') = entries ++ [(id, eventFields ev)] /\
    recovery_command commands ev.
Proof.
  assert (forall (c : redis_cmd) db, False -> unscheduled entries db ->
    unscheduled entries (execute c db)) as Hstable by done.
  intros Hs Hrun. unfold publish_recovery in Hrun.
  apply bind_Ok_inv in Hrun as (payload & s1 & Hp & Hrun). injection Hp as Hp <-.
  apply bind_Ok_inv in Hrun as ([] & s2 & Hput & Hrun).
  apply bind_Ok_inv in Hrun as (now & s3 & Hnow & Hrun).
  apply bind_Ok_inv in Hrun as (b & s4 & Happ & Hrun). injection Hrun as <-.
  assert (holds LogicalDb.kDevice (unscheduled entries) (stores s2)) as Hs2.
  { eapply (keeps_put oracle LogicalDb.kDevice (unscheduled entries) _ Hstable Halone
      (orchConfigBatchKey (recovery_id info)) _); [|exact Hs|exact Hput].
    intros db. apply unscheduled_apart, Forall_forall. intros c Hc%replace_hash_targets. by rewrite Hc. }
  pose proof (keeps_now_ns oracle LogicalDb.kDevice (unscheduled entries) s2 _ _ Hs2 Hnow) as [Hs3 _].
  apply (append_alone _ _ entries) in Happ as (id & Hx); [|done]. eexists id, _. split; [exact Hx|].
  unfold batch_event. destruct (command_resource _ _). by constructor.
Qed.

Lemma no_recovery_sent entries mf (s s' : state) b :
  unscheduled entries (device_db s) -> 
  update oracle LogicalDb.kDevice (putHashIfAbsent recovery_marker mf) s = (Ok b, s') ->
  xrange kDeviceCommands (device_db s') = entries.
Proof.
  intros (_ & Hx & _) Hrun.
  assert (forall (c : redis_cmd) db, False -> xrange kDeviceCommands db = entries ->
    xrange kDeviceCommands (execute c db) = entries) as Hstable by done.
  eapply (keeps_put_absent oracle LogicalDb.kDevice _ _ Hstable Halone recovery_marker mf);
    [|exact Hx|exact Hrun].
  intros db Hdb _ _.
  by destruct (execute_frame (HMSET recovery_marker (sorted_items mf)) kDeviceCommands db)
    as (_ & _ & ->).
Qed.

(** C16: after a restart of the device, the recovery sends exactly what a reconciliation
    would find, and only that.  For snapshots of connections that should be there, when the
    recovery of the generation was not scheduled yet and has returned, OCS_DEVICE_COMMANDS
    is as before if the plan for these connections and the ones the restarted device
    reports has no drifts.  Otherwise it has one entry more: the GENERATION_RECOVERY command
    of the generation, for this device, whose payload is the encoding of the batch of the
    drifts' commands, sorted by ID, each once; connections that the device already has as
    desired are not sent.  The other clients are at rest; the order in which the program
    iterates its hash map does not matter. *)
Theorem recovery_is_reconciliation act des plan (s s' : state) :
  buildReconciliationPlan des act = Ok plan ->
  Forall (fun c => operation c = ConnectionOperation.kUpsert) des ->
  (forall keys (s1 s2 : state),
     scan_keys oracle LogicalDb.kDevice (connectionDevicePattern (info_name info)) s1
       = (Ok keys, s2) ->
     exists cs, cs ≡ₚ des /\
       mapM snapshot_command ((fun key => hgetall key (device_db s)) <$> keys) = Ok (Some <$> cs)) ->
  type_of kDeviceCommands (device_db s) <> KHash ->
  exists_key recovery_marker (device_db s) = false ->
  recover_generation oracle info act s = (Ok tt, s') ->
  let sent := desired <$> drifts plan in
  let before := xrange kDeviceCommands (device_db s) in
  let after := xrange kDeviceCommands (device_db s') in
  (sent = [] -> after = before) /\
  (sent <> [] -> exists id ev, after = before ++ [(id, eventFields ev)] /\ recovery_command sent ev).
Proof.
  intros Hplan Hup Hscan Ht Hm Hrun sent before after. unfold recover_generation in Hrun.
  apply bind_Ok_inv in Hrun as ([delta commands] & s1 & Hr & Hrun).
  destruct (refresh_finds_drifts info act des plan s delta commands s1) as [-> Hs1]; [done..|].
  apply bind_Ok_inv in Hrun as ([] & s2 & Hc & Hrun).
  assert (unscheduled before (device_db s2)) as Hs2.
  { assert (keeps (fun s : state => holds LogicalDb.kDevice (unscheduled before) (stores s))
      (count_once oracle (info_name info)
         (syncdGenerationCountersPublicationKey (info_name info) (generation info))
         {["device_generation" := to_string (generation info)]}
         {["active_connections" := delta]}) (fun _ => True)) as Hk.
    { unfold count_once. syncd_walk ltac:(apply keeps_update_other; done). }
    eapply (Hk s1); [|exact Hc].
    change (unscheduled before (device_db s1)). rewrite Hs1. by split_and!. }
  fold sent in Hrun. unfold after. case_decide as Hsent.
  - split; [intros _|done]. apply bind_Ok_inv in Hrun as (b & s3 & Hput & Hrun).
    injection Hrun as <-. by eapply no_recovery_sent.
  - split; [done|intros _]. by eapply publish_recovery_sends.
Qed.
End Recovery.
