(* ===== verification/SyncdProgress.v ===== *)
(** * What a command needs to be finished, as an invariant of syncd's attempts.

    [ready]: everything an attempt reads back parses, its durable result, if there is one,
    can be published, and the device keeps its promises.  Every call of an attempt keeps
    it, whoever interferes, and throws only when something does interfere. *)
From S2P Require Import Prelude ProgLogic Redis RedisKeys RedisRepository RedisRepositoryProps.
From S2P Require Import RedisOnce Services CallLogic.
From S2P Require Import DeviceApi Errors Types Json UdsJsonProps DeviceCommand SyncdRules Syncd.
From S2P Require Import SyncdPublish SyncdPayloads SyncdSteps SyncdDelivery.
From stdpp Require Import options.

(** ** What the device promises *)

(** The call returns a value with [P], or throws with a text that can be reported. *)
Definition answers {J : JsonLib} {JL : JsonLaws J} {D A} (well : D -> Prop)
    (m : DeviceApi.call D A) (P : A -> Prop) : Prop :=
  forall d, well d -> exists r d', m d = Some (r, d') /\ well d' /\
    match r with Ok a => P a | Throw x => utf8 (what x) end.

(** A success lists the connections made. *)
Definition lists_connections (commands : list ConnectionCommand) (r : ApplyResult) : Prop :=
  apply_ok r = true -> forall c, c ∈ commands -> operation c = ConnectionOperation.kUpsert ->
  cmd_id c ∈ app_id <$> apply_connections r.

(** A result that can be stored and published. *)
Definition publishable_result {J : JsonLib} {JL : JsonLaws J} (commands : list ConnectionCommand)
    (r : ApplyResult) : Prop := result_text r /\ lists_connections commands r.

Definition valid_port (p : PortId) : Prop := (1 <= p <= 65535)%Z.

(** [well] is an invariant of the device under the calls an attempt makes. *)
Record keeps_promises {J : JsonLib} {JL : JsonLaws J} {D} {API : OcsDeviceApi D}
    (batch : DeviceCommandBatch) (well : D -> Prop) : Prop := {
  promise_info : answers well api_getDeviceInfo (fun info => is_u64 (generation info));
  promise_apply : answers well
    (api_applyConnections (batch_commands batch) (batch_options batch))
    (publishable_result (batch_commands batch));
  promise_other other : sendable_batch other ->
    operation_id (batch_options other) <> operation_id (batch_options batch) ->
    answers well (api_applyConnections (batch_commands other) (batch_options other))
      (fun _ => True);
  promise_connections : answers well api_getConnections (Forall connection_text);
  promise_input p : is_u16 p -> answers well (api_getInputPortState p) (fun _ => True);
  promise_output p : is_u16 p -> answers well (api_getOutputPortState p) (fun _ => True);
  promise_inject f : is_u16 (fault_port f) -> answers well (api_injectFault f) (fun _ => True);
  promise_clear f : is_u16 (selector_port f) -> answers well (api_clearFault f) (fun _ => True);
}.

(** ** What an attempt reads back *)
Definition reads_number (m : gmap string string) (field : string) : Prop :=
  forall text, m !! field = Some text -> is_ok (stoull text) = true.
Definition reads_port (m : gmap string string) (field : string) : Prop :=
  m !! field <> None -> is_ok (snapshotPort m field) = true.

Definition readable_version (m : gmap string string) : Prop :=
  reads_number m "device_generation" /\ reads_number m "last_successful_version".

Definition readable_state {J : JsonLib} {JL : JsonLaws J} (m : gmap string string) : Prop :=
  reads_number m "desired_version" /\
  (has m "apply_status" "ACTIVE" = true ->
     reads_port m "input_port" /\ reads_port m "output_port" /\ reads_number m "applied_version") /\
  map_Forall (fun k v => utf8 k /\ utf8 v) m.

Definition stored_outcome {J : JsonLib} {JL : JsonLaws J} (commands : list ConnectionCommand)
    (m : gmap string string) : Prop :=
  exists payload r, m !! "payload" = Some payload /\ decodeDurableResult payload = Ok r /\
    publishable_result commands r /\
    (forall text, m !! "latency_ms" = Some text -> exists z, stoll text = Ok z /\ (0 <= z)%Z).

(** Numbers and ports that were written *)
Lemma u64_number z : is_u64 z -> is_ok (stoull (to_string z)) = true.
Proof. intros Hz. by rewrite stoull_to_string. Qed.

Lemma port_number m field p :
  m !! field = Some (to_string p) -> valid_port p -> reads_port m field.
Proof.
  intros Hm Hp _. unfold valid_port in Hp. unfold snapshotPort. rewrite Hm.
  rewrite stoull_to_string by (unfold in_width; lia). simpl. by rewrite decide_False by lia.
Qed.

(** A publication marker that is there has the change it published. *)
Definition readable_marker (t : key_type) (m : gmap string string) : Prop :=
  t = KNone \/ exists text z, m !! "active_delta" = Some text /\ stoll text = Ok z.

(** What the other clients may do around a command: they write elsewhere, or count something
    of a device other than its slowest apply; the results they leave alone, but they may
    append to the stream. *)
Definition polite (keys : list string) (c : redis_cmd) : Prop :=
  (apart keys c \/
   exists device f n, c = HINCRBY (deviceCountersKey device) f n /\ f <> "max_apply_latency_ms") /\
  forall E, spares_results E c.

(** How far an attempt is known to be. *)
Inductive stage := Anywhere | Stored | Counted.

Section Ready.
Context {J : JsonLib} {JL : JsonLaws J} {DB : Type} {R : Redis DB} {RL : RedisLaws DB}.
Context {G : RedisGroups DB} {GL : RedisGroupLaws DB}.
Context {D : Type} {API : OcsDeviceApi D}.
Variable e : EventEnvelope.
Variable commands : list ConnectionCommand.
Variable well : D -> Prop.
#[local] Abbreviation state := (Syncd DB D).
#[local] Set Default Proof Using "Type*".

(** ** The keys of a command *)
Definition result_key : string := deviceApplyResultKey (event_id e).
Definition counters_key : string := deviceCountersKey (ev_device e).
Definition counted_key : string := syncdCountersPublicationKey (event_id e).
Definition version_key (c : ConnectionCommand) : string :=
  syncdConnectionVersionKey (ev_device e) (cmd_id c).
Definition state_key (c : ConnectionCommand) : string :=
  connectionStateKey (ev_device e) (cmd_id c).
Definition published_key (c : ConnectionCommand) : string :=
  syncdStatePublicationKey (event_id e) (cmd_id c).

Definition command_keys : list string :=
  result_key :: counters_key :: counted_key ::
  (version_key <$> commands) ++ (state_key <$> commands) ++ (published_key <$> commands).

(** DEVICE_DB, STATE_DB and COUNTERS_DB are as an attempt needs them; when [at_stage] is
    [Stored] the durable result is there, when it is [Counted] the counters are done. *)
Definition device_readable (at_stage : stage) (db : DB) : Prop :=
  (at_stage <> Stored /\ hgetall result_key db = ∅ \/ stored_outcome commands (hgetall result_key db)) /\
  forall c, c ∈ commands -> readable_version (hgetall (version_key c) db).

Definition state_readable (db : DB) : Prop := forall c, c ∈ commands ->
  readable_marker (type_of (published_key c) db) (hgetall (published_key c) db) /\
  readable_state (hgetall (state_key c) db).

Definition counters_readable (at_stage : stage) (db : DB) : Prop :=
  exists_key counted_key db = true \/ at_stage <> Counted /\
  forall text, hgetall counters_key db !! "max_apply_latency_ms" = Some text ->
    is_ok (stoll text) = true.

Definition readable (at_stage : stage) (l : LogicalDb.t) (db : DB) : Prop :=
  match l with
  | LogicalDb.kDevice => device_readable at_stage db
  | LogicalDb.kState => state_readable db
  | LogicalDb.kCounters => counters_readable at_stage db
  | _ => True
  end.

(** [n]: calls made so far, at least. *)
Definition ready (at_stage : stage) (n : nat) (s : state) : Prop :=
  n <= calls (stores s) /\ (forall l, readable at_stage l (database l (stores s))) /\
  well (device_ s) /\ is_u64 (device_generation_ s).

(** ** Writes elsewhere *)
Lemma command_keys_inv k :
  k ∈ command_keys -> k = result_key \/ k = counters_key \/ k = counted_key \/
  exists id, k = syncdConnectionVersionKey (ev_device e) id \/
    k = connectionStateKey (ev_device e) id \/ k = syncdStatePublicationKey (event_id e) id.
Proof using Type.
  unfold command_keys. rewrite !elem_of_cons, !elem_of_app.
  intros [->|[->|[->|[Hk|[Hk|Hk]]]]]; [by auto..| | |]; right; right; right;
    apply list_elem_of_fmap in Hk as (c & -> & _); exists (cmd_id c); auto.
Qed.

Lemma state_in_keys device id :
  connectionStateKey device id ∈ command_keys ->
  exists c, c ∈ commands /\ connectionStateKey device id = state_key c.
Proof using Type.
  unfold command_keys. rewrite !elem_of_cons, !elem_of_app, !list_elem_of_fmap.
  intros [?|[?|[?|[(c & ? & _)|[(c & Hk & Hc)|(c & ? & _)]]]]]; try done. by exists c.
Qed.

Lemma counters_in_keys device :
  deviceCountersKey device ∈ command_keys -> deviceCountersKey device = counters_key.
Proof using Type. by intros [?|[?|[?|(id & [?|[?|?]])]]]%command_keys_inv. Qed.

(** Only COUNTERS_DB is read at the counters of the device. *)
Lemma same_elsewhere stored l (db db' : DB) :
  l <> LogicalDb.kCounters ->
  (forall k, k ∈ command_keys -> k <> counters_key ->
     type_of k db' = type_of k db /\ hgetall k db' = hgetall k db) ->
  readable stored l db -> readable stored l db'.
Proof using Type.
  intros Hl Hsame.
  assert (forall f c, c ∈ commands -> f ∈ [version_key; state_key; published_key] ->
    type_of (f c) db' = type_of (f c) db /\ hgetall (f c) db' = hgetall (f c) db) as Hc.
  { intros f c Hin Hf. apply Hsame.
    - unfold command_keys. rewrite !elem_of_cons, !elem_of_app.
      do 3 right. repeat setoid_rewrite list_elem_of_fmap.
      rewrite !elem_of_cons, elem_of_nil in Hf. destruct Hf as [->|[->|[->|[]]]]; eauto.
    - rewrite !elem_of_cons, elem_of_nil in Hf. by destruct Hf as [->|[->|[->|[]]]]. }
  destruct l; simpl; try done.
  - intros [Hr Hv]. split.
    + destruct (Hsame result_key) as [_ ->]; [by left|done|done].
    + intros c Hin. destruct (Hc version_key c Hin) as [_ ->]; [by left|auto].
  - intros Hs c Hin. destruct (Hc published_key c Hin) as [-> ->]; [do 2 right; by left|].
    destruct (Hc state_key c Hin) as [_ ->]; [by right; left|auto].
Qed.

Lemma same_readable stored l (db db' : DB) :
  (forall k, k ∈ command_keys -> type_of k db' = type_of k db /\ hgetall k db' = hgetall k db) ->
  readable stored l db -> readable stored l db'.
Proof using Type.
  intros Hsame. destruct (decide (l = LogicalDb.kCounters)) as [->|Hl].
  - simpl. unfold counters_readable, exists_key.
    destruct (Hsame counted_key) as [-> _]; [do 2 right; by left|].
    by destruct (Hsame counters_key) as [_ ->]; [right; left|].
  - apply same_elsewhere; auto.
Qed.

Lemma apart_readable stored l cs (db : DB) :
  Forall (apart command_keys) cs -> readable stored l db -> readable stored l (run_cmds cs db).
Proof using RL. intros Hcs. apply same_readable. intros k Hk. by eapply apart_run. Qed.

Lemma polite_frame k c (db : DB) :
  polite command_keys c -> k ∈ command_keys -> k <> counters_key ->
  type_of k (execute c db) = type_of k db /\ hgetall k (execute c db) = hgetall k db.
Proof using RL.
  intros Hc Hk Hne. destruct (execute_frame c k db) as (? & ? & _); [|done]. intros Ht.
  destruct Hc as [[Hc|(device & f & n & -> & _)] _]; [by apply Hc; rewrite Ht in Hk|].
  apply Hne. rewrite Ht. apply counters_in_keys. by rewrite Ht in Hk.
Qed.

Lemma polite_stable stored l c (db : DB) :
  polite command_keys c -> readable stored l db -> readable stored l (execute c db).
Proof using RL.
  intros Hc. destruct (decide (l = LogicalDb.kCounters)) as [->|Hl].
  2: { apply same_elsewhere; [done|]. intros. by apply polite_frame. }
  destruct Hc as [[Hc|(device & f & n & -> & Hf)] _].
  { by apply (apart_readable _ LogicalDb.kCounters [c]); constructor. }
  intros [Hdone|[Hs Hmax]]; [left|right].
  - unfold exists_key in *. rewrite negb_true_iff, bool_decide_eq_false in *.
    by rewrite execute_keeps.
  - split; [done|]. intros text. destruct (decide (deviceCountersKey device = counters_key)) as [->|Hne].
    + rewrite execute_hincrby_other by done. apply Hmax.
    + destruct (execute_frame (HINCRBY (deviceCountersKey device) f n) counters_key db)
        as (_ & -> & _); [by apply not_eq_sym|apply Hmax].
Qed.

Lemma polite_readable stored l cs (db : DB) :
  Forall (polite command_keys) cs -> readable stored l db -> readable stored l (run_cmds cs db).
Proof using RL. intros Hcs. apply (stable_run _ (polite command_keys)); [|done]. apply polite_stable. Qed.

(** A record of DEVICE_DB that is elsewhere, or is a readable version record. *)
Definition safe_write (kf : string * gmap string string) : Prop :=
  (kf.1 ∉ command_keys) \/
  (exists device id, kf.1 = syncdConnectionVersionKey device id) /\ readable_version kf.2.

Lemma safe_replace stored key fs (db : DB) :
  safe_write (key, fs) -> device_readable stored db ->
  device_readable stored (run_cmds (replace_hash key fs) db).
Proof using RL.
  intros [Hout|[(device & id & Hk) Hfs]] Hdb; cbn [fst snd] in *.
  - apply (apart_readable stored LogicalDb.kDevice); [|done]. apply Forall_forall.
    intros c Hc%replace_hash_targets. unfold apart. by rewrite Hc.
  - destruct Hdb as [Hr Hv]. split.
    + destruct (run_cmds_frame (replace_hash key fs) result_key db) as (_ & -> & _); [|done].
      intros (x & Hx & Ht%replace_hash_targets)%list_elem_of_fmap. subst key. by rewrite Ht in Hx.
    + intros c Hc. destruct (decide (version_key c = key)) as [->|Hne];
        [by rewrite replace_hash_run|].
      destruct (run_cmds_frame (replace_hash key fs) (version_key c) db) as (_ & -> & _); [|auto].
      intros (x & Hx & Ht%replace_hash_targets)%list_elem_of_fmap. congruence.
Qed.

Lemma safe_replace_all stored hashes (db : DB) :
  Forall safe_write hashes -> device_readable stored db ->
  device_readable stored
    (run_cmds (concat ((fun '(key, fs) => replace_hash key fs) <$> hashes)) db).
Proof using RL.
  intros Hf. revert db. induction Hf as [|[key fs] hashes Hw _ IH]; intros db Hdb; simpl; [done|].
  rewrite run_cmds_app. by apply IH, safe_replace.
Qed.
End Ready.

Lemma ends_all_of {S A} (I : S -> Prop) X (p : A -> prog S bool) l :
  (forall a, a ∈ l -> ends I (p a) (fun _ => True) X) -> ends I (all_of p l) (fun _ => True) X.
Proof.
  induction l as [|a l IH]; intros Hp; simpl; [by apply ends_ret|].
  eapply ends_then; [apply Hp; by left|]. intros [|] _; [|by apply ends_ret].
  apply IH. intros c Hc. apply Hp. by right.
Qed.

(** ** Calls *)

(** Nothing interferes: no other client, no lost connection, no crash, and SCAN answers. *)
Definition syncd_calm {D} (device : string) (oracle : SyncdOracle D) : Prop :=
  undisturbed (store_oracle oracle) /\ (forall n, before_ack_hook oracle n = Ok tt) /\
  forall n, exists scan, scans oracle n (syncdPortFaultPattern device) = Ok scan /\
    is_ok (scanKeys scan (syncdPortFaultPattern device) (Z.to_nat 4096)) = true.

(** What may happen to an attempt: the other clients leave the command's keys alone, though
    they may count in the counters of the device, SCAN finds matching keys, the device keeps its invariant, the steady clock is a 63-bit
    number that does not go back, and a hash map is iterated in some order. *)
Record fair {D} (keys : list string) (well : D -> Prop) (oracle : SyncdOracle D) : Prop := {
  fair_others : oracle_within (polite keys) (store_oracle oracle);
  fair_scans : scans_match oracle;
  fair_device n d : well d -> well (device_events oracle n d);
  fair_clock n m : n <= m ->
    (0 <= steady_clock oracle n <= steady_clock oracle m)%Z /\ (steady_clock oracle m < 2 ^ 63)%Z;
  fair_order m : bucket_order oracle m ≡ₚ map_to_list m;
}.

Section Calls.
Context {J : JsonLib} {JL : JsonLaws J} {DB : Type} {R : Redis DB} {RL : RedisLaws DB}.
Context {G : RedisGroups DB} {GL : RedisGroupLaws DB}.
Context {D : Type} {API : OcsDeviceApi D}.
Variable e : EventEnvelope.
Variable commands : list ConnectionCommand.
Variable well : D -> Prop.
Variable oracle : SyncdOracle D.
Hypothesis Hfair : fair (command_keys e commands) well oracle.
#[local] Abbreviation state := (Syncd DB D).
#[local] Abbreviation ready := (ready (DB:=DB) e commands well).
#[local] Abbreviation readable := (readable (DB:=DB) e commands).
#[local] Set Default Proof Using "Type*".

Definition calm : Prop := syncd_calm (ev_device e) oracle.

(** Where an exception leaves an attempt, which only an interference can raise. *)
Definition interrupted (_ : exn) (s : state) : Prop := ready Anywhere 0 s /\ ~ calm.

#[local] Abbreviation goes stored n m P := (ends (ready stored n) m P interrupted).

Lemma stored_readable stored l (db : DB) : readable stored l db -> readable Anywhere l db.
Proof using Type.
  destruct l; simpl; try done.
  - intros [[[_ ?]|?] ?]; (split; [|done]); [by left|by right].
  - intros [?|[_ ?]]; [by left|by right].
Qed.

Lemma ready_weaken stored n m s : ready stored n s -> m <= n -> ready Anywhere m s.
Proof using Type.
  intros (Hn & Hl & Hw & Hg) Hm. split; [lia|]. split; [|done]. intros l.
  by eapply stored_readable.
Qed.

Lemma others_readable k i stored l (db : DB) cs :
  cs ⊆ others_of (around (store_oracle oracle) k i) ->
  readable stored l db -> readable stored l (run_cmds cs db).
Proof.
  intros Hcs. apply polite_readable, Forall_forall. intros c Hc.
  by eapply (fair_others _ _ _ Hfair), Hcs.
Qed.

Lemma update_from {A} l op (Pre : DB -> Prop) (P : A -> DB -> Prop) stored stored' n :
  (forall l' db, l' <> l -> readable stored l' db -> readable stored' l' db) ->
  (forall k db, readable stored l db -> Pre db ->
     match op (around (store_oracle oracle) k) db with
     | (Ok a, db') => readable stored' l db' /\ P a db'
     | (Throw _, db') => readable stored l db' /\ ~ calm
     end) ->
  triple (fun s => ready stored n s /\ Pre (database l (stores s))) (update oracle l op)
    (fun a s => ready stored' n s /\ P a (database l (stores s))) interrupted.
Proof.
  intros Hother Hop [w d name gen] [(Hn & Hl & Hw & Hg) Hpre]. simpl in Hn, Hl, Hw, Hg, Hpre.
  unfold update, on_stores, Services.call.
  specialize (Hop (calls w) (database l w) (Hl l) Hpre).
  assert (forall db, calls (after_call l db w) = S (calls w)) as Hcalls by by (intros; destruct w, l).
  destruct (op _ _) as [[a|x] db']; destruct Hop as [Hdb HP].
  - split; [|by simpl; rewrite database_after_call]. split; simpl; [rewrite Hcalls; lia|].
    split; [|done]. intros l'. destruct (decide (l' = l)) as [->|Hne].
    + by rewrite database_after_call.
    + rewrite database_after_other by done. by apply Hother.
  - split; [|done]. split; simpl; [lia|]. split; [|done]. intros l'.
    apply (stored_readable stored). destruct (decide (l' = l)) as [->|Hne].
    + by rewrite database_after_call.
    + by rewrite database_after_other.
Qed.

Lemma update_goes {A} l op (P : A -> DB -> Prop) stored stored' n :
  (forall l' db, l' <> l -> readable stored l' db -> readable stored' l' db) ->
  (forall k db, readable stored l db ->
     match op (around (store_oracle oracle) k) db with
     | (Ok a, db') => readable stored' l db' /\ P a db'
     | (Throw _, db') => readable stored l db' /\ ~ calm
     end) ->
  triple (ready stored n) (update oracle l op)
    (fun a s => ready stored' n s /\ P a (database l (stores s))) interrupted.
Proof.
  intros Hother Hop. eapply triple_weaken;
    [apply (update_from l op (fun _ => True) P stored stored' n Hother)|done..].
  intros k db Hdb _. by apply Hop.
Qed.

(** A call that is not an optimistic transaction. *)
Lemma plain_from {A} l (m : prog DB A) (Pre : DB -> Prop) (P : A -> DB -> Prop) stored n :
  (forall c db, polite (command_keys e commands) c -> Pre db -> Pre (execute c db)) ->
  (forall db, readable stored l db -> Pre db -> exists a, m db = (Ok a, db) /\ P a db) ->
  triple (fun s => ready stored n s /\ Pre (database l (stores s))) (update oracle l (plain m))
    (fun a s => ready stored n s /\ P a (database l (stores s))) interrupted.
Proof.
  intros Hpre Hm. apply update_from; [done|]. intros k db Hdb Hp. unfold plain.
  pose proof (others_readable k 0 stored l db _ (reflexivity _) Hdb) as Hdb1.
  assert (Pre (run_cmds (others_of (around (store_oracle oracle) k 0)) db)) as Hp1.
  { apply (stable_run _ _ Hpre); [|done]. apply Forall_forall. intros c Hc.
    by eapply (fair_others _ _ _ Hfair). }
  destruct (Hm _ Hdb1 Hp1) as (a & Ha & HP).
  assert (exec_ends (around (store_oracle oracle) k 0) <> Replied -> ~ calm) as Hlost.
  { intros Hne ([Hq _] & _). by rewrite Hq in Hne. }
  destruct (exec_ends _).
  - by rewrite Ha.
  - split; [done|]. by apply Hlost.
  - rewrite Ha. split; [done|]. by apply Hlost.
Qed.

Lemma plain_goes {A} l (m : prog DB A) (P : A -> DB -> Prop) stored stored' n :
  (forall l' db, l' <> l -> readable stored l' db -> readable stored' l' db) ->
  (forall db, readable stored' l db -> readable stored l db) ->
  (forall db, readable stored l db -> exists a, (m db).1 = Ok a /\
     readable stored' l (m db).2 /\ P a (m db).2) ->
  triple (ready stored n) (update oracle l (plain m))
    (fun a s => ready stored' n s /\ P a (database l (stores s))) interrupted.
Proof.
  intros Hother Hback Hm. apply update_goes; [done|]. intros k db Hdb. unfold plain.
  pose proof (others_readable k 0 stored l db _ (reflexivity _) Hdb) as Hdb1.
  destruct (Hm _ Hdb1) as (a & Ha & Hdb2 & HP).
  assert (exec_ends (around (store_oracle oracle) k 0) <> Replied -> ~ calm) as Hlost.
  { intros Hne ([Hq _] & _). by rewrite Hq in Hne. }
  destruct (exec_ends _).
  - destruct (m _) as [r db2]. simpl in *. by subst r.
  - split; [done|]. by apply Hlost.
  - split; [by apply Hback|]. by apply Hlost.
Qed.

(** A marked transaction whose commands can be computed. *)
Lemma marked_goes l marker mf eff watched msg stored stored' n :
  mf <> ∅ -> marker ∈ watched -> reads_only watched eff ->
  (forall l' db, l' <> l -> readable stored l' db -> readable stored' l' db) ->
  (forall db, readable stored' l db -> readable stored l db) ->
  (forall db, readable stored l db -> exists_key marker db = true -> readable stored' l db) ->
  (forall db, readable stored l db -> exists_key marker db = false ->
     exists cs, eff db = Ok cs /\ (marker ∉ (target <$> cs)) /\
       readable stored' l (run_cmds (cs ++ [HMSET marker (sorted_items mf)]) db)) ->
  triple (ready stored n)
    (update oracle l (watch_loop kMaxWatchRetries watched msg (unless_marked marker mf eff)))
    (fun _ s => ready stored' n s /\ exists_key marker (database l (stores s)) = true) interrupted.
Proof.
  intros Hmf Hin Hro Hother Hback Hthere Heff.
  apply (update_goes l _ (fun _ db => exists_key marker db = true)); [done|]. intros k db Hdb.
  destruct (watch_loop _ _ _ _ _ _) as [r db'] eqn:Hrun.
  pose proof Hrun as (others & Ho & Hout)%watch_loop_outcome; [|by apply reads_only_marked].
  assert (readable stored l (run_cmds others db)) as Hdb1.
  { apply polite_readable; [|done]. eapply Forall_impl; [exact Ho|]. intros c [i Hc].
    by eapply (fair_others _ _ _ Hfair). }
  assert (forall x, r = Throw x -> ~ calm) as Hcalm.
  { intros x -> (Hund & _). unfold kMaxWatchRetries in Hrun.
    rewrite calm_watch_loop in Hrun by done. unfold unless_marked in Hrun.
    destruct (exists_key marker db) eqn:Hm; [done|]. destruct (Heff db Hdb Hm) as (cs' & Hcs' & _).
    by rewrite Hcs' in Hrun. }
  assert (forall cs', unless_marked marker mf eff (run_cmds others db) = Ok (Some cs') ->
    readable stored' l (run_cmds cs' (run_cmds others db)) /\
    exists_key marker (run_cmds cs' (run_cmds others db)) = true) as Hcommit.
  { intros cs' (Hm & es & Hes & ->)%body_inv. destruct (Heff _ Hdb1 Hm) as (cs & Hcs & Hnm & Hnew).
    rewrite Hcs in Hes. injection Hes as <-. split; [done|].
    apply (commit_marks marker mf (fun _ => Ok cs)); [done|by intros ? ? [= <-]|done..]. }
  inversion Hout as [cs' Hb|Hb|x|cs' Hb]; subst.
  - by apply Hcommit.
  - apply body_inv in Hb. split; [by apply Hthere|done].
  - split; [done|by eapply Hcalm].
  - split; [by apply Hback, Hcommit|by eapply Hcalm].
Qed.

(** *** Reading, and what touches no database *)
Lemma get_goes l key stored n :
  goes stored n (get oracle l key)
    (fun m => exists db, readable stored l db /\ m = hgetall key db).
Proof.
  eapply triple_weaken; [|done| |exact (fun _ _ H => H)].
  - apply (plain_goes l (getHash key)
      (fun m db => readable stored l db /\ m = hgetall key db) stored stored); [done..|].
    intros db Hdb. simpl. by eexists.
  - intros m s [Hs (Hdb & ->)]. eauto.
Qed.

Lemma now_goes stored n : goes stored n (now_ns oracle) (fun _ => True).
Proof.
  intros [[] d name gen] (Hn & Hl & Hr). simpl in *. split; [|done]. split; [simpl; lia|].
  split; [|done]. intros l. specialize (Hl l). by destruct l.
Qed.

Lemma steady_goes stored n :
  triple (ready stored n) (steady_now oracle)
    (fun t s => exists k, ready stored k s /\ t = steady_clock oracle k /\ n <= k) interrupted.
Proof.
  intros [[] d name gen] (Hn & Hl & Hr). simpl in *. eexists. split; [|done].
  split; [simpl; lia|]. split; [|done]. intros l. specialize (Hl l). by destruct l.
Qed.

Lemma phase_goes name stored n : goes stored n (phase oracle name) (fun _ => True).
Proof.
  intros s Hs. unfold phase, on_stores, after_phase. destruct s as [w d dn gen].
  destruct (hook _ _ _) as [[]|x] eqn:Hh; [done|].
  split; [eapply ready_weaken; [exact Hs|lia]|]. intros ([_ Hq] & _). by rewrite Hq in Hh.
Qed.

Lemma before_ack_goes stored n : goes stored n (before_ack oracle) (fun _ => True).
Proof.
  intros s Hs. unfold before_ack. destruct (before_ack_hook _ _) as [[]|x] eqn:Hh; [done|].
  split; [eapply ready_weaken; [exact Hs|lia]|]. intros (_ & Hq & _). by rewrite Hq in Hh.
Qed.

Lemma generation_goes stored n : goes stored n (gets device_generation_) is_u64.
Proof. intros s Hs. split; [done|]. by destruct Hs as (_ & _ & _ & ?). Qed.

(** A device call; an exception has a text that can be reported. *)
Lemma device_goes {A} (m : DeviceApi.call D A) (P : A -> Prop) stored n :
  answers well m P ->
  triple (ready stored n) (on_device oracle m) (fun a s => ready stored n s /\ P a)
    (fun x s => ready stored n s /\ utf8 (what x)).
Proof.
  intros Hm [[] d name gen] (Hn & Hl & Hw & Hg). simpl in *.
  destruct (Hm (device_events oracle calls d)) as (r & d' & Hr & Hd' & Hpost);
    [by apply (fair_device _ _ _ Hfair)|]. rewrite Hr.
  assert (forall db1 db2 db3 db4 db5 db6,
    ready stored n (mkSyncd (mkWorld db1 db2 db3 db4 db5 db6 calls) d name gen) ->
    ready stored n (mkSyncd (mkWorld db1 db2 db3 db4 db5 db6 (S calls)) d' name gen)) as Hnext.
  { intros db1 db2 db3 db4 db5 db6 (Hn' & Hl' & _). split; [simpl in *; lia|]. split; [|done].
    intros l. specialize (Hl' l). by destruct l. }
  destruct r; (split; [|done]); apply Hnext; exact (conj Hn (conj Hl (conj Hw Hg))).
Qed.

(** *** Writing *)
Ltac elsewhere :=
  intros [?|[?|[?|(? & [?|[?|?]])]]]%command_keys_inv; done.

(** A record that is written once, elsewhere. *)
Lemma absent_goes l key fs stored n :
  fs <> ∅ -> (key ∉ command_keys e commands) ->
  goes stored n (update oracle l (putHashIfAbsent key fs)) (fun _ => True).
Proof.
  intros Hfs Hkey. unfold putHashIfAbsent. destruct (decide (fs = ∅)); [done|].
  eapply triple_weaken;
    [apply (marked_goes l key fs (fun _ => Ok []) [key]
              "Redis conditional hash write exceeded retry limit" stored stored n)| | |].
  - done.
  - by left.
  - by intros c db _.
  - done.
  - done.
  - done.
  - intros db Hdb _. exists []. split; [done|]. split; [apply not_elem_of_nil|].
    apply (apart_readable _ _ _ _ [HMSET key (sorted_items fs)]); [|done]. by repeat constructor.
  - done.
  - by intros b s [Hs _].
  - done.
Qed.

(** An event that is appended once. *)
Lemma append_goes marker mf stream ev stored n :
  mf <> ∅ -> validateEvent ev = Ok tt -> marker <> stream ->
  (marker ∉ command_keys e commands) -> (stream ∉ command_keys e commands) ->
  goes stored n (update oracle LogicalDb.kDevice (appendEventOnce marker mf stream ev))
    (fun _ => True).
Proof.
  intros Hmf Hev Hne Hm Hs. unfold appendEventOnce. rewrite Hev.
  eapply triple_weaken;
    [apply (marked_goes LogicalDb.kDevice marker mf (fun _ => Ok [XADD stream (eventFields ev)])
              [marker] "Redis event publication exceeded retry limit" stored stored n)| | |].
  - done.
  - by left.
  - by intros c db _.
  - done.
  - done.
  - done.
  - intros db Hdb _. eexists. split; [done|].
    split; [by intros ?%list_elem_of_singleton|].
    apply apart_readable; [|done]. by repeat constructor.
  - done.
  - by intros b s [Hrs _].
  - done.
Qed.

(** The durable result of a command *)
Lemma store_goes r payload ms stored n :
  publishable_result commands r -> durableResultPayload r = Ok payload ->
  (0 <= ms < 2 ^ 63)%Z ->
  triple (ready stored n)
    (put oracle LogicalDb.kDevice (deviceApplyResultKey (event_id e)) (result_fields payload ms))
    (fun _ => ready Stored n) interrupted.
Proof.
  intros Hr Hpayload Hms.
  destruct (durable_result_carried r (proj1 Hr)) as (text & Htext & Hdecode).
  rewrite Htext in Hpayload. injection Hpayload as ->.
  eapply triple_weaken;
    [apply (plain_goes LogicalDb.kDevice _ (fun _ _ => True) stored Stored)|done|by intros ? ? []|done].
  - intros [] db Hl; try done. intros [?|[_ ?]]; [by left|by right].
  - intros db [[[? _]|?] Hv]; [done|]. by split; [right|].
  - intros db [_ Hv]. exists tt. split; [done|]. split; [|done]. split.
    + right. unfold putHash, exec. cbn [snd]. unfold result_key. rewrite replace_hash_run.
      exists payload, r. split_and!; try done. intros t [= <-]. exists ms.
      split; [by apply stoll_to_string|lia].
    + intros c Hc. unfold putHash, exec. cbn [snd].
      destruct (run_cmds_frame (replace_hash (deviceApplyResultKey (event_id e))
        (result_fields payload ms)) (version_key e c) db) as (_ & -> & _); [|by apply Hv].
      intros (x & Hx & Ht%replace_hash_targets)%list_elem_of_fmap. by rewrite Ht in Hx.
Qed.
End Calls.
