(* ===== verification/SyncdAround.v ===== *)
(** * What syncd does around a command leaves the command ready: its polls, the fault
    commands, and whatever interferes with them. *)
From S2P Require Import Prelude ProgLogic ReconcilerProps Redis RedisKeys RedisRepository.
From S2P Require Import RedisRepositoryProps.
From S2P Require Import RedisOnce Services CallLogic.
From S2P Require Import DeviceApi Errors Types Reconciler Json UdsJsonProps DeviceCommand.
From S2P Require Import SyncdRules Syncd SyncdPublish SyncdPayloads SyncdPorts SyncdRecovery.
From S2P Require Import SyncdReconcile SyncdPoll SyncdLogic SyncdSteps SyncdPollSteps SyncdProgress.
From stdpp Require Import options.

(** A device call that keeps [well], and returns values with [P] only. *)
Definition respects {D A} (well : D -> Prop) (m : DeviceApi.call D A) (P : A -> Prop) : Prop :=
  forall d r d', well d -> m d = Some (r, d') -> well d' /\ forall a, r = Ok a -> P a.

Lemma answers_respects {J : JsonLib} {JL : JsonLaws J} {D A} well (m : DeviceApi.call D A) P :
  answers well m P -> respects well m P.
Proof.
  intros Hm d r d' Hd Hrun. destruct (Hm d Hd) as (r1 & d1 & Hrun1 & Hd1 & Hr).
  rewrite Hrun1 in Hrun. injection Hrun as <- <-. split; [done|]. by intros a ->.
Qed.

Section Around.
Context {J : JsonLib} {JL : JsonLaws J} {DB : Type} {R : Redis DB} {RL : RedisLaws DB}.
Context {G : RedisGroups DB} {GL : RedisGroupLaws DB}.
Context {D : Type} {API : OcsDeviceApi D}.
Variable e : EventEnvelope.
Variable commands : list ConnectionCommand.
Variable well : D -> Prop.
Variable oracle : SyncdOracle D.
Hypothesis Hfair : fair (command_keys e commands) well oracle.
#[local] Abbreviation state := (Syncd DB D).
#[local] Abbreviation states := (state_readable (DB:=DB) e commands).
#[local] Abbreviation counters := (counters_readable (DB:=DB) e Anywhere).
#[local] Set Default Proof Using "Type*".

(** What DEVICE_DB has no part in *)
Definition undamaged (s : state) : Prop :=
  holds LogicalDb.kState states (stores s) /\ holds LogicalDb.kCounters counters (stores s) /\
  well (device_ s) /\ is_u64 (device_generation_ s).

Lemma ready_split (s : state) :
  ready e commands well Anywhere 0 s <->
  holds LogicalDb.kDevice (device_readable e commands Anywhere) (stores s) /\ undamaged s.
Proof using Type.
  split.
  - intros (_ & Hl & Hw & Hg). split; [exact (Hl LogicalDb.kDevice)|].
    split_and!; [exact (Hl LogicalDb.kState)|exact (Hl LogicalDb.kCounters)|done..].
  - intros (Hd & Hs & Hc & Hw & Hg). split_and!; [lia| |done..]. by intros [].
Qed.

(** ** Calls *)
Lemma around_stores {A} (m : prog (World DB) A) P :
  keeps (holds LogicalDb.kState states) m P ->
  keeps (holds LogicalDb.kCounters counters) m (fun _ => True) -> keeps undamaged (on_stores m) P.
Proof using Type.
  intros Hs Hc [w d name gen] r s' (H1 & H2 & H3 & H4). simpl in *.
  destruct (m w) as [r1 w1] eqn:Hr. intros [= <- <-].
  destruct (Hs _ _ _ H1 Hr), (Hc _ _ _ H2 Hr). by split_and!.
Qed.

Lemma around_other {A} l (op : (nat -> interference) -> prog DB A) :
  l <> LogicalDb.kState -> l <> LogicalDb.kCounters ->
  keeps undamaged (update oracle l op) (fun _ => True).
Proof using Type. intros. apply around_stores; by apply keeps_call_other. Qed.

Lemma around_state {A} (op : (nat -> interference) -> prog DB A) P :
  keeps (holds LogicalDb.kState states) (Services.call (store_oracle oracle) LogicalDb.kState op) P ->
  keeps undamaged (update oracle LogicalDb.kState op) P.
Proof using Type. intros. apply around_stores; [done|by apply keeps_call_other]. Qed.

Lemma around_counters {A} (op : (nat -> interference) -> prog DB A) :
  keeps (holds LogicalDb.kCounters counters)
    (Services.call (store_oracle oracle) LogicalDb.kCounters op) (fun _ => True) ->
  keeps undamaged (update oracle LogicalDb.kCounters op) (fun _ => True).
Proof using Type. intros. apply around_stores; [by apply keeps_call_other|done]. Qed.

Lemma states_stable c db : polite (command_keys e commands) c -> states db -> states (execute c db).
Proof using J JL RL. apply (polite_stable e commands Anywhere LogicalDb.kState). Qed.
Lemma counters_stable c db : polite (command_keys e commands) c -> counters db -> counters (execute c db).
Proof using J JL RL. apply (polite_stable e commands Anywhere LogicalDb.kCounters). Qed.

Lemma around_get l key :
  keeps undamaged (get oracle l key)
    (fun m => l = LogicalDb.kState -> exists db, states db /\ m = hgetall key db).
Proof.
  pose proof (fair_others _ _ _ Hfair) as Ho.
  destruct (decide (l = LogicalDb.kState)) as [->|Hl].
  { eapply keeps_weaken; [apply around_state|by intros m Hm _; exact Hm].
    by apply (keeps_get_hash _ _ _ states_stable _ Ho). }
  apply (keeps_weaken _ _ (fun _ => True)); [|by intros m _ ?].
  destruct (decide (l = LogicalDb.kCounters)) as [->|Hc]; [|by apply around_other].
  apply around_counters. eapply keeps_weaken;
    [by apply (keeps_get_hash _ _ _ counters_stable _ Ho)|done].
Qed.

Lemma around_get_any l key : keeps undamaged (get oracle l key) (fun _ => True).
Proof. eapply keeps_weaken; [apply around_get|done]. Qed.

Lemma around_now : keeps undamaged (now_ns oracle) (fun _ => True).
Proof using Type. intros [[] d name gen] r s' Hs [= <- <-]. by split. Qed.

Lemma around_steady : keeps undamaged (steady_now oracle) (fun _ => True).
Proof using Type. intros [[] d name gen] r s' Hs [= <- <-]. by split. Qed.

Lemma around_scan l pattern : keeps undamaged (scan_keys oracle l pattern) (fun _ => True).
Proof using Type. intros [[] d name gen] r s' Hs [= <- <-]. by split. Qed.

Lemma around_identity name gen :
  is_u64 gen -> keeps undamaged (set_identity name gen) (fun _ => True).
Proof using Type. intros Hg. apply keeps_modify. intros s (? & ? & ? & _). by split_and!. Qed.

Lemma around_device {A} (m : DeviceApi.call D A) P :
  respects well m P -> keeps undamaged (on_device oracle m) P.
Proof.
  intros Hm [w d name gen] r s' (H1 & H2 & Hw & Hg). cbn [stores device_ device_generation_] in *.
  unfold on_device.
  pose proof (fair_device _ _ _ Hfair (Services.calls w) d Hw) as Hd.
  assert (forall d', well d' -> undamaged (mkSyncd (tick w) d' name gen)) as Hnext
    by (intros d' ?; by destruct w; split_and!).
  destruct (m _) as [[r1 d1]|] eqn:Hr; intros [= <- <-].
  - destruct (Hm _ _ _ Hd Hr). split; [by apply Hnext|done].
  - split; [by apply Hnext|done].
Qed.

(** ** Writes to STATE_DB *)
#[local] Abbreviation elsewhere key := (key ∉ command_keys e commands).

Lemma states_elsewhere cs db :
  Forall (fun c => elsewhere (target c)) cs -> states db -> states (run_cmds cs db).
Proof using J JL RL. apply (apart_readable e commands Anywhere LogicalDb.kState). Qed.

Lemma replace_elsewhere key fs :
  elsewhere key -> Forall (fun c => elsewhere (target c)) (replace_hash key fs).
Proof using Type.
  intros Hk. apply Forall_forall. intros c Hc%replace_hash_targets. by rewrite Hc.
Qed.

(** A hash that is elsewhere, or is a readable state. *)
Definition harmless (key : string) (fs : gmap string string) : Prop :=
  elsewhere key \/ (exists device id, key = connectionStateKey device id) /\ readable_state fs.

Lemma states_replace key fs db :
  harmless key fs -> states db -> states (run_cmds (replace_hash key fs) db).
Proof using J JL RL.
  intros [Hk|[(device & id & ->) Hfs]] Hdb; [by apply states_elsewhere, Hdb; apply replace_elsewhere|].
  intros c Hc. destruct (Hdb c Hc) as [Hm Hs]. set (key := connectionStateKey device id).
  assert (forall k, k <> key -> type_of k (run_cmds (replace_hash key fs) db) = type_of k db /\
    hgetall k (run_cmds (replace_hash key fs) db) = hgetall k db) as Hframe.
  { intros k Hk. destruct (run_cmds_frame (replace_hash key fs) k db) as (? & ? & _); [|done].
    intros (x & Hx & Ht%replace_hash_targets)%list_elem_of_fmap. congruence. }
  split.
  - by destruct (Hframe (published_key e c)) as [-> ->].
  - destruct (decide (state_key e c = key)) as [->|Hne]; [by rewrite replace_hash_run|].
    by destruct (Hframe (state_key e c)) as [_ ->].
Qed.

(** A marker that is elsewhere, or has the change it published. *)
Definition marks (marker : string) (mf : gmap string string) : Prop :=
  elsewhere marker \/ (exists id rid, marker = syncdStatePublicationKey id rid) /\
    exists text z, mf !! "active_delta" = Some text /\ stoll text = Ok z.

Lemma states_mark marker mf db :
  marks marker mf -> exists_key marker db = false -> states db ->
  states (execute (HMSET marker (sorted_items mf)) db).
Proof using J JL RL.
  intros [Hm|[(id & rid & ->) (text & z & Htext & Hz)]] Hnew Hdb.
  { apply (states_elsewhere [HMSET marker (sorted_items mf)]); [by repeat constructor|done]. }
  set (marker := syncdStatePublicationKey id rid) in *. intros c Hc. destruct (Hdb c Hc) as [Hp Hs].
  split.
  - destruct (decide (published_key e c = marker)) as [Heq|Hne].
    + right. exists text, z. split; [|done]. rewrite Heq.
      unfold exists_key in Hnew. rewrite negb_false_iff, bool_decide_eq_true in Hnew.
      rewrite execute_hmset, assign_sorted_items, (type_none_hgetall marker db Hnew), (right_id_L ∅ (∪));
        [done| |by rewrite Hnew].
      apply sorted_items_ne. by intros ->.
    + by destruct (execute_frame (HMSET marker (sorted_items mf)) (published_key e c) db)
        as (-> & -> & _).
  - by destruct (execute_frame (HMSET marker (sorted_items mf)) (state_key e c) db) as (_ & -> & _).
Qed.

Lemma around_put_state key fs :
  harmless key fs -> keeps undamaged (put oracle LogicalDb.kState key fs) (fun _ => True).
Proof.
  intros Hk. apply around_state, (keeps_plain _ _ _ states_stable _ (fair_others _ _ _ Hfair)).
  intros db Hdb. split; [|done]. by apply states_replace.
Qed.

Lemma states_published key fs ev (db : DB) :
  harmless key fs -> states db ->
  states (run_cmds (replace_hash key fs ++ [XADD kStateEvents (eventFields ev)]) db).
Proof using J JL RL.
  intros Hk Hdb. rewrite run_cmds_app. apply states_elsewhere; [|by apply states_replace].
  repeat constructor. intros [?|[?|[?|(? & [?|[?|?]])]]]%command_keys_inv; done.
Qed.

Lemma around_publish_state key fs ev :
  harmless key fs ->
  keeps undamaged (update oracle LogicalDb.kState
    (plain (replaceHashAndAppendEvent key fs kStateEvents ev Replied))) (fun _ => True).
Proof.
  intros Hk. apply around_state, (keeps_plain _ _ _ states_stable _ (fair_others _ _ _ Hfair)).
  intros db Hdb. split; [|done]. unfold replaceHashAndAppendEvent.
  destruct (validateEvent ev) as [[]|]; [|done]. by apply states_published.
Qed.

Lemma around_publish_once marker mf key fs ev :
  marks marker mf -> marker <> key -> marker <> kStateEvents -> harmless key fs ->
  keeps undamaged (update oracle LogicalDb.kState
    (replaceHashAndAppendEventOnce marker mf key fs kStateEvents ev)) (fun _ => True).
Proof.
  intros Hm Hne Hns Hk.
  apply around_state, (keeps_replace_once _ _ _ states_stable _ (fair_others _ _ _ Hfair)).
  intros db Hdb Hnew _. rewrite run_cmds_app.
  set (cs := replace_hash key fs ++ [XADD kStateEvents (eventFields ev)]).
  change (run_cmds [?c] ?d) with (execute c d). apply states_mark; [done| |by apply states_published].
  unfold exists_key in *. destruct (run_cmds_frame cs marker db) as (-> & _ & _); [|done].
  intros (x & Hx & [Ht%replace_hash_targets|Hin%list_elem_of_singleton]%elem_of_app)%list_elem_of_fmap.
  - congruence.
  - by subst x.
Qed.

(** ** Writes to COUNTERS_DB *)
Definition maximum_ok (m : gmap string string) : Prop :=
  forall text, m !! "max_apply_latency_ms" = Some text -> is_ok (stoll text) = true.

Definition counts (c : redis_cmd) : Prop :=
  (forall k, c <> DEL k) /\ forall db : DB,
    maximum_ok (hgetall (counters_key e) db) -> maximum_ok (hgetall (counters_key e) (execute c db)).

Lemma counters_counts cs db : Forall counts cs -> counters db -> counters (run_cmds cs db).
Proof using RL.
  revert db. induction cs as [|c cs IH]; intros db Hcs Hdb; [done|].
  apply Forall_cons in Hcs as [[Hdel Hmax] Hcs]. apply (IH (execute c db)); [done|].
  destruct Hdb as [Hdb|[Ha Hdb]]; [left|right; split; [done|by apply Hmax]].
  unfold exists_key in *. rewrite negb_true_iff, bool_decide_eq_false in *. by rewrite execute_keeps.
Qed.

Lemma counts_elsewhere c : target c <> counters_key e -> (forall k, c <> DEL k) -> counts c.
Proof using RL.
  intros Hc Hdel. split; [done|]. intros db Hdb.
  by destruct (execute_frame c (counters_key e) db) as (_ & -> & _).
Qed.

(** A command on a key that is a stream does nothing to its hash, which is empty. *)
Lemma hash_dec key (c : redis_cmd) (db : DB) :
  c <> DEL key -> type_of key db <> KStream \/ hgetall key (execute c db) = ∅.
Proof using RL.
  intros Hc. destruct (decide (type_of key db = KStream)) as [Ht|?]; [right|by left].
  destruct (decide (hgetall key (execute c db) = ∅)) as [|Hne]; [done|].
  apply type_hash in Hne. rewrite execute_keeps, Ht in Hne; [done..|by rewrite Ht].
Qed.

Lemma counts_increment key f n : f <> "max_apply_latency_ms" -> counts (HINCRBY key f n).
Proof using RL.
  intros Hf. split; [done|]. intros db Hdb. unfold maximum_ok.
  destruct (decide (key = counters_key e)) as [->|Hk].
  - by rewrite execute_hincrby_other.
  - by destruct (execute_frame (HINCRBY key f n) (counters_key e) db) as (_ & -> & _).
Qed.

Lemma counts_initial key f : counts (HSETNX key f "0").
Proof using RL.
  split; [done|]. intros db Hdb. destruct (decide (key = counters_key e)) as [->|Hk].
  - destruct (hash_dec (counters_key e) (HSETNX (counters_key e) f "0") db) as [Ht|Hr]; [done| |].
    + rewrite execute_hsetnx by done. destruct (_ !! f); [done|].
      intros text [[_ <-]|[_ Hx]]%lookup_insert_Some; [done|by apply Hdb].
    + by rewrite Hr.
  - by destruct (execute_frame (HSETNX key f "0") (counters_key e) db) as (_ & -> & _).
Qed.

Lemma counts_assign key fs :
  fs <> [] -> (forall text, ("max_apply_latency_ms", text) ∈ fs -> is_ok (stoll text) = true) ->
  counts (HMSET key fs).
Proof using RL.
  intros Hfs Hmax. split; [done|]. intros db Hdb. destruct (decide (key = counters_key e)) as [->|Hk].
  - destruct (hash_dec (counters_key e) (HMSET (counters_key e) fs) db) as [Ht|Hr]; [done| |].
    + rewrite execute_hmset by done. clear Ht Hfs. revert Hdb Hmax. generalize (hgetall (counters_key e) db).
      induction fs as [|[f v] fs IH]; intros m Hm Hmax; [done|]. apply IH.
      * intros text [[Heq <-]|[_ Hx]]%lookup_insert_Some; [|by apply Hm].
        cbn [fst] in Heq. subst f. apply Hmax. by left.
      * intros text Hin. apply Hmax. by right.
    + by rewrite Hr.
  - by destruct (execute_frame (HMSET key fs) (counters_key e) db) as (_ & -> & _).
Qed.

Lemma counts_increments key increments :
  increments !! "max_apply_latency_ms" = None -> Forall counts (increment_cmds key increments).
Proof using RL.
  intros Hno. apply Forall_forall. intros c. rewrite increment_cmds_alt, list_elem_of_omap.
  intros ([f n] & Hin & Hc). unfold counter_cmd in Hc. case_decide; [|done]. injection Hc as <-.
  apply counts_increment. intros ->. apply elem_of_sorted_items in Hin. congruence.
Qed.

Lemma around_increment key marker mf increments :
  marker <> counters_key e -> increments !! "max_apply_latency_ms" = None ->
  keeps undamaged (update oracle LogicalDb.kCounters
    (incrementHashFieldsOnce marker mf key increments)) (fun _ => True).
Proof.
  intros Hm Hi. apply around_counters,
    (keeps_increment_once _ _ _ counters_stable _ (fair_others _ _ _ Hfair)).
  intros db Hdb _. apply counters_counts; [|done]. apply Forall_app. split; [by apply counts_increments|].
  repeat constructor; [done|]. intros db' Hmax.
  by destruct (execute_frame (HMSET marker (sorted_items mf)) (counters_key e) db') as (_ & -> & _).
Qed.

Lemma around_count device marker mf increments :
  marker <> counters_key e -> increments !! "max_apply_latency_ms" = None ->
  keeps undamaged (count_once oracle device marker mf increments) (fun _ => True).
Proof.
  intros Hm Hi. unfold count_once. apply keeps_seq; [by apply around_increment|].
  intros. by apply keeps_ret.
Qed.

Lemma around_ensure key fields :
  map_Forall (fun _ v => v = "0") fields ->
  keeps undamaged (update oracle LogicalDb.kCounters (plain (ensureHashFields key fields Replied)))
    (fun _ => True).
Proof.
  intros Hf. apply around_counters, (keeps_plain _ _ _ counters_stable _ (fair_others _ _ _ Hfair)).
  intros db Hdb. split; [|done]. unfold ensureHashFields. case_decide; [done|].
  apply counters_counts; [|done]. apply Forall_forall.
  intros c ([f v] & -> & Hin)%list_elem_of_fmap. apply elem_of_sorted_items, Hf in Hin as ->.
  apply counts_initial.
Qed.

(** ** Polls *)
Variable batch : DeviceCommandBatch.
Hypothesis Hdevice : keeps_promises batch well.

Ltac around leaf :=
  syncd_walk ltac:(first
    [ apply around_now | apply around_steady | apply around_scan | apply around_get_any
    | apply around_other; done | leaf ]).

Lemma around_info :
  keeps undamaged (on_device oracle api_getDeviceInfo) (fun info => is_u64 (generation info)).
Proof. apply around_device, answers_respects, (promise_info _ _ Hdevice). Qed.

Lemma around_connections :
  keeps undamaged (on_device oracle api_getConnections) (Forall connection_text).
Proof. apply around_device, answers_respects, (promise_connections _ _ Hdevice). Qed.

Lemma around_port dir id :
  is_u16 id -> keeps undamaged (get_port oracle dir id) (fun _ => True).
Proof.
  intros Hid. destruct dir; apply around_device, answers_respects;
    [by apply (promise_input _ _ Hdevice)|by apply (promise_output _ _ Hdevice)].
Qed.

Ltac elsewhere :=
  intros [?|[?|[?|(? & [?|[?|?]])]]]%command_keys_inv; done.

(** A port's state and its alarm *)
Lemma around_port_state info port affected :
  keeps undamaged (publishPortState oracle info port affected) (fun _ => True).
Proof.
  unfold publishPortState, publish_port_hash, raise_port_fault, clear_port_fault, cleared_fault,
    publishPortAlarm, clearPortAlarm, clear_port_alarm_once, publish_alarm, put.
  around ltac:(first
    [ apply around_count; done
    | apply around_put_state; left; unfold port_state_key; destruct (direction port); elsewhere
    | apply around_publish_state; left; unfold port_state_key; destruct (direction port); elsewhere ]).
Qed.

Lemma around_poll_direction fuel info actual dir count id unavailable :
  is_u16 id ->
  keeps undamaged (poll_direction oracle fuel info actual dir count id unavailable) (fun _ => True).
Proof.
  revert id unavailable. induction fuel as [|fuel IH]; intros id unavailable Hid; simpl.
  { apply keeps_throw. }
  case_decide; [|by apply keeps_ret].
  apply keeps_seq; [|intros; apply IH; by apply wrap_in_width].
  unfold poll_port. apply keeps_seq; [by apply around_port|]. intros port.
  apply keeps_seq; [apply around_port_state|]. intros _. by apply keeps_ret.
Qed.

Lemma around_ports info actual :
  Forall connection_text actual ->
  keeps undamaged (pollPortStates oracle info actual) (Forall connection_text).
Proof.
  intros Ha. unfold pollPortStates.
  do 2 (apply keeps_seq; [apply around_poll_direction; by split|intros ?]).
  apply keeps_ret. apply Forall_forall. intros x [_ Hin]%list_elem_of_filter.
  rewrite Forall_forall in Ha. by apply Ha.
Qed.

(** *** States of connections *)
Lemma snapshot_port_valid m field p : snapshotPort m field = Ok p -> valid_port p.
Proof using Type.
  unfold snapshotPort. destruct (m !! field) as [text|]; [|done]. rewrite result_bind_Ok.
  intros (z & Hz%stoull_range & Hp). unfold in_width in Hz. case_decide; [done|]. injection Hp as <-.
  rewrite wrap_small by (unfold in_width; lia). unfold valid_port. lia.
Qed.

(** A command that a snapshot or a payload gives *)
Definition proper (c : ConnectionCommand) : Prop :=
  is_u64 (desired_version c) /\
  (operation c = ConnectionOperation.kUpsert ->
   valid_port (cmd_input_port c) /\ valid_port (cmd_output_port c)).

Lemma snapshot_command_proper snapshot c :
  snapshot_command snapshot = Ok (Some c) -> proper c.
Proof using Type.
  unfold snapshot_command. destruct (snapshot !! "id"), (snapshot !! "desired_version"); try done.
  rewrite result_bind_Ok. intros (version & Hv%stoull_range & Hc). destruct (has _ _ _).
  { injection Hc as <-. by split. }
  apply result_bind_Ok in Hc as (i & Hi%snapshot_port_valid & Hc).
  apply result_bind_Ok in Hc as (o & Ho%snapshot_port_valid & Hc). injection Hc as <-. by split.
Qed.

Lemma fields_readable device id i o desired applied present status code text payload :
  is_u64 desired -> (status = "ACTIVE" -> valid_port i /\ valid_port o /\ is_u64 applied) ->
  statePayload (connection_fields device id i o desired applied present status code text)
    = Ok payload ->
  readable_state (connection_fields device id i o desired applied present status code text).
Proof using Type.
  intros Hd Hactive Hp%payload_text. split; [|split].
  - intros t [= <-]. by apply u64_number.
  - intros Ha. unfold has in Ha. apply bool_decide_eq_true in Ha. injection Ha as Ha.
    destruct (Hactive Ha) as (Hi & Ho & Happ). split; [|split].
    + by eapply port_number.
    + by eapply port_number.
    + intros t [= <-]. by apply u64_number.
  - intros k v Hk. split; [|by eapply Hp]. revert k v Hk.
    apply (map_Forall_impl (fun k _ => utf8 k)); [|done].
    unfold connection_fields. state_members.
Qed.

Lemma refreshed_readable device c found payload :
  proper c -> (forall a, found = Some a -> connection_text a) ->
  statePayload (refreshed_state device c found) = Ok payload ->
  readable_state (refreshed_state device c found).
Proof using Type.
  intros [Hv Hp] Hfound. unfold refreshed_state. destruct found as [a|].
  - destruct (Hfound a eq_refl) as [(_ & _ & Ha) _].
    apply fields_readable; [done|]. unfold matches.
    destruct (operation c); [|done]. destruct (same_connection c a) eqn:Hs; [|done]. intros _.
    unfold same_connection in Hs. rewrite !andb_true_iff, !bool_decide_eq_true in Hs.
    destruct Hs as [[-> ->] _]. destruct (Hp eq_refl). by split_and!.
  - destruct (operation c); [by apply fields_readable|]. intros _.
    split; [done|]. split; [done|]. apply map_Forall_empty.
Qed.

Definition known_connections (m : gmap string AppliedConnection) : Prop :=
  map_Forall (fun _ a => connection_text a) m.

Lemma indexed_connections actual :
  Forall connection_text actual -> known_connections (index_by_id actual).
Proof using Type.
  intros Ha k a [Hin _]%index_by_id_inv. rewrite Forall_forall in Ha. by apply Ha.
Qed.

(** *** Recovery *)
Lemma around_refreshed info id op version refreshed delta :
  (forall payload, statePayload refreshed = Ok payload -> readable_state refreshed) ->
  keeps undamaged (publish_refreshed oracle info id op version refreshed delta) (fun _ => True).
Proof.
  intros Hr. unfold publish_refreshed, published_delta. apply keeps_seq; [apply around_now|].
  intros now. eapply (keeps_bind _ _ _ (fun _ => readable_state refreshed)).
  { apply keeps_lift. exact Hr. }
  intros payload Hrefreshed. cbv zeta. around ltac:(apply around_publish_once;
    [left; elsewhere|done|done|right; split; [by eauto|done]]).
Qed.

Lemma around_refresh_known info c found :
  proper c -> (forall a, found = Some a -> connection_text a) ->
  keeps undamaged (refresh_known oracle info c found) (fun _ => True).
Proof.
  intros Hc Hfound. unfold refresh_known. apply keeps_seq; [apply around_get_any|]. intros previous.
  apply around_refreshed. intros payload. by apply refreshed_readable.
Qed.

Lemma around_refresh_all info keys m :
  known_connections m ->
  keeps undamaged (refresh_all oracle info keys m) (fun r => known_connections r.2).
Proof.
  revert m. induction keys as [|key keys IH]; intros m Hm; simpl; [by apply keeps_ret|].
  apply keeps_seq; [apply around_get_any|]. intros snapshot.
  eapply keeps_bind; [apply keeps_lift; intros o Ho; exact Ho|].
  intros [c|] Hc; [|by apply IH]. apply snapshot_command_proper in Hc. cbv zeta.
  apply keeps_seq; [apply around_refresh_known; [done|by intros a Ha; apply (Hm _ _ Ha)]|].
  intros delta. eapply keeps_bind; [apply IH; by apply map_Forall_delete|].
  intros [[active commands'] unexpected] Hu. by apply keeps_ret.
Qed.

Lemma around_unexpected info id a :
  connection_text a -> keeps undamaged (refresh_unexpected oracle info (id, a)) (fun _ => True).
Proof.
  intros [(_ & _ & Ha) _]. unfold refresh_unexpected. apply keeps_seq; [apply around_get_any|].
  intros previous. apply keeps_seq; [|intros; by apply keeps_ret].
  apply around_refreshed. intros payload. unfold unexpected_state. by apply fields_readable.
Qed.

Lemma around_recovery info actual :
  Forall connection_text actual ->
  keeps undamaged (scheduleGenerationRecovery oracle info actual) (fun _ => True).
Proof.
  intros Ha. unfold scheduleGenerationRecovery, recover_generation, publish_recovery, put.
  around ltac:(by apply around_count).
  unfold refresh_generation. apply keeps_seq; [apply around_scan|]. intros keys.
  eapply keeps_bind; [by apply around_refresh_all, indexed_connections|].
  intros [[active recovered] unexpected] Hu.
  apply keeps_seq; [|intros; by apply keeps_ret].
  eapply keeps_weaken; [apply (keeps_mapM _ _ (fun _ => True))|done].
  intros [id found] Hin. apply around_unexpected. apply (Hu id).
  rewrite (fair_order _ _ _ Hfair) in Hin. by apply elem_of_map_to_list in Hin.
Qed.

(** *** Reconciliation *)
Definition versioned (c : ConnectionCommand) : Prop := is_u64 (desired_version c).
Definition drift_versioned (d : ConnectionDrift) : Prop := versioned (desired d).

Lemma compared_versioned cs m :
  Forall versioned cs -> Forall drift_versioned (compare_desired cs m).1.
Proof using Type.
  intros Hcs. revert m. induction Hcs as [|c cs Hc _ IH]; intros m; simpl; [constructor|].
  destruct (m !! cmd_id c) as [a|].
  - specialize (IH (delete (cmd_id c) m)). destruct (compare_desired cs _) as [ds m'].
    destruct (same_connection c a); [done|by constructor].
  - specialize (IH m). destruct (compare_desired cs m) as [ds m']. by constructor.
Qed.

Lemma leftover_connections cs m :
  known_connections m -> known_connections (compare_desired cs m).2.
Proof using Type.
  revert m. induction cs as [|c cs IH]; intros m Hm; simpl; [done|].
  destruct (m !! cmd_id c) as [a|].
  - specialize (IH (delete (cmd_id c) m) ltac:(by apply map_Forall_delete)).
    destruct (compare_desired cs _) as [ds m']. by destruct (same_connection c a).
  - specialize (IH m Hm). by destruct (compare_desired cs m) as [ds m'].
Qed.

Lemma plan_versioned desired actual plan :
  Forall versioned desired -> Forall connection_text actual ->
  buildReconciliationPlan desired actual = Ok plan -> Forall drift_versioned (drifts plan).
Proof using Type.
  intros Hd Ha. unfold buildReconciliationPlan. destruct (_ || _); [done|].
  pose proof (compared_versioned (sort_by cmd_id desired) (index_by_id (sort_by app_id actual))) as Hc.
  pose proof (leftover_connections (sort_by cmd_id desired) (index_by_id (sort_by app_id actual))) as Hl.
  destruct (compare_desired _ _) as [ds unexpected]. cbn [fst snd] in *. intros [= <-].
  cbn [drifts]. rewrite sort_by_perm, Forall_app. split; [apply Hc; by rewrite sort_by_perm|].
  apply Forall_fmap, Forall_forall. intros [id a] Hin%elem_of_sorted_items.
  assert (connection_text a) as [(_ & _ & Hv) _].
  { eapply Hl; [|exact Hin]. apply indexed_connections. by rewrite sort_by_perm. }
  unfold drift_versioned, versioned, removal_of, in_width in *. simpl. lia.
Qed.

(** The state of a drift, DRIFTED or RECONCILING *)
Definition drifted_fields (device : string) (d : ConnectionDrift) (status : string)
    : gmap string string :=
  let present := bool_decide (kind d <> ConnectionDriftKind.kMissing) in
  connection_fields device (drift_id d)
    (if present then app_input_port (actual d) else cmd_input_port (desired d))
    (if present then app_output_port (actual d) else cmd_output_port (desired d))
    (desired_version (desired d)) (if present then applied_version (actual d) else 0%Z)
    (boolean_text present) status (ErrorCode.toString ErrorCode.kApplyFailed)
    "desired and actual connection state differ".

Lemma reconciling_fields device id i o desired applied present status status' code text :
  <["apply_status" := status']>
    (connection_fields device id i o desired applied present status code text) =
  connection_fields device id i o desired applied present status' code text.
Proof using Type.
  unfold connection_fields.
  do 7 (rewrite (insert_insert_ne _ "apply_status") by done). by rewrite insert_insert_eq.
Qed.

Lemma reconciling_drift device d :
  <["apply_status" := "RECONCILING"]> (drifted_fields device d "DRIFTED") =
  drifted_fields device d "RECONCILING".
Proof using Type. unfold drifted_fields. cbv zeta. rewrite reconciling_fields. done. Qed.

Lemma drifted_readable device d status payload :
  drift_versioned d -> status <> "ACTIVE" ->
  statePayload (drifted_fields device d status) = Ok payload ->
  readable_state (drifted_fields device d status).
Proof using Type. intros Hd Hs. unfold drifted_fields. cbv zeta. by apply fields_readable. Qed.

Lemma around_drift_state device marker suffix command_id mf fs d :
  (marker ∉ command_keys e commands) -> (forall device id, marker <> connectionStateKey device id) ->
  marker <> kStateEvents ->
  (forall payload, statePayload fs = Ok payload -> readable_state fs) ->
  keeps undamaged (publish_drift_state oracle device marker suffix command_id mf fs d) (fun _ => True).
Proof.
  intros Hm Hne Hns Hfs. unfold publish_drift_state. apply keeps_seq; [apply around_now|]. intros now.
  eapply (keeps_bind _ _ _ (fun _ => readable_state fs)); [apply keeps_lift; exact Hfs|].
  intros payload Hr. apply around_publish_once; [by left|done|done|]. right. by eauto.
Qed.

Lemma around_drift device command_id d :
  drift_versioned d -> keeps undamaged (publish_drift oracle device command_id d) (fun _ => True).
Proof.
  intros Hd. unfold publish_drift. apply keeps_seq; [apply around_get_any|]. intros previous.
  destruct (_ || _); [by apply keeps_ret|]. cbv zeta. unfold published_delta.
  change (drifted_state device d) with (drifted_fields device d "DRIFTED").
  rewrite reconciling_drift.
  around ltac:(apply around_drift_state; [elsewhere|done|done|intros ? ?; by eapply drifted_readable]).
Qed.

Lemma around_reconciliation info plan control command_id :
  Forall drift_versioned (drifts plan) ->
  keeps undamaged (publish_reconciliation oracle info plan control command_id) (fun _ => True).
Proof.
  intros Hplan. unfold publish_reconciliation, associatePortFaults, associated_fault, portFaults,
    put_hashes, put_control, put, publishDriftAlarm, raise_drift_alarm, publish_alarm.
  around ltac:(first [by apply around_count | fail]).
  unfold publishReconciliationState. apply keeps_seq; [|intros; by apply around_count].
  eapply keeps_weaken; [apply (keeps_mapM _ _ (fun _ => True))|done]. intros d Hd.
  apply around_drift. rewrite Forall_forall in Hplan. by apply Hplan.
Qed.

Lemma around_close info control :
  keeps undamaged (close_control oracle info control) (fun _ => True).
Proof.
  unfold close_control, clearDriftAlarm, clear_drift_alarm, publish_alarm, put_control, put.
  around ltac:(by apply around_count).
Qed.

Lemma around_drifts info plan control p c :
  Forall drift_versioned (drifts plan) ->
  keeps undamaged (reconcile_drifts oracle info plan control p c) (fun _ => True).
Proof.
  intros Hplan. unfold reconcile_drifts, open_control, put_control, put.
  around ltac:(by apply around_reconciliation).
Qed.

Lemma around_confirmed device desired actual plan :
  Forall versioned desired -> Forall connection_text actual -> Forall drift_versioned (drifts plan) ->
  keeps undamaged (confirmed_state_recovery oracle device desired actual plan)
    (fun r => Forall drift_versioned (drifts r.1)).
Proof.
  intros Hd Ha Hplan. unfold confirmed_state_recovery.
  destruct (negb _); [by apply keeps_ret|]. cbv zeta.
  eapply (keeps_bind _ _ _ (Forall (fun o => forall d, o = Some d -> drift_versioned d))).
  { apply keeps_mapM. intros c Hc. rewrite Forall_forall in Hd. unfold failed_drift.
    destruct (index_by_id actual !! cmd_id c); [|by apply keeps_ret].
    do 2 (apply keeps_seq; [apply around_get_any|intros ?]). apply keeps_ret.
    destruct (_ || _); [|done]. intros d [= <-]. by apply Hd. }
  intros found Hfound. apply keeps_seq; [apply around_scan|]. intros keys.
  eapply (keeps_bind _ _ _ (Forall (fun o => forall c, o = Some c -> versioned c))).
  { apply keeps_mapM. intros key _. apply keeps_seq; [apply around_get_any|]. intros snapshot.
    apply keeps_lift. unfold failed_removal. intros o.
    destruct (snapshot !! "id"), (snapshot !! "desired_version"); try by intros [= <-].
    destruct (_ || _); [by intros [= <-]|]. rewrite result_bind_Ok.
    intros (v & Hv%stoull_range & [= <-]) c [= <-]. done. }
  intros removals Hremovals. apply keeps_ret. unfold add_drifts. destruct plan as [[cs o] ds].
  cbn [fst drifts] in *. rewrite sort_by_perm, !Forall_app.
  split; [done|]. split; [by apply Forall_omap_id|]. apply Forall_fmap.
  by apply (Forall_omap_id versioned).
Qed.

Lemma around_port_recovery device desired actual faults plan :
  Forall versioned desired -> Forall drift_versioned (drifts plan) ->
  keeps undamaged (port_recovery oracle device desired actual faults plan)
    (fun plan => Forall drift_versioned (drifts plan)).
Proof.
  intros Hd Hplan. unfold port_recovery.
  eapply (keeps_bind _ _ _ (Forall (fun o => forall d, o = Some d -> drift_versioned d))).
  { apply keeps_mapM. intros c Hc. unfold port_recovery_drift.
    apply keeps_seq; [apply around_get_any|]. intros snapshot. apply keeps_ret.
    destruct (failed snapshot); [|done].
    destruct (index_commands desired !! cmd_id c) as [wanted|] eqn:Hw; [|done].
    destruct (index_by_id actual !! cmd_id c); [|done]. intros d [= <-].
    rewrite Forall_forall in Hd. apply Hd. by apply index_inv in Hw as [?|[? _]]. }
  intros found Hfound. cbv zeta.
  apply keeps_seq; [|intros _; apply keeps_ret; cbn [drifts]].
  - unfold recovered_record, put_hashes. around fail.
  - rewrite sort_by_perm, Forall_app. split; [done|]. by apply Forall_omap_id.
Qed.

Lemma around_settled info desired actual :
  Forall versioned desired -> Forall connection_text actual ->
  keeps undamaged (reconcile_settled oracle info desired actual) (fun _ => True).
Proof.
  intros Hd Ha. unfold reconcile_settled. cbv zeta.
  eapply keeps_bind; [apply keeps_lift; intros plan; by apply plan_versioned|]. intros plan Hplan.
  eapply keeps_bind; [by apply around_confirmed|]. intros [plan' confirmed] Hplan'.
  apply keeps_seq; [unfold portFaults; around fail|]. intros faults.
  eapply (keeps_bind _ _ _ (fun plan => Forall drift_versioned (drifts plan))).
  { destruct (_ && _); [by apply around_port_recovery|by apply keeps_ret]. }
  intros plan1 Hplan1. around ltac:(first [apply around_close | by apply around_drifts]).
Qed.

Lemma around_desired device :
  keeps undamaged (loadDesiredConnections oracle device) (Forall versioned).
Proof.
  unfold loadDesiredConnections. apply keeps_seq; [apply around_scan|]. intros keys.
  eapply (keeps_bind _ _ _ (Forall (fun o => forall c, o = Some c -> versioned c))).
  - apply keeps_mapM. intros key _. apply keeps_seq; [apply around_get_any|]. intros snapshot.
    apply keeps_lift. intros o. unfold desired_command. case_decide; [by intros [= <-]|].
    destruct (snapshot !! "desired_version"); [|done]. case_decide; [done|].
    rewrite result_bind_Ok. intros (i & _ & Hc). apply result_bind_Ok in Hc as (p & _ & Hc).
    apply result_bind_Ok in Hc as (v & Hv%stoull_range & Hc). injection Hc as <-.
    by intros c [= <-].
  - intros found Hfound. apply keeps_ret. by apply Forall_omap_id.
Qed.

Lemma around_reconcile info actual :
  Forall connection_text actual ->
  keeps undamaged (reconcileDevice oracle info actual) (fun _ => True).
Proof.
  intros Ha. unfold reconcileDevice. eapply keeps_bind; [apply around_desired|]. intros desired Hd.
  apply keeps_seq; [|intros [|]; [by apply around_settled|by apply keeps_ret]].
  unfold orchestrationSettled. apply keeps_seq; [apply around_scan|]. intros keys.
  generalize (index_commands desired). induction keys as [|key keys IH]; intros m; simpl;
    [by apply keeps_ret|]. around ltac:(apply IH).
Qed.

(** *** The calls *)
Lemma around_same_device :
  keeps undamaged (same_device oracle) (fun info => is_u64 (generation info)).
Proof.
  unfold same_device. eapply keeps_bind; [apply around_info|]. intros info Hg.
  apply keeps_seq; [by apply keeps_gets|]. intros name. case_decide; [apply keeps_throw|by apply keeps_ret].
Qed.

Lemma around_heartbeat online : keeps undamaged (publishHwsimHeartbeat oracle online) (fun _ => True).
Proof.
  unfold publishHwsimHeartbeat. apply keeps_seq; [apply around_now|]. intros now.
  apply around_put_state. left. elsewhere.
Qed.

Lemma around_device_state name generation count status error :
  keeps undamaged (publishDeviceState oracle name generation count status error) (fun _ => True).
Proof.
  unfold publishDeviceState. cbv zeta. around ltac:(apply around_publish_state; left; elsewhere).
Qed.

Ltac poll :=
  around ltac:(first [ apply around_heartbeat | apply around_device_state | by apply around_recovery
    | by apply around_reconcile | by apply around_identity ]).

Lemma around_poll : keeps undamaged (pollDevice oracle) (fun _ => True).
Proof.
  unfold pollDevice. apply keeps_try_catch; [|intros x; unfold poll_failed; poll].
  unfold poll_online. eapply keeps_bind; [apply around_same_device|]. intros info Hg.
  eapply keeps_bind; [apply around_connections|]. intros actual Ha.
  eapply keeps_bind; [by apply around_ports|]. intros effective He.
  unfold recovery_pending. poll.
Qed.

Lemma around_liveness : keeps undamaged (pollDeviceLiveness oracle) (fun _ => True).
Proof.
  unfold pollDeviceLiveness. apply keeps_try_catch; [|intros x; poll].
  eapply keeps_bind; [apply around_same_device|]. intros info _. poll.
Qed.

Lemma initial_counters_zero : map_Forall (fun _ v => v = "0") initial_counters.
Proof using Type. apply (bool_decide_unpack _). by vm_compute. Qed.

Lemma around_start : keeps undamaged (initialize oracle) (fun _ => True).
Proof.
  unfold initialize.
  do 2 (apply keeps_seq; [by apply around_other|intros _]).
  eapply keeps_bind; [apply around_info|]. intros info Hg.
  apply keeps_seq; [by apply around_other|]. intros _.
  apply keeps_seq; [apply around_get_any|]. intros configured.
  destruct (negb _); [apply keeps_throw|].
  apply keeps_seq; [by apply around_identity|]. intros _.
  apply keeps_seq; [apply around_ensure, initial_counters_zero|]. intros _.
  eapply keeps_bind; [apply around_connections|]. intros actual Ha.
  apply keeps_seq; [eapply keeps_weaken; [by apply around_ports|done]|]. intros _.
  apply keeps_seq; [apply around_heartbeat|]. intros _. unfold publish_started.
  apply keeps_seq; [apply around_get_any|]. intros m. case_decide.
  { apply around_put_state. left. elsewhere. }
  poll.
Qed.

Lemma around_polling min_idle c :
  match c with ProcessOne _ | ProcessFaultOne _ => False | _ => True end ->
  keeps undamaged (run_syncd min_idle oracle c) (fun _ => True).
Proof.
  intros Hc. destruct c; try done; simpl; [apply around_poll|apply around_liveness|].
  apply keeps_seq; [apply around_identity; by split|]. intros _.
  apply keeps_seq; [apply around_start|]. intros _. by apply keeps_ret.
Qed.

(** *** Fault commands *)
Lemma decoded_fault ev op f : decode_fault ev = Ok (op, f) -> is_u16 (fault_port f).
Proof using Type.
  unfold decode_fault. case_decide; [done|]. rewrite result_bind_Ok. intros (payload & _ & Hf).
  apply result_bind_Ok in Hf as (operation & _ & Hf). case_decide; [done|].
  apply result_bind_Ok in Hf as (name & _ & Hf). apply result_bind_Ok in Hf as (type & _ & Hf).
  apply result_bind_Ok in Hf as (port & _ & Hf). repeat case_decide; try done.
  injection Hf as _ <-. by apply wrap_in_width.
Qed.

Lemma around_run_fault ev : keeps undamaged (run_fault oracle ev) (fun _ => True).
Proof.
  unfold run_fault.
  eapply (keeps_bind _ _ _ (fun p => is_u16 (fault_port p.2))).
  { apply keeps_lift. intros [op f] Hf. by apply decoded_fault in Hf. }
  intros [op f] Hf. eapply keeps_bind; [apply around_info|]. intros info _.
  case_decide; [by apply keeps_ret|].
  case_decide; (eapply keeps_weaken; [apply around_device, answers_respects|done]).
  - by apply (promise_inject _ _ Hdevice).
  - by apply (promise_clear _ _ Hdevice).
Qed.

Lemma around_acknowledge stream group id failure :
  keeps undamaged (acknowledge_on oracle stream group id failure) (fun _ => True).
Proof. unfold acknowledge_on. around fail. Qed.

Lemma around_fault message : keeps undamaged (process_fault oracle message) (fun _ => True).
Proof.
  unfold process_fault. around ltac:(first [apply around_run_fault | apply around_acknowledge]).
Qed.

Lemma around_next stream group consumer min_idle :
  keeps undamaged (on_stores (next_message (store_oracle oracle) LogicalDb.kDevice stream group
    consumer min_idle)) (fun _ => True).
Proof using Type.
  apply around_stores; unfold next_message; keeps_walk ltac:(first [by apply keeps_call_other]).
Qed.

(** Everything but the handling of commands *)
Lemma around_call min_idle c :
  match c with ProcessOne _ => False | _ => True end ->
  keeps undamaged (run_syncd min_idle oracle c) (fun _ => True).
Proof.
  intros Hc. destruct c; try by apply around_polling. simpl. unfold processFaultOne.
  apply keeps_seq; [apply around_next|]. intros [message|]; [|by apply keeps_ret].
  apply keeps_seq; [apply around_fault|]. intros _. by apply keeps_ret.
Qed.

(** ** DEVICE_DB *)
#[local] Abbreviation device := (device_readable (DB:=DB) e commands Anywhere).

Lemma device_stable c db : polite (command_keys e commands) c -> device db -> device (execute c db).
Proof using J JL RL. apply (polite_stable e commands Anywhere LogicalDb.kDevice). Qed.

Lemma device_elsewhere cs db :
  Forall (fun c => elsewhere (target c)) cs -> device db -> device (run_cmds cs db).
Proof using J JL RL. apply (apart_readable e commands Anywhere LogicalDb.kDevice). Qed.

Lemma device_reads_data : reads_data device.
Proof using J JL.
  intros db db' Hdb Hd. apply (same_readable e commands Anywhere LogicalDb.kDevice db); [|done].
  intros k _. by destruct (Hd k) as (? & ? & _).
Qed.

Lemma device_scanned n name scan k cursor key (fs : gmap string string) :
  scans oracle n (syncdPortFaultPattern name) = Ok scan -> key ∈ (scan k cursor).2 ->
  fs <> ∅ -> safe_write e commands (key, fs).
Proof using Hfair.
  intros Hs Hin _. left. cbn [fst]. intros Hk.
  assert (starts_with "OCS_SYNCD_PORT_FAULT|" key = true) as Hstart.
  { apply (fair_scans _ _ _ Hfair n "OCS_SYNCD_PORT_FAULT|" (name +:+ "|*") scan k cursor);
      [by repeat constructor|exact Hs|done]. }
  revert Hstart.
  apply command_keys_inv in Hk as [->|[->|[->|(id & [->|[-> | ->]])]]]; vm_compute; done.
Qed.

Lemma device_group stream group start db :
  device db -> device (createConsumerGroup stream group start db).2.
Proof using J JL GL.
  intros Hdb. unfold createConsumerGroup. pose proof (xgroup_create_data stream group start db) as Hx.
  destruct (xgroup_create _ _ _ _) as [r db']. cbn [snd] in Hx.
  assert (device db') as Hdb'.
  { destruct Hdb as [Hr Hv]. split.
    - destruct (Hx (result_key e)) as (_ & -> & _). exact Hr.
    - intros c Hc. destruct (Hx (version_key e c)) as (_ & -> & _). by apply Hv. }
  destruct r as [|x]; [done|]. simpl. by repeat case_match.
Qed.

Lemma device_call min_idle c :
  match c with ProcessOne _ => False | _ => True end ->
  keeps (fun s : state => holds LogicalDb.kDevice device (stores s)) (run_syncd min_idle oracle c)
    (fun _ => True).
Proof using RL GL JL Hfair.
  pose proof (fair_others _ _ _ Hfair) as Ho.
  intros Hc. assert (match c with ProcessOne _ | ProcessFaultOne _ => False | _ => True end \/
    exists consumer, c = ProcessFaultOne consumer) as [Hpoll|[consumer ->]] by (destruct c; eauto).
  - revert Hpoll. apply (keeps_polling _ _ _ device_stable Ho) with (write_ok := safe_write e commands).
    + intros. by apply device_group.
    + intros name g fs db Hdb _ _. apply device_elsewhere with (cs := [_]); [|done].
      repeat constructor. elsewhere.
    + intros ev m mf db Hdb Hown _ _. apply device_elsewhere; [|done].
      repeat constructor; [elsewhere|destruct Hown; elsewhere].
    + intros hashes db Hf. by apply safe_replace_all.
    + intros name fs _. left. elsewhere.
    + intros id fs _. left. elsewhere.
    + intros name dir port fs _. left. elsewhere.
    + apply device_scanned.
  - simpl. unfold processFaultOne. apply keeps_seq.
    { by apply (keeps_next _ _ _ _ device_stable Ho), device_reads_data. }
    intros [message|]; [|by apply keeps_ret]. apply keeps_seq; [|intros; by apply keeps_ret].
    apply (keeps_process_fault _ _ _ device_stable Ho device_reads_data).
    intros id fs db Hdb _ _. apply device_elsewhere with (cs := [_]); [|done].
    repeat constructor. elsewhere.
Qed.

(** A call of syncd that handles no command leaves a command as ready as it was. *)
Lemma ready_around min_idle c r s s' :
  match c with ProcessOne _ => False | _ => True end -> run_syncd min_idle oracle c s = (r, s') ->
  ready e commands well Anywhere 0 s -> ready e commands well Anywhere 0 s'.
Proof.
  intros Hc Hrun [Hd Hs]%ready_split. apply ready_split. split.
  - by destruct (device_call min_idle c Hc s r s' Hd Hrun).
  - by destruct (around_call min_idle c Hc s r s' Hs Hrun).
Qed.
End Around.
