(* ===== verification/SyncdOthers.v ===== *)
(** * The handling of other commands leaves a command ready. *)
From S2P Require Import Prelude ProgLogic ReconcilerProps Redis RedisKeys RedisRepository.
From S2P Require Import RedisRepositoryProps RedisOnce Services CallLogic.
From S2P Require Import DeviceApi Errors Types Reconciler Json UdsJsonProps DeviceCommand.
From S2P Require Import OrchRulesProps SyncdRules Syncd SyncdPublish SyncdPayloads SyncdPorts.
From S2P Require Import SyncdRecovery SyncdReconcile SyncdPoll SyncdLogic SyncdSteps.
From S2P Require Import SyncdPollSteps SyncdProgress SyncdAround.
From stdpp Require Import options.

(** The versions of a durable result have the width of their type. *)
Lemma durable_versions {J : JsonLib} {JL : JsonLaws J} payload r :
  decodeDurableResult payload = Ok r ->
  Forall (fun a => is_u64 (applied_version a)) (apply_connections r).
Proof.
  unfold decodeDurableResult. rewrite result_bind_Ok. intros (v & _ & Hr). unfold decode_durable in Hr.
  apply result_bind_Ok in Hr as (code & _ & Hr). apply result_bind_Ok in Hr as (text & _ & Hr).
  apply result_bind_Ok in Hr as (l & _ & Hr). apply result_bind_Ok in Hr as (cs & Hcs & [= <-]).
  simpl. revert cs Hcs. induction (elements l) as [|x xs IH]; intros cs; simpl; [by intros [= <-]|].
  rewrite result_bind_Ok. intros (a & Ha & Hcs). apply result_bind_Ok in Hcs as (as' & Has & [= <-]).
  constructor; [|by apply IH]. unfold decode_durable_connection in Ha.
  apply result_bind_Ok in Ha as (id & _ & Ha). apply result_bind_Ok in Ha as (i & _ & Ha).
  apply result_bind_Ok in Ha as (o & _ & Ha). apply result_bind_Ok in Ha as (z & Hz & [= <-]).
  apply result_bind_Ok in Hz as (w & _ & Hz). by apply get_u64_range in Hz.
Qed.

Section Others.
Context {J : JsonLib} {JL : JsonLaws J} {DB : Type} {R : Redis DB} {RL : RedisLaws DB}.
Context {G : RedisGroups DB} {GL : RedisGroupLaws DB}.
Context {D : Type} {API : OcsDeviceApi D}.
Variable e : EventEnvelope.
Variable commands : list ConnectionCommand.
Variable well : D -> Prop.
Variable oracle : SyncdOracle D.
Hypothesis Hfair : fair (command_keys e commands) well oracle.
Variable batch : DeviceCommandBatch.
Hypothesis Hdevice : keeps_promises batch well.
Hypothesis Hbatch : operation_id (batch_options batch) = event_id e.

(** The other command *)
Variable other : EventEnvelope.
Variable b : DeviceCommandBatch.
Hypothesis Hdecode : decodeDeviceCommand (ev_payload other) = Ok b.
Hypothesis Hid : utf8 (event_id other).
Hypothesis Hother : event_id other <> event_id e.

#[local] Abbreviation state := (Syncd DB D).
#[local] Abbreviation undamaged := (undamaged (DB:=DB) e commands well).
#[local] Abbreviation states := (state_readable (DB:=DB) e commands).
#[local] Abbreviation counters := (counters_readable (DB:=DB) e Anywhere).
#[local] Abbreviation own := (with_operation_id (event_id other) b).
#[local] Set Default Proof Using "Type*".

Lemma other_proper c : c ∈ batch_commands b -> proper c.
Proof using Hdecode JL.
  intros Hc. destruct (decode_batch_wf _ _ Hdecode) as (_ & Hw & _).
  rewrite Forall_forall in Hw. destruct (Hw c Hc) as [Hv Hp]. split; [done|].
  intros Hop. by rewrite Hop in Hp.
Qed.

Ltac other leaf :=
  syncd_walk ltac:(first
    [ apply around_now | apply around_steady | apply around_scan
    | apply (around_get_any _ _ _ _ Hfair) | apply around_other; done
    | apply (around_count _ _ _ _ Hfair); done | leaf ]).

(** ** The apply *)
Lemma other_sendable : sendable_batch own.
Proof using Hdecode Hid JL.
  destruct (decoded_batch_sendable _ _ Hdecode) as [(Hne & Hs & [Ht _] & Hpos) _].
  by split_and!.
Qed.

Lemma other_apply : keeps undamaged (apply_on_device oracle other own) (fun _ => True).
Proof.
  unfold apply_on_device. apply keeps_try_catch; [|intros x; by apply keeps_ret].
  eapply keeps_bind; [by apply (around_info _ _ _ _ Hfair _ Hdevice)|]. intros info Hg.
  apply keeps_seq; [by apply around_identity|]. intros _.
  case_decide; [by apply keeps_ret|]. apply keeps_seq; [|intros; by apply keeps_ret].
  apply keeps_try_catch; [|intros x; by apply keeps_ret].
  apply (around_device _ _ _ _ Hfair), answers_respects, (promise_other _ _ Hdevice).
  - apply other_sendable.
  - simpl. by rewrite Hbatch.
Qed.

Lemma other_confirm r : keeps undamaged (confirmAppliedResult oracle own r) (fun _ => True).
Proof.
  unfold confirmAppliedResult. destruct (_ || _); [by apply keeps_ret|].
  apply keeps_try_catch; [|intros x; by apply keeps_ret].
  eapply keeps_seq.
  { eapply keeps_weaken; [by apply (around_connections _ _ _ _ Hfair _ Hdevice)|done]. }
  intros actual. apply keeps_seq; [|intros [|]; by apply keeps_ret].
  eapply keeps_weaken; [apply (keeps_collect_all _ _ (fun _ => True))|done].
  intros c Hc. apply (keeps_weaken _ _ (fun _ => True)); [|done].
  pose proof (other_proper c Hc) as [_ Hports]. unfold confirm_command.
  destruct (operation c), (index_by_id actual !! cmd_id c); try by apply keeps_ret.
  destruct (negb _); [by apply keeps_ret|]. destruct (Hports eq_refl) as [Hi Ho].
  unfold valid_port in *.
  apply keeps_seq; [apply (around_port _ _ _ _ Hfair _ Hdevice PortDirection.kInput); split; lia|].
  intros input.
  apply keeps_seq; [apply (around_port _ _ _ _ Hfair _ Hdevice PortDirection.kOutput); split; lia|].
  intros output. by apply keeps_ret.
Qed.

Lemma other_durable : keeps undamaged (durable_result oracle other own) (fun _ => True).
Proof.
  unfold durable_result, isStaleVersion, known, run_attempt, put.
  other ltac:(first [apply other_apply | apply other_confirm]).
Qed.

(** ** The states *)
Lemma other_mark c fs :
  fs !! "active_delta" = Some (to_string 0) ->
  keeps undamaged (update oracle LogicalDb.kState
    (putHashIfAbsent (syncdStatePublicationKey (event_id other) (cmd_id c)) fs)) (fun _ => True).
Proof.
  intros Hfs. apply around_state,
    (keeps_put_if_absent _ _ _ (states_stable _ _) _ (fair_others _ _ _ Hfair)).
  intros db Hdb Hnew Hne. apply states_mark; [|done|done]. right.
  split; [by do 2 eexists|]. by exists (to_string 0), 0%Z.
Qed.

(** What a failed command leaves of a readable state. *)
Lemma failed_fields_readable c error m payload :
  is_u64 (desired_version c) -> m = ∅ \/ readable_state m ->
  statePayload (failed_state other c error m) = Ok payload ->
  readable_state (failed_state other c error m).
Proof using JL.
  intros Hv Hm Hp%payload_text. unfold failed_state in *. split; [|split].
  - intros text. do 3 rewrite lookup_insert_ne by done. rewrite lookup_insert_eq. intros [= <-].
    by apply u64_number.
  - unfold has. do 2 rewrite lookup_insert_ne by done. by rewrite lookup_insert_eq.
  - intros k v Hk. split; [|by eapply Hp]. revert k v Hk.
    apply (map_Forall_impl (fun k _ => utf8 k)); [|done].
    case_decide as Hempty; state_members.
    destruct Hm as [Hm|(_ & _ & Hm)]; [done|]. intros k v Hk. by destruct (Hm k v Hk).
Qed.

Lemma applied_fields_readable c version error payload :
  proper c -> operation c = ConnectionOperation.kUpsert -> is_u64 version ->
  statePayload (applied_state other c version error) = Ok payload ->
  readable_state (applied_state other c version error).
Proof using JL.
  intros [Hv Hports] Hop Hver Hp. destruct (Hports Hop) as [Hi Ho].
  assert (applied_state other c version error =
    connection_fields (ev_device other) (cmd_id c) (cmd_input_port c) (cmd_output_port c)
      (desired_version c) version "true" "ACTIVE" (ErrorCode.toString (code error)) (message error))
    as Heq by (unfold applied_state, connection_fields; reflexivity).
  rewrite Heq in *. by eapply fields_readable.
Qed.

Lemma other_new_state r c :
  Forall (fun a => is_u64 (applied_version a)) (apply_connections r) -> proper c ->
  keeps undamaged (new_state oracle other r c)
    (fun p => forall payload, statePayload p.2 = Ok payload ->
       harmless e commands (state_key other c) p.2).
Proof.
  intros Hr Hc. unfold new_state. destruct (negb (apply_ok r)).
  - eapply keeps_bind; [by apply (around_get _ _ _ _ Hfair)|]. intros m Hm.
    apply keeps_ret. intros payload Hp. cbn [snd] in *.
    destruct (decide (state_key other c ∈ command_keys e commands)) as [Hin|Hout]; [right|by left].
    split; [by do 2 eexists|]. apply failed_fields_readable with (payload := payload); [by apply Hc| |done].
    right. destruct (Hm eq_refl) as (db & Hdb & ->). destruct (state_in_keys _ _ _ _ Hin) as (c' & Hc' & ->).
    by destruct (Hdb c' Hc').
  - case_decide as Hrem.
    { apply keeps_ret. intros payload _. right. split; [by do 2 eexists|].
      split; [done|]. split; [done|]. apply map_Forall_empty. }
    assert (operation c = ConnectionOperation.kUpsert) as Hop by by destruct (operation c).
    destruct (list_find _ _) as [[i a]|] eqn:Hf; [|apply keeps_throw].
    apply list_find_Some in Hf as (Ha & _). apply keeps_ret. intros payload Hp. right.
    split; [by do 2 eexists|]. cbn [snd] in *. eapply applied_fields_readable; [done..| |exact Hp].
    rewrite Forall_forall in Hr. by eapply Hr, list_elem_of_lookup_2.
Qed.

Ltac elsewhere :=
  intros [?|[?|[?|(? & [?|[?|?]])]]]%command_keys_inv; done.

Lemma other_changed r c was :
  Forall (fun a => is_u64 (applied_version a)) (apply_connections r) -> proper c ->
  keeps undamaged (publish_changed oracle other r c was) (fun _ => True).
Proof.
  intros Hr Hc. unfold publish_changed. cbv zeta.
  eapply keeps_bind; [by apply other_new_state|]. intros [op st] Hst. cbn [fst snd] in *.
  apply keeps_seq; [by apply around_now|]. intros now.
  eapply (keeps_bind _ _ _ (fun _ => harmless e commands (state_key other c) st)).
  { apply keeps_lift. exact Hst. }
  intros payload Hharmless. unfold published_delta.
  apply keeps_seq; [|other fail].
  apply (around_publish_once _ _ _ _ Hfair); [|done|done|done]. right. split; [by do 2 eexists|].
  generalize (is_active_after r c was). intros after.
  exists (to_string (command_delta was after)), (command_delta was after).
  split; [done|]. by destruct was, after.
Qed.

Lemma other_states r :
  Forall (fun a => is_u64 (applied_version a)) (apply_connections r) ->
  keeps undamaged (publishState oracle other own r) (fun _ => True).
Proof.
  intros Hr. unfold publishState. apply keeps_seq; [|intros; by apply keeps_ret].
  eapply keeps_weaken; [apply (keeps_mapM _ _ (fun _ => True))|done].
  intros c Hc. unfold publish_command_state, publish_unchanged, published_delta. cbv zeta.
  other ltac:(first [by apply other_mark | apply other_changed; [done|by apply other_proper]]).
Qed.

(** ** The counters, and the rest *)
Lemma other_counters marker mf increments latency :
  (latency < 2 ^ 63)%Z -> marker <> counters_key e ->
  increments !! "max_apply_latency_ms" = None ->
  keeps undamaged (update oracle LogicalDb.kCounters
    (recordApplyCountersOnce marker mf (counters_key other) increments latency)) (fun _ => True).
Proof.
  intros Hl Hm Hi. apply around_counters,
    (keeps_record_apply _ _ _ (counters_stable _ _) _ (fair_others _ _ _ Hfair)).
  intros db cs Hdb _ Hpos Hcs. apply counters_counts; [|done]. unfold apply_counter_cmds in Hcs.
  apply result_bind_Ok in Hcs as (maximum & Hmax & [= <-]).
  assert (0 <= maximum < 2 ^ 63)%Z as Hrange.
  { destruct (hgetall (counters_key other) db !! _) as [text|]; [|injection Hmax as <-; lia].
    apply result_bind_Ok in Hmax as (z & Hz%stoll_range & [= <-]). lia. }
  rewrite !Forall_app. split_and!; [by apply counts_increments| |].
  - apply Forall_singleton, counts_assign; [by apply sorted_items_ne, insert_non_empty|].
    intros text Hin%elem_of_sorted_items.
    rewrite lookup_insert_ne, lookup_singleton_eq in Hin by done. injection Hin as <-.
    by rewrite stoll_to_string.
  - by apply Forall_singleton, counts_elsewhere.
Qed.

Lemma other_increments r delta : counter_increments r delta !! "max_apply_latency_ms" = None.
Proof using Type. unfold counter_increments. by case_decide; destruct (apply_ok r). Qed.

(** ** DEVICE_DB *)
#[local] Abbreviation device := (device_readable (DB:=DB) e commands Anywhere).
#[local] Abbreviation inv := (fun s : state => holds LogicalDb.kDevice device (stores s)).

Lemma other_result_key id : id <> event_id e -> deviceApplyResultKey id ∉ command_keys e commands.
Proof using Type.
  intros Hne [Hk|[?|[?|(? & [?|[?|?]])]]]%command_keys_inv; try done.
  apply Hne. unfold result_key, deviceApplyResultKey in Hk. by apply (inj (String.append _)) in Hk.
Qed.

Lemma other_stored : keeps inv (durable_result oracle other own) (fun _ => True).
Proof.
  pose proof (fair_others _ _ _ Hfair) as Ho.
  unfold durable_result, isStaleVersion, known, run_attempt, apply_on_device, confirmAppliedResult,
    confirm_command.
  syncd_walk ltac:(first
    [ apply (keeps_get_any _ _ _ _ (device_stable e commands) Ho)
    | apply (keeps_put _ _ _ _ (device_stable e commands) Ho);
      intros db Hdb; apply device_elsewhere; [apply replace_elsewhere, other_result_key; done|done]
    | apply (keeps_put_absent _ _ _ _ (device_stable e commands) Ho);
      intros db Hdb _ _; apply (device_elsewhere _ _ [_]); [|done];
      apply Forall_singleton; elsewhere ]).
Qed.

(** Both at once *)
#[local] Abbreviation both := (fun s : state => inv s /\ undamaged s).

Lemma both_keeps {A} (m : prog state A) P :
  keeps inv m P -> keeps undamaged m (fun _ => True) -> keeps both m P.
Proof using Type.
  intros Hm Hu. eapply keeps_weaken; [by apply keeps_and|]. by intros a [? _].
Qed.

Lemma other_known c : keeps both (known oracle other c) (fun _ => True).
Proof.
  pose proof (fair_others _ _ _ Hfair) as Ho. unfold known. apply both_keeps; [|other fail].
  syncd_walk ltac:(apply (keeps_get_any _ _ _ _ (device_stable e commands) Ho)).
Qed.

Lemma other_version c :
  proper c -> keeps both (version_update oracle other c)
    (fun o => forall kf, o = Some kf -> safe_write e commands kf).
Proof.
  intros [Hv _]. unfold version_update. apply keeps_seq; [apply other_known|].
  intros [|]; [by apply keeps_ret|]. apply (keeps_bind _ _ _ is_u64).
  { apply keeps_gets. by intros s (_ & _ & _ & _ & ?). }
  intros g Hg. apply keeps_ret. intros ? [= <-]. right. split; [by do 2 eexists|].
  split; intros text [= <-]; by apply u64_number.
Qed.

Lemma other_updates applied :
  keeps both (reconciliation_updates oracle other applied) (Forall (safe_write e commands)).
Proof.
  pose proof (fair_others _ _ _ Hfair) as Ho. apply both_keeps.
  - apply (keeps_reconciliation_updates _ _ _ (device_stable e commands) Ho).
    + intros name fs _. left. elsewhere.
    + apply (device_scanned _ _ _ _ Hfair).
  - unfold reconciliation_updates, portFaults, recovered_fault.
    other ltac:(by apply (around_increment _ _ _ _ Hfair)).
Qed.

Lemma other_processed applied :
  keeps both (markProcessed oracle other own applied) (fun _ => True).
Proof.
  pose proof (fair_others _ _ _ Hfair) as Ho. unfold markProcessed.
  apply keeps_seq; [apply both_keeps; [apply keeps_now_ns|apply around_now]|]. intros now.
  eapply (keeps_bind _ _ _ (Forall (fun o => forall kf, o = Some kf -> safe_write e commands kf))).
  { destruct applied; [|apply keeps_ret; constructor]. apply keeps_mapM. intros c Hc.
    by apply other_version, other_proper. }
  intros versions Hv. eapply (keeps_bind _ _ _ (Forall (safe_write e commands))).
  { destruct (isReconciliation _); [apply other_updates|apply keeps_ret; constructor]. }
  intros updates Hu. apply both_keeps; [|by apply around_other].
  apply (keeps_put_all _ _ _ _ (device_stable e commands) Ho). intros db.
  apply safe_replace_all. constructor; [left; elsewhere|]. apply Forall_app. split; [|done].
  by apply Forall_omap_id.
Qed.

Lemma other_published m : keeps both (publish_outcome oracle other own m) (fun _ => True).
Proof.
  pose proof (fair_others _ _ _ Hfair) as Ho. unfold publish_outcome.
  apply keeps_seq; [by apply keeps_lift|]. intros payload.
  eapply keeps_bind; [apply keeps_lift; intros r; apply durable_versions|]. intros r Hr.
  apply keeps_seq; [apply keeps_phase|]. intros _.
  apply keeps_seq.
  { apply both_keeps; [|by apply other_states].
    apply (keeps_state_publication _ _ _ (device_stable e commands) Ho). }
  intros delta. apply keeps_seq; [apply keeps_phase|]. intros _.
  eapply (keeps_bind _ _ _ (fun latency => latency < 2 ^ 63)%Z).
  { apply keeps_lift. intros latency. destruct (m !! "latency_ms"); [|by intros [= <-]].
    intros Hl%stoll_range. lia. }
  intros latency Hl. apply keeps_seq.
  { apply both_keeps; [by apply keeps_update_other|].
    apply other_counters; [done|done|apply other_increments]. }
  intros _. apply keeps_seq; [apply keeps_phase|]. intros _. apply keeps_seq.
  { apply both_keeps.
    - apply (keeps_results _ _ _ (device_stable e commands) Ho). intros id ev mf db Hdb _ _ _.
      apply device_elsewhere; [|done]. repeat constructor; elsewhere.
    - unfold publishResult, publish_batch_result, publish_command_result. other fail. }
  intros _. apply keeps_seq; [apply keeps_phase|]. intros _.
  apply keeps_seq; [apply other_processed|]. intros _. apply keeps_phase.
Qed.

Lemma other_command : keeps both (handle_command oracle other) (fun _ => True).
Proof.
  pose proof (fair_others _ _ _ Hfair) as Ho.
  unfold handle_command, isAlreadyProcessed. apply keeps_seq.
  { apply both_keeps; [|other fail].
    syncd_walk ltac:(apply (keeps_get_any _ _ _ _ (device_stable e commands) Ho)). }
  intros [|]; [by apply keeps_ret|]. unfold decode_command. rewrite Hdecode.
  change (mret ?x ≫= ?f) with (f x). cbv beta.
  apply keeps_seq; [apply both_keeps; [apply other_stored|apply other_durable]|].
  intros [m|]; [|apply other_processed].
  apply keeps_seq; [apply other_published|]. intros _. apply keeps_before_ack.
Qed.

(** Another command leaves a command as ready as it was. *)
Lemma ready_other message r s s' :
  event message = other -> process_command oracle message s = (r, s') ->
  ready e commands well Anywhere 0 s -> ready e commands well Anywhere 0 s'.
Proof.
  intros Hevent Hrun [Hd Hs]%ready_split. apply ready_split.
  pose proof (fair_others _ _ _ Hfair) as Ho.
  assert (keeps both (process_command oracle message) (fun _ => True)) as Hk
    by (unfold process_command, acknowledge; apply keeps_seq;
        [rewrite Hevent; apply other_command|intros _; apply both_keeps;
         [apply (keeps_acknowledge _ _ _ _ (device_stable e commands) Ho), device_reads_data
         |by apply (around_acknowledge _ _ _ _ Hfair _ Hdevice)]]).
  by destruct (Hk s r s' (conj Hd Hs) Hrun).
Qed.
End Others.
