(* ===== verification/SyncdFinish.v ===== *)
(** * A command is finished by the first attempt that nothing interferes with, whatever
    happened to the attempts before. *)
From S2P Require Import Prelude ProgLogic Types SimDevice SimDeviceInv SimDeviceProps ReconcilerProps.
From S2P Require Import Redis RedisKeys RedisRepository RedisRepositoryProps.
From S2P Require Import RedisOnce RedisEvents Services CallLogic.
From S2P Require Import OrchRules Orchestrator OrchSteps OrchFrame.
From S2P Require Import DeviceApi Errors Reconciler Json UdsJsonProps Rpc.
From S2P Require Import DeviceCommand OrchRulesProps SyncdRules Syncd SyncdPublish SyncdPayloads.
From S2P Require Import SyncdSteps SyncdDelivery SyncdProgress SyncdAround SyncdOthers.
From stdpp Require Import options.

Section Finish.
Context {J : JsonLib} {JL : JsonLaws J} {DB : Type} {R : Redis DB} {RL : RedisLaws DB}.
Context {G : RedisGroups DB} {GL : RedisGroupLaws DB}.
Context {D : Type} {API : OcsDeviceApi D}.
Variable e : EventEnvelope.
Variable b : DeviceCommandBatch.
Variable well : D -> Prop.
Variable oracle : SyncdOracle D.
#[local] Abbreviation state := (Syncd DB D).
#[local] Abbreviation commands := (batch_commands b).
#[local] Abbreviation batch := (with_operation_id (event_id e) b).
#[local] Abbreviation ready := (ready (DB:=DB) e commands well).
#[local] Abbreviation interrupted := (interrupted (DB:=DB) e commands well oracle).
#[local] Abbreviation goes stored n m P := (ends (ready stored n) m P interrupted).
#[local] Set Default Proof Using "Type*".

Hypothesis Hdecode : decodeDeviceCommand (ev_payload e) = Ok b.
Hypothesis Hevent : validateEvent e = Ok tt.
Hypothesis Hid : utf8 (event_id e).
Hypothesis Hdev : utf8 (ev_device e).
Hypothesis Hids : Forall (fun c => cmd_id c <> "") commands.
Hypothesis Hdevice : keeps_promises batch well.
Hypothesis Hfair : fair (command_keys e commands) well oracle.

(** ** The apply *)
Lemma failed_publishable c text :
  c <> ErrorCode.kOk -> utf8 text -> publishable_result commands (failed_apply c text).
Proof using.
  intros Hc Ht. split; [split; [done|constructor]|]. unfold lists_connections, apply_ok, error_ok.
  by rewrite bool_decide_eq_false_2.
Qed.

Lemma name_mismatch_utf8 :
  utf8 "command device does not match the connected device backend".
Proof using J JL. apply utf8_ascii. by repeat constructor. Qed.

Lemma apply_goes stored n :
  goes stored n (apply_on_device oracle e batch) (fun p => publishable_result commands p.2).
Proof.
  unfold apply_on_device. eapply triple_try.
  - eapply triple_bind; [apply (device_goes e commands well oracle Hfair), (promise_info _ _ Hdevice)|].
    intros info. apply triple_pure. intros Hg.
    eapply (triple_bind _ _ _ (fun _ => ready stored n)).
    { intros [w d name gen] (Hn & Hl & Hw & _). exact (conj Hn (conj Hl (conj Hw Hg))). }
    intros []. case_decide.
    { apply ends_ret. apply failed_publishable; [done|apply name_mismatch_utf8]. }
    eapply triple_bind; [|intros r; apply triple_pure; intros Hr; by apply ends_ret].
    eapply triple_try; [apply (device_goes e commands well oracle Hfair), (promise_apply _ _ Hdevice)|].
    intros x. apply triple_pure. intros Hx. apply ends_ret. by apply failed_publishable.
  - intros x. apply triple_pure. intros Hx. apply ends_ret. by apply failed_publishable.
Qed.

(** ** The confirmation of a failed apply *)
(** What a confirmed command contributes. *)
Definition confirms (c : ConnectionCommand) (found : list AppliedConnection) : Prop :=
  Forall connection_text found /\
  (operation c = ConnectionOperation.kUpsert -> cmd_id c ∈ app_id <$> found).

Lemma commands_valid c :
  c ∈ commands -> sendable c /\ decoded_wf c /\ cmd_id c <> "".
Proof using Hdecode Hids JL.
  intros Hc. destruct (decoded_batch_sendable _ _ Hdecode) as [(_ & Hs & _) _].
  destruct (decode_batch_wf _ _ Hdecode) as (_ & Hw & _).
  rewrite Forall_forall in Hs, Hw, Hids. auto.
Qed.

Lemma confirm_goes actual c stored n :
  Forall connection_text actual -> c ∈ commands ->
  ends (ready stored n) (confirm_command oracle (index_by_id actual) c)
    (fun o => forall found, o = Some found -> confirms c found) (fun _ => ready stored n).
Proof.
  intros Hactual Hc. destruct (commands_valid c Hc) as (_ & [_ Hports] & _). unfold confirm_command.
  destruct (operation c) eqn:Hop, (index_by_id actual !! cmd_id c) as [found|] eqn:Hfound;
    try (apply ends_ret; by intros ? [=]).
  - destruct (negb _); [by apply ends_ret|].
    apply index_by_id_inv in Hfound as [Hin Happ]. rewrite Forall_forall in Hactual.
    destruct Hports as [Hi Ho].
    assert (is_u16 (cmd_input_port c) /\ is_u16 (cmd_output_port c)) as [Hiu Hou]
      by (unfold in_width; lia).
    eapply triple_bind.
    { eapply triple_weaken; [apply (device_goes e commands well oracle Hfair),
        (promise_input _ _ Hdevice), Hiu|done|exact (fun _ _ H => H)|by intros x s []]. }
    intros input. apply triple_pure. intros _. eapply triple_bind.
    { eapply triple_weaken; [apply (device_goes e commands well oracle Hfair),
        (promise_output _ _ Hdevice), Hou|done|exact (fun _ _ H => H)|by intros x s []]. }
    intros output. apply triple_pure. intros _. apply ends_ret. intros l Hl.
    destruct (_ && _); [|done]. injection Hl as <-. split; [by repeat constructor; apply Hactual|].
    intros _. rewrite <-Happ. by left.
  - apply ends_ret. intros ? [= <-]. split; [constructor|]. by rewrite Hop.
Qed.

Lemma confirmed_publishable found :
  Forall2 confirms commands found -> publishable_result commands (mkApplyResult success (concat found)).
Proof using.
  generalize commands. intros all Hf. split; [split|].
  - apply utf8_ascii. constructor.
  - simpl. induction Hf as [|c l cs ls [Hl _] _ IH]; simpl; [constructor|]. by apply Forall_app.
  - intros _. simpl. induction Hf as [|c l cs ls [_ Hl] _ IH]; intros c' Hc Hop;
      [by apply elem_of_nil in Hc|]. simpl. rewrite fmap_app. apply elem_of_app.
    apply elem_of_cons in Hc as [->|Hc]; [left|right]; auto.
Qed.

Lemma confirmed_goes r stored n :
  publishable_result commands r ->
  goes stored n (confirmAppliedResult oracle batch r) (publishable_result commands).
Proof.
  intros Hr. unfold confirmAppliedResult. destruct (_ || _); [by apply ends_ret|].
  eapply (triple_try _ _ _ _ _ (fun _ => ready stored n)); [|intros x; by apply ends_ret].
  eapply triple_bind.
  { eapply triple_weaken; [apply (device_goes e commands well oracle Hfair),
      (promise_connections _ _ Hdevice)|done|exact (fun _ _ H => H)|by intros x s []]. }
  intros actual. apply triple_pure. intros Hactual. eapply ends_then.
  { apply ends_collect_all. intros c Hc. by apply confirm_goes. }
  intros [found|] Hfound; [|by apply ends_ret]. apply ends_ret.
  by apply confirmed_publishable, Hfound.
Qed.
(** ** The durable result *)
Lemma ready_weakly stored n (s : state) : ready stored n s -> ready Anywhere 0 s.
Proof using. intros Hs. eapply ready_weaken; [exact Hs|lia]. Qed.

Lemma batch_encodes : exists payload, encodeDeviceCommand batch = Ok payload.
Proof using Hdecode Hid JL.
  destruct (decoded_batch_sendable _ _ Hdecode) as [(Hne & Hs & [Ht _] & Hpos) _].
  destruct (batch_roundtrip batch) as (payload & Hp & _); [|by exists payload].
  by split_and!.
Qed.

Lemma latency_range start finish :
  (0 <= start <= finish)%Z -> (finish < 2 ^ 63)%Z ->
  (0 <= Z.quot (Z.quot (finish - start) 1000 + 999) 1000 < 2 ^ 63)%Z.
Proof using. intros. Z.to_euclidean_division_equations. lia. Qed.

Lemma attempt_goes n :
  triple (ready Anywhere n) (run_attempt oracle e batch)
    (fun m s => ready Anywhere 0 s /\ stored_outcome commands m) interrupted.
Proof.
  unfold run_attempt. apply ends_seq; [by apply now_goes|]. intros now.
  destruct batch_encodes as [text Htext]. eapply lift_then; [exact Htext|].
  apply ends_seq.
  { apply (absent_goes e commands well oracle Hfair); [apply insert_non_empty|].
    intros [?|[?|[?|(? & [?|[?|?]])]]]%command_keys_inv; done. }
  intros _. eapply triple_bind; [by apply steady_goes|]. intros start.
  apply triple_exists. intros k. apply triple_pure. intros [-> _].
  eapply ends_then; [apply apply_goes|]. intros [attempted r] Hr. simpl in Hr.
  apply (ends_then _ _ _ _ (publishable_result commands)).
  { destruct (_ && _); [by apply confirmed_goes|by apply ends_ret]. }
  intros r' Hr'. apply ends_seq; [by apply phase_goes|]. intros _.
  eapply triple_bind; [by apply steady_goes|]. intros finish.
  apply triple_exists. intros k'. apply triple_pure. intros [-> Hk].
  destruct (durable_result_carried r' (proj1 Hr')) as (payload & Hpayload & _).
  eapply lift_then; [exact Hpayload|].
  destruct (fair_clock _ _ _ Hfair k k' Hk) as [Hclock Hbound].
  eapply triple_bind.
  { apply (store_goes e commands well oracle Hfair r'); [done..|by apply latency_range]. }
  intros []. eapply triple_weaken; [by apply get_goes|done| |done].
  intros m s [Hs (db & [[[? _]|Hm] _] & ->)]; [done|]. split; [by eapply ready_weakly|done].
Qed.

Lemma version_known_ok g c m : readable_version m -> exists known, version_known g c m = Ok known.
Proof using.
  intros [Hg Hl]. unfold version_known, reads_number in *.
  destruct (m !! "last_successful_version") as [last|], (m !! "device_generation") as [stored|];
    [|by eexists..].
  specialize (Hg _ eq_refl). specialize (Hl _ eq_refl).
  destruct (stoull stored) as [g'|]; [|done]. simpl. case_decide; [|by eexists].
  destruct (stoull last) as [v|]; [|done]. by eexists.
Qed.

Lemma known_goes c stored n :
  c ∈ commands -> goes stored n (known oracle e c) (fun _ => True).
Proof.
  intros Hc. unfold known. eapply ends_then; [by apply get_goes|].
  intros m (db & [_ Hv] & ->). eapply ends_then; [by apply generation_goes|]. intros g Hg.
  destruct (version_known_ok g c (hgetall (version_key e c) db)) as [known Hk]; [by apply Hv|].
  by eapply ends_lift.
Qed.

Lemma durable_goes n :
  triple (ready Anywhere n) (durable_result oracle e batch)
    (fun o s => ready Anywhere 0 s /\ forall m, o = Some m -> stored_outcome commands m) interrupted.
Proof.
  unfold durable_result. eapply ends_then; [by apply get_goes|].
  intros m (db & [Hm _] & ->). case_decide as Hne.
  { apply triple_ret. intros s Hs. split; [by eapply ready_weakly|]. intros ? [= <-].
    destruct Hm as [[_ Hm]|Hm]; [|done]. by destruct Hne. }
  eapply ends_seq; [eapply ends_weaken; [by apply get_goes|done]|]. intros tried.
  apply ends_seq.
  { case_decide; [by apply ends_ret|]. unfold isStaleVersion. destruct (_ || _); [by apply ends_ret|].
    apply ends_all_of. intros c Hc. by apply known_goes. }
  intros [|].
  - apply triple_ret. intros s Hs. split; [by eapply ready_weakly|done].
  - eapply triple_bind; [apply attempt_goes|]. intros m. apply triple_pure. intros Hout.
    apply triple_ret. intros s Hs. split; [done|]. by intros ? [= <-].
Qed.
(** ** Publishing the states *)

Definition small_delta (delta : Z) : Prop := stoll (to_string delta) = Ok delta.

Lemma command_delta_small before after : small_delta (command_delta before after).
Proof using. by destruct before, after. Qed.

(** What a publication writes, with the state or without. *)
Lemma published_readable c fs delta (queued : list redis_cmd) (db : DB) :
  c ∈ commands -> small_delta delta -> fs !! "active_delta" = Some (to_string delta) ->
  queued = [] \/ (exists st ev, readable_state st /\
    queued = replace_hash (state_key e c) st ++ [XADD kStateEvents ev]) ->
  state_readable e commands db -> exists_key (published_key e c) db = false ->
  (published_key e c ∉ (target <$> queued)) /\
  state_readable e commands (run_cmds (queued ++ [HMSET (published_key e c) (sorted_items fs)]) db).
Proof using J JL RL.
  intros Hc Hdelta Hfs Hq Hdb Hm.
  assert (forall c, (published_key e c ∉ (target <$> queued))) as Hout.
  { destruct Hq as [->|(st & ev & _ & ->)]; intros c'; [apply not_elem_of_nil|].
    intros (x & Hx & [Ht%replace_hash_targets|Hin%list_elem_of_singleton]%elem_of_app)
      %list_elem_of_fmap; [by rewrite Ht in Hx|by subst]. }
  split; [done|]. rewrite run_cmds_app. apply states_mark.
  - right. split; [by do 2 eexists|]. by exists (to_string delta), delta.
  - unfold exists_key in *. by destruct (run_cmds_frame queued (published_key e c) db (Hout c)) as (-> & _).
  - destruct Hq as [->|(st & ev & Hst & ->)]; [done|]. rewrite run_cmds_app.
    apply (states_elsewhere e commands [XADD kStateEvents ev]).
    { apply Forall_singleton. by intros [?|[?|[?|(? & [?|[?|?]])]]]%command_keys_inv. }
    apply states_replace; [|done]. right. split; [by do 2 eexists|done].
Qed.

(** A marker that is there gives the change that was published. *)
Lemma delta_goes c stored n :
  c ∈ commands ->
  triple (fun s => ready stored n s /\ exists_key (published_key e c) (database LogicalDb.kState (stores s)) = true)
    (published_delta oracle (published_key e c)) (fun _ s => ready stored n s /\ True) interrupted.
Proof.
  intros Hc. unfold published_delta. eapply triple_bind.
  - apply (plain_from e commands well oracle Hfair LogicalDb.kState (getHash (published_key e c))
      (fun db => exists_key (published_key e c) db = true)
      (fun m _ => exists text z, m !! "active_delta" = Some text /\ stoll text = Ok z)).
    + intros x db Hx. unfold exists_key.
      destruct (polite_frame e commands (published_key e c) x db Hx) as [-> _]; [|done..].
      unfold command_keys. rewrite !elem_of_cons, !elem_of_app. do 3 right. right. right.
      by apply list_elem_of_fmap_2.
    + intros db Hdb Hm. eexists. split; [done|]. destruct (Hdb c Hc) as [[Ht|Hread] _]; [|done].
      unfold exists_key in Hm. by rewrite Ht in Hm.
  - intros m. apply triple_pure. intros (text & z & Htext & Hz). apply (ends_lift _ _ _ _ z); [|done].
    unfold map_at. by rewrite Htext.
Qed.

Lemma unchanged_goes c reason stored n :
  c ∈ commands -> reason <> "active_delta" ->
  goes stored n (publish_unchanged oracle e c reason) (fun _ => True).
Proof.
  intros Hc Hreason. unfold publish_unchanged, putHashIfAbsent. cbv zeta.
  set (fs := <[reason := "true"]> (publication_fields e c 0)).
  destruct (decide (fs = ∅)) as [Hfs|Hfs]; [by apply insert_non_empty in Hfs|].
  eapply triple_bind; [|intros ?; by apply delta_goes].
  apply (marked_goes e commands well oracle Hfair LogicalDb.kState (published_key e c) fs
    (fun _ => Ok []) [published_key e c] "Redis conditional hash write exceeded retry limit"
    stored stored n); try done; [by left|].
  intros db Hdb Hm. exists []. split; [done|].
  apply (published_readable c fs 0); [done|done| |by left|done|done].
  unfold fs. by rewrite lookup_insert_ne.
Qed.
(** *** The new state *)
Lemma failed_readable c error m :
  c ∈ commands -> utf8 (message error) -> readable_state m ->
  readable_state (failed_state e c error m).
Proof using Hdecode Hids Hdev JL.
  intros Hc Herr (_ & _ & Hm). destruct (commands_valid c Hc) as (((Hi & Ho & Hv) & Hcid & _) & _).
  unfold in_width in *. unfold failed_state. split; [|split].
  - intros text. do 3 rewrite lookup_insert_ne by done. rewrite lookup_insert_eq. intros [= <-].
    by apply u64_number.
  - unfold has. do 2 rewrite lookup_insert_ne by done. by rewrite lookup_insert_eq.
  - case_decide; state_members; try done; lia.
Qed.

Lemma applied_readable c version error :
  c ∈ commands -> operation c = ConnectionOperation.kUpsert -> is_u64 version ->
  utf8 (message error) -> readable_state (applied_state e c version error).
Proof using Hdecode Hids Hdev JL.
  intros Hc Hop Hver Herr.
  destruct (commands_valid c Hc) as (((Hi & Ho & Hv) & Hcid & _) & [_ Hports] & _).
  rewrite Hop in Hports. destruct Hports as [Hpi Hpo]. split; [|split].
  - intros text [= <-]. by apply u64_number.
  - intros _. split; [|split].
    + by apply (port_number _ _ (cmd_input_port c)).
    + by apply (port_number _ _ (cmd_output_port c)).
    + intros text [= <-]. by apply u64_number.
  - unfold in_width in *. unfold applied_state. state_members; try done; lia.
Qed.

Lemma new_state_goes r c stored n :
  publishable_result commands r -> c ∈ commands ->
  goes stored n (new_state oracle e r c) (fun p => p.1 <> "" /\ readable_state p.2).
Proof.
  intros [[Herr Hconns] Hr] Hc. unfold new_state. destruct (apply_ok r) eqn:Hok; simpl.
  2: { eapply ends_then; [by apply get_goes|]. intros m (db & Hdb & ->). apply ends_ret.
       split; [done|]. apply failed_readable; [done..|]. by destruct (Hdb c Hc). }
  case_decide as Hrem; [by apply ends_ret|].
  assert (operation c = ConnectionOperation.kUpsert) as Hop by by destruct (operation c).
  destruct (list_find _ _) as [[i a]|] eqn:Hf.
  - apply list_find_Some in Hf as (Ha & _). apply ends_ret. split; [done|].
    apply applied_readable; [done..| |done].
    rewrite Forall_forall in Hconns. apply list_elem_of_lookup_2, Hconns in Ha.
    by destruct Ha as [(_ & _ & ?) _].
  - apply list_find_None in Hf. specialize (Hr Hok c Hc Hop).
    apply list_elem_of_fmap in Hr as (a & Ha & Hin). rewrite Forall_forall in Hf.
    by destruct (Hf a Hin).
Qed.
Lemma event_valid id resource_id now op version payload type :
  id <> "" -> resource_id <> "" -> type <> "" -> op <> "" ->
  validateEvent (mkEventEnvelope 1 id (request_id e) now (ev_device e) type resource_id op version
    payload) = Ok tt.
Proof using Hevent.
  intros Hi Hr Ht Ho. unfold validateEvent in *. simpl.
  destruct (decide (1%Z <> 1%Z)) as [Hx|_]; [by destruct Hx|].
  destruct (decide (event_schema_version e <> 1%Z)); [done|].
  destruct (decide (event_id e = "" \/ _)) as [|Hf]; [done|]. rewrite decide_False; [done|].
  naive_solver.
Qed.

Lemma app_nonempty s t : t <> "" -> s +:+ t <> "".
Proof using. by destruct s. Qed.

Lemma changed_goes r c was stored n :
  publishable_result commands r -> c ∈ commands ->
  goes stored n (publish_changed oracle e r c was) (fun _ => True).
Proof.
  intros Hr Hc. destruct (commands_valid c Hc) as (_ & _ & Hne). unfold publish_changed. cbv zeta.
  eapply ends_then; [by apply new_state_goes|]. intros [op st] [Hop Hst]. cbn [fst snd] in *.
  apply ends_seq; [by apply now_goes|]. intros now.
  assert (exists payload, statePayload st = Ok payload) as [payload Hpayload].
  { pose proof (state_payload_ok st (proj2 (proj2 Hst))) as Hok.
    destruct (statePayload st); [by eexists|done]. }
  eapply lift_then; [exact Hpayload|].
  set (delta := command_delta was (is_active_after r c was)).
  set (ev := mkEventEnvelope _ _ _ _ _ _ _ _ _ _).
  assert (validateEvent ev = Ok tt) as Hev by by apply event_valid; [apply app_nonempty|..].
  unfold replaceHashAndAppendEventOnce. rewrite Hev.
  eapply triple_bind.
  - apply (marked_goes e commands well oracle Hfair LogicalDb.kState (published_key e c)
      (publication_fields e c delta)
      (fun _ => Ok (replace_hash (state_key e c) st ++ [XADD kStateEvents (eventFields ev)]))
      [published_key e c] "Redis state publication exceeded retry limit" stored stored n); try done.
    + by left.
    + intros db Hdb Hm. eexists. split; [done|].
      apply (published_readable c _ delta); try done; [apply command_delta_small|].
      right. by exists st, (eventFields ev).
  - intros [|]; [|by apply delta_goes]. apply triple_ret. by intros s [Hs _].
Qed.

Lemma superseded_ok c m : readable_state m -> is_ok (superseded c m) = true.
Proof using.
  intros (Hv & _). unfold superseded, reads_number in *.
  destruct (m !! "desired_version") as [text|]; [|done]. specialize (Hv _ eq_refl).
  by destruct (stoull text).
Qed.

Lemma preserve_ok r c m : readable_state m -> is_ok (preserve_confirmed_port_state r c m) = true.
Proof using.
  intros (Hv & Ha & _). unfold preserve_confirmed_port_state, and_also at 1.
  destruct (has m "apply_status" "ACTIVE") eqn:Hactive;
    [|rewrite !andb_false_r; done].
  destruct (Ha eq_refl) as (Hi & Ho & Happ). cbn [mbind result_bind].
  assert (forall field z, reads_port m field -> is_ok (has_port m field z) = true) as Hport.
  { intros field z Hp. unfold has_port, reads_port in *.
    destruct (m !! field) as [text|] eqn:Hm; [|done]. specialize (Hp ltac:(done)).
    by destruct (snapshotPort m field). }
  assert (forall field z, reads_number m field -> is_ok (has_version m field z) = true) as Hnum.
  { intros field z Hn. unfold has_version, reads_number in *.
    destruct (m !! field) as [text|] eqn:Hm; [|done]. specialize (Hn _ eq_refl).
    by destruct (stoull text). }
  assert (forall x y, is_ok x = true -> is_ok y = true -> is_ok (and_also x y) = true) as Hand.
  { intros [[]|] y Hx Hy; done. }
  destruct (_ && _); [|done]. repeat apply Hand; auto.
Qed.

Lemma command_state_goes r c stored n :
  publishable_result commands r -> c ∈ commands ->
  goes stored n (publish_command_state oracle e r c) (fun _ => True).
Proof.
  intros Hr Hc. unfold publish_command_state. eapply ends_then; [by apply get_goes|].
  intros m (db & Hdb & ->). case_decide as Hne.
  { destruct (Hdb c Hc) as [[Ht|(text & z & Htext & Hz)] _].
    - by apply type_none_hgetall in Ht.
    - apply (ends_lift _ _ _ _ z); [|done]. unfold map_at. fold (published_key e c). by rewrite Htext. }
  eapply ends_then; [by apply get_goes|]. intros m' (db' & Hdb' & ->). clear Hne db Hdb.
  destruct (Hdb' c Hc) as [_ Hread]. fold (state_key e c).
  pose proof (superseded_ok c _ Hread) as Hs. pose proof (preserve_ok r c _ Hread) as Hp.
  destruct (superseded _ _) as [newer|]; [|done].
  destruct (preserve_confirmed_port_state _ _ _) as [preserve|]; [|done].
  eapply lift_then; [reflexivity|]. destruct newer; [by apply unchanged_goes|].
  eapply lift_then; [reflexivity|]. destruct preserve; [by apply unchanged_goes|].
  by apply changed_goes.
Qed.

Lemma states_goes r stored n :
  publishable_result commands r -> goes stored n (publishState oracle e batch r) (fun _ => True).
Proof.
  intros Hr. unfold publishState. eapply ends_then; [|intros; by apply ends_ret].
  apply ends_mapM. intros c Hc. by apply command_state_goes.
Qed.
(** ** Counters *)
Lemma counted_elsewhere key cs (db : DB) :
  Forall (fun c => target c = key) cs -> key <> counted_key e ->
  exists_key (counted_key e) (run_cmds cs db) = exists_key (counted_key e) db.
Proof using RL.
  intros Hcs Hkey. unfold exists_key.
  destruct (run_cmds_frame cs (counted_key e) db) as (-> & _ & _); [|done].
  intros (x & Hx & Hin)%list_elem_of_fmap. rewrite Forall_forall in Hcs.
  rewrite Hcs in Hx by done. by destruct Hkey.
Qed.

Lemma counters_goes increments latency stored n :
  (0 <= latency)%Z ->
  triple (ready stored n)
    (update oracle LogicalDb.kCounters (recordApplyCountersOnce (counted_key e)
       {["command_id" := event_id e]} (counters_key e) increments latency))
    (fun _ => ready Counted n) interrupted.
Proof.
  intros Hlatency. unfold recordApplyCountersOnce. destruct (decide (latency < 0)%Z); [lia|].
  eapply triple_weaken; [apply (marked_goes e commands well oracle Hfair LogicalDb.kCounters
    (counted_key e) {["command_id" := event_id e]}
    (apply_counter_cmds (counters_key e) increments latency) [counted_key e; counters_key e]
    "Redis apply counter publication exceeded retry limit" stored Counted n)
    |done|by intros ? s []|done].
  - done.
  - by left.
  - apply apply_counter_cmds_reads.
  - intros [] db Hl; try done. by intros [[[_ ?]|?] ?]; (split; [|done]); [left|right].
  - intros db [?|[? _]]; [by left|done].
  - intros db _ Hm. by left.
  - intros db [Hm|[_ Hmax]] Hnew; [congruence|].
    assert (exists cs, apply_counter_cmds (counters_key e) increments latency db = Ok cs) as [cs Hcs].
    { unfold apply_counter_cmds. destruct (hgetall _ _ !! _) as [text|]; [|by eexists].
      specialize (Hmax _ eq_refl). destruct (stoll text); [by eexists|done]. }
    exists cs. split; [done|].
    assert (counted_key e ∉ (target <$> cs)) as Hout.
    { intros (x & Hx & Hin)%list_elem_of_fmap.
      by rewrite (apply_counter_cmds_targets _ _ _ _ _ _ Hcs Hin) in Hx. }
    split; [done|]. left.
    apply (commit_marks (counted_key e) {["command_id" := event_id e]} (fun _ => Ok cs));
      [done|by intros ? ? [= <-]|done..].
Qed.

(** A reconciliation is counted too, under its own marker. *)
Lemma reconciled_goes increments n :
  goes Counted n
    (update oracle LogicalDb.kCounters (incrementHashFieldsOnce
       (syncdReconciliationSuccessCountersPublicationKey (event_id e))
       {["command_id" := event_id e]} (counters_key e) increments)) (fun _ => True).
Proof.
  unfold incrementHashFieldsOnce. set (marker := syncdReconciliationSuccessCountersPublicationKey _).
  eapply triple_weaken; [apply (marked_goes e commands well oracle Hfair LogicalDb.kCounters
    marker {["command_id" := event_id e]} (fun _ => Ok (increment_cmds (counters_key e) increments))
    [marker] "Redis counter publication exceeded retry limit" Counted Counted n)
    |done|by intros ? s []|done]; try done; [by left|].
  intros db [Hm|[? _]] Hnew; [|done]. eexists. split; [done|].
  assert (Forall (fun c => target c = counters_key e) (increment_cmds (counters_key e) increments)) as Hcs.
  { apply Forall_forall. intros c. apply increment_cmds_targets. }
  split.
  - intros (x & Hx & Hin)%list_elem_of_fmap. rewrite Forall_forall in Hcs. by rewrite Hcs in Hx.
  - left. rewrite run_cmds_app.
    rewrite (counted_elsewhere marker) by (done || by repeat constructor).
    by rewrite (counted_elsewhere (counters_key e)).
Qed.

(** ** Results *)
Lemma result_payload_ok r : utf8 (message (apply_error r)) ->
  exists payload, resultPayload r (event_id e) = Ok payload.
Proof using Hid JL.
  intros Hr. unfold resultPayload.
  assert (is_ok (dump (json_object
    [("success", json_bool (apply_ok r));
     ("error_code", json_string (ErrorCode.toString (code (apply_error r))));
     ("error_message", json_string (message (apply_error r)));
     ("command_id", json_string (event_id e))])) = true) as Hok.
  { dump_members. apply utf8_error_code. }
  destruct (dump _); [by eexists|done].
Qed.

Lemma command_result_goes r c stored n :
  publishable_result commands r -> c ∈ commands ->
  goes stored n (publish_command_result oracle e r c) (fun _ => True).
Proof.
  intros [[Herr _] _] Hc. destruct (commands_valid c Hc) as (_ & _ & Hne).
  unfold publish_command_result.
  eapply ends_seq; [eapply ends_weaken; [by apply get_goes|done]|]. intros publication.
  apply ends_seq; [by apply now_goes|]. intros now.
  destruct (result_payload_ok (command_result r c publication)) as [payload Hpayload].
  { unfold command_result. destruct (has _ _ _); [|done]. by apply literal_utf8. }
  eapply lift_then; [exact Hpayload|]. apply ends_seq; [|intros; by apply ends_ret].
  apply append_goes; [done|apply insert_non_empty| |done|..].
  - by apply event_valid; [apply app_nonempty|..].
  - intros [?|[?|[?|(? & [?|[?|?]])]]]%command_keys_inv; done.
  - intros [?|[?|[?|(? & [?|[?|?]])]]]%command_keys_inv; done.
Qed.

Lemma results_go r stored n :
  publishable_result commands r -> goes stored n (publishResult oracle e batch r) (fun _ => True).
Proof.
  intros Hr. assert (publishResult oracle e batch r
    = for_each (publish_command_result oracle e r : _ -> prog state unit) commands) as ->.
  { destruct (decode_batch_wf _ _ Hdecode) as (Hne & _). unfold publishResult.
    change (batch_commands batch) with commands. by destruct (batch_commands b). }
  apply ends_for_each. intros c Hc. by apply command_result_goes.
Qed.
(** ** The marker of a processed command, and the version records *)
Lemma version_update_goes c stored n :
  c ∈ commands -> goes stored n (version_update oracle e c)
    (fun o => forall kf, o = Some kf -> safe_write e commands kf).
Proof.
  intros Hc. destruct (commands_valid c Hc) as (((_ & _ & Hv) & _) & _). unfold version_update.
  apply ends_seq; [by apply known_goes|]. intros [|]; [by apply ends_ret|].
  eapply ends_then; [by apply generation_goes|]. intros g Hg. apply ends_ret. intros kf [= <-].
  right. split; [by do 2 eexists|]. split; intros text [= <-]; by apply u64_number.
Qed.

(** The keys SCAN finds are those of fault records. *)
Lemma scan_goes stored n :
  goes stored n (scan_keys oracle LogicalDb.kDevice (syncdPortFaultPattern (ev_device e)))
    (Forall (fun key => (key ∉ command_keys e commands))).
Proof.
  intros [w d name gen] (Hn & Hl & Hr). unfold scan_keys, on_stores. cbv beta iota.
  assert (ready stored n (mkSyncd (tick w) d name gen)) as Hnext.
  { destruct w. simpl in *. split; [simpl; lia|]. split; [|done]. intros l. specialize (Hl l).
    by destruct l. }
  destruct (scans oracle (Services.calls w) _) as [scan|x] eqn:Hscan.
  2: { split; [by eapply ready_weakly|]. intros (_ & _ & Hcalm).
       destruct (Hcalm (Services.calls w)) as (scan & Hs & _). by rewrite Hs in Hscan. }
  change ((Ok scan : result _) ≫= ?f) with (f scan). cbv beta.
  destruct (scanKeys _ _ _) as [keys|x] eqn:Hkeys.
  - split; [done|]. apply Forall_forall. intros key Hkey Hin.
    destruct (scanKeys_in _ _ _ _ _ Hkeys Hkey) as (m & cursor & Hfound).
    assert (starts_with "OCS_SYNCD_PORT_FAULT|" key = true) as Hstart.
    { apply (fair_scans _ _ _ Hfair (Services.calls w) "OCS_SYNCD_PORT_FAULT|" (ev_device e +:+ "|*")
        scan m cursor); [by repeat constructor|exact Hscan|done]. }
    revert Hstart.
    apply command_keys_inv in Hin as [->|[->|[->|(id & [->|[->| ->]])]]]; vm_compute; done.
  - split; [by eapply ready_weakly|]. intros (_ & _ & Hcalm).
    destruct (Hcalm (Services.calls w)) as (scan' & Hs & Hok). rewrite Hscan in Hs.
    injection Hs as <-. by rewrite Hkeys in Hok.
Qed.

Lemma updates_go applied stored n :
  (applied = true -> stored = Counted) ->
  goes stored n (reconciliation_updates oracle e applied) (Forall (safe_write e commands)).
Proof.
  intros Happlied. unfold reconciliation_updates.
  eapply ends_seq; [eapply ends_weaken; [by apply get_goes|done]|]. intros control.
  apply (ends_then _ _ _ _ (Forall (safe_write e commands))).
  { destruct (has _ _ _); [|apply ends_ret; constructor].
    apply ends_seq; [by apply now_goes|]. intros now. apply ends_ret.
    constructor; [left|constructor].
    intros [?|[?|[?|(? & [?|[?|?]])]]]%command_keys_inv; done. }
  intros controls Hcontrols. destruct applied; [|by apply ends_ret]. rewrite Happlied in * by done.
  apply ends_seq; [apply reconciled_goes|]. intros _.
  apply (ends_then _ _ _ _ (Forall (fun kf => (kf.1 ∉ command_keys e commands)))).
  { unfold portFaults. eapply ends_then; [apply scan_goes|]. intros keys Hkeys.
    eapply ends_then.
    - apply (ends_mapM _ _ _ (fun kf => (kf.1 ∉ command_keys e commands))). intros key Hkey.
      eapply ends_seq; [eapply ends_weaken; [by apply get_goes|done]|]. intros fields.
      apply ends_ret. rewrite Forall_forall in Hkeys. by apply Hkeys.
    - intros faults Hfaults. apply ends_ret. apply Forall_forall.
      intros kf [_ Hkf]%list_elem_of_filter. rewrite Forall_forall in Hfaults. by apply Hfaults. }
  intros faults Hfaults. eapply ends_then.
  - apply (ends_mapM _ _ _ (fun o => forall kf, o = Some kf -> safe_write e commands kf)). intros [key fault] Hkf.
    unfold recovered_fault. destruct (has _ _ _); [|by apply ends_ret].
    apply ends_seq; [by apply now_goes|]. intros now. apply ends_ret. intros kf [= <-]. left.
    rewrite Forall_forall in Hfaults. apply (Hfaults _ Hkf).
  - intros recovered Hrec. apply ends_ret. apply Forall_app. split; [done|].
    by apply Forall_omap_id.
Qed.

Lemma mark_goes applied stored n :
  (applied = true -> stored = Counted) ->
  goes stored n (markProcessed oracle e batch applied) (fun _ => True).
Proof.
  intros Happlied. unfold markProcessed. apply ends_seq; [by apply now_goes|]. intros now.
  apply (ends_then _ _ _ _ (Forall (fun o => forall kf, o = Some kf -> safe_write e commands kf))).
  { destruct applied; [|apply ends_ret; constructor]. apply ends_mapM.
    intros c Hc. by apply version_update_goes. }
  intros versions Hversions. apply (ends_then _ _ _ _ (Forall (safe_write e commands))).
  { destruct (isReconciliation _); [by apply updates_go|apply ends_ret; constructor]. }
  intros updates Hupdates. eapply triple_weaken;
    [apply (plain_goes e commands well oracle Hfair LogicalDb.kDevice
       (putHashesAtomically _ Replied) (fun _ _ => True) stored stored n)|done..]; [done|done|].
  intros db Hdb. exists tt. split; [done|]. split; [|done]. apply (safe_replace_all e commands); [|done].
  constructor.
  - left. intros [?|[?|[?|(? & [?|[?|?]])]]]%command_keys_inv; done.
  - apply Forall_app. split; [|done]. by apply Forall_omap_id.
Qed.

(** ** A whole attempt *)
Lemma outcome_goes m n :
  stored_outcome commands m ->
  triple (ready Anywhere n) (publish_outcome oracle e batch m) (fun _ => ready Anywhere 0)
    interrupted.
Proof.
  intros (payload & r & Hpayload & Hdec & Hr & Hlatency). unfold publish_outcome.
  rewrite Hpayload. eapply lift_then; [reflexivity|]. eapply lift_then; [exact Hdec|].
  apply ends_seq; [by apply phase_goes|]. intros _.
  eapply ends_then; [by apply states_goes|]. intros delta _.
  apply ends_seq; [by apply phase_goes|]. intros _.
  assert (exists latency, match m !! "latency_ms" with Some ms => stoll ms | None => Ok 0%Z end
    = Ok latency /\ (0 <= latency)%Z) as (latency & Hl & Hpos).
  { destruct (m !! "latency_ms"); [by apply Hlatency|by exists 0%Z]. }
  eapply lift_then; [exact Hl|].
  eapply triple_bind; [by apply counters_goes|]. intros added.
  apply ends_seq; [by apply phase_goes|]. intros _.
  apply ends_seq; [by apply results_go|]. intros _.
  apply ends_seq; [by apply phase_goes|]. intros _.
  apply ends_seq; [by apply mark_goes|]. intros _.
  eapply triple_weaken; [by apply phase_goes|done| |done].
  intros [] s [Hs _]. by eapply ready_weakly.
Qed.

Lemma handle_goes n :
  triple (ready Anywhere n) (handle_command oracle e) (fun _ => ready Anywhere 0) interrupted.
Proof.
  unfold handle_command, isAlreadyProcessed. apply ends_seq.
  { eapply ends_seq; [eapply ends_weaken; [by apply get_goes|done]|]. intros m.
    by apply ends_ret. }
  intros [|]; [apply triple_ret; intros s; apply ready_weakly|].
  unfold decode_command. rewrite Hdecode.
  change (mret ?x ≫= ?f) with (f x). cbv beta.
  eapply triple_bind; [apply durable_goes|]. intros o. apply triple_pure. intros Ho.
  destruct o as [m|].
  - eapply triple_bind; [by apply outcome_goes, Ho|]. intros [].
    eapply triple_weaken; [by apply before_ack_goes|done|by intros [] s []|done].
  - eapply triple_weaken; [by apply (mark_goes false Anywhere 0)|done|by intros [] s []|done].
Qed.
End Finish.

(** ** From attempt to attempt *)
Section Attempts.
Context {J : JsonLib} {JL : JsonLaws J} {DB : Type} {R : Redis DB} {RL : RedisLaws DB}.
Context {G : RedisGroups DB} {GL : RedisGroupLaws DB}.
Context {D : Type} {API : OcsDeviceApi D}.
#[local] Abbreviation state := (Syncd DB D).

(** Another message that syncd may handle meanwhile: a command with an ID of its own. *)
Definition other_message (message other : StreamMessage) : Prop :=
  event_id (event other) <> event_id (event message) /\ utf8 (event_id (event other)) /\
  is_ok (decodeDeviceCommand (ev_payload (event other))) = true.

(** The orchestrator leaves the keys of a command alone, but counts alarms of its device. *)
Lemma orchestrator_polite e commands c : orch_writes c -> polite (command_keys e commands) c.
Proof.
  intros Hc. split.
  2: { intros E id. destruct Hc as [Hk|(device & n & ->)]; [|by split_and!].
       split_and!; [done|..]; intros Ht; rewrite Ht in Hk; inversion Hk. }
  destruct Hc as [Hk|(device & n & ->)]; [left|by right; do 3 eexists].
  intros [Ht|[Ht|[Ht|(id & [Ht|[Ht|Ht]])]]]%command_keys_inv; rewrite Ht in Hk; inversion Hk.
Qed.

Lemma orchestrator_polite_command e commands c :
  command_write c -> polite (command_keys e commands) c.
Proof.
  intros Hc. split; [left|intros E id; by destruct Hc].
  intros [Ht|[Ht|[Ht|(id & [Ht|[Ht|Ht]])]]]%command_keys_inv; destruct Hc; inversion Ht.
Qed.

(** What happens between the delivery of a command and its end: attempts that are
    interrupted or not, other commands, polls, fault commands and restarts of syncd, which
    may be interrupted too, anything the orchestrator does, also interrupted, commands of
    other clients, and other users of the device. *)
Inductive command_step (message : StreamMessage) (commands : list ConnectionCommand)
    (well : D -> Prop) : relation state :=
  | AttemptStep oracle s r s' :
      fair (command_keys (event message) commands) well oracle ->
      process_command oracle message s = (r, s') -> command_step message commands well s s'
  | OtherStep oracle other s r s' :
      fair (command_keys (event message) commands) well oracle -> other_message message other ->
      process_command oracle other s = (r, s') -> command_step message commands well s s'
  | CallStep oracle min_idle c s r s' :
      fair (command_keys (event message) commands) well oracle ->
      match c with ProcessOne _ => False | _ => True end ->
      run_syncd min_idle oracle c s = (r, s') -> command_step message commands well s s'
  | OrchestratorStep orch oracle c s r w :
      oracle_within (polite (command_keys (event message) commands)) oracle ->
      run_service orch oracle c (stores s) = (r, w) ->
      command_step message commands well s
        (mkSyncd w (device_ s) (device_name_ s) (device_generation_ s))
  | RestartStep s :
      command_step message commands well s (mkSyncd (stores s) (device_ s) "" 0)
  | ClientStep l cs s :
      Forall (polite (command_keys (event message) commands)) cs ->
      command_step message commands well s (others_run l cs s)
  | DeviceStep d s :
      well d ->
      command_step message commands well s
        (mkSyncd (stores s) d (device_name_ s) (device_generation_ s)).

(** A command that can be answered: its batch decodes, its connections have IDs, and its
    texts can be encoded. *)
Record answerable (e : EventEnvelope) (b : DeviceCommandBatch) : Prop := {
  answerable_batch : decodeDeviceCommand (ev_payload e) = Ok b;
  answerable_event : validateEvent e = Ok tt;
  answerable_id : utf8 (event_id e);
  answerable_device : utf8 (ev_device e);
  answerable_ids : Forall (fun c => cmd_id c <> "") (batch_commands b);
}.

Variable message : StreamMessage.
Variable b : DeviceCommandBatch.
Variable well : D -> Prop.
#[local] Abbreviation e := (event message).
#[local] Abbreviation commands := (batch_commands b).
#[local] Abbreviation batch := (with_operation_id (event_id e) b).
Hypothesis Hcommand : answerable e b.
Hypothesis Hdevice : keeps_promises batch well.
#[local] Set Default Proof Using "Type*".

Lemma handled oracle n (s : state) :
  fair (command_keys e commands) well oracle -> ready e commands well Anywhere n s ->
  match handle_command oracle e s with
  | (Ok _, s') => ready e commands well Anywhere 0 s'
  | (Throw _, s') => ready e commands well Anywhere 0 s' /\ ~ syncd_calm (ev_device e) oracle
  end.
Proof.
  intros Hfair. destruct Hcommand as [Hb He Hid Hdev Hids].
  apply (handle_goes e b well oracle Hb He Hid Hdev Hids Hdevice Hfair n s).
Qed.

Lemma acknowledged oracle id (s : state) r s' :
  fair (command_keys e commands) well oracle -> ready e commands well Anywhere 0 s ->
  acknowledge oracle id s = (r, s') -> ready e commands well Anywhere 0 s'.
Proof.
  intros Hfair Hs Hrun. unfold acknowledge, acknowledge_on in Hrun.
  assert (triple (ready e commands well Anywhere 0)
    (update oracle LogicalDb.kDevice
       (plain (RedisRepository.acknowledge kDeviceCommands kConsumerGroup id)))
    (fun _ => ready e commands well Anywhere 0) (fun _ => ready e commands well Anywhere 0)) as Hack.
  { eapply triple_weaken; [apply (plain_goes e commands well oracle Hfair LogicalDb.kDevice _
      (fun _ _ => True) Anywhere Anywhere)|done|by intros ? ? []|by intros ? ? []]; [done|done|].
    intros db Hdb. unfold RedisRepository.acknowledge.
    pose proof (xack_data kDeviceCommands kConsumerGroup id db) as Hx.
    destruct (xack _ _ _ db) as [k db']. cbn [fst snd] in *. exists k. split; [done|]. split; [|done].
    apply (same_readable e commands Anywhere LogicalDb.kDevice db); [|done].
    intros key _. by destruct (Hx key) as (? & ? & _). }
  specialize (Hack s Hs). unfold mbind, prog_bind in Hrun.
  destruct (update _ _ _ s) as [[k|x] s1]; [|by injection Hrun as _ <-].
  case_decide; by injection Hrun as _ <-.
Qed.

Lemma orchestrator_ready orch oracle c (s : state) r w :
  oracle_within (polite (command_keys e commands)) oracle ->
  run_service orch oracle c (stores s) = (r, w) -> ready e commands well Anywhere 0 s ->
  ready e commands well Anywhere 0 (mkSyncd w (device_ s) (device_name_ s) (device_generation_ s)).
Proof using J JL RL GL.
  intros Ho Hrun (_ & Hl & Hd). split; [simpl; lia|]. split; [|done]. intros l. simpl.
  assert (keeps (holds l (readable e commands Anywhere l)) (run_service orch oracle c) (fun _ => True))
    as Hk.
  { apply (orchestrator_writes_frame orch oracle l _ (polite (command_keys e commands))).
    - apply polite_stable.
    - done.
    - apply orchestrator_polite.
    - intros db db' Hdb Hsame. eapply same_readable; [|done]. intros k _. by destruct (Hsame k) as (? & ? & _).
    - intros [->| ->]; [done|]. intros. by apply device_group.
    - apply orchestrator_polite_command. }
  by destruct (Hk (stores s) r w (Hl l) Hrun).
Qed.

Lemma command_step_ready (s s' : state) :
  command_step message commands well s s' -> ready e commands well Anywhere 0 s ->
  ready e commands well Anywhere 0 s'.
Proof.
  intros Hstep Hs. destruct Hstep as [oracle s r s' Hfair Hrun
    |oracle other s r s' Hfair (Hne & Hutf & Hok) Hrun|oracle min_idle c s r s' Hfair Hc Hrun
    |orch oracle c s r w Ho Hrun|s|l cs s Hcs|d s Hd].
  - pose proof (handled oracle 0 s Hfair Hs) as Hh. unfold process_command in Hrun.
    destruct (handle_command oracle e s) as [[[]|x] s1] eqn:Hr.
    + rewrite (run_bind _ _ _ _ _ Hr) in Hrun. by eapply acknowledged.
    + rewrite (run_bind_throw _ _ _ _ _ Hr) in Hrun. injection Hrun as _ <-. by destruct Hh.
  - destruct (decodeDeviceCommand _) as [b'|] eqn:Hb; [|done].
    by eapply (ready_other e commands well oracle Hfair batch Hdevice eq_refl (event other) b').
  - by eapply (ready_around e commands well oracle Hfair batch Hdevice min_idle c).
  - by eapply orchestrator_ready.
  - destruct Hs as (Hn & Hl & Hw & _). by split_and!.
  - destruct Hs as (Hn & Hl & Hw & Hg). split_and!; [simpl; lia| |done|done]. intros l'. simpl.
    destruct (decide (l = l')) as [->|Hne].
    + rewrite database_after_call. by apply polite_readable.
    + by rewrite database_after_other.
  - destruct Hs as (Hn & Hl & _ & Hg). by split_and!.
Qed.

Lemma command_steps_ready (s s' : state) :
  rtc (command_step message commands well) s s' -> ready e commands well Anywhere 0 s ->
  ready e commands well Anywhere 0 s'.
Proof.
  induction 1 as [|s1 s2 s3 Hstep _ IH]; [done|]. intros Hs. by eapply IH, command_step_ready.
Qed.

(** The results that were published stay in the stream. *)
Lemma polite_within keys oracle id :
  oracle_within (polite keys) oracle ->
  oracle_within (faithful (syncdResultPublicationKey (event_id e) id) kDeviceResults (fun _ => True))
    oracle.
Proof using Type. intros Ho n i c Hc. by apply (Ho n i c Hc). Qed.

Lemma command_step_sent id (s s' : state) :
  command_step message commands well s s' -> sent (event_id e) id (device_db s) ->
  sent (event_id e) id (device_db s').
Proof using J RL GL.
  intros Hstep Hs. destruct Hstep as [oracle s r s' Hfair Hrun|oracle other s r s' Hfair _ Hrun
    |oracle min_idle c s r s' Hfair _ Hrun|orch oracle c s r w Ho Hrun|s|l cs s Hcs|d s _]; try done.
  1-3: pose proof (polite_within _ _ id (fair_others _ _ _ Hfair)) as Ho;
    pose proof (fair_scans _ _ _ Hfair) as Hscan.
  - by destruct (sent_process _ _ oracle Hscan Ho message s r s' Hs Hrun).
  - by destruct (sent_process _ _ oracle Hscan Ho other s r s' Hs Hrun).
  - by destruct (sent_syncd _ _ oracle Hscan Ho min_idle c s r s' Hs Hrun).
  - destruct (orchestrator_writes_frame orch oracle LogicalDb.kDevice (sent (event_id e) id)
      (polite (command_keys e commands))) with (c := c) (s := stores s) (r := r) (s' := w)
      as [Hw _]; try done.
    + intros x db Hx. apply sent_stable. by apply Hx.
    + apply orchestrator_polite.
    + by apply backed_data.
    + intros _ stream group start db Hin. apply backed_group; [done|]. intros <-. revert Hin. not_in_keys.
    + apply orchestrator_polite_command.
  - unfold device_db, others_run. simpl.
    assert (holds LogicalDb.kDevice (sent (event_id e) id)
      (after_call l (run_cmds cs (database l (stores s))) (stores s))) as Hw; [|exact Hw].
    eapply (others_hold (polite (command_keys e commands))); [|done|exact Hs].
    intros x db Hx. apply sent_stable. by apply Hx.
Qed.

Lemma command_steps_sent id (s s' : state) :
  rtc (command_step message commands well) s s' -> sent (event_id e) id (device_db s) ->
  sent (event_id e) id (device_db s').
Proof using J RL GL.
  induction 1 as [|s1 s2 s3 Hstep _ IH]; [done|]. intros Hs. by eapply IH, command_step_sent.
Qed.
End Attempts.

(** ** The simulated switch keeps the promises *)
Section Switch.
Context {J : JsonLib} {JL : JsonLaws J}.
#[local] Set Default Proof Using "Type*".

(** Besides being well-formed, the switch has no result of another batch under this ID. *)
Definition switch_well (id : string) (commands : list ConnectionCommand) (d : SimDevice) : Prop :=
  device_wf d /\ device_text d /\
  forall r, apply_results_ d !! id = Some r -> lists_connections commands r.

Lemma commit_lists commands d :
  NoDup (cmd_id <$> commands) -> lists_connections commands (commit_result commands d).
Proof using.
  intros Hnd _ c Hc Hop. apply list_elem_of_fmap. exists (applied_of c). split; [done|].
  simpl. apply list_elem_of_omap. exists c. split; [done|].
  rewrite apply_commands_lookup, last_command_unique by done. simpl. by rewrite Hop.
Qed.

Lemma switch_applies id b d :
  id <> "" -> sendable_batch b -> utf8 id -> NoDup (cmd_id <$> batch_commands b) ->
  switch_well id (batch_commands b) d ->
  exists r d', applyConnections (batch_commands b) (batch_options (with_operation_id id b)) d
    = (Ok r, d') /\ switch_well id (batch_commands b) d' /\
      publishable_result (batch_commands b) r.
Proof.
  intros Hid (_ & Hs & [Ho _] & _) Hutf Hnd (Hwf & Ht & Hc).
  set (o := batch_options (with_operation_id id b)).
  assert (Forall command_text (batch_commands b)) as Hct.
  { eapply Forall_impl; [exact Hs|]. by intros c (? & ? & _). }
  destruct (apply_text (batch_commands b) o d Hwf Ht) as (r & d' & Hrun & Hwf' & Ht' & Hr);
    [by split_and!|].
  exists r, d'. split; [done|].
  assert (lists_connections (batch_commands b) r /\ apply_results_ d' !! id = Some r)
    as [Hlist Hstored].
  2: { split; [|by split]. split; [done|]. split; [done|]. intros r' Hr'. rewrite Hstored in Hr'.
       by injection Hr' as <-. }
  destruct (apply_cases (batch_commands b) o d Hwf (command_text_ports _ Hct))
    as [(r' & Hcached & Hrun')|(_ & r' & d1 & rs & order & Hrun' & Hspec & _ & Hcache)];
    rewrite Hrun' in Hrun; injection Hrun as <- <-.
  - unfold cached_result in Hcached. case_bool_decide; [done|]. split; [by apply Hc|done].
  - split; [|by apply Hcache]. intros Hok. destruct (apply_spec_ok _ _ _ _ _ Hspec Hok) as [-> _].
    by apply commit_lists.
Qed.

Lemma switch_keeps_promises id b :
  id <> "" -> sendable_batch b -> utf8 id -> NoDup (cmd_id <$> batch_commands b) ->
  keeps_promises (API:=InProcessSimBackend) (with_operation_id id b)
    (switch_well id (batch_commands b)).
Proof.
  intros Hid Hs Hutf Hnd. split.
  - intros d Hd. eexists _, d. split; [done|]. split; [done|].
    destruct Hd as (_ & Ht & _). by destruct (text_info d Ht) as [(_ & _ & ?) _].
  - intros d Hd. destruct (switch_applies id b d) as (r & d' & Hrun & ? & ?); [done..|].
    exists (Ok r), d'. split; [|done].
    assert (returns (applyConnections (batch_commands b)
      (batch_options (with_operation_id id b))) d = Some (Ok r, d')) as Hret
      by (unfold returns; by rewrite Hrun).
    exact Hret.
  - intros other (_ & Hother & [Hto Hido] & _) Hne d (Hwf & Ht & Hl).
    assert (Forall command_text (batch_commands other)) as Hct.
    { eapply Forall_impl; [exact Hother|]. by intros c (? & ? & _). }
    destruct (apply_text (batch_commands other) (batch_options other) d Hwf Ht)
      as (r & d' & Hrun & Hwf' & Ht' & _); [by split_and!|].
    exists (Ok r), d'. simpl. unfold returns. rewrite Hrun. split; [done|]. split; [|done].
    split; [done|]. split; [done|]. intros x Hx. apply Hl.
    eapply (apply_other_result _ _ _ _ _ id x); [done|by apply command_text_ports|done|by apply not_eq_sym|done].
  - intros d Hd. eexists _, d. split; [done|]. split; [done|].
    destruct Hd as (_ & Ht & _). apply Forall_forall. intros x Hx.
    apply elem_of_sorted_values in Hx as [k Hk]. by eapply text_conns.
  - intros p Hp d Hd. pose proof Hd as (Hwf & Ht & _).
    destruct (getPortState_total PortDirection.kInput p d Hwf Ht) as (x & Hx & _);
      [done|]. exists (Ok x), d. simpl. unfold returns. by rewrite Hx.
  - intros p Hp d Hd. pose proof Hd as (Hwf & Ht & _).
    destruct (getPortState_total PortDirection.kOutput p d Hwf Ht) as (x & Hx & _);
      [done|]. exists (Ok x), d. simpl. unfold returns. by rewrite Hx.
  - intros f [Hf _] d (Hwf & Ht & Hl).
    destruct (inject_text f d Hwf Ht Hf) as (r & d' & Hrun & ? & ? & _).
    destruct (injectFault_cache _ _ _ _ Hrun) as [Hcache _].
    exists (Ok r), d'. simpl. unfold returns, switch_well. by rewrite Hrun, Hcache.
  - intros f [Hf _] d (Hwf & Ht & Hl).
    destruct (clear_text f d Hwf Ht Hf) as (r & d' & Hrun & ? & ? & _).
    destruct (clearFault_cache _ _ _ _ Hrun) as [Hcache _].
    exists (Ok r), d'. simpl. unfold returns, switch_well. by rewrite Hrun, Hcache.
Qed.
End Switch.

