(* ===== verification/SyncdConverge.v ===== *)
(** * From a difference to its repair: syncd's reconciliation, end to end.

    A poll that finds a difference publishes one command (SyncdReconcile.v); the command
    travels through the store as an event with a JSON payload (RedisEvents.v,
    DeviceCommand.v) and is applied to the switch (SyncdApply.v), which then has the
    desired connections (ReconcilerProps.v). *)
From S2P Require Import ReconcilerProps.
From S2P Require Import Prelude ProgLogic Redis RedisKeys RedisRepository RedisRepositoryProps.
From S2P Require Import RedisEvents RedisOnce Services CallLogic.
From S2P Require Import Errors Types SimDevice SimDeviceInv SimDeviceProps DeviceApi Reconciler.
From S2P Require Import Json UdsJsonProps Rpc DeviceCommand SyncdRules Syncd SyncdPublish.
From S2P Require Import SyncdPorts SyncdRecovery SyncdReconcile SyncdLogic SyncdSteps SyncdPollSteps.
From S2P Require Import SyncdSteps SyncdDelivery SyncdApply.
From stdpp Require Import options.

(** ** The command in the stream *)
Section Published.
Context {J : JsonLib} {DB : Type} {R : Redis DB} {RL : RedisLaws DB}.
Context {G : RedisGroups DB} {GL : RedisGroupLaws DB}.
Context {D : Type} {API : OcsDeviceApi D}.
Variable info : DeviceInfo.
Variable plan : ReconciliationPlan.
Variable command_id : string.
#[local] Abbreviation marker := (syncdReconciliationCommandPublicationKey command_id).

(** The event of the reconciliation. *)
Record repair_event (ev : EventEnvelope) : Prop := {
  repair_id : event_id ev = command_id;
  repair_device : ev_device ev = info_name info;
  repair_operation : ev_operation ev = "RECONCILE";
  repair_payload :
    encodeDeviceCommand (with_operation_id command_id (full_snapshot plan)) = Ok (ev_payload ev);
  repair_widths : is_u32 (event_schema_version ev) /\ is_u64 (timestamp_ns ev)
                  /\ is_u64 (ev_desired_version ev);
}.

(** When the marker of the command is there, so is its event. *)
Definition queued (db : DB) : Prop :=
  type_of kDeviceCommands db <> KHash /\
  (exists_key marker db = true ->
   exists id ev, (id, eventFields ev) ∈ xrange kDeviceCommands db /\ repair_event ev).

(** The other clients leave the marker alone and only append to the stream. *)
Definition appends_only (c : redis_cmd) : Prop :=
  target c <> marker /\ (target c = kDeviceCommands -> exists fs, c = XADD kDeviceCommands fs).

Lemma queued_stable c db : appends_only c -> queued db -> queued (execute c db).
Proof using RL.
  intros [Hm Hs] [Ht Hq]. unfold queued, exists_key.
  destruct (execute_frame c marker db) as (-> & _ & _); [by apply not_eq_sym|].
  destruct (decide (target c = kDeviceCommands)) as [Hc|Hc].
  - destruct (Hs Hc) as [fs ->]. destruct (execute_xadd _ fs db Ht) as (-> & id & _ & ->).
    split; [done|]. intros (id' & ev & Hin & Hev)%Hq. exists id', ev. split; [|done].
    apply elem_of_app. by left.
  - destruct (execute_frame c kDeviceCommands db) as (-> & _ & ->); [by apply not_eq_sym|]. done.
Qed.

Lemma queued_run cs db : Forall appends_only cs -> queued db -> queued (run_cmds cs db).
Proof using RL. intros Hcs. eapply stable_run; [apply queued_stable|done]. Qed.

(** What syncd replaces is another key. *)
Definition elsewhere (kf : string * gmap string string) : Prop :=
  kf.1 <> marker /\ kf.1 <> kDeviceCommands.

Lemma queued_writes hashes db :
  Forall elsewhere hashes -> queued db ->
  queued (run_cmds (concat ((fun '(key, fs) => replace_hash key fs) <$> hashes)) db).
Proof using RL.
  intros Hf. apply queued_run. apply Forall_concat, Forall_fmap. eapply Forall_impl; [exact Hf|].
  intros [key fs] [Hm Hs]. apply Forall_forall. intros c Hc%replace_hash_targets.
  unfold appends_only. rewrite Hc. done.
Qed.

(** The publication itself. *)
Lemma queued_publish ev mf db :
  repair_event ev -> mf <> ∅ -> queued db ->
  queued (run_cmds [XADD kDeviceCommands (eventFields ev); HMSET marker (sorted_items mf)] db).
Proof using RL.
  intros Hev Hmf [Ht Hq]. simpl. unfold queued.
  destruct (execute_xadd _ (eventFields ev) db Ht) as (Ht' & id & _ & Hx).
  destruct (execute_frame (HMSET marker (sorted_items mf)) kDeviceCommands
    (execute (XADD kDeviceCommands (eventFields ev)) db)) as (-> & _ & ->); [done|].
  split; [by rewrite Ht'|]. intros _. exists id, ev. rewrite Hx. split; [|done].
  apply elem_of_app. right. by left.
Qed.

Variable oracle : SyncdOracle D.
Hypothesis Hscan : scans_match oracle.
Hypothesis Hothers : oracle_within appends_only (store_oracle oracle).
Hypothesis Hclock : forall n, is_u64 (clock (store_oracle oracle) n).
#[local] Abbreviation inv := (fun s : Syncd DB D => holds LogicalDb.kDevice queued (stores s)).

Lemma elsewhere_scanned n device scan k cursor key fs :
  scans oracle n (syncdPortFaultPattern device) = Ok scan -> key ∈ (scan k cursor).2 ->
  fs <> ∅ -> elsewhere (key, fs).
Proof using Hscan.
  intros Hs Hin _. split; cbn [fst]; intros ->;
    (assert (Hbad := Hscan n "OCS_SYNCD_PORT_FAULT|" (device +:+ "|*") scan k cursor _
       ltac:(by repeat constructor) Hs Hin)); done.
Qed.

Lemma keeps_clock l0 (Q : DB -> Prop) :
  keeps (fun s : Syncd DB D => holds l0 Q (stores s)) (now_ns oracle) is_u64.
Proof using Hclock.
  intros [[] d name gen] r s' Hs [= <- <-]. split; [by destruct l0|]. intros a [= <-]. apply Hclock.
Qed.

Variable control : gmap string string.
Variable version : Z.
Hypothesis Hcontrol : control !! "desired_version" = Some (to_string version).
Hypothesis Hversion : is_u64 version.
#[local] Abbreviation commands := (batch_commands (full_snapshot plan)).

(** The event as it is published. *)
Definition published_event (now : Z) (payload : string) : EventEnvelope :=
  batch_event command_id (without_suffix command_id) (info_name info) "RECONCILE" commands version
    now payload.

Lemma published_repair now payload :
  is_u64 now -> encodeDeviceCommand (with_operation_id command_id (full_snapshot plan)) = Ok payload ->
  repair_event (published_event now payload).
Proof using Hversion.
  intros Hnow Hp. unfold published_event, batch_event. destruct (command_resource _ _).
  by constructor.
Qed.

Lemma keeps_elsewhere key fs :
  elsewhere (key, fs) -> keeps inv (put oracle LogicalDb.kDevice key fs) (fun _ => True).
Proof using RL GL API Hothers.
  intros Hw. apply (keeps_write _ _ _ queued_stable Hothers elsewhere); [|done].
  intros. by apply queued_writes.
Qed.

Lemma queued_reconciliation :
  keeps inv (publish_reconciliation oracle info plan control command_id) (fun _ => True).
Proof using RL GL API Hothers Hscan Hclock Hcontrol Hversion.
  unfold publish_reconciliation. apply keeps_seq.
  { apply (keeps_associate _ _ _ queued_stable Hothers elsewhere).
    - intros. by apply queued_writes.
    - apply elsewhere_scanned. }
  intros _. apply keeps_seq.
  { unfold publishReconciliationState, publish_drift, publish_drift_state, published_delta, count_once.
    syncd_walk ltac:(first [apply keeps_update_other; done
                           |apply (keeps_get_any _ _ _ _ queued_stable Hothers)]). }
  intros _. eapply keeps_bind; [apply keeps_lift; intros v Hv; exact Hv|]. intros v Hv.
  assert (v = version) as ->.
  { unfold map_at in Hv. rewrite Hcontrol in Hv. simpl in Hv.
    rewrite stoull_to_string in Hv by done. congruence. }
  apply keeps_seq.
  { unfold publishDriftAlarm, raise_drift_alarm, publish_alarm, count_once.
    syncd_walk ltac:(first [apply keeps_update_other; done
                           |apply (keeps_get_any _ _ _ _ queued_stable Hothers)]). }
  intros _. eapply keeps_bind; [apply keeps_lift; intros p Hp; exact Hp|]. intros payload Hp.
  apply keeps_seq; [by apply keeps_elsewhere|]. intros _.
  eapply keeps_bind; [apply keeps_clock|]. intros now Hnow. apply keeps_seq.
  { apply (keeps_append _ _ _ _ queued_stable Hothers). intros db Hdb _ _.
    by apply (queued_publish _ _ _ (published_repair now payload Hnow Hp) (insert_non_empty _ _ _)). }
  intros _. apply keeps_seq; [apply keeps_now_ns|]. intros published. by apply keeps_elsewhere.
Qed.

Lemma reconciliation_marked (s s' : Syncd DB D) :
  publish_reconciliation oracle info plan control command_id s = (Ok tt, s') ->
  exists_key marker (device_db s') = true.
Proof using RL GL API Hothers.
  unfold publish_reconciliation. intros Hrun.
  apply bind_Ok_inv in Hrun as (? & s1 & _ & Hrun).
  apply bind_Ok_inv in Hrun as (? & s2 & _ & Hrun).
  apply bind_Ok_inv in Hrun as (v & s3 & _ & Hrun).
  apply bind_Ok_inv in Hrun as (? & s4 & _ & Hrun).
  apply bind_Ok_inv in Hrun as (payload & s5 & _ & Hrun).
  apply bind_Ok_inv in Hrun as (? & s6 & _ & Hrun).
  apply bind_Ok_inv in Hrun as (now & s7 & _ & Hrun).
  apply bind_Ok_inv in Hrun as (b & s8 & Happ & Hrun).
  apply append_run in Happ; [|apply insert_non_empty|done].
  set (there := kept is_there marker).
  assert (forall c db, appends_only c -> there db -> there (execute c db)) as Hkept.
  { intros c db [Hm _]. apply kept_stable; [apply none_there|]. intros ->. by apply Hm. }
  assert (keeps (fun s : Syncd DB D => holds LogicalDb.kDevice there (stores s))
    (published ← now_ns oracle;
     put_control oracle (info_name info)
       (<["published_at_ns" := to_string published]> (<["status" := "PUBLISHED"]> control)))
    (fun _ => True)) as Hlast.
  { apply keeps_seq; [apply keeps_now_ns|]. intros published.
    apply (keeps_put _ _ _ _ Hkept Hothers). intros db.
    apply kept_replace; [done|apply none_there|apply insert_non_empty]. }
  apply there_exists. by destruct (Hlast s8 _ s' (proj1 (there_exists _ _) Happ) Hrun).
Qed.

(** A reconciliation that was published is in the stream. *)
Lemma reconciliation_queued (s s' : Syncd DB D) :
  queued (device_db s) ->
  publish_reconciliation oracle info plan control command_id s = (Ok tt, s') ->
  exists id ev, (id, eventFields ev) ∈ xrange kDeviceCommands (device_db s') /\ repair_event ev.
Proof using RL GL API Hothers Hscan Hclock Hcontrol Hversion.
  intros Hq Hrun. destruct (queued_reconciliation s _ s' Hq Hrun) as [[_ Hq'] _].
  by apply Hq', reconciliation_marked with s.
Qed.
End Published.

(** ** The plan as a batch both ends accept *)
Section Batch.
Context {J : JsonLib} {JL : JsonLaws J}.
Variable des : list ConnectionCommand.
Variable d : SimDevice.
Variable plan : ReconciliationPlan.
Hypothesis Hwf : device_wf d.
Hypothesis Htext : forall (k : string) c, connections_ d !! k = Some c -> connection_text c.
Hypothesis Hup : all_upserts des.
Hypothesis Hsend : Forall sendable des.
Hypothesis Hplan : buildReconciliationPlan des (sorted_values (connections_ d)) = Ok plan.

Lemma plan_command c :
  c ∈ batch_commands (full_snapshot plan) ->
  c ∈ des \/ exists id a, connections_ d !! id = Some a /\ c = removal_of id a.
Proof using Hwf Hplan.
  apply build_plan_inv in Hplan as (_ & _ & ->). simpl.
  destruct (device_snapshot_map d Hwf) as [_ ->].
  fold (plan_commands (sort_by cmd_id des) (connections_ d)).
  rewrite sort_by_perm, plan_commands_elem, sort_by_perm.
  intros [Hc|(id & a & Ha & _ & ->)]; [by left|right; by exists id, a].
Qed.

Lemma removal_sendable id a : connections_ d !! id = Some a -> sendable (removal_of id a).
Proof using Hwf Htext.
  intros Ha. destruct (Htext id a Ha) as [(_ & _ & Hv) Hid].
  destruct (wf_conns d Hwf id a Ha) as [Hk _]. rewrite Hk in Hid.
  split; [|done]. split; [done|]. split; [done|].
  unfold removal_of, in_width in *. simpl. lia.
Qed.

Lemma plan_sendable id :
  converged plan = false -> utf8 id -> sendable_batch (with_operation_id id (full_snapshot plan)).
Proof using Hwf Htext Hsend Hplan.
  intros Hd Hid. split; [|split; [|split]].
  - apply build_plan_inv in Hplan as Hp. destruct Hp as (_ & _ & ->).
    destruct (drifts (plan_of (sort_by cmd_id des) (applied_map (sorted_values (connections_ d)))))
      as [|x l] eqn:Hx; [by unfold converged in Hd; rewrite Hx in Hd|].
    pose proof (list_elem_of_here x l) as Hin. rewrite <-Hx in Hin. clear Hx Hd.
    intros Hnil. simpl in Hnil.
    fold (plan_commands (sort_by cmd_id des) (applied_map (sorted_values (connections_ d)))) in Hnil.
    assert (forall c, c ∉ plan_commands (sort_by cmd_id des) (applied_map (sorted_values (connections_ d))))
      as Hnone. { intros c. rewrite <-(sort_by_perm cmd_id), Hnil. apply not_elem_of_nil. }
    apply plan_drifts_elem in Hin as [(c & Hc & _)|(k & a & Ha & Hk & _)].
    + apply (Hnone c), plan_commands_elem. by left.
    + apply (Hnone (removal_of k a)), plan_commands_elem. right. by exists k, a.
  - simpl. apply Forall_forall. intros c [Hc|(k & a & Ha & ->)]%plan_command.
    + rewrite Forall_forall in Hsend. by apply Hsend.
    + by apply removal_sendable.
  - apply build_plan_inv in Hplan as (_ & _ & ->). by split.
  - by apply build_plan_inv in Hplan as (_ & _ & ->).
Qed.

Lemma plan_received id :
  received_batch (with_operation_id id (full_snapshot plan))
  = with_operation_id id (full_snapshot plan).
Proof using Hwf Hup Hplan.
  unfold received_batch. unfold with_operation_id. f_equal. simpl.
  etrans; [|apply list_fmap_id]. apply list_fmap_ext. intros i c Hc%list_elem_of_lookup_2%plan_command.
  destruct Hc as [Hc|(k & a & _ & ->)]; [|done]. unfold received.
  unfold all_upserts in Hup. rewrite Forall_forall in Hup. by rewrite (Hup c Hc).
Qed.
End Batch.

(** ** The whole way *)
Section Repair.
Context {J : JsonLib} {JL : JsonLaws J} {DB : Type} {R : Redis DB} {RL : RedisLaws DB}.
Context {G : RedisGroups DB} {GL : RedisGroupLaws DB}.

(** C15: a difference that syncd published is repaired by the command it published.  The device
    [d] reported its connections, the plan for the desired ones is not empty, and the
    publication of its command returned, whatever the other clients did meanwhile, short
    of touching the command's marker or deleting from the stream.  Then the stream has an
    entry that reads back as an event for this device, whose payload decodes to the whole
    desired state, and whoever processes it, at any later time and under any oracle, when
    the switch still has the reported connections, can take the desired ones and has no
    result cached under the command's ID yet, applies it as a success: the switch then has exactly the desired connections, and the next plan
    has converged. *)
Theorem published_reconciliation_repairs oracle info des d plan control command_id version
    (s s' : Syncd DB SimDevice) :
  device_wf d -> (forall k c, connections_ d !! k = Some c -> connection_text c) ->
  all_upserts des -> Forall sendable des -> utf8 command_id ->
  buildReconciliationPlan des (sorted_values (connections_ d)) = Ok plan ->
  converged plan = false ->
  control !! "desired_version" = Some (to_string version) -> is_u64 version ->
  scans_match oracle -> oracle_within (appends_only command_id) (store_oracle oracle) ->
  (forall n, is_u64 (clock (store_oracle oracle) n)) ->
  queued info plan command_id (device_db s) ->
  publish_reconciliation oracle info plan control command_id s = (Ok tt, s') ->
  exists id e batch,
    (id, eventFields e) ∈ xrange kDeviceCommands (device_db s') /\
    parseEvent (list_to_map (eventFields e)) = Ok e /\
    event_id e = command_id /\ ev_device e = info_name info /\ ev_operation e = "RECONCILE" /\
    forall oracle' (s1 : Syncd DB SimDevice),
      let d1 := device_applied oracle' s1 in
      info_name (info_ (device_asked oracle' s1)) = info_name info -> device_wf d1 ->
      connections_ d1 = connections_ d -> installable des d1 ->
      apply_results_ d1 !! command_id = None ->
      Syncd.decode_command oracle' e s1 = (Ok batch, s1) /\
      exists r s2, apply_on_device oracle' e batch s1 = (Ok (true, r), s2) /\
        apply_ok r = true /\ connections_ (device_ s2) = ReconcilerProps.target des /\
        exists p, buildReconciliationPlan des (sorted_values (connections_ (device_ s2))) = Ok p
                  /\ converged p = true.
Proof using JL RL GL.
  intros Hwf Htext Hup Hsend Hid Hplan Hdrift Hcontrol Hversion Hscan Hothers Hclock Hq Hrun.
  destruct (reconciliation_queued info plan command_id oracle Hscan Hothers Hclock control version
    Hcontrol Hversion s s' Hq Hrun) as (id & e & Hin & He).
  pose proof (plan_sendable des d plan Hwf Htext Hsend Hplan command_id Hdrift Hid)
    as Hbatch.
  destruct (batch_roundtrip _ Hbatch) as (text & Henc & Hdec).
  rewrite (plan_received des d plan Hwf Hup Hplan) in Hdec.
  destruct He as [Hev Hdev Hop Hpay (Hw1 & Hw2 & Hw3)].
  rewrite Hpay in Henc. injection Henc as <-.
  exists id, e, (with_operation_id command_id (full_snapshot plan)).
  split; [done|]. split; [by apply (event_roundtrip e _ Hw1 Hw2 Hw3)|].
  split; [done|]. split; [done|]. split; [done|].
  intros oracle' s1 d1 Hname Hwf1 Hsame Hinst Hfresh. split.
  { unfold Syncd.decode_command. rewrite Hdec, Hev. done. }
  assert (opt_atomic (batch_options (full_snapshot plan)) = true) as Hatomic.
  { by apply build_plan_inv in Hplan as (_ & _ & ->). }
  destruct (plan_applies des d1
    (batch_options (with_operation_id command_id (full_snapshot plan))) plan Hwf1 Hinst)
    as (r & d2 & Happ & Hok & Hc & Hnext).
  - done.
  - unfold cached_result. simpl. by case_bool_decide.
  - by rewrite Hsame.
  - destruct (apply_on_switch oracle' e (with_operation_id command_id (full_snapshot plan)) s1 r d2)
      as (s2 & Hs2 & <-); [by rewrite Hdev|exact Happ|].
    exists r, s2. split; [done|]. split; [done|]. by split.
Qed.
End Repair.
