(* ===== verification/SyncdExamples.v ===== *)
(** * Concrete runs of syncd: the reference store and JSON, and the simulated switch in
    process; a command, a poll of a device that lost a desired connection, and the command
    that this poll publishes. *)
From S2P Require Import OrchRules Orchestrator OrchSteps.
From S2P Require Import Prelude UdsExamples Errors Types SimDevice SimDeviceInv SimDeviceProps.
From S2P Require Import DeviceApi Reconciler ReconcilerProps SimDeviceExamples Json.
From S2P Require Import DeviceCommand UdsJsonProps JsonRef RedisKeys Redis RedisRepository.
From S2P Require Import RedisRepositoryProps RedisOnce RedisEvents RedisRef Services.
From S2P Require Import CallLogic SyncdRules Syncd SyncdPublish SyncdPorts.
From S2P Require Import SyncdRecovery SyncdReconcile SyncdPoll SyncdPayloads SyncdSteps.
From S2P Require Import SyncdPollSteps SyncdSteps SyncdApply SyncdDelivery SyncdResults.
From S2P Require Import SyncdApply SyncdVersions SyncdPollProps SyncdRecoveryProps.
From S2P Require Import SyncdConverge Rpc OrchRulesProps SyncdProgress SyncdFinish.
From stdpp Require Import options.

(** Nothing interferes, and both clocks show the number of calls. *)
Definition calm_stores : Oracle :=
  mkOracle (fun _ _ => quiet) (fun n => 1700000000000000000 + Z.of_nat n)%Z (fun _ _ => Ok tt).
Definition calm_with (stores : Oracle) : SyncdOracle SimDevice :=
  mkSyncdOracle stores (fun _ d => d) (fun n => Z.min (1000000 * Z.of_nat n) (2 ^ 62))
    (fun _ => Ok tt)
    (fun _ _ => Ok (fun _ _ => (0%Z, []))) map_to_list.
Definition calm : SyncdOracle SimDevice := calm_with calm_stores.

Definition crash_at (name : string) : SyncdOracle SimDevice :=
  calm_with (mkOracle (fun _ _ => quiet) (clock calm_stores)
    (fun _ p => if decide (p = name) then Throw (RuntimeError "crash") else Ok tt)).

Definition sample_batch : DeviceCommandBatch :=
  mkBatch [upsert "c1" 1 2 5; upsert "c2" 3 4 5] default_options.
Definition sample_payload : string :=
  match encodeDeviceCommand sample_batch with Ok s => s | Throw _ => "" end.
Definition sample_command : EventEnvelope :=
  mkEventEnvelope 1 "E:command" "req-1" 1700000000000000000 "sim" "connection-batch" "req-1"
    "APPLY_BATCH" 5 sample_payload.
Definition start : Syncd store SimDevice :=
  mkSyncd (mkWorld ∅ ∅ {[kDeviceCommands := VStream [("1-0", eventFields sample_command)]]}
             ∅ ∅ ∅ 0) dev0 "" 0.

Definition sample_message : StreamMessage := mkStreamMessage "1-0" sample_command.

Definition first_run := processOne 5000 calm "w" start.
Definition crashed_run := processOne 5000 (crash_at "device-apply") "w" start.
Definition second_run := processOne 5000 calm "w" crashed_run.2.

(** The crash comes after the switch applied the command and before its result is durable:
    the second run gets the same result from the switch and publishes it, once. *)
Lemma syncd_crash_recovers :
  first_run.1 = Ok true /\ crashed_run.1 = Throw (RuntimeError "crash") /\
  second_run.1 = Ok true /\ device_ second_run.2 = device_ crashed_run.2 /\
  length (xrange kDeviceResults (device_db crashed_run.2)) = 0 /\
  length (xrange kDeviceResults (device_db second_run.2)) = 2 /\
  hgetall (deviceCountersKey "sim") (counters_db_ (stores second_run.2)) !! "active_connections"
  = Some "2".
Proof. by vm_compute. Qed.

Lemma syncd_calm_within allowed : oracle_within allowed (store_oracle calm).
Proof. intros n i c Hc. by apply elem_of_nil in Hc. Qed.
Lemma syncd_crash_within allowed name : oracle_within allowed (store_oracle (crash_at name)).
Proof. intros n i c Hc. by apply elem_of_nil in Hc. Qed.
Lemma calm_scans stores : scans_match (calm_with stores).
Proof. intros n text rest scan k cursor key _ [= <-] Hk. by apply elem_of_nil in Hk. Qed.

(** ** The durable result *)
Definition sample_result : ApplyResult :=
  mkApplyResult (mkError ErrorCode.kApplyTimeout "late") [mkApplied "c1" 1 2 5].

Lemma durable_result_roundtrip_witness :
  (result_text sample_result ->
     exists payload, durableResultPayload sample_result = Ok payload /\
       decodeDurableResult payload = Ok sample_result) /\
  (~ utf8 (message (apply_error sample_result)) ->
     is_ok (durableResultPayload sample_result) = false).
Proof. exact (durable_result_roundtrip sample_result). Defined.

(** ** Attempts *)
Definition settled_run := process_command (crash_at "apply-result") sample_message start.
Definition later_run := process_command calm sample_message settled_run.2.

Lemma later_attempt allowed : attempt sample_message allowed settled_run.2 later_run.2.
Proof.
  left. exists calm, later_run.1. split; [apply syncd_calm_within|]. apply surjective_pairing.
Qed.

Lemma settled_command_leaves_device_witness :
  device_ later_run.2 = device_ settled_run.2 /\
  settled (event sample_message) (device_db later_run.2).
Proof.
  apply (settled_command_leaves_device sample_message settled_run.2 later_run.2).
  - by apply rtc_once, later_attempt.
  - left. by vm_compute.
Defined.

(** The first attempt crashed before the result was durable. *)
Definition calm_handling := handle_command calm (event sample_message) crashed_run.2.


(** ** The service *)
Lemma syncd_crashed_step allowed : syncd_step 5000 scans_match allowed start crashed_run.2.
Proof.
  apply (SyncdStep _ _ _ (crash_at "device-apply") (ProcessOne "w") _ crashed_run.1);
    [apply calm_scans|apply syncd_crash_within|]. apply surjective_pairing.
Qed.
Lemma syncd_second_step allowed : syncd_step 5000 scans_match allowed crashed_run.2 second_run.2.
Proof.
  apply (SyncdStep _ _ _ calm (ProcessOne "w") _ second_run.1);
    [apply calm_scans|apply syncd_calm_within|]. apply surjective_pairing.
Qed.

Lemma results_appended_once_witness :
  result_count "E:command" "c1" (device_db second_run.2)
  <= marks (syncdResultPublicationKey "E:command" "c1") (device_db second_run.2).
Proof.
  apply (results_appended_once 5000 "E:command" "c1" start second_run.2).
  - by vm_compute.
  - eapply rtc_l; [apply syncd_crashed_step|]. apply rtc_once, syncd_second_step.
  - by vm_compute.
  - by vm_compute.
Defined.

Definition third_run := processOne 5000 calm "w" second_run.2.
(** The record of c1 in generation 7 after the command, and after it is delivered again. *)
Lemma version_records_never_go_back_witness :
  version_record 7 5 (hgetall (syncdConnectionVersionKey "sim" "c1") (device_db third_run.2)).
Proof.
  apply (version_records_never_go_back 5000 "sim" "c1" 7 5 second_run.2 third_run.2).
  - unfold in_width. lia.
  - apply rtc_once. apply (ServingStep _ _ _ calm (ProcessOne "w") _ third_run.1);
      [apply calm_scans|apply syncd_calm_within|apply surjective_pairing|by vm_compute].
  - exists "5", "7", 5%Z. by vm_compute.
Defined.

(** ** The switch *)
Definition applied_once := apply_on_device calm sample_command
  (with_operation_id "E:command" sample_batch) start.
Definition applied_result : ApplyResult :=
  match applied_once.1 with Ok (_, r) => r | Throw _ => sample_result end.

Lemma applied_once_ok : applied_once.1 = Ok (true, applied_result).
Proof. by vm_compute. Qed.

Lemma interrupted_apply_has_one_effect_witness :
  exists s', apply_on_device calm sample_command (with_operation_id "E:command" sample_batch)
      applied_once.2 = (Ok (true, applied_result), s') /\
    device_ s' = device_applied calm applied_once.2.
Proof.
  apply (interrupted_apply_has_one_effect calm calm sample_command sample_batch 0 start
    applied_once.2 applied_once.2 applied_result).
  - done.
  - apply dev0_wf.
  - apply unsigned_ports. by vm_compute.
  - by vm_compute.
  - rewrite <-applied_once_ok. exact (surjective_pairing applied_once).
  - apply nsteps_O.
  - lia.
  - vm_compute. reflexivity.
Defined.

(** A timeout that the switch overturns: both connections are installed, their ports up. *)
Definition timed_out : ApplyResult := mkApplyResult (mkError ErrorCode.kApplyTimeout "late") [].
Definition confirm_run := confirmAppliedResult calm sample_batch timed_out applied_once.2.

Lemma confirm_run_ok :
  confirm_run.1 = Ok (mkApplyResult success [mkApplied "c1" 1 2 5; mkApplied "c2" 3 4 5]).
Proof. by vm_compute. Qed.

Lemma failure_overturned_only_by_device_witness :
  exists actual s1, on_device calm api_getConnections applied_once.2 = (Ok actual, s1) /\
    shows_all calm actual (batch_commands sample_batch) s1 confirm_run.2 /\
    confirm_run.1 = Ok (confirmed_result actual (batch_commands sample_batch)).
Proof.
  destruct (failure_overturned_only_by_device calm sample_batch timed_out applied_once.2)
    as (r' & s' & Hrun & _ & Hcase).
  pose proof confirm_run_ok as Hok. unfold confirm_run in *. rewrite Hrun in *.
  destruct Hcase as [Hr|(_ & _ & actual & s1 & Ha & Hs & Hr)].
  - exfalso. rewrite Hr in Hok. discriminate.
  - exists actual, s1. split; [exact Ha|]. split; [exact Hs|]. exact (f_equal Ok Hr).
Defined.

(** ** Finished after a crash, a restart, another command, a poll and an orchestrator call *)
Definition later_command : StreamMessage :=
  mkStreamMessage "5-0" (mkEventEnvelope 1 "H:command" "req-5" 1700000000000000000 "sim"
    "connection" "c1" "UPSERT" 4
    match encodeDeviceCommand (mkBatch [upsert "c3" 5 6 4] default_options) with
    | Ok s => s | Throw _ => ""
    end).
Definition stopped : Syncd store SimDevice :=
  mkSyncd (stores settled_run.2) (device_ settled_run.2) "" 0.
Definition started_again := run_syncd 5000 calm Start stopped.
Definition other_run := process_command calm later_command started_again.2.
Definition polled_run := run_syncd 5000 calm PollDevice other_run.2.
Definition orchestrated :=
  run_service (mkOrchConfig 1000 default_retry_policy) calm_stores (ProcessResult "o")
    (stores polled_run.2).
Definition restarted : Syncd store SimDevice :=
  mkSyncd orchestrated.2 (device_ polled_run.2) (device_name_ polled_run.2)
    (device_generation_ polled_run.2).

Lemma between_attempts :
  started_again.1 = Ok true /\ is_ok other_run.1 = true /\ polled_run.1 = Ok true /\
  orchestrated.1 = Ok true.
Proof. by vm_compute. Qed.

#[local] Abbreviation sample_commands := (batch_commands sample_batch).
#[local] Abbreviation sample_well := (switch_well "E:command" sample_commands).

Lemma sample_answerable : answerable sample_command sample_batch.
Proof.
  split; [by vm_compute|done|..]; try (by apply literal_utf8; vm_compute). by repeat constructor.
Qed.

Lemma calm_fair stores :
  (forall n i, around stores n i = quiet) ->
  fair (command_keys sample_command sample_commands) sample_well (calm_with stores).
Proof.
  intros Hq. split.
  - intros n i c Hc. simpl in Hc. rewrite Hq in Hc. by apply elem_of_nil in Hc.
  - apply calm_scans.
  - by intros n d Hd.
  - intros n m Hnm. simpl. lia.
  - done.
Qed.

Lemma empty_version : readable_version ∅.
Proof. split; intros text; by rewrite lookup_empty. Qed.
Lemma empty_state : readable_state ∅.
Proof.
  split; [intros text; by rewrite lookup_empty|]. split; [|apply map_Forall_empty].
  unfold has. by rewrite lookup_empty.
Qed.

Lemma start_is_ready : ready sample_command sample_commands sample_well Anywhere 0 start.
Proof.
  split; [done|]. split; [|split; [split; [apply dev0_wf|split; [apply dev0_text|done]]|done]].
  intros []; simpl; try done.
  - split; [by left|]. intros c [->|[->|[]%elem_of_nil]%elem_of_cons]%elem_of_cons; apply empty_version.
  - right. split; [done|]. intros text Htext. by vm_compute in Htext.
  - intros c Hc. split; [by left|]. apply empty_state.
Qed.

Lemma sample_promises : keeps_promises (with_operation_id "E:command" sample_batch) sample_well.
Proof.
  destruct (decoded_batch_sendable _ _ (answerable_batch _ _ sample_answerable)) as [Hs _].
  apply (switch_keeps_promises "E:command" sample_batch); [done|done|by apply literal_utf8; vm_compute|].
  apply (bool_decide_unpack _). by vm_compute.
Qed.

Lemma settled_steps : rtc (command_step sample_message sample_commands sample_well) start restarted.
Proof.
  apply (rtc_l _ _ settled_run.2).
  { apply (AttemptStep _ _ _ (crash_at "apply-result") _ settled_run.1); [by apply calm_fair|].
    apply surjective_pairing. }
  eapply rtc_l; [apply RestartStep|]. apply (rtc_l _ _ started_again.2).
  { apply (CallStep _ _ _ calm 5000 Start _ started_again.1); [by apply calm_fair|done|].
    apply surjective_pairing. }
  apply (rtc_l _ _ other_run.2).
  { apply (OtherStep _ _ _ calm later_command _ other_run.1); [by apply calm_fair| |].
    - split; [done|]. split; [by apply literal_utf8; vm_compute|by vm_compute].
    - apply surjective_pairing. }
  apply (rtc_l _ _ polled_run.2).
  { apply (CallStep _ _ _ calm 5000 PollDevice _ polled_run.1); [by apply calm_fair|done|].
    apply surjective_pairing. }
  apply rtc_once.
  apply (OrchestratorStep _ _ _ (mkOrchConfig 1000 default_retry_policy) calm_stores
    (ProcessResult "o") polled_run.2 orchestrated.1 orchestrated.2); [|apply surjective_pairing].
  intros n i c Hc. by apply elem_of_nil in Hc.
Qed.


(** ** A payload that quotes ill-formed text *)
Definition ill_formed_message : StreamMessage :=
  mkStreamMessage "2-0" (mkEventEnvelope 1 "F:command" "req-2" 1700000000000000000 "sim"
    "connection" "c9" "UPSERT" 1 (String (ascii_of_nat 255) "")).
Definition ill_formed_error : exn :=
  match decodeDeviceCommand (ev_payload (event ill_formed_message)) with
  | Ok _ => RuntimeError "" | Throw x => x
  end.
Definition ill_formed_run := process_command calm ill_formed_message start.

Lemma ill_formed_command_is_never_done_witness :
  (exists x', ill_formed_run.1 = Throw x') /\ device_ ill_formed_run.2 = device_ start /\
  forall l, exists cs, Forall (by_others (store_oracle calm)) cs /\
    database l (stores ill_formed_run.2) = run_cmds cs (database l (stores start)).
Proof.
  apply (ill_formed_command_is_never_done calm ill_formed_message ill_formed_error start
    ill_formed_run.2 ill_formed_run.1).
  - by vm_compute.
  - intros Hutf. by apply (bool_decide_pack (ascii_text (what ill_formed_error))) in Hutf; vm_compute in Hutf.
  - by vm_compute.
  - apply surjective_pairing.
Defined.

(** ** A batch that removes what it installs
    The decoder accepts it and the switch applies it, but the result of an UPSERT is looked
    for among the connections of the final state: every attempt fails after the apply. *)
Definition undone_payload : string :=
  match encodeDeviceCommand (mkBatch [upsert "c1" 1 2 5; SimDeviceExamples.remove "c1" 6] default_options) with
  | Ok s => s | Throw _ => ""
  end.
Definition undone_message : StreamMessage :=
  mkStreamMessage "4-0" (mkEventEnvelope 1 "G:command" "req-4" 1700000000000000000 "sim"
    "connection-batch" "req-4" "APPLY_BATCH" 6 undone_payload).
Definition undone_run := process_command calm undone_message start.
Definition undone_again := process_command calm undone_message undone_run.2.

Lemma undone_command_is_never_done :
  is_ok (decodeDeviceCommand undone_payload) = true /\
  undone_run.1 = Throw (RuntimeError "successful device apply omitted connection result") /\
  undone_again.1 = undone_run.1 /\ device_ undone_run.2 <> dev0 /\
  exists_key (processedDeviceCommandKey "G:command") (device_db undone_again.2) = false.
Proof. split_and!; [by vm_compute..| |by vm_compute]. intros H. by vm_compute in H. Qed.

(** ** A fault command *)
Definition fault_payload : string :=
  match dump (json_object [("operation", json_string "INJECT");
                           ("fault_type", json_string "INPUT_PORT_DOWN");
                           ("port_id", json_uint 1)]) with Ok s => s | Throw _ => "" end.
Definition fault_message : StreamMessage :=
  mkStreamMessage "3-0" (mkEventEnvelope 1 "fault-1" "req-3" 1700000000000000000 "sim" "fault"
    "1" "INJECT" 0 fault_payload).
Definition fault_run := process_fault calm fault_message start.
Definition fault_again := process_fault calm fault_message fault_run.2.

Lemma fault_is_injected :
  fault_run.1 = Ok tt /\
  hgetall (faultResultKey "fault-1") (device_db fault_run.2) !! "success" = Some "true" /\
  device_ fault_run.2 <> dev0.
Proof. split_and!; [by vm_compute|by vm_compute|]. intros H. by vm_compute in H. Qed.

Lemma stored_fault_leaves_device_witness :
  device_ fault_again.2 = device_ fault_run.2 /\
  type_of (faultResultKey (event_id (event fault_message))) (device_db fault_again.2) = KHash.
Proof.
  apply (stored_fault_leaves_device fault_message fault_run.2 fault_again.2).
  - apply rtc_once. left. exists calm, fault_again.1. split; [apply syncd_calm_within|].
    apply surjective_pairing.
  - by vm_compute.
Defined.

(** SCAN finds the two keys of connection c1. *)
Definition replies (pattern : string) : list string :=
  if decide (pattern = connectionConfigPattern "sim") then [connectionConfigKey "sim" "c1"]
  else if decide (pattern = connectionDevicePattern "sim") then [connectionDeviceKey "sim" "c1"]
  else [].
Definition polling : SyncdOracle SimDevice :=
  mkSyncdOracle calm_stores (fun _ d => d) (fun n => 1000000 * Z.of_nat n)%Z (fun _ => Ok tt)
    (fun _ pattern => Ok (fun _ _ => (0%Z, replies pattern))) map_to_list.

(** c1 is desired, and the orchestrator has finished with it, but the device is empty. *)
Definition wanted_c1 : gmap string string :=
  {["id" := "c1"; "input_port" := "1"; "output_port" := "2"; "desired_version" := "5";
    "apply_status" := "ACTIVE"]}.
Definition polled_start : Syncd store SimDevice :=
  mkSyncd (mkWorld {[connectionConfigKey "sim" "c1" := VHash wanted_c1]} ∅
             {[connectionDeviceKey "sim" "c1" := VHash wanted_c1]} ∅ ∅ ∅ 0) dev0 "" 0.

Definition started := run_syncd 5000 polling Start polled_start.
Definition drifted := run_syncd 5000 polling PollDevice started.2.
Definition polled_again := run_syncd 5000 polling PollDevice drifted.2.
Definition repaired := run_syncd 5000 polling (ProcessOne "w") polled_again.2.
Definition converged_run := run_syncd 5000 polling PollDevice repaired.2.

(** The first poll publishes one reconciliation, the second none; once it is processed the
    device has the connection, and the next poll closes the control record. *)
Lemma poll_repairs_drift :
  (started.1, drifted.1, polled_again.1, repaired.1, converged_run.1)
    = (Ok true, Ok true, Ok true, Ok true, Ok true) /\
  length (xrange kDeviceCommands (device_db converged_run.2)) = 1 /\
  sorted_values (connections_ (device_ converged_run.2)) = [mkApplied "c1" 1 2 5] /\
  hgetall (syncdReconciliationKey "sim") (device_db converged_run.2) !! "status"
    = Some "CONVERGED".
Proof. by vm_compute. Qed.

(** ** SCAN *)
Lemma literal_before_star text rest p :
  literal text -> text +:+ rest = p +:+ "*" -> exists q, p = text +:+ q.
Proof.
  revert p. induction text as [|c text IH]; intros p Hl Heq; [by exists p|].
  apply Forall_cons in Hl as [Hc Hl]. destruct p as [|c' p].
  - exfalso. injection Heq as -> _. by vm_compute in Hc.
  - injection Heq as -> Heq. destruct (IH p Hl Heq) as [q ->]. by exists q.
Qed.

Lemma string_app_assoc a b c : (a +:+ b) +:+ c = a +:+ (b +:+ c).
Proof. induction a as [|x a IH]; [done|]. exact (f_equal (String x) IH). Qed.

Lemma polling_scans : scans_match polling.
Proof.
  intros n text rest scan k cursor key Hl [= <-] Hin. cbn [snd] in Hin. unfold replies in Hin.
  assert (forall p, text +:+ rest = p +:+ "*" -> key = p +:+ "c1" ->
    starts_with text key = true) as Hstart.
  { intros p Hp ->. destruct (literal_before_star _ _ _ Hl Hp) as [q ->]. unfold starts_with.
    apply bool_decide_eq_true. exists (q +:+ "c1"). apply strip_prefix_Some.
    apply string_app_assoc. }
  destruct (decide (text +:+ rest = connectionConfigPattern "sim")) as [Hp|_];
    [|destruct (decide (text +:+ rest = connectionDevicePattern "sim")) as [Hp|_];
      [|by apply elem_of_nil in Hin]];
    apply list_elem_of_singleton in Hin as ->.
  - by apply (Hstart "OCS_CONNECTION|sim|").
  - by apply (Hstart "OCS_CONNECTION_DEVICE|sim|").
Qed.

Lemma polling_within allowed : oracle_within allowed (store_oracle polling).
Proof. intros n i c Hc. by apply elem_of_nil in Hc. Qed.

Lemma polling_step allowed c s :
  syncd_step 5000 scans_match allowed s (run_syncd 5000 polling c s).2.
Proof.
  apply (SyncdStep _ _ _ polling c _ (run_syncd 5000 polling c s).1);
    [apply polling_scans|apply polling_within|apply surjective_pairing].
Qed.

(** ** The command is published once *)
Definition drift_command : string := "reconcile:sim:1700000000000000085:command".

Lemma drift_command_is_there :
  length (filter (fun e => is_own "RECONCILE" drift_command e.2)
            (xrange kDeviceCommands (device_db polled_again.2))) = 1.
Proof. by vm_compute. Qed.

Lemma own_commands_appended_once_witness :
  own_count "RECONCILE" drift_command (device_db polled_again.2)
  <= marks (syncdReconciliationCommandPublicationKey drift_command) (device_db polled_again.2).
Proof.
  apply (own_commands_appended_once 5000 "RECONCILE" drift_command _ polled_start polled_again.2).
  - apply ReconcileMarker.
  - eapply rtc_l; [apply (polling_step _ Start)|]. eapply rtc_l; [apply (polling_step _ PollDevice)|].
    apply rtc_once, (polling_step _ PollDevice).
  - by vm_compute.
  - by vm_compute.
Defined.

(** ** The ports *)
Lemma ports_polled_once_unless_full_witness :
  is_u16 4 /\
  (4 <> 65535 -> forall s,
     poll_direction (DB:=store) polling (S (Z.to_nat 4)) (info_ dev0) [] PortDirection.kInput 4 1 ∅ s
     = poll_each polling (info_ dev0) [] PortDirection.kInput (seqZ 1 4) ∅ s)%Z.
Proof.
  split; [unfold in_width; lia|].
  exact (proj1 (ports_polled_once_unless_full (DB:=store) polling (info_ dev0) []
    PortDirection.kInput 4 ltac:(unfold in_width; lia))).
Defined.

(** ** Waiting for the orchestrator *)
Definition applying_c1 : gmap string string := <["apply_status" := "APPLYING"]> wanted_c1.
Definition busy_start : Syncd store SimDevice :=
  mkSyncd (mkWorld {[connectionConfigKey "sim" "c1" := VHash wanted_c1]} ∅
             {[connectionDeviceKey "sim" "c1" := VHash applying_c1]} ∅ ∅ ∅ 0) dev0 "" 0.
Definition busy_run := reconcileDevice polling (info_ dev0) [] busy_start.

Lemma busy_run_pair : reconcileDevice polling (info_ dev0) [] busy_start = (busy_run.1, busy_run.2).
Proof. unfold busy_run. apply surjective_pairing. Qed.

Lemma reconcile_waits_for_orchestrator_witness :
  same_databases (stores busy_start) busy_run.2 \/
  exists desired (s1 : Syncd store SimDevice) keys (s2 s3 : Syncd store SimDevice),
    loadDesiredConnections polling (info_name (info_ dev0)) busy_start = (Ok desired, s1) /\
    scan_keys polling LogicalDb.kDevice (connectionDevicePattern (info_name (info_ dev0))) s2
      = (Ok keys, s3) /\
    let snapshots := (fun key => hgetall key (device_db_ (stores busy_start))) <$> keys in
    (NoDup ((.!! "id") <$> snapshots) -> settled_device (index_commands desired) snapshots).
Proof.
  exact (reconcile_waits_for_orchestrator polling (fun _ _ => eq_refl) (info_ dev0) [] busy_start
    busy_run.1 busy_run.2 busy_run_pair).
Defined.

(** ** A restarted device *)
Definition recovery_run := recover_generation polling (info_ dev0) [] polled_start.
Definition c1_command : ConnectionCommand := mkCommand ConnectionOperation.kUpsert "c1" 1 2 5.
Definition recovery_plan : ReconciliationPlan := plan_of [c1_command] ∅.

Lemma recovery_run_ok : recovery_run.1 = Ok tt.
Proof. by vm_compute. Qed.

Lemma recovery_run_pair :
  recover_generation polling (info_ dev0) [] polled_start = (Ok tt, recovery_run.2).
Proof. rewrite <-recovery_run_ok. unfold recovery_run. apply surjective_pairing. Qed.
#[local] Opaque recovery_run.

Lemma recovery_is_reconciliation_witness :
  let sent := desired <$> drifts recovery_plan in
  let before := xrange kDeviceCommands (device_db polled_start) in
  let after := xrange kDeviceCommands (device_db recovery_run.2) in
  (sent = [] -> after = before) /\
  (sent <> [] -> exists id ev, after = before ++ [(id, eventFields ev)] /\
     recovery_command (info_ dev0) sent ev).
Proof.
  apply (recovery_is_reconciliation polling (polling_within _) ltac:(done) (info_ dev0) []
    [c1_command] recovery_plan polled_start recovery_run.2).
  - by vm_compute.
  - by repeat constructor.
  - intros keys [w1 d1 n1 g1] s2 Hk. assert (keys = [connectionDeviceKey "sim" "c1"]) as -> by (vm_compute in Hk; injection Hk; intros; by subst).
    exists [c1_command]. split; [done|by vm_compute].
  - by vm_compute.
  - by vm_compute.
  - exact recovery_run_pair.
Defined.

(** ** The whole way *)

(** As [polling], with the clock as the 64-bit count it is. *)
Definition clocked : SyncdOracle SimDevice :=
  mkSyncdOracle (mkOracle (around calm_stores) (fun n => u64 (clock calm_stores n)) (hook calm_stores))
    (device_events polling) (steady_clock polling) (before_ack_hook polling) (scans polling)
    (bucket_order polling).
Definition repair_control : gmap string string :=
  new_control (info_ dev0) drift_command 5 "signature" "DESIRED_ACTUAL_DRIFT" 0.
Definition repair_run :=
  publish_reconciliation clocked (info_ dev0) recovery_plan repair_control drift_command started.2.

Lemma repair_run_ok : repair_run.1 = Ok tt.
Proof. by vm_compute. Qed.
Lemma repair_run_pair :
  publish_reconciliation clocked (info_ dev0) recovery_plan repair_control drift_command started.2
  = (Ok tt, repair_run.2).
Proof. rewrite <-repair_run_ok. unfold repair_run. apply surjective_pairing. Qed.

Lemma clocked_within allowed : oracle_within allowed (store_oracle clocked).
Proof. intros n i c Hc. by apply elem_of_nil in Hc. Qed.
Lemma clocked_u64 n : is_u64 (clock (store_oracle clocked) n).
Proof. apply wrap_in_width. lia. Qed.

Lemma c1_sendable : sendable c1_command.
Proof.
  split; [by vm_compute|]. split; [apply utf8_ascii, (bool_decide_unpack _); by vm_compute|done].
Qed.
Lemma c1_installable : installable [c1_command] dev0.
Proof.
  constructor; try (by repeat constructor); try done.
  - by apply NoDup_singleton.
  - intros k1 k2 a1 a2 H1 H2. unfold ReconcilerProps.target in H1, H2. simpl in H1, H2.
    apply lookup_insert_Some in H1 as [[<- <-]|[_ H1]]; [|done].
    by apply lookup_insert_Some in H2 as [[<- <-]|[_ H2]].
Qed.
Lemma started_unmarked : queued (info_ dev0) recovery_plan drift_command (device_db started.2).
Proof. split; [by vm_compute|]. intros H. by vm_compute in H. Qed.
Lemma started_device : device_ repair_run.2 = dev0.
Proof. by vm_compute. Qed.

Lemma clocked_asked (s : Syncd store SimDevice) : device_asked clocked s = device_ s.
Proof. done. Qed.
Lemma clocked_applied (s : Syncd store SimDevice) : device_applied clocked s = device_ s.
Proof. done. Qed.

(** The command of the empty device's repair is in the stream, and applying it installs c1. *)
Lemma published_reconciliation_repairs_witness :
  exists id e batch, (id, eventFields e) ∈ xrange kDeviceCommands (device_db repair_run.2) /\
    event_id e = drift_command /\
    exists r s2, apply_on_device clocked e batch repair_run.2 = (Ok (true, r), s2) /\
      connections_ (device_ s2) = ReconcilerProps.target [c1_command].
Proof.
  destruct (published_reconciliation_repairs clocked (info_ dev0) [c1_command] dev0 recovery_plan
    repair_control drift_command 5 started.2 repair_run.2)
    as (id & e & batch & Hin & _ & Hid & _ & _ & Happly).
  - exact dev0_wf.
  - by intros k c Hk.
  - by repeat constructor.
  - constructor; [apply c1_sendable|constructor].
  - apply utf8_ascii, (bool_decide_unpack _); by vm_compute.
  - by vm_compute.
  - done.
  - by vm_compute.
  - by vm_compute.
  - exact polling_scans.
  - apply clocked_within.
  - apply clocked_u64.
  - apply started_unmarked.
  - exact repair_run_pair.
  - pose proof (Happly clocked repair_run.2) as Ha. cbv zeta in Ha.
    rewrite clocked_applied, clocked_asked, started_device in Ha.
    destruct Ha as (_ & r & s2 & Hs2 & _ & Hc & _);
      [done|exact dev0_wf|done|exact c1_installable|by vm_compute|].
    exact (ex_intro _ id (ex_intro _ e (ex_intro _ batch
      (conj Hin (conj Hid (ex_intro _ r (ex_intro _ s2 (conj Hs2 Hc)))))))).
Defined.
