(* ===== verification/ProcessExamples.v ===== *)
(** * Concrete runs of the processes: ocs-orch, and ocs-syncd over the UDS link to the
    simulated switch, one after the other on the same reference store, whose consumer groups
    remember what was delivered. *)
From S2P Require Import Prelude Redis RedisRef RedisKeys RedisRepository RedisOnce Services CallLogic.
From S2P Require Import DeviceApi Errors Types SimDevice SimDeviceInv SimDeviceProps SimDeviceExamples.
From S2P Require Import Json JsonRef UdsJsonProps DeviceCommand UdsServer UdsBackend UdsLink.
From S2P Require Import Process OrchRules OrchResults OrchSteps OrchMain.
From S2P Require Import SyncdRules Syncd SyncdSteps SyncdMain.
From S2P Require Import SyncdExamples.
From stdpp Require Import options.
Import RedisRef.Groups.

(** Nothing is set in the environment, and no signal comes. *)
Definition process0 : Process RedisEndpoint := mkProcess (fun _ => None) (fun _ => true) (fun _ => Ok tt).
Definition ticking (n : nat) : Z := (1000000 * Z.of_nat n)%Z.

(** The desired batch is announced in CONFIG_DB. *)
Definition config_event : EventEnvelope :=
  mkEventEnvelope 1 "E" "req-1" 1700000000000000000 "sim" "connection-batch" "req-1"
    "APPLY_BATCH" 5 sample_payload.
Definition empty_db : server := mkRefServer ∅ ∅.
Definition with_stream (stream : string) (events : list EventEnvelope) : server :=
  mkRefServer {[stream := VStream (imap (fun i e => (to_string (Z.of_nat i) +:+ "-0", eventFields e))
                                  events)]} ∅.
Definition announced : World server :=
  mkWorld (with_stream kConfigEvents [config_event]) empty_db empty_db empty_db empty_db empty_db 0.

(** ocs-orch runs for one turn of its loop and publishes the command. *)
Definition orch_argv : list string := ["ocs-orch"; "unix:///run/redis.sock"].
Definition orch_run := OrchMain.main process0 ticking calm_stores orch_argv 1 announced.

(** ocs-syncd connects to the switch, and runs for one turn. *)
Definition syncd_argv : list string := ["ocs-syncd"; "unix:///run/redis.sock"; "/run/ocs.sock"].
Definition over_link : SyncdOracle (UdsDeviceBackend * Link) :=
  mkSyncdOracle calm_stores (fun _ d => d) ticking (fun _ => Ok tt)
    (fun _ _ => Ok (fun _ _ => (0%Z, []))) map_to_list.
Definition switch : Link := mkLink (mkServer dev0 false) false [].
Definition syncd_end : Type := World server * Link + Syncd server (UdsDeviceBackend * Link).
(** The heartbeat thread makes one round before the service is made. *)
Definition run_syncd_process (argv : list string) (fuel : nat) (w : World server)
    : status * syncd_end :=
  SyncdMain.main process0 over_link (fun _ => false) calm_stores argv 1 fuel w switch.
Definition syncd_run : status * syncd_end := run_syncd_process syncd_argv 1 orch_run.2.

Definition stores_left (final : syncd_end) : World server :=
  match final with inl (w, _) => w | inr s => stores s end.
Definition switch_left (final : syncd_end) : SimDevice :=
  link_device match final with inl (_, net) => net | inr s => (Syncd.device_ s).2 end.
Definition after_syncd : World server := stores_left syncd_run.2.
Definition switch_after : SimDevice := switch_left syncd_run.2.

(** A new ocs-orch runs for three turns and takes the results. *)
Definition orch_end := OrchMain.main process0 ticking calm_stores orch_argv 3 after_syncd.

Definition final_status (id : string) : option string :=
  hgetall (connectionAppKey "sim" id) (appl_db_ orch_end.2) !! "apply_status".

(** The three processes leave the switch and APPL_DB in agreement. *)
Lemma command_reaches_the_switch :
  (orch_run.1, syncd_run.1, orch_end.1) = (Ok StillRunning, StillRunning, Ok StillRunning) /\
  sorted_values (connections_ switch_after) = [mkApplied "c1" 1 2 5; mkApplied "c2" 3 4 5] /\
  (final_status "c1", final_status "c2") = (Some "ACTIVE", Some "ACTIVE").
Proof. by vm_compute. Qed.

(** ** What the processes do is steps of the services *)
Lemma calm_stores_within allowed : oracle_within allowed calm_stores.
Proof. intros n i c Hc. by apply elem_of_nil in Hc. Qed.

Lemma orch_run_pair :
  OrchMain.main process0 ticking calm_stores orch_argv 1 announced = (orch_run.1, orch_run.2).
Proof. unfold orch_run. apply surjective_pairing. Qed.

Lemma orch_process_takes_service_steps_witness :
  (exists s, orch_run.1 = Ok s) /\
  (orch_run.2 = announced /\
     orch_run.1 = Ok (Exited (if decide (length orch_argv = 2) then 1 else 2)) \/
   exists program target policy, orch_argv = [program; target] /\ settings process0 target policy /\
     (0 <= max_retries policy <= 100 /\
      0 <= base_backoff policy <= max_backoff policy /\ max_backoff policy <= 3600000)%Z /\
     rtc (orch_step (Orchestrator.mkOrchConfig 5000 policy) main_call (fun _ => False)) announced orch_run.2).
Proof.
  exact (orch_process_takes_service_steps process0 ticking calm_stores (fun _ => False) orch_argv 1
    announced orch_run.1 orch_run.2 (calm_stores_within _) orch_run_pair).
Defined.

Lemma link_scans : scans_match (main_oracle process0 over_link).
Proof. intros n text rest scan k cursor key _ [= <-] Hk. by apply elem_of_nil in Hk. Qed.
Lemma any_cmds (cs : list redis_cmd) : Forall (fun _ => True) cs.
Proof. by apply Forall_forall. Qed.
Lemma syncd_run_pair :
  SyncdMain.main process0 over_link (fun _ => false) calm_stores syncd_argv 1 1 orch_run.2 switch
  = (syncd_run.1, syncd_run.2).
Proof. unfold syncd_run, run_syncd_process. apply surjective_pairing. Qed.
Definition serves (final : syncd_end) : bool := match final with inl _ => false | inr _ => true end.
Lemma served final : serves final = true -> exists s', final = inr s'.
Proof. destruct final as [|s']; [discriminate|]. by exists s'. Qed.
Lemma syncd_run_serves : serves syncd_run.2 = true.
Proof. by vm_compute. Qed.

#[local] Opaque orch_run syncd_run.
Lemma syncd_process_takes_service_steps_witness :
  exists s' service min_idle, syncd_run.2 = inr s' /\ (0 <= min_idle <= 3600000)%Z /\
    rtc (others_step (fun _ => True)) orch_run.2 (stores service) /\
    (Syncd.device_ service).2 = switch /\
    rtc (syncd_step min_idle scans_match (fun _ => True)) service s'.
Proof.
  destruct (served _ syncd_run_serves) as [s' Hs].
  destruct (syncd_process_takes_service_steps process0 over_link calm_stores
    scans_match (fun _ => True) link_scans (calm_stores_within _) (calm_stores_within _)
    (fun _ => any_cmds _)) as [H _].
  destruct (H _ _ _ _ _ _ _ _ syncd_run_pair) as [_ Hfinal].
  rewrite Hs in Hfinal. destruct Hfinal as (service & min_idle & Hrest).
  exists s', service, min_idle. split; [exact Hs|exact Hrest].
Defined.

#[local] Transparent orch_run syncd_run.

(** A refused socket path: the process exits with 1, but its thread has reported it ONLINE. *)
Definition refused_run := run_syncd_process ["ocs-syncd"; "unix:///run/redis.sock"; ""] 1 announced.
Lemma refused_run_beats :
  refused_run.1 = Exited 1 /\
  hgetall (serviceStateKey "ocs-syncd") (state_db_ (stores_left refused_run.2)) !! "status"
  = Some "ONLINE".
Proof. by vm_compute. Qed.

(** ** A command that cannot be decoded, in front of one that can

    Its decoding error quotes a byte that is not UTF-8 (SyncdPayloads.v): the exception ends
    ocs-syncd, and whenever it is started again it claims the same command first. *)
Definition bad_command : EventEnvelope :=
  mkEventEnvelope 1 "B:command" "req-0" 1700000000000000000 "sim" "connection" "c0" "UPSERT" 1
    (String (ascii_of_N 255) "").
Definition poisoned : World server :=
  mkWorld empty_db empty_db (with_stream kDeviceCommands [bad_command; sample_command])
    empty_db empty_db empty_db 0.

Definition restart (w : World server) : status * World server :=
  let run := run_syncd_process syncd_argv 5 w in (run.1, stores_left run.2).
Definition once := restart poisoned.
Definition twice := restart once.2.
Definition thrice := restart twice.2.

Lemma bad_command_stops_every_start :
  (once.1, twice.1, thrice.1) = (Exited 1, Exited 1, Exited 1) /\
  (pendingCount kDeviceCommands SyncdRules.kConsumerGroup (device_db_ thrice.2)).1 = Ok 1%Z /\
  length (xrange kDeviceResults (device_db_ thrice.2)) = 0.
Proof. by vm_compute. Qed.
